(* ===== verification/_CoqProject ===== *)
-Q . S2P
Prelude.v
KMonad.v
Interleave.v
Kernel.v
FileOps.v
BoreMath.v
BoreCtx.v
BoreInherit.v
SampleWorld.v
BoreProbes.v
BoreSpec.v
BoreTheorems.v
BoreSteps.v
BoreConcurrent.v
BoreProbeSteps.v
BoreHeld.v
BoreConcurrentProbes.v
Hooks.v
BoreModule.v
Latency.v
LatencyModule.v
Sharing.v
Schedulers.v
KString.v
SampleStrings.v
ProcSwaps.v
Lmkd.v
RamPlus.v
RamPlusFlow.v
RamPlusProtocol.v
Dragonite.v
DragoniteProc.v
Decimal.v
UserFiles.v
DragoniteSteps.v
DragoniteConcurrent.v
DragoniteCounters.v
