(* ===== verification/Prelude.v ===== *)
(** * Verification of the AxionOS common device code

    The repository is the common device tree of AxionOS.  Its programs are
    three kernel modules and two userspace programs:

    - [bore_sched] (kernel/modules/bore_sched): the BORE scheduler extension.
      It keeps 32 bytes per task in the four reserved words of the scheduling
      entity, measures how long a task runs between two sleeps or yields, turns
      that burst time into a penalty on a logarithmic scale, smooths it, and
      shifts the effective priority of the task.  A forked task inherits an
      average penalty found by walking the process tree, and the averages are
      cached in the same reserved words.
    - [latency_sched] (kernel/modules/latency_sched): a latency-nice extension.
      It keeps an offset per task, computed from the static priority, which the
      wake-up and tick probes compare.
    - [ax_dragonite] (kernel/modules/ax_dragonite): a driver with proc files to
      set and reset the CPU affinity of the threads of a process, to boost its
      nice value and to pin the kswapd threads.
    - the RAM Plus setup service (config/ramplus/ax_ram_plus_setup.cpp), which
      allocates, formats and activates a swap file on /data, and
    - the lmkd hooks (config/ramplus/lmkd/ram_plus_lmkd_hooks.cpp), which tell
      the low memory killer how much of the free swap is that file.

    The scheduler modules attach probes to the vendor hooks of the kernel; they
    do not call each other, but they use the same reserved words.  The service
    and the hooks meet in /proc/swaps.

    ** The files

    Shared: [Prelude] (machine integers and their automation), [KMonad]
    (stateful code that can fault, and its total-correctness [wp]),
    [Interleave] (programs of atomic actions, pools of threads that interleave
    them, a rely-guarantee logic and its soundness), [Kernel] (tasks, scheduling
    entities, RCU, the typeclass [KabiView] with its laws, by which a module
    overlays a structure on the reserved words), [FileOps] (the tables of proc
    operations and the rows of sysctl tables), [Hooks] (attaching probes, sysctl
    tables and proc entries, with the kernel's answers as the class
    [ModuleEnv]), [KString] (buffers with bounds and uninitialised bytes; the
    kernel's string functions as the class [KString] with the laws
    [KStringLaws]), [ProcSwaps] (the lines of /proc/swaps as a relation, and how
    they are scanned), [Decimal] (numbers as printf prints them).  [SampleWorld] and [SampleStrings] are concrete
    instances for the witnesses.

    - [BoreMath]: the integer functions of bore_sched.h ([log2p1_u64_u32fp],
      [calc_burst_penalty], [binary_smooth]) and the reciprocal table.
    - [BoreCtx]: [struct bore_bc] and [struct bore_ctx] in their words.
    - [BoreInherit]: [update_burst_cache] and the three [inherit_from_*].
    - [BoreProbes]: [update_penalty], [effective_prio_bore] and the seven
      probes; [bore_call] and [run_call] compose them.
    - [BoreSpec]: the abstract burst machine, the invariant [tree_ok] carried
      through calls, the simulation.  [BoreTheorems]: the results.
    - [BoreSteps], [BoreProbeSteps]: the same probes access by access
      (a definition [f_steps] is the program of the function [f]).
      [BoreConcurrent]: what a CPU relies on, the inherit functions and the fork
      probe among others.  [BoreHeld]: the probes on tasks whose run queue lock
      the CPU holds.  [BoreConcurrentProbes]: the results for pools of CPUs.
    - [BoreModule]: [bore_sched_init] with its labels, [bore_sched_exit], the
      sysctl tables and the proc file.
    - [Latency], [LatencyModule]: latency_sched_main.c in the same two halves.
    - [Sharing], [Schedulers]: the two modules on one task, and in one kernel.
    - [Lmkd], [RamPlus], [RamPlusFlow]: the two RAM Plus programs, and both on
      one /proc/swaps.
    - [RamPlusProtocol]: the order and the arguments of the service's system
      calls as an automaton.
    - [Dragonite]: ax_dragonite_main.c.  [DragoniteProc]: ax_dragonite_proc.c.
    - [UserFiles]: the files of the three modules as user space sees them.
    - [DragoniteSteps], [DragoniteConcurrent], [DragoniteCounters]: the driver
      action by action, many callers at once, and the statistics they leave.

    Definitions have the names of the C functions; a loop or a labelled exit
    that has a definition of its own is named after what it does.  State is
    explicit: [world] (tasks, group entities, RCU depth) for the scheduler
    modules, [dstate] (tasks, masks, references, allocations, mutex, counters)
    for the driver, [module_state] for init and exit, [rp] (properties, swap,
    file, log of system calls) for the service.  Threads that run at once share
    [world], or [kernel_state] of the driver, and own a [cpu] or a [holding].

    ** What the theorems show

    - Refinement: [BoreTheorems.bore_refines_burst], the probes implement a
      machine of two numbers through any sequence of events.
      [RamPlusProtocol.main_keeps_protocol], the service's calls are accepted
      by an automaton that never lets the file change while it is in use and
      confines every call to the service's own paths, modes and properties.
    - Safety of whole runs: [BoreTheorems.bore_calls_safe] (any sequence of
      hook calls, with tunables that may change between them),
      [Schedulers.schedulers_safe] (any sequence of calls into both scheduler
      modules), [DragoniteProc.proc_writes_safe] (any sequence of writes),
      [RamPlus.main_correct] (any answers of the system calls).
    - Concurrency: [BoreConcurrentProbes.concurrent_probes_safe] and
      [concurrent_bursts_exact] (any number of CPUs in the probes of BORE: no
      fault, everything in range, bursts as if alone),
      [DragoniteConcurrent.concurrent_calls_safe] and [concurrent_calls_end]
      (any number of callers of the driver: no use of a freed task, nothing
      leaked, no deadlock), [DragoniteCounters.counters_exact] (no count is
      lost).  (That the programs of actions, run alone, are the sequential
      functions is a lemma of [BoreSteps] and [DragoniteSteps].)
    - Functional correctness on every branch: the walks of the process tree
      ([inherit_from_ancestor_hub_correct] with termination and the uniqueness
      of the hub, [inherit_from_parent_correct],
      [inherit_from_thread_group_correct], [sample_penalties_selects]; each says
      what is written: one cache of one task, and only when it had expired), the
      fork probe, the four operations of the driver, the formats of the affinity
      file, the allocation of the swap file (which leaves no hole when the
      blocks counted lie in the part of the file that is kept).
    - Equivalence of optimised code with plain arithmetic: the fixed-point
      logarithm, the branch-free smoothing and clamping, division by reciprocal
      multiplication, the in-place tokenizer of [nta_affinity_write], the two
      scanners of /proc/swaps.
    - Bounds and overflow: [calc_burst_penalty_bounded],
      [wakeup_latency_gran_correct], [burst_cache_window],
      [has_allocation_space_correct] (when room is claimed, the early return
      without the reserve included), [lmkd_adjust_free_swap_correct] (exactly
      when the hook overflows, and the estimate otherwise).
    - User space: [UserFiles.sysctl_writes_typed] and [proc_files_typed] (each
      row and file is typed as its variable and mode demand),
      [pid_file_roundtrip], [reports_faithful].
    - Loading: all probes or none, every thread initialised, and nothing left
      after unloading.
    - Divergences: [Sharing.shared_words_conflict] (with both scheduler modules
      loaded each corrupts the other's data),
      [RamPlus.swapoff_failure_reports_zero] and [RamPlus.holes_survive] (an old
      swap file with holes may be used as it is).

    ** Bounds and fuel

    Loops over lists are structural.  The two pointer-chasing loops of
    [inherit_from_ancestor_hub] have as fuel one more than the number of tasks:
    in a [tree_ok] world a rank decreases along every link, so a walk visits no
    task twice, and the theorems show that [OutOfFuel] is not reached.  Among
    other CPUs the fuel is one more than [N], the number of tasks there can be;
    ranks are below [N] at all times, so that again no walk exhausts it.
    Scanning /proc/swaps has one more than the length of the text (each entry
    consumes a character); [write_fuel] is the number of chunks plus two.  The
    wait for mkswap and the open of the swap file are repeated as long as
    signals interrupt them: [main_correct] holds for any fuel above the number
    of consecutive interruptions that [RamEnvLaws] allows.

    ** Assumptions

    - 64-bit, little-endian; integers are [Z] with explicit wrapping, and
      signed overflow in the userspace programs is a fault.  A shift count of 32
      or more in [binary_smooth] (undefined in C, reachable by the sysctl) has
      some value; the theorems ask for a smoothness below 32 instead.
    - Code outside the repository is a parameter: header constants
      ([KernelHeaders]; only MAX_RT_PRIO is fixed), the kernel's answers to
      registrations ([ModuleEnv], [ProcFs], [DragoniteEnv]), its string
      functions ([KString]) and sysctl handlers ([SysctlHandlers]), system calls
      and libbase ([RamEnv]).  The laws stated for them are documented
      behaviour, and each has an instance.
    - The kernel is strict: a read of a dead task, a walk outside RCU, a sleep
      inside it, a double put or free, an access outside a buffer or of an
      uninitialised byte is [Oops].
    - Concurrency: an access to one field is atomic and accesses are
      sequentially consistent.  Between any two of them the kernel may do
      anything that keeps the tasks a thread may use (those under its RCU
      section, those it holds a reference to, those whose run queue lock it
      holds, the current one), keeps the links well formed with a rank for every
      task, and keeps the signal structure of a group leader while a reader is
      in an RCU section.  The burst of a task changes only under its run queue
      lock; the caches change at any time.  A list of tasks is read as a
      snapshot.

    ** Not modelled

    Log messages; closing file descriptors in the service; weak memory and
    compiler reordering of plain accesses; names and comments of the modules
    (the MODULE macros); the makefiles, the property generator, init scripts, property
    files, overlays and sepolicy, which have no program logic of their own.

    ** Planned

    - Lists of tasks that change while they are walked, element by element,
      instead of snapshots.
    - The latency-nice probes next to those of BORE on several CPUs.
    - Loading and unloading while the hooks and files are in use. *)

From Stdlib Require Export ZArith Lia.
From stdpp Require Export base numbers option list gmap strings pretty.

#[global] Open Scope Z_scope.

(** ** Machine integers

    A C integer of width [w] is a [Z] kept in its range; [wrapu] and [wraps]
    are the conversions to the unsigned and to the (two's complement) signed
    type of that width. *)

Definition wrapu (w x : Z) : Z := x mod 2 ^ w.

Definition wraps (w x : Z) : Z := (x + 2 ^ (w - 1)) mod 2 ^ w - 2 ^ (w - 1).

Abbreviation u8 := (wrapu 8).
Abbreviation u16 := (wrapu 16).
Abbreviation u32 := (wrapu 32).
Abbreviation u64 := (wrapu 64).
Abbreviation s16 := (wraps 16).
Abbreviation s32 := (wraps 32).
Abbreviation s64 := (wraps 64).

Definition in_u (w x : Z) : Prop := 0 <= x < 2 ^ w.

Definition in_s (w x : Z) : Prop := - 2 ^ (w - 1) <= x < 2 ^ (w - 1).

(** C bit operators, in a scope of their own. *)
Declare Scope cint_scope.
Delimit Scope cint_scope with cint.
Infix "&." := Z.land (at level 40, left associativity) : cint_scope.
Infix "|." := Z.lor (at level 41, left associativity) : cint_scope.
Infix "<<." := Z.shiftl (at level 39, left associativity) : cint_scope.
Infix ">>." := Z.shiftr (at level 39, left associativity) : cint_scope.
Notation "~. x" := (Z.lnot x) (at level 35, right associativity) : cint_scope.
#[global] Open Scope cint_scope.

(** A C truth value converted to an integer. *)
Definition b2z (b : bool) : Z := if b then 1 else 0.

(** Replaces the powers of two of literal exponents by their values, turns
    [div] and [mod] into equations and calls [lia]. *)
Ltac pow2_norm :=
  repeat match goal with
  | |- context [2 ^ Zpos ?p] =>
      let v := eval vm_compute in (2 ^ Zpos p) in change (2 ^ Zpos p) with v
  | H : context [2 ^ Zpos ?p] |- _ =>
      let v := eval vm_compute in (2 ^ Zpos p) in
      change (2 ^ Zpos p) with v in H
  | |- context [Zpos ?a - 1] =>
      let v := eval vm_compute in (Zpos a - 1) in change (Zpos a - 1) with v
  | H : context [Zpos ?a - 1] |- _ =>
      let v := eval vm_compute in (Zpos a - 1) in change (Zpos a - 1) with v in H
  end.

Ltac clia :=
  unfold in_u, in_s, wrapu, wraps, b2z in *; pow2_norm;
  Z.to_euclidean_division_equations; lia.

Lemma wrapu_range w x : 0 <= w -> in_u w (wrapu w x).
Proof. intros Hw. apply Z.mod_pos_bound. lia. Qed.

Lemma wrapu_small w x : in_u w x -> wrapu w x = x.
Proof. apply Z.mod_small. Qed.

Lemma wraps_range w x : 1 <= w -> in_s w (wraps w x).
Proof.
  intros Hw. unfold in_s, wraps.
  pose proof (Z.mod_pos_bound (x + 2 ^ (w - 1)) (2 ^ w) ltac:(lia)).
  assert (2 ^ w = 2 * 2 ^ (w - 1)) by (rewrite <- Z.pow_succ_r by lia; f_equal; lia).
  lia.
Qed.

Lemma wraps_small w x : 1 <= w -> in_s w x -> wraps w x = x.
Proof.
  intros Hw Hx. unfold in_s, wraps in *.
  assert (2 ^ w = 2 * 2 ^ (w - 1)) by (rewrite <- Z.pow_succ_r by lia; f_equal; lia).
  rewrite Z.mod_small; lia.
Qed.

Lemma wraps_wrapu w x : 1 <= w -> wraps w (wrapu w x) = wraps w x.
Proof.
  intros Hw. unfold wraps, wrapu. now rewrite Z.add_mod_idemp_l by lia.
Qed.

Lemma wraps_add_l w x y : wraps w (wraps w x + y) = wraps w (x + y).
Proof.
  unfold wraps. f_equal.
  replace ((x + 2 ^ (w - 1)) mod 2 ^ w - 2 ^ (w - 1) + y + 2 ^ (w - 1))
    with ((x + 2 ^ (w - 1)) mod 2 ^ w + y) by lia.
  rewrite Zplus_mod_idemp_l. f_equal. lia.
Qed.

Lemma in_u_mono v w x : in_u v x -> v <= w -> in_u w x.
Proof.
  intros [H0 H1] Hvw. split; [done|].
  eapply Z.lt_le_trans; [exact H1|]. apply Z.pow_le_mono_r; lia.
Qed.

(** ** The sign mask

    [d >> 31] of a 32-bit [d] is [-1] or [0]; the sources use it to clamp
    without branches. *)

Lemma sign_shift d : in_s 32 d -> d >>. 31 = if d <? 0 then -1 else 0.
Proof.
  intros Hd. rewrite Z.shiftr_div_pow2 by lia.
  destruct (Z.ltb_spec d 0); clia.
Qed.

Lemma sign_mask_pos d : in_s 32 d -> d &. ~. (d >>. 31) = Z.max 0 d.
Proof.
  intros Hd. rewrite sign_shift by done. destruct (Z.ltb_spec d 0).
  - change (~. -1) with 0. rewrite Z.land_0_r. lia.
  - change (~. 0) with (-1). rewrite Z.land_m1_r. lia.
Qed.

Lemma sign_mask_neg d : in_s 32 d -> d &. (d >>. 31) = Z.min 0 d.
Proof.
  intros Hd. rewrite sign_shift by done. destruct (Z.ltb_spec d 0).
  - rewrite Z.land_m1_r. lia.
  - rewrite Z.land_0_r. lia.
Qed.

(** The all-ones mask of an unsigned type selects, zero discards. *)
Lemma land_ones_small w x : 0 <= w -> in_u w x -> x &. Z.ones w = x.
Proof. intros Hw Hx. rewrite Z.land_ones by done. by apply Z.mod_small. Qed.

(** A value shifted left leaves room for a smaller field. *)
Lemma lor_shiftl_add a fp m :
  0 <= fp → 0 <= m < 2 ^ fp → (a <<. fp) |. m = a * 2 ^ fp + m.
Proof.
  intros Hfp Hm.
  assert ((a <<. fp) &. m = 0) as Hdisj.
  { apply Z.bits_inj'. intros i Hi. rewrite Z.land_spec, Z.bits_0.
    destruct (Z.lt_ge_cases i fp) as [Hlt|Hge].
    - by rewrite Z.shiftl_spec_low.
    - rewrite <- (Z.mod_small m (2 ^ fp)) by done.
      rewrite Z.mod_pow2_bits_high by lia. by rewrite andb_false_r. }
  rewrite <- Z.lxor_lor, <- Z.add_nocarry_lxor by done.
  by rewrite Z.shiftl_mul_pow2.
Qed.

Create HintDb cint.
#[export] Hint Resolve wrapu_range wraps_range wrapu_small wraps_small : cint.
#[export] Hint Extern 1 (_ <= _) => lia : cint.
#[export] Hint Extern 3 (in_u _ _) => unfold in_u; lia : cint.
#[export] Hint Extern 3 (in_s _ _) => unfold in_s; lia : cint.

(** ** Arrays filled by a loop *)

(** [for (i = k; i < k + n; i++) a[i] = f(i)] *)
Lemma foldl_insert_lookup {A} (f : nat → A) n k (l : list A) i :
  foldl (λ a j, <[j := f j]> a) l (seq k n) !! i
  = if decide (k ≤ i < k + n ∧ i < length l)%nat then Some (f i) else l !! i.
Proof.
  revert k l. induction n as [|n IH]; intros k l; cbn.
  - case_decide; [lia|done].
  - rewrite IH, length_insert.
    destruct (decide (k = i)) as [->|Hne].
    + rewrite decide_False by lia. case_decide as Hd.
      * by rewrite list_lookup_insert_eq by lia.
      * rewrite list_insert_ge by lia. done.
    + rewrite list_lookup_insert_ne by done. do 2 case_decide; (done || lia).
Qed.

(** Whether an optional value is there. *)
Definition is_someb {A} (o : option A) : bool :=
  match o with Some _ => true | None => false end.

Lemma is_someb_true {A} (o : option A) : is_someb o = true → is_Some o.
Proof. destruct o; [by eauto|done]. Qed.
