(* ===== verification/KMonad.v ===== *)
(** * Stateful kernel code that can fault

    Kernel functions are state transformers over a state [S].  A run ends in
    [Done], in [Oops] (an invalid access: a dangling or NULL pointer, an index
    out of bounds, an operation outside the context it needs) or, for the two
    pointer-chasing loops of the sources, in [OutOfFuel].  [wp m Q s] is total
    correctness: [m] started in [s] ends in [Done] and satisfies [Q]. *)

From S2P Require Import Prelude.

Inductive outcome (A : Type) : Type :=
  | Done (a : A)
  | Oops
  | OutOfFuel.
Arguments Done {A} a.
Arguments Oops {A}.
Arguments OutOfFuel {A}.

Definition KM (S A : Type) : Type := S → outcome (A * S).

#[export] Instance km_ret S : MRet (KM S) := λ A a s, Done (a, s).

#[export] Instance km_bind S : MBind (KM S) := λ A B f m s,
  match m s with
  | Done (a, s') => f a s'
  | Oops => Oops
  | OutOfFuel => OutOfFuel
  end.

(** A failed lookup is an invalid access. *)
Definition deref {S A} (o : option A) : KM S A := λ s,
  match o with Some a => Done (a, s) | None => Oops end.

Definition oops {S A} : KM S A := λ _, Oops.

Definition assertk {S} (b : bool) : KM S unit := λ s,
  if b then Done (tt, s) else Oops.

Definition gets {S A} (f : S → A) : KM S A := λ s, Done (f s, s).

Definition modify {S} (f : S → S) : KM S unit := λ s, Done (tt, f s).

Definition out_of_fuel {S A} : KM S A := λ _, OutOfFuel.

Definition wp {S A} (m : KM S A) (Q : A → S → Prop) (s : S) : Prop :=
  match m s with Done (a, s') => Q a s' | _ => False end.

Section wp.
Context {S : Type}.
Implicit Types s : S.

Lemma wp_ret {A} (a : A) (Q : A → S → Prop) s : Q a s → wp (mret a) Q s.
Proof. done. Qed.

Lemma wp_bind {A B} (m : KM S A) (f : A → KM S B) Q s :
  wp m (λ a, wp (f a) Q) s → wp (m ≫= f) Q s.
Proof.
  unfold wp, mbind, km_bind. destruct (m s) as [[a s']| |]; done.
Qed.

Lemma wp_mono {A} (m : KM S A) (Q R : A → S → Prop) s :
  wp m Q s → (∀ a s', Q a s' → R a s') → wp m R s.
Proof. unfold wp. destruct (m s) as [[a s']| |]; auto. Qed.

Lemma wp_deref {A} (o : option A) a (Q : A → S → Prop) s :
  o = Some a → Q a s → wp (deref o) Q s.
Proof. by intros ->. Qed.

Lemma wp_assertk b (Q : unit → S → Prop) s :
  b = true → Q tt s → wp (assertk b) Q s.
Proof. by intros ->. Qed.

Lemma wp_gets {A} (f : S → A) (Q : A → S → Prop) s :
  Q (f s) s → wp (gets f) Q s.
Proof. done. Qed.

Lemma wp_modify (f : S → S) (Q : unit → S → Prop) s :
  Q tt (f s) → wp (modify f) Q s.
Proof. done. Qed.

(** A total run has a result. *)
Lemma wp_result {A} (m : KM S A) Q s :
  wp m Q s → ∃ a s', m s = Done (a, s') ∧ Q a s'.
Proof. unfold wp. destruct (m s) as [[a s']| |]; naive_solver. Qed.

Lemma wp_of_result {A} (m : KM S A) (Q : A → S → Prop) s a s' :
  m s = Done (a, s') → Q a s' → wp m Q s.
Proof. by unfold wp; intros ->. Qed.
End wp.

(** One step of a [wp] goal. *)
Ltac kstep :=
  lazymatch goal with
  | |- wp (mret _) _ _ => apply wp_ret
  | |- wp (_ ≫= _) _ _ => apply wp_bind
  | |- wp (gets _) _ _ => apply wp_gets
  | |- wp (modify _) _ _ => apply wp_modify
  | |- wp (deref _) _ _ => eapply wp_deref; [eassumption || reflexivity|]
  | |- wp (assertk _) _ _ => apply wp_assertk; [reflexivity || assumption|]
  end.
Ltac ksteps := repeat (kstep; cbn beta).

(** ** Equational runs

    The probes are deterministic; [m s = Done (a, s')] is the strongest
    statement about a run. *)

Lemma bind_done {S A B} (m : KM S A) (f : A → KM S B) s a s' :
  m s = Done (a, s') → (m ≫= f) s = f a s'.
Proof. unfold mbind, km_bind. by intros ->. Qed.

(** A sequence that ends normally did so step by step. *)
Lemma bind_done_inv {S A B} (m : KM S A) (f : A → KM S B) s b s' :
  (x ← m; f x) s = Done (b, s') → ∃ a s1, m s = Done (a, s1) ∧ f a s1 = Done (b, s').
Proof.
  unfold mbind, km_bind. destruct (m s) as [[a s1]| |] eqn:E; [|done..].
  intros Hf. by exists a, s1.
Qed.

Lemma ret_done_inv {S A} (a b : A) (s s' : S) :
  mret (M := KM S) a s = Done (b, s') → b = a ∧ s' = s.
Proof. unfold mret, km_ret. by intros [= <- <-]. Qed.

Lemma bind_assoc {S A B C} (m : KM S A) (f : A → KM S B) (g : B → KM S C) s :
  ((m ≫= f) ≫= g) s = (m ≫= (λ a, f a ≫= g)) s.
Proof. unfold mbind, km_bind. by destruct (m s) as [[a s']| |]. Qed.

Lemma bind_ret {S A B} (a : A) (f : A → KM S B) (s : S) :
  (mret a ≫= f) s = f a s.
Proof. done. Qed.

Lemma bind_gets {S A B} (g : S → A) (f : A → KM S B) (s : S) :
  (gets g ≫= f) s = f (g s) s.
Proof. done. Qed.

Lemma bind_modify {S B} (g : S → S) (f : unit → KM S B) (s : S) :
  (modify g ≫= f) s = f tt (g s).
Proof. done. Qed.

Lemma bind_deref {S A B} (o : option A) a (f : A → KM S B) (s : S) :
  o = Some a → (deref o ≫= f) s = f a s.
Proof. by intros ->. Qed.

(** Reassociates and runs the commands that cannot fail. *)
Ltac kred :=
  repeat first [ rewrite bind_assoc | rewrite bind_ret | rewrite bind_gets
               | rewrite bind_modify | progress cbv iota beta ].

(** Rewrites the first command of a run with a lemma or a hypothesis. *)
Tactic Notation "krun" uconstr(E) := kred; rewrite (bind_done _ _ _ _ _ E); kred.
