(* ===== verification/Interleave.v ===== *)
(** * Interleaved programs

    Kernel code that several CPUs run at once.  A program is a tree of atomic
    actions; [run] executes one alone, and [pool_step] lets any thread of a
    pool make its next action, or the rest of the kernel act in between.
    Threads are proved safe one by one, each against what the others may do
    to the shared state ([rely]), and a pool of safe threads has no faults, no
    deadlocks, and can always finish. *)

From stdpp Require Export relations.
From S2P Require Import Prelude KMonad.

(** ** Programs *)

(** An action [waits] when it takes the lock: it is not possible while another
    thread holds it. *)
Inductive prog (S : Type) (A : Type) : Type :=
  | PRet (a : A)
  | PAct {B : Type} (waits : bool) (m : KM S B) (k : B → prog S A).
Arguments PRet {S A} a.
Arguments PAct {S A B} waits m k.

Fixpoint prog_bind {S A B} (f : A → prog S B) (p : prog S A) : prog S B :=
  match p with
  | PRet a => f a
  | PAct waits m k => PAct waits m (λ b, prog_bind f (k b))
  end.

#[export] Instance prog_mret S : MRet (prog S) := λ A a, PRet a.
#[export] Instance prog_mbind S : MBind (prog S) := λ A B f p, prog_bind f p.

(** One atomic action. *)
Definition act {S A} (m : KM S A) : prog S A := PAct false m PRet.

(** Taking the lock. *)
Definition act_wait {S A} (m : KM S A) : prog S A := PAct true m PRet.

(** The program run alone. *)
Fixpoint run {S A} (p : prog S A) : KM S A :=
  match p with
  | PRet a => mret a
  | PAct _ m k => m ≫= λ b, run (k b)
  end.

(** [p] alone does what [m] does. *)
Definition implements_km {S A} (p : prog S A) (m : KM S A) : Prop := ∀ s, run p s = m s.

Lemma implements_ret {S A} (a : A) : implements_km (S:=S) (mret a) (mret a).
Proof. done. Qed.

Lemma implements_act {S A} (m : KM S A) : implements_km (act m) m.
Proof. intros s. unfold act, run, mbind, km_bind. by destruct (m s) as [[]| |]. Qed.

Lemma implements_wait {S A} (m : KM S A) : implements_km (act_wait m) m.
Proof. intros s. unfold act_wait, run, mbind, km_bind. by destruct (m s) as [[]| |]. Qed.

Lemma run_bind {S A B} (p : prog S A) (f : A → prog S B) s :
  run (p ≫= f) s = (run p ≫= λ a, run (f a)) s.
Proof.
  revert s. induction p as [a|C waits m k IH]; intros s; [done|].
  cbn [run mbind prog_mbind prog_bind]. rewrite bind_assoc.
  unfold mbind at 1 2, km_bind at 1 2. destruct (m s) as [[c s1]| |]; [|done..].
  apply IH.
Qed.

Lemma implements_bind {S A B} (p : prog S A) m (f : A → prog S B) g :
  implements_km p m → (∀ a, implements_km (f a) (g a)) →
  implements_km (p ≫= f) (m ≫= g).
Proof.
  intros Hp Hf s. rewrite run_bind. unfold mbind, km_bind. rewrite (Hp s).
  destruct (m s) as [[a s1]| |]; [apply Hf|done..].
Qed.

Create HintDb implements_db.
#[export] Hint Resolve implements_ret implements_act implements_wait : implements_db.

(** Compares a program with a function of the same shape. *)
Ltac implements_step :=
  first [ solve [eauto with implements_db]
        | apply implements_bind; [|intros ?]
        | case_match ].
Ltac implements_auto := repeat implements_step.

(** ** Pools of threads *)

(** What a thread sees of the shared state [Sh] with its own [L] (the depth of
    its RCU sections, what it holds), and how an action writes back to both.
    The lock of the shared state belongs to at most one thread. *)
Class Sharing (S Sh L : Type) := {
  view : nat → Sh → L → S;
  shared_of : nat → Sh → S → Sh;
  local_of : L → S → L;
  owner : Sh → option nat
}.

Section pool.
Context {S Sh L A : Type} `{Sharing S Sh L}.

Abbreviation thread := (L * prog S A)%type.
Abbreviation config := (Sh * list thread)%type.

(** [i] may make its next action. *)
Definition enabled (i : nat) (sh : Sh) (waits : bool) : Prop :=
  waits = true → owner sh = None ∨ owner sh = Some i.

Inductive thread_step : config → config → Prop :=
  | thread_step_act i sh ts l B waits (m : KM S B) k b s' :
      ts !! i = Some (l, PAct waits m k) → enabled i sh waits →
      m (view i sh l) = Done (b, s') →
      thread_step (sh, ts) (shared_of i sh s', <[i := (local_of l s', k b)]> ts).

(** The rest of the kernel knows what the threads hold. *)
Context (env : list L → Sh → Sh → Prop).

Inductive pool_step : config → config → Prop :=
  | pool_step_thread c c' : thread_step c c' → pool_step c c'
  | pool_step_env sh sh' ts : env (fst <$> ts) sh sh' → pool_step (sh, ts) (sh', ts).

(** The same as functions: thread [i] makes its next action; a schedule lists
    the threads that act. *)
Definition enabledb (i : nat) (sh : Sh) (waits : bool) : bool :=
  negb waits || bool_decide (owner sh = None) || bool_decide (owner sh = Some i).

Definition exec_step (i : nat) (c : config) : option config :=
  match snd c !! i with
  | Some (l, PAct waits m k) =>
      if enabledb i (fst c) waits then
        match m (view i (fst c) l) with
        | Done (b, s') => Some (shared_of i (fst c) s', <[i := (local_of l s', k b)]> (snd c))
        | _ => None
        end
      else None
  | _ => None
  end.

Fixpoint exec (schedule : list nat) (c : config) : option config :=
  match schedule with
  | [] => Some c
  | i :: schedule => c' ← exec_step i c; exec schedule c'
  end.

Lemma exec_step_sound i c c' : exec_step i c = Some c' → thread_step c c'.
Proof.
  destruct c as [sh ts]. unfold exec_step. cbn.
  destruct (ts !! i) as [[l [a|B waits m k]]|] eqn:Hi; try done.
  destruct (enabledb i sh waits) eqn:Hen; [|done].
  destruct (m (view i sh l)) as [[b s']| |] eqn:Hm; try done. intros [= <-].
  econstructor; [exact Hi| |exact Hm]. intros ->. unfold enabledb in Hen.
  apply orb_prop in Hen as [Hen|Hen]; [|right; by apply bool_decide_eq_true in Hen].
  left. by apply bool_decide_eq_true in Hen.
Qed.

Lemma exec_sound schedule c c' : exec schedule c = Some c' → rtc thread_step c c'.
Proof.
  revert c. induction schedule as [|i schedule IH]; intros c; cbn; [by intros [= <-]|].
  destruct (exec_step i c) as [c1|] eqn:E; [|done]. cbn. intros Hc.
  eapply rtc_l; [by apply exec_step_sound in E|by apply IH].
Qed.

Lemma exec_pool_sound schedule c c' : exec schedule c = Some c' → rtc pool_step c c'.
Proof.
  intros Hc. apply exec_sound in Hc. induction Hc; [done|].
  eapply rtc_l; [by constructor|done].
Qed.

(** A schedule that passes over threads that cannot act. *)
Fixpoint exec_able (schedule : list nat) (c : config) : config :=
  match schedule with
  | [] => c
  | i :: schedule => exec_able schedule (default c (exec_step i c))
  end.

Lemma exec_able_sound schedule c : rtc pool_step c (exec_able schedule c).
Proof.
  revert c. induction schedule as [|i schedule IH]; intros c; cbn; [done|].
  destruct (exec_step i c) as [c1|] eqn:E; [|apply IH].
  eapply rtc_l; [constructor; by eapply exec_step_sound|apply IH].
Qed.

(** No thread that may act faults. *)
Definition no_fault (c : config) : Prop :=
  ∀ i l B waits (m : KM S B) k,
    snd c !! i = Some (l, PAct waits m k) → enabled i (fst c) waits →
    ∃ b s', m (view i (fst c) l) = Done (b, s').

Definition finished (c : config) : Prop :=
  Forall (λ t : thread, ∃ a, snd t = PRet a) (snd c).

Definition finishedb (c : config) : bool :=
  forallb (λ t : thread, match snd t with PRet _ => true | PAct _ _ _ => false end) (snd c).

Lemma finishedb_sound c : finishedb c = true → finished c.
Proof.
  unfold finishedb, finished. rewrite forallb_forall, Forall_forall.
  intros Hall [l p] Hin. specialize (Hall _ (proj1 (list_elem_of_In _ _) Hin)).
  destruct p as [a|]; [by exists a|discriminate].
Qed.
End pool.

(** ** Threads take finitely many steps

    Programs are finite trees: however the threads are scheduled, and whatever
    the rest of the kernel does in between, they act finitely often. *)

Section termination.
Context {S Sh L A : Type} `{Sharing S Sh L}.

Abbreviation thread := (L * prog S A)%type.

Definition child (p' p : prog S A) : Prop :=
  match p with PRet _ => False | PAct _ _ k => ∃ b, p' = k b end.

Lemma child_wf : well_founded child.
Proof.
  intros p. induction p as [a|B waits m k IH]; constructor; [done|].
  intros p' (b & ->). apply IH.
Qed.

(** One thread makes a step. *)
Inductive child_list : list thread → list thread → Prop :=
  | child_head l l' p p' ts : child p' p → child_list ((l', p') :: ts) ((l, p) :: ts)
  | child_tail x ts ts' : child_list ts' ts → child_list (x :: ts') (x :: ts).

Lemma child_list_acc_cons p : Acc child p → ∀ l ts, Acc child_list ts → Acc child_list ((l, p) :: ts).
Proof.
  induction 1 as [p _ IHp]. intros l ts Hts. revert l.
  induction Hts as [ts Hts IHts]. intros l. constructor. intros ts' Hc.
  inversion Hc; subst; [|by apply IHts].
  apply IHp; [done|by constructor].
Qed.

Lemma child_list_wf : well_founded child_list.
Proof.
  intros ts. induction ts as [|[l p] ts IH].
  { constructor. intros ts' Hc. inversion Hc. }
  apply child_list_acc_cons; [apply child_wf|done].
Qed.

Lemma child_list_insert i l p l' p' (ts : list thread) :
  ts !! i = Some (l, p) → child p' p → child_list (<[i := (l', p')]> ts) ts.
Proof.
  revert i. induction ts as [|x ts IH]; intros [|i] Hi Hc; cbn in Hi |- *; try discriminate.
  - injection Hi as ->. by apply child_head.
  - apply child_tail. by apply IH.
Qed.

Lemma thread_step_child c c' : thread_step c c' → child_list (snd c') (snd c).
Proof.
  intros [i sh ts l B waits m k b s' Hi Hen Hm]. cbn.
  eapply child_list_insert; [exact Hi|by exists b].
Qed.

(** An action of a thread, whatever others did to the shared state before it. *)
Definition acts_later (c' c : Sh * list thread) : Prop :=
  ∃ sh, thread_step (sh, snd c) c'.

Lemma acts_later_wf : well_founded acts_later.
Proof.
  apply (wf_projected child_list snd); [|apply child_list_wf].
  intros c' c [sh Hs]. exact (thread_step_child _ _ Hs).
Qed.

(** The threads act only finitely often from here, and none is left waiting:
    unless all have ended, one of them can act. *)
Definition ends (c : Sh * list thread) : Prop :=
  Acc acts_later c ∧ (finished c ∨ ∃ c', thread_step c c').
End termination.

(** ** Threads that are safe whatever the others do *)

Section rely_guarantee.
Context {S Sh L : Type} `{Sharing S Sh L}.

(** [rely l sh sh']: what a thread that holds [l] accepts from the others.  It
    may know whether it owns the lock, hence the index. *)
Context (rely : nat → L → Sh → Sh → Prop).

(** What the action of thread [i] may do: every other thread accepts it, and
    the lock goes to nobody else. *)
Definition guarantee (i : nat) (sh sh' : Sh) : Prop :=
  (∀ j l, j ≠ i → rely j l sh sh') ∧
  (owner sh' = owner sh ∨ owner sh' = None ∨ owner sh' = Some i).

(** Every action of [p] runs, in any state the others may have led to, and the
    result satisfies [Q]. *)
Fixpoint safe {A} (i : nat) (l : L) (sh : Sh) (p : prog S A)
    (Q : A → L → Sh → Prop) : Prop :=
  match p with
  | PRet a => ∀ sh', rely i l sh sh' → Q a l sh'
  | PAct waits m k => ∀ sh', rely i l sh sh' →
      (waits = true → owner sh' ≠ Some i) ∧
      (enabled i sh' waits →
       wp m (λ b s', guarantee i sh' (shared_of i sh' s') ∧
                     safe i (local_of l s') (shared_of i sh' s') (k b) Q)
         (view i sh' l))
  end.

Context (rely_refl : ∀ i l sh, rely i l sh sh)
        (rely_trans : ∀ i l sh1 sh2 sh3, rely i l sh1 sh2 → rely i l sh2 sh3 → rely i l sh1 sh3).

Lemma safe_rely {A} i l sh sh' (p : prog S A) Q :
  rely i l sh sh' → safe i l sh p Q → safe i l sh' p Q.
Proof. destruct p; cbn; eauto. Qed.

Lemma safe_mono {A} i l sh (p : prog S A) (Q R : A → L → Sh → Prop) :
  safe i l sh p Q → (∀ a l sh, Q a l sh → R a l sh) → safe i l sh p R.
Proof.
  revert l sh. induction p as [a|B waits m k IH]; intros l sh Hp Hqr; cbn in *; [eauto|].
  intros sh' Hsh. destruct (Hp sh' Hsh) as [Hw Hact]. split; [done|]. intros Hen.
  eapply wp_mono; [by apply Hact|]. cbn. intros b s' [Hg Hs]. eauto.
Qed.

Lemma safe_ret {A} i l sh (a : A) (Q : A → L → Sh → Prop) :
  (∀ sh', rely i l sh sh' → Q a l sh') → safe i l sh (mret a) Q.
Proof. done. Qed.

Lemma safe_bind {A B} i l sh (p : prog S A) (f : A → prog S B) Q :
  safe i l sh p (λ a l' sh', safe i l' sh' (f a) Q) → safe i l sh (p ≫= f) Q.
Proof.
  revert l sh. induction p as [a|C waits m k IH]; intros l sh Hp.
  - apply (Hp sh). apply rely_refl.
  - cbn in *. intros sh' Hsh. destruct (Hp sh' Hsh) as [Hw Hact]. split; [done|].
    intros Hen. eapply wp_mono; [by apply Hact|]. cbn. intros b s' [Hg Hs].
    split; [done|]. by apply IH.
Qed.

(** An action followed by the rest of the program. *)
Lemma safe_act {A B} i l sh (m : KM S B) (f : B → prog S A) Q :
  (∀ sh', rely i l sh sh' →
     wp m (λ b s', guarantee i sh' (shared_of i sh' s') ∧
                   safe i (local_of l s') (shared_of i sh' s') (f b) Q)
       (view i sh' l)) →
  safe i l sh (act m ≫= f) Q.
Proof. intros Hm sh' Hsh. split; [done|]. intros _. by apply Hm. Qed.

Lemma safe_act_wait {A B} i l sh (m : KM S B) (f : B → prog S A) Q :
  (∀ sh', rely i l sh sh' → owner sh' ≠ Some i ∧
     (owner sh' = None →
      wp m (λ b s', guarantee i sh' (shared_of i sh' s') ∧
                    safe i (local_of l s') (shared_of i sh' s') (f b) Q)
        (view i sh' l))) →
  safe i l sh (act_wait m ≫= f) Q.
Proof.
  intros Hm sh' Hsh. destruct (Hm sh' Hsh) as [Hown Hact]. split; [done|].
  intros Hen. apply Hact. by destruct (Hen eq_refl).
Qed.

(** ** Pools of safe threads *)

Section soundness.
Context {A : Type} (env : list L → Sh → Sh → Prop)
  (env_rely : ∀ ls sh sh' i l, env ls sh sh' → ls !! i = Some l → rely i l sh sh')
  (env_owner : ∀ ls sh sh', env ls sh sh' → owner sh' = owner sh)
  (inv : Sh → Prop)
  (env_inv : ∀ ls sh sh', env ls sh sh' → inv sh → inv sh')
  (guarantee_inv : ∀ i sh sh', guarantee i sh sh' → inv sh → inv sh')
  (Q : nat → A → L → Sh → Prop)
  (Q_released : ∀ i a l sh, Q i a l sh → owner sh ≠ Some i).

Abbreviation config := (Sh * list (L * prog S A))%type.

Definition pool_ok (c : config) : Prop :=
  inv (fst c) ∧
  (∀ i l p, snd c !! i = Some (l, p) → safe i l (fst c) p (Q i)) ∧
  (∀ i, owner (fst c) = Some i → (i < length (snd c))%nat).

Lemma thread_step_ok c c' : thread_step c c' → pool_ok c → pool_ok c'.
Proof.
  intros [i sh ts l B waits m k b s' Hi Hen Hm] (Hinv & Hsafe & Hown). cbn in *.
  pose proof (Hsafe i l _ Hi sh (rely_refl i l sh)) as [_ Hact].
  specialize (Hact Hen). unfold wp in Hact. rewrite Hm in Hact.
  destruct Hact as [Hguar Hk]. pose proof Hguar as [Hg Ho]. split_and!; cbn.
  - by eapply guarantee_inv.
  - intros j lj p Hj. destruct (decide (j = i)) as [->|Hne].
    + rewrite list_lookup_insert_eq in Hj by (by eapply lookup_lt_Some). by simplify_eq.
    + rewrite list_lookup_insert_ne in Hj by done.
      eapply safe_rely; [by apply Hg|by apply Hsafe].
  - intros j Hj. rewrite length_insert.
    destruct Ho as [Ho|[Ho|Ho]]; rewrite Ho in Hj; [by apply Hown|done|].
    simplify_eq. by eapply lookup_lt_Some.
Qed.

Lemma pool_step_ok c c' : pool_step env c c' → pool_ok c → pool_ok c'.
Proof.
  intros [c1 c2 Hs|sh sh' ts He] Hok; [by eapply thread_step_ok|].
  destruct Hok as (Hinv & Hsafe & Hown). split_and!; cbn in *.
  - by eapply env_inv.
  - intros i l p Hi. eapply safe_rely; [|by apply Hsafe].
    eapply env_rely; [exact He|]. by rewrite list_lookup_fmap, Hi.
  - intros i. rewrite (env_owner _ _ _ He). apply Hown.
Qed.

Lemma pool_run_ok c c' : rtc (pool_step env) c c' → pool_ok c → pool_ok c'.
Proof. induction 1; eauto using pool_step_ok. Qed.

Lemma pool_ok_no_fault c : pool_ok c → no_fault c.
Proof.
  intros (_ & Hsafe & _) i l B waits m k Hi Hen.
  destruct (Hsafe i l _ Hi _ (rely_refl _ _ _)) as [_ Hact].
  apply wp_result in Hact as (b & s' & E & _); [eauto|done].
Qed.

Lemma pool_ok_result c i l a : pool_ok c → snd c !! i = Some (l, PRet a) → Q i a l (fst c).
Proof. intros (_ & Hsafe & _) Hi. exact (Hsafe i l _ Hi _ (rely_refl _ _ _)). Qed.

(** A thread that nobody keeps from the lock can be run to its end. *)
Lemma complete_thread p : ∀ i l sh (ts : list (L * prog S A)),
  pool_ok (sh, ts) → ts !! i = Some (l, p) → owner sh = None ∨ owner sh = Some i →
  ∃ sh' ts', rtc thread_step (sh, ts) (sh', ts') ∧ pool_ok (sh', ts') ∧
    owner sh' = None ∧ length ts' = length ts ∧
    (∃ l' a, ts' !! i = Some (l', PRet a)) ∧ ∀ j, j ≠ i → ts' !! j = ts !! j.
Proof.
  induction p as [a|B waits m k IH]; intros i l sh ts Hok Hi Hown.
  - exists sh, ts. split_and!; [done|done| |done|eauto|done].
    pose proof (Q_released _ _ _ _ (pool_ok_result _ _ _ _ Hok Hi)). by destruct Hown.
  - pose proof Hok as (_ & Hsafe & _).
    destruct (Hsafe i l _ Hi sh (rely_refl _ _ _)) as [_ Hact].
    apply wp_result in Hact as (b & s' & Hm & [_ Ho] & _); [|by intros _].
    assert (thread_step (sh, ts) (shared_of i sh s', <[i := (local_of l s', k b)]> ts)) as Hs
      by (econstructor; [exact Hi|by intros _|exact Hm]).
    pose proof (thread_step_ok _ _ Hs Hok) as Hok'.
    destruct (IH b i (local_of l s') _ _ Hok') as (sh' & ts' & Hr & Hok2 & Hn & Hl & Hfin & Hoth).
    { apply list_lookup_insert_eq. by eapply lookup_lt_Some. }
    { cbn. destruct Ho as [->|[->| ->]]; auto. }
    exists sh', ts'. split_and!; [by eapply rtc_l|done|done|by rewrite Hl, length_insert|done|].
    intros j Hj. by rewrite Hoth, list_lookup_insert_ne.
Qed.

(** One after the other, the threads from the [n]-th on. *)
Lemma complete_from n : ∀ sh (ts : list (L * prog S A)),
  pool_ok (sh, ts) → owner sh = None → (n <= length ts)%nat →
  (∀ j, (j < length ts - n)%nat → ∃ l a, ts !! j = Some (l, PRet a)) →
  ∃ c', rtc thread_step (sh, ts) c' ∧ pool_ok c' ∧ finished c'.
Proof.
  induction n as [|n IH]; intros sh ts Hok Hown Hn Hdone.
  - exists (sh, ts). split_and!; [done|done|]. apply Forall_lookup. intros j [l p] Hj.
    pose proof (lookup_lt_Some _ _ _ Hj) as Hlt. cbn in Hj, Hlt.
    destruct (Hdone j) as (l' & a & E); [lia|]. rewrite Hj in E. simplify_eq. cbn. eauto.
  - set (i := (length ts - Datatypes.S n)%nat).
    destruct (lookup_lt_is_Some_2 ts i) as [[l p] Hi]; [lia|].
    destruct (complete_thread p i l sh ts Hok Hi ltac:(by left))
      as (sh' & ts' & Hr & Hok' & Hown' & Hl & Hfin & Hoth).
    destruct (IH sh' ts' Hok' Hown') as (c' & Hr' & ? & ?); [lia| |].
    + intros j Hj. destruct (decide (j = i)) as [->|Hne]; [done|].
      rewrite Hoth by done. apply Hdone. lia.
    + exists c'. split_and!; [by etrans|done|done].
Qed.

(** A pool of safe threads can always run to its end. *)
Lemma pool_ok_completes c : pool_ok c → ∃ c', rtc thread_step c c' ∧ pool_ok c' ∧ finished c'.
Proof.
  destruct c as [sh ts]. intros Hok.
  destruct (owner sh) as [i|] eqn:Hown.
  - pose proof Hok as (_ & _ & Hlt). destruct (lookup_lt_is_Some_2 ts i) as [[l p] Hi]; [by apply Hlt|].
    destruct (complete_thread p i l sh ts Hok Hi ltac:(by right))
      as (sh' & ts' & Hr & Hok' & Hown' & _).
    destruct (complete_from (length ts') sh' ts' Hok' Hown') as (c' & Hr' & ? & ?); [lia|lia|].
    exists c'. split_and!; [by etrans|done|done].
  - apply (complete_from (length ts)); [done|done|lia|lia].
Qed.

Lemma pool_ok_ends c : pool_ok c → ends c.
Proof.
  intros Hok. split; [apply acts_later_wf|].
  destruct (pool_ok_completes c Hok) as (c'' & Hr & _ & Hfin).
  destruct Hr as [|c1 c2 c3 Hs _]; [by left|right; by exists c2].
Qed.

(** What a pool of safe threads does, from any state it reaches. *)
Lemma pool_correct c c' :
  pool_ok c → rtc (pool_step env) c c' →
  inv (fst c') ∧ no_fault c' ∧
  (∀ i l a, snd c' !! i = Some (l, PRet a) → Q i a l (fst c')) ∧
  (∀ i, owner (fst c') = Some i → (i < length (snd c'))%nat) ∧
  ends c' ∧ ∃ c'', rtc thread_step c' c'' ∧ finished c''.
Proof.
  intros Hok Hr. pose proof (pool_run_ok _ _ Hr Hok) as Hok'. split_and!.
  - apply Hok'.
  - by apply pool_ok_no_fault.
  - intros. by eapply pool_ok_result.
  - apply Hok'.
  - by apply pool_ok_ends.
  - destruct (pool_ok_completes _ Hok') as (c'' & ? & _ & ?). by exists c''.
Qed.
End soundness.
End rely_guarantee.
