(* ===== verification/Kernel.v ===== *)
(** * The kernel data the modules work on

    Tasks, their scheduling entities with the vendor-reserved words, and the
    links between tasks that the modules walk.  Constants of kernel headers
    that are not part of the repository are the fields of [KernelHeaders]. *)

From S2P Require Import Prelude KMonad.

(** The address of a live [struct task_struct]; a nullable pointer is an
    [option]. *)
Abbreviation tid := positive.
Abbreviation task_ptr := (option tid).

(** [android_kabi_reserved1] to [4] of [struct sched_entity]: four contiguous
    64-bit words. *)
Record kabi := Kabi { kw1 : Z; kw2 : Z; kw3 : Z; kw4 : Z }.

Definition kabi_zero : kabi := Kabi 0 0 0 0.

Definition kabi_ok (k : kabi) : Prop :=
  in_u 64 (kw1 k) ∧ in_u 64 (kw2 k) ∧ in_u 64 (kw3 k) ∧ in_u 64 (kw4 k).

Record sched_entity := SchedEntity {
  se_kabi : kabi;
  se_my_q : bool          (* [my_q] is not NULL: a group entity *)
}.

Record task := Task {
  t_policy : Z;
  t_flags : Z;
  t_static_prio : Z;
  t_se : sched_entity;
  t_real_parent : task_ptr;
  t_group_leader : task_ptr;
  t_children : list tid;          (* [children]/[sibling] list, in order *)
  t_signal : option (list tid);   (* [signal]: NULL, or its thread list *)
  t_comm : string
}.

(** A pointer to a scheduling entity: embedded in a task ([&p->se]) or that
    of a task group. *)
Inductive se_ref :=
  | SeTask (t : tid)
  | SeGroup (g : positive).

#[export] Instance se_ref_eq_dec : EqDecision se_ref.
Proof. solve_decision. Defined.

Record world := World {
  w_tasks : gmap tid task;
  w_groups : gmap positive sched_entity;
  w_rcu : nat                      (* RCU read-side nesting depth *)
}.

Definition with_tasks (m : gmap tid task) (w : world) : world :=
  World m (w_groups w) (w_rcu w).

Definition set_kabi (k : kabi) (se : sched_entity) : sched_entity :=
  SchedEntity k (se_my_q se).

Definition task_set_kabi (k : kabi) (t : task) : task :=
  Task (t_policy t) (t_flags t) (t_static_prio t) (set_kabi k (t_se t))
    (t_real_parent t) (t_group_leader t) (t_children t) (t_signal t) (t_comm t).

Class KernelHeaders := {
  SCHED_NORMAL : Z;
  SCHED_BATCH : Z;
  SCHED_IDLE : Z;
  PF_IDLE : Z;
  PF_EXITING : Z;
  PF_KTHREAD : Z;
  CLONE_PARENT : Z;
  MAX_RT_PRIO : Z;
  CONFIG_FAIR_GROUP_SCHED : bool;
  MAX_RT_PRIO_val : MAX_RT_PRIO = 100
}.

(** The values of the Linux headers, used by the concrete examples. *)
Definition linux_headers : KernelHeaders := {|
  SCHED_NORMAL := 0; SCHED_BATCH := 3; SCHED_IDLE := 5;
  PF_IDLE := 2; PF_EXITING := 4; PF_KTHREAD := 2097152;
  CLONE_PARENT := 32768; MAX_RT_PRIO := 100; CONFIG_FAIR_GROUP_SCHED := true; MAX_RT_PRIO_val := eq_refl
|}.

(** ** Accesses *)

Definition read_task (t : tid) : KM world task :=
  w ← gets w_tasks; deref (w !! t).

Definition read_kabi (r : se_ref) : KM world kabi :=
  match r with
  | SeTask t => p ← read_task t; mret (se_kabi (t_se p))
  | SeGroup g => m ← gets w_groups; se ← deref (m !! g); mret (se_kabi se)
  end.

Definition write_kabi (r : se_ref) (k : kabi) : KM world unit :=
  match r with
  | SeTask t =>
      p ← read_task t;
      modify (λ w, with_tasks (<[t := task_set_kabi k p]> (w_tasks w)) w)
  | SeGroup g =>
      m ← gets w_groups; se ← deref (m !! g);
      modify (λ w, World (w_tasks w) (<[g := set_kabi k se]> (w_groups w)) (w_rcu w))
  end.

Definition rcu_read_lock : KM world unit :=
  modify (λ w, World (w_tasks w) (w_groups w) (S (w_rcu w))).

Definition rcu_read_unlock : KM world unit :=
  d ← gets w_rcu;
  match d with
  | O => oops
  | S d' => modify (λ w, World (w_tasks w) (w_groups w) d')
  end.

(** A list walk or an [rcu_dereference] is only valid inside a read-side
    critical section. *)
Definition rcu_access : KM world unit :=
  d ← gets w_rcu; assertk (0 <? Z.of_nat d).

(** ** Views of the reserved words

    A module overlays its own structure on the reserved words.  [kv_load] is
    the read through the cast pointer, [kv_store] the write of the whole
    structure; the laws say that the overlay is a well-behaved part of the
    memory, and [kv_ok] that the fields are in the range of their types. *)
Class KabiView (A : Type) := {
  kv_ok : A → Prop;
  kv_load : kabi → A;
  kv_store : A → kabi → kabi
}.

Class KabiViewLaws (A : Type) `{KabiView A} := {
  kv_load_ok k : kabi_ok k → kv_ok (kv_load k);
  kv_store_ok a k : kv_ok a → kabi_ok k → kabi_ok (kv_store a k);
  kv_load_store a k : kv_ok a → kv_load (kv_store a k) = a;
  kv_store_load k : kabi_ok k → kv_store (kv_load k) k = k;
  kv_store_store a b k : kv_ok a → kv_ok b →
    kv_store b (kv_store a k) = kv_store b k
}.

Section view.
Context {A : Type} `{KabiView A}.

Definition load_view (r : se_ref) : KM world A :=
  k ← read_kabi r; mret (kv_load k).

Definition store_view (r : se_ref) (a : A) : KM world unit :=
  k ← read_kabi r; write_kabi r (kv_store a k).
End view.

(** ** Facts about accesses *)

Lemma read_task_run (w : world) t p :
  w_tasks w !! t = Some p → read_task t w = Done (p, w).
Proof.
  intros Hp. unfold read_task, mbind, km_bind, gets, deref. cbn. by rewrite Hp.
Qed.

Lemma rcu_access_run w : (0 < w_rcu w)%nat → rcu_access w = Done (tt, w).
Proof.
  intros Hd. unfold rcu_access, mbind, km_bind, gets, assertk. cbn.
  destruct (Z.ltb_spec 0 (Z.of_nat (w_rcu w))); [done|lia].
Qed.

(** The world with the reserved words of a task overwritten through a view. *)
Definition put_view `{KabiView A} (t : tid) (a : A) (w : world) : world :=
  match w_tasks w !! t with
  | Some p =>
      with_tasks (<[t := task_set_kabi (kv_store a (se_kabi (t_se p))) p]> (w_tasks w)) w
  | None => w
  end.

(** What a module sees of a task through its view. *)
Definition view_of `{KabiView A} (p : task) : A := kv_load (se_kabi (t_se p)).

Lemma load_view_run `{KabiView A} w t p :
  w_tasks w !! t = Some p → load_view (SeTask t) w = Done (view_of (A:=A) p, w).
Proof.
  intros Hp. unfold load_view, read_kabi. 
  by krun (read_task_run w t p Hp).
Qed.

Lemma store_view_run `{KabiView A} w t p (a : A) :
  w_tasks w !! t = Some p →
  store_view (SeTask t) a w = Done (tt, put_view t a w).
Proof.
  intros Hp. unfold store_view, read_kabi, write_kabi. 
  krun (read_task_run w t p Hp).
  krun (read_task_run w t p Hp). unfold put_view. by rewrite Hp.
Qed.

(** ** Worlds with the same links

    Modules only write reserved words; everything else of the world is left
    as it was. *)

Definition bare (p : task) : task := task_set_kabi kabi_zero p.

Definition same_links (w w' : world) : Prop :=
  bare <$> w_tasks w = bare <$> w_tasks w' ∧
  dom (w_groups w) = dom (w_groups w') ∧ w_rcu w = w_rcu w'.

#[export] Instance same_links_equiv : Equivalence same_links.
Proof.
  split; unfold same_links.
  - done.
  - intros w w' (H1 & H2 & H3). by rewrite H1, H2, H3.
  - intros w1 w2 w3 (H1 & H2 & H3) ?. by rewrite H1, H2, H3.
Qed.

Lemma bare_set_kabi k p : bare (task_set_kabi k p) = bare p.
Proof. done. Qed.

Lemma put_view_same_links `{KabiView A} t (a : A) w :
  same_links (put_view t a w) w.
Proof.
  unfold put_view. destruct (w_tasks w !! t) as [p|] eqn:Hp; [|done].
  split; [|done]. cbn. unfold with_tasks; cbn. rewrite fmap_insert, bare_set_kabi.
  apply insert_id. by rewrite lookup_fmap, Hp.
Qed.

Lemma same_links_lookup w w' t p :
  same_links w w' → w_tasks w !! t = Some p →
  ∃ p', w_tasks w' !! t = Some p' ∧ bare p' = bare p.
Proof.
  intros (Hl & _) Hp. assert ((bare <$> w_tasks w) !! t = Some (bare p)) as H
    by (by rewrite lookup_fmap, Hp).
  rewrite Hl, lookup_fmap in H. destruct (w_tasks w' !! t) as [p'|]; [|done].
  exists p'. split; [done|]. cbn in H. congruence.
Qed.

Lemma same_links_size w w' :
  same_links w w' → size (w_tasks w) = size (w_tasks w').
Proof.
  intros (Hl & _). rewrite <- (map_size_fmap bare (w_tasks w)), Hl.
  apply map_size_fmap.
Qed.

Lemma put_view_lookup_eq `{KabiView A} t (a : A) w p :
  w_tasks w !! t = Some p →
  w_tasks (put_view t a w) !! t
  = Some (task_set_kabi (kv_store a (se_kabi (t_se p))) p).
Proof. intros Hp. unfold put_view. rewrite Hp. cbn. apply lookup_insert_eq. Qed.

Lemma put_view_lookup_ne `{KabiView A} t t' (a : A) w :
  t ≠ t' → w_tasks (put_view t a w) !! t' = w_tasks w !! t'.
Proof.
  intros Hne. unfold put_view. destruct (w_tasks w !! t); [|done].
  cbn. by rewrite lookup_insert_ne.
Qed.

Lemma put_view_rcu `{KabiView A} t (a : A) w : w_rcu (put_view t a w) = w_rcu w.
Proof. unfold put_view. by destruct (w_tasks w !! t). Qed.

Lemma put_view_put_view `{KabiViewLaws A} t (a b : A) w :
  kv_ok a → kv_ok b → put_view t b (put_view t a w) = put_view t b w.
Proof.
  intros Ha Hb. destruct (w_tasks w !! t) as [p|] eqn:Hp.
  2:{ unfold put_view. by rewrite !Hp. }
  pose proof (put_view_lookup_eq t a w p Hp) as Hp'.
  unfold put_view at 1. rewrite Hp'. unfold put_view. rewrite Hp. cbn.
  unfold with_tasks. cbn. rewrite insert_insert_eq.
  unfold task_set_kabi, set_kabi. cbn. by rewrite kv_store_store.
Qed.

(** ** The links between tasks

    [rank] orders tasks from the root of the process tree; the kernel keeps
    parent and child links consistent and acyclic, and a live group leader
    has a signal structure with the list of its threads. *)
Record tree_ok (rank : tid → nat) (w : world) : Prop := {
  tk_bound t p : w_tasks w !! t = Some p → (rank t < size (w_tasks w))%nat;
  tk_parent t p q : w_tasks w !! t = Some p → t_real_parent p = Some q →
    is_Some (w_tasks w !! q) ∧ (q ≠ t → (rank q < rank t)%nat);
  tk_child t p c : w_tasks w !! t = Some p → c ∈ t_children p →
    is_Some (w_tasks w !! c) ∧ (rank t < rank c)%nat;
  tk_leader t p l : w_tasks w !! t = Some p → t_group_leader p = Some l →
    ∃ pl threads, w_tasks w !! l = Some pl ∧ t_signal pl = Some threads ∧
      ∀ x, x ∈ threads → is_Some (w_tasks w !! x)
}.

Lemma tree_ok_same_links rank w w' :
  same_links w w' → tree_ok rank w → tree_ok rank w'.
Proof.
  intros Hl [Hb Hp Hc Hg]. symmetry in Hl.
  assert (∀ t, is_Some (w_tasks w !! t) → is_Some (w_tasks w' !! t)) as Hsome.
  { intros t [p Ht]. symmetry in Hl.
    destruct (same_links_lookup _ _ _ _ Hl Ht) as (p' & ? & _). eauto. }
  split.
  - intros t p Ht. destruct (same_links_lookup _ _ _ _ Hl Ht) as (p' & Ht' & _).
    rewrite (same_links_size _ _ Hl). eauto.
  - intros t p q Ht Hq. destruct (same_links_lookup _ _ _ _ Hl Ht) as (p' & Ht' & E).
    assert (t_real_parent p' = Some q) by (by rewrite <- Hq; apply (f_equal t_real_parent) in E).
    destruct (Hp t p' q) as [? ?]; auto.
  - intros t p c Ht Hin. destruct (same_links_lookup _ _ _ _ Hl Ht) as (p' & Ht' & E).
    apply (f_equal t_children) in E. cbn in E. rewrite <- E in Hin.
    destruct (Hc t p' c) as [? ?]; auto.
  - intros t p l Ht Hgl. destruct (same_links_lookup _ _ _ _ Hl Ht) as (p' & Ht' & E).
    apply (f_equal t_group_leader) in E. cbn in E. rewrite <- E in Hgl.
    destruct (Hg t p' l Ht' Hgl) as (pl & ths & Hpl & Hs & Hin). symmetry in Hl.
    destruct (same_links_lookup _ _ _ _ Hl Hpl) as (pl' & ? & E').
    exists pl', ths. split_and!; [done| |auto].
    apply (f_equal t_signal) in E'. cbn in E'. congruence.
Qed.

#[export] Instance tree_ok_proper rank :
  Proper (same_links ==> iff) (tree_ok rank).
Proof.
  intros w w' Hl. split; apply tree_ok_same_links; [done|by symmetry].
Qed.

Lemma store_view_group_run `{KabiView A} w g se (a : A) :
  w_groups w !! g = Some se →
  store_view (SeGroup g) a w
  = Done (tt, World (w_tasks w)
                (<[g := set_kabi (kv_store a (se_kabi se)) se]> (w_groups w)) (w_rcu w)).
Proof.
  intros Hg. unfold store_view, read_kabi, write_kabi. kred.
  erewrite bind_deref by done. kred. by erewrite bind_deref by done.
Qed.

Lemma group_insert_same_links w g se :
  is_Some (w_groups w !! g) →
  same_links (World (w_tasks w) (<[g := se]> (w_groups w)) (w_rcu w)) w.
Proof.
  intros Hg. split_and!; [done| |done]. cbn.
  rewrite dom_insert_L. apply elem_of_dom in Hg. set_solver.
Qed.
