(* ===== verification/FileOps.v ===== *)
(** * Files and sysctl tables the modules offer to user space

    The operation tables of proc files and the rows of sysctl tables, as the
    modules declare them. *)

From S2P Require Import Prelude.

(** ** Proc files *)

(** The functions that print a file; [single_open] is given one of them. *)
Inductive seq_show := ShowBore | ShowLatency | ShowPid | ShowStats.

Inductive lseek_fn := SeqLseek | NoopLlseek.

(** [struct proc_ops] since Linux 5.6, [struct file_operations] before. *)
Inductive ops_struct := StructProcOps | StructFileOperations.

(** The only functions the modules use to read and to release a file. *)
Definition seq_read : bool := true.
Definition single_release : bool := true.

(** A table; [W] are the write handlers of the module.  A field that is not set
    is NULL. *)
Record proc_ops (W : Type) := ProcOps {
  ops_kind : ops_struct;
  ops_owner : bool;                (* THIS_MODULE *)
  ops_open : option seq_show;      (* [single_open] with this function *)
  ops_read : bool;                 (* [seq_read] is set *)
  ops_write : option W;
  ops_lseek : option lseek_fn;
  ops_release : bool               (* [single_release] is set *)
}.
Arguments ProcOps {W}.
Arguments ops_kind {W}.
Arguments ops_owner {W}.
Arguments ops_open {W}.
Arguments ops_read {W}.
Arguments ops_write {W}.
Arguments ops_lseek {W}.
Arguments ops_release {W}.

(** A file as it is created. *)
Record proc_node (W : Type) := ProcNode {
  node_name : string;
  node_mode : Z;
  node_ops : proc_ops W
}.
Arguments ProcNode {W}.
Arguments node_name {W}.
Arguments node_mode {W}.
Arguments node_ops {W}.

#[export] Instance seq_show_eq_dec : EqDecision seq_show.
Proof. solve_decision. Defined.
#[export] Instance lseek_fn_eq_dec : EqDecision lseek_fn.
Proof. solve_decision. Defined.
#[export] Instance ops_struct_eq_dec : EqDecision ops_struct.
Proof. solve_decision. Defined.
#[export] Instance proc_ops_eq_dec `{EqDecision W} : EqDecision (proc_ops W).
Proof. solve_decision. Defined.
#[export] Instance proc_node_eq_dec `{EqDecision W} : EqDecision (proc_node W).
Proof. solve_decision. Defined.

(** Permission bits: some user may read or write the file. *)
Definition may_read (mode : Z) : bool := negb (mode &. 292 =? 0).
Definition may_write (mode : Z) : bool := negb (mode &. 146 =? 0).

(** A file offers what its mode allows: it can be opened for reading exactly
    when it prints something, and then through the whole [single_open]
    protocol; it can be opened for writing exactly when something handles the
    write. *)
Definition node_typed {W} (f : proc_node W) : Prop :=
  let o := node_ops f in
  may_read (node_mode f) = is_someb (ops_open o) ∧
  ops_read o = is_someb (ops_open o) ∧ ops_release o = is_someb (ops_open o) ∧
  may_write (node_mode f) = is_someb (ops_write o) ∧ is_Some (ops_lseek o).

(** ** Sysctl tables *)

Inductive ctl_handler := ProcDointvecMinmax | ProcDoulongvecMinmax.

(** The size in bytes of what a handler stores. *)
Definition handler_size (h : ctl_handler) : Z :=
  match h with ProcDointvecMinmax => 4 | ProcDoulongvecMinmax => 8 end.

(** One row of a [ctl_table]: [data] points to the variable of that name;
    [extra1] and [extra2] are the bounds that the [minmax] handlers enforce,
    NULL for none. *)
Record ctl_entry := CtlEntry {
  procname : string;
  data : string;
  maxlen : Z;
  mode : Z;
  proc_handler : ctl_handler;
  extra1 : option Z;
  extra2 : option Z
}.

(** A row of a root table: a directory. *)
Record ctl_root := CtlRoot {
  root_procname : string;
  root_mode : Z;
  child : list ctl_entry
}.

#[export] Instance ctl_handler_eq_dec : EqDecision ctl_handler.
Proof. solve_decision. Defined.
#[export] Instance ctl_entry_eq_dec : EqDecision ctl_entry.
Proof. solve_decision. Defined.

(** What is registered: a directory with its rows. *)
Abbreviation ctl_dir := (string * list ctl_entry)%type.

Definition find_entry (name : string) (table : list ctl_entry) : option ctl_entry :=
  List.find (λ e, String.eqb (procname e) name) table.

(** A row stores as many bytes as its variable has. *)
Definition entry_typed (size : string → option Z) (e : ctl_entry) : Prop :=
  size (data e) = Some (maxlen e) ∧ handler_size (proc_handler e) = maxlen e.

(** What a write of some text stores through a handler, as an unsigned number;
    [None]: the text is rejected. *)
Class SysctlHandlers := {
  handler_value : ctl_handler → option Z → option Z → string → option Z
}.

(** A handler stores a value of its width. *)
Class SysctlHandlersLaws `{SysctlHandlers} : Prop := {
  handler_width h lo hi s v : handler_value h lo hi s = Some v → in_u (8 * handler_size h) v
}.

(** A write to the file [name] of a table; [set] is the store to a variable. *)
Definition sysctl_write `{SysctlHandlers} {S} (set : string → Z → S → S)
    (table : list ctl_entry) (name text : string) (s : S) : option S :=
  match find_entry name table with
  | None => None
  | Some e =>
      match handler_value (proc_handler e) (extra1 e) (extra2 e) text with
      | None => None
      | Some v => Some (set (data e) v s)
      end
  end.
