(* ===== verification/BoreMath.v ===== *)
(** * BORE arithmetic (bore_sched.h)

    The tunables, the fixed-point logarithm, the burst penalty, the smoothing
    of penalties and the reciprocal table of bore_sched_main.c, on machine
    integers as the sources write them, with the plain arithmetic each of
    them computes. *)

From S2P Require Import Prelude.

(** ** Constants and tunables *)

Definition MAX_BURST_PENALTY : Z := u32 (u32 (40 <<. 8) - 1).
Definition BORE_BC_TIMESTAMP_SHIFT : Z := 16.
Definition BURST_CACHE_SAMPLE_LIMIT : Z := 63.
Definition BURST_CACHE_SCAN_LIMIT : Z := 126.

(** The module parameters, all of C type [uint]. *)
Record tunables := Tunables {
  sched_bore : Z;
  sched_burst_inherit_type : Z;
  sched_burst_smoothness : Z;
  sched_burst_penalty_offset : Z;
  sched_burst_penalty_scale : Z;
  sched_burst_cache_lifetime : Z
}.

Definition default_tunables : tunables := {|
  sched_bore := 1;
  sched_burst_inherit_type := 2;
  sched_burst_smoothness := 1;
  sched_burst_penalty_offset := 24;
  sched_burst_penalty_scale := 1536;
  sched_burst_cache_lifetime := 75000000
|}.

(** ** Definitions *)

(** [__builtin_clzll], defined for a non-zero 64-bit value. *)
Definition clzll (v : Z) : Z := 63 - Z.log2 v.

Definition log2p1_u64_u32fp (v fp : Z) : Z :=
  if v =? 0 then 0
  else
    let clz := clzll v in
    let exponent := 64 - clz in
    let mantissa := u32 (u64 (u64 (v <<. clz) <<. 1) >>. (64 - fp)) in
    u32 ((exponent <<. fp) |. mantissa).

Definition calc_burst_penalty (T : tunables) (burst_time : Z) : Z :=
  let greed := log2p1_u64_u32fp burst_time 8 in
  let tolerance := u32 (sched_burst_penalty_offset T <<. 8) in
  let diff := s32 (u32 (greed - tolerance)) in
  let penalty := u32 (diff &. ~. (diff >>. 31)) in
  let scaled_penalty := u32 (penalty * sched_burst_penalty_scale T) >>. 10 in
  let overflow := s32 (u32 (scaled_penalty - MAX_BURST_PENALTY)) in
  u32 (scaled_penalty - u32 (overflow &. ~. (overflow >>. 31))).

(** The shift by [sched_burst_smoothness] is defined in C below 32 only. *)
Definition smoothness_ok (T : tunables) : Prop :=
  0 <= sched_burst_smoothness T < 32.

Definition binary_smooth (T : tunables) (new_val old_val : Z) : Z :=
  let is_growing := b2z (old_val <? new_val) in
  let increment := u32 (u32 (new_val - old_val) * is_growing) in
  let shift := sched_burst_smoothness T in
  let smoothed :=
    u32 (old_val + (u32 (u32 (increment + u32 (1 <<. shift)) - 1) >>. shift)) in
  (new_val &. u32 (~. u32 (- is_growing))) |. (smoothed &. u32 (- is_growing)).

(** [bore_reciprocal_lut[i]] as the loop of [init_bore_reciprocal_lut] sets it. *)
Definition reciprocal (i : Z) : Z := u32 (u64 (4294967295 + i) / i).

Definition init_bore_reciprocal_lut (lut : list Z) : list Z :=
  foldl (λ l i, <[i := reciprocal (Z.of_nat i)]> l) lut
    (seq 1 (Z.to_nat BURST_CACHE_SAMPLE_LIMIT)).

(** The static table before the module's initialisation. *)
Definition bore_reciprocal_lut_bss : list Z :=
  replicate (Z.to_nat (BURST_CACHE_SAMPLE_LIMIT + 1)) 0.

(** The average of [update_burst_cache]: [None] is an index out of bounds. *)
Definition cache_average (lut : list Z) (count total : Z) : option Z :=
  if count =? 1 then Some total
  else (λ entry, u32 (u64 (total * entry) >>. 32)) <$> lut !! Z.to_nat count.

(** ** The logarithm *)

(** Dropping the leading one and keeping [fp] bits below it. *)
Lemma mantissa_bits v fp :
  0 < v < 2 ^ 64 → 1 <= fp <= 24 →
  u64 (u64 (v <<. clzll v) <<. 1) >>. (64 - fp)
  = (v - 2 ^ Z.log2 v) * 2 ^ fp / 2 ^ Z.log2 v.
Proof.
  intros Hv Hfp. unfold clzll. set (k := Z.log2 v).
  destruct (Z.log2_spec v ltac:(lia)) as [Hlo Hhi]. fold k in Hlo, Hhi.
  assert (0 <= k < 64) as Hk.
  { split; [apply Z.log2_nonneg|]. apply Z.log2_lt_pow2; lia. }
  rewrite Z.pow_succ_r in Hhi by lia.
  assert (2 ^ k * 2 ^ (63 - k) = 2 ^ 63) as H63
    by (rewrite <- Z.pow_add_r by lia; f_equal; lia).
  assert (2 ^ (64 - k) = 2 * 2 ^ (63 - k)) as H64
    by (rewrite <- Z.pow_succ_r by lia; f_equal; lia).
  assert (0 < 2 ^ (63 - k)) by (apply Z.pow_pos_nonneg; lia).
  rewrite !Z.shiftl_mul_pow2, Z.shiftr_div_pow2 by lia.
  rewrite (wrapu_small 64 (v * _)) by (unfold in_u; nia).
  replace (u64 (v * 2 ^ (63 - k) * 2 ^ 1)) with ((v - 2 ^ k) * 2 ^ (64 - k)).
  2:{ unfold wrapu. apply (Z.mod_unique_pos _ _ 1); nia. }
  rewrite <- (Z.div_mul_cancel_r _ (2 ^ (64 - fp)) (2 ^ k)) by lia.
  rewrite <- (Z.div_mul_cancel_r _ (2 ^ k) (2 ^ (64 - fp))) by lia.
  rewrite (Z.mul_comm (2 ^ k) (2 ^ (64 - fp))). f_equal.
  rewrite <- !Z.mul_assoc, <- !Z.pow_add_r by lia. do 2 f_equal; lia.
Qed.

Lemma fraction_range v k fp :
  2 ^ k <= v < 2 * 2 ^ k → 0 <= k → 0 <= fp →
  0 <= (v - 2 ^ k) * 2 ^ fp / 2 ^ k < 2 ^ fp.
Proof.
  intros Hv Hk Hfp. assert (0 < 2 ^ k) by (apply Z.pow_pos_nonneg; lia).
  assert (0 < 2 ^ fp) by (apply Z.pow_pos_nonneg; lia). split.
  - apply Z.div_pos; nia.
  - apply Z.div_lt_upper_bound; nia.
Qed.

Lemma log2_bounds v : 0 < v → 2 ^ Z.log2 v <= v < 2 * 2 ^ Z.log2 v.
Proof.
  intros Hv. rewrite <- Z.pow_succ_r by apply Z.log2_nonneg.
  by apply Z.log2_spec.
Qed.

Lemma log2p1_value v fp :
  0 < v < 2 ^ 64 → 1 <= fp <= 24 →
  log2p1_u64_u32fp v fp
  = (Z.log2 v + 1) * 2 ^ fp + (v - 2 ^ Z.log2 v) * 2 ^ fp / 2 ^ Z.log2 v.
Proof.
  intros Hv Hfp. unfold log2p1_u64_u32fp.
  destruct (Z.eqb_spec v 0); [lia|].
  rewrite mantissa_bits by done.
  pose proof (Z.log2_nonneg v) as Hk.
  assert (Z.log2 v < 64) by (apply Z.log2_lt_pow2; lia).
  pose proof (fraction_range v _ fp (log2_bounds v ltac:(lia)) Hk ltac:(lia)) as Hf.
  set (m := _ / _) in *. clearbody m.
  assert (2 ^ fp <= 2 ^ 24) by (apply Z.pow_le_mono_r; lia).
  rewrite (wrapu_small 32 m) by (unfold in_u; lia).
  unfold clzll. replace (64 - (63 - Z.log2 v)) with (Z.log2 v + 1) by lia.
  rewrite lor_shiftl_add by lia. apply wrapu_small. unfold in_u. nia.
Qed.

Lemma log2p1_zero fp : log2p1_u64_u32fp 0 fp = 0.
Proof. reflexivity. Qed.

Lemma log2p1_8_range v : in_u 64 v → 0 <= log2p1_u64_u32fp v 8 <= 16639.
Proof.
  intros Hv. unfold in_u in Hv. destruct (Z.eq_dec v 0) as [->|]; [by cbn|].
  rewrite log2p1_value by lia.
  pose proof (Z.log2_nonneg v).
  assert (Z.log2 v < 64) by (apply Z.log2_lt_pow2; lia).
  pose proof (fraction_range v _ 8 (log2_bounds v ltac:(lia))) as Hf.
  set (m := _ / _) in *. clearbody m. lia.
Qed.

Lemma log2p1_mono_aux v1 v2 fp :
  0 <= v1 <= v2 → v2 < 2 ^ 64 → 1 <= fp <= 24 →
  log2p1_u64_u32fp v1 fp <= log2p1_u64_u32fp v2 fp.
Proof.
  intros Hle Hv Hfp.
  assert (0 < 2 ^ fp) by (apply Z.pow_pos_nonneg; lia).
  destruct (Z.eq_dec v2 0) as [->|Hv2]; [replace v1 with 0 by lia; lia|].
  pose proof (Z.log2_nonneg v1) as Hk1. pose proof (Z.log2_nonneg v2) as Hk2.
  pose proof (log2_bounds v2 ltac:(lia)) as B2.
  pose proof (fraction_range v2 _ fp B2) as F2. rewrite (log2p1_value v2) by lia.
  destruct (Z.eq_dec v1 0) as [->|Hv1]; [rewrite log2p1_zero; nia|].
  pose proof (log2_bounds v1 ltac:(lia)) as B1.
  pose proof (fraction_range v1 _ fp B1) as F1. rewrite (log2p1_value v1) by lia.
  pose proof (Z.log2_le_mono v1 v2 ltac:(lia)) as Hlog.
  destruct (Z.eq_dec (Z.log2 v1) (Z.log2 v2)) as [->|Hne].
  - apply Z.add_le_mono_l, Z.div_le_mono; nia.
  - set (m1 := _ / 2 ^ Z.log2 v1) in *. set (m2 := _ / 2 ^ Z.log2 v2) in *.
    clearbody m1 m2. assert (Z.log2 v1 + 1 <= Z.log2 v2) by lia. nia.
Qed.

(** ** The burst penalty *)

Lemma max_burst_penalty_val : MAX_BURST_PENALTY = 10239.
Proof. reflexivity. Qed.

(** The two branch-free clamps of the sources: at zero from below and at
    [hi] from above. *)
Lemma clamp_low a b :
  in_s 32 (a - b) → u32 (s32 (u32 (a - b)) &. ~. (s32 (u32 (a - b)) >>. 31))
  = Z.max 0 (a - b).
Proof.
  intros H. rewrite wraps_wrapu, (wraps_small 32 (a - b)) by auto with cint.
  rewrite sign_mask_pos by done. apply wrapu_small.
  unfold in_u, in_s in *. pow2_norm. lia.
Qed.

Lemma clamp_high a hi :
  in_u 32 a → in_u 32 hi → in_s 32 (a - hi) →
  u32 (a - u32 (s32 (u32 (a - hi)) &. ~. (s32 (u32 (a - hi)) >>. 31)))
  = Z.min a hi.
Proof.
  intros Ha Hhi H. rewrite clamp_low by done.
  unfold in_u in *. rewrite wrapu_small; unfold in_u; lia.
Qed.

Lemma scaled_range x : 0 <= u32 x >>. 10 < 2 ^ 22.
Proof.
  rewrite Z.shiftr_div_pow2 by lia.
  pose proof (wrapu_range 32 x ltac:(lia)) as H. unfold in_u in H.
  split; [apply Z.div_pos; lia|apply Z.div_lt_upper_bound; lia].
Qed.

Lemma calc_burst_penalty_range T bt :
  0 <= calc_burst_penalty T bt <= MAX_BURST_PENALTY.
Proof.
  unfold calc_burst_penalty. rewrite max_burst_penalty_val.
  match goal with |- context [u32 (?p * ?s) >>. 10] =>
    pose proof (scaled_range (p * s)) as Hs; set (a := u32 (p * s) >>. 10) in * end.
  rewrite clamp_high by (unfold in_u, in_s; pow2_norm; lia). lia.
Qed.

(** The tunables for which no intermediate value of [calc_burst_penalty]
    wraps: the offset as a distance from the logarithm, and the scale as a
    factor of the largest logarithm. *)
Definition penalty_tunables_ok (T : tunables) : Prop :=
  0 <= sched_burst_penalty_offset T <= 2 ^ 23 ∧
  0 <= sched_burst_penalty_scale T ∧
  16639 * sched_burst_penalty_scale T < 2 ^ 32.

(** The intended penalty: the excess of the logarithm of the burst time (8
    fractional bits) over the offset, scaled in units of 1/1024, at most
    [MAX_BURST_PENALTY]. *)
Definition burst_penalty_spec (T : tunables) (burst_time : Z) : Z :=
  Z.min
    (Z.max 0 (log2p1_u64_u32fp burst_time 8 - sched_burst_penalty_offset T * 256)
     * sched_burst_penalty_scale T / 1024)
    MAX_BURST_PENALTY.

Lemma calc_burst_penalty_value T bt :
  penalty_tunables_ok T → in_u 64 bt →
  calc_burst_penalty T bt = burst_penalty_spec T bt.
Proof.
  intros (Hoff & Hsc & Hmul) Hbt. unfold calc_burst_penalty, burst_penalty_spec.
  pose proof (log2p1_8_range bt Hbt) as Hg.
  rewrite max_burst_penalty_val.
  set (g := log2p1_u64_u32fp bt 8) in *. set (off := sched_burst_penalty_offset T) in *.
  set (sc := sched_burst_penalty_scale T) in *. clearbody g off sc.
  rewrite Z.shiftl_mul_pow2 by lia. change (2 ^ 8) with 256.
  change (2 ^ 23) with 8388608 in *. change (2 ^ 32) with 4294967296 in *.
  rewrite (wrapu_small 32 (off * 256)) by (unfold in_u; pow2_norm; lia).
  rewrite clamp_low by (unfold in_s; pow2_norm; lia).
  set (p := Z.max 0 (g - off * 256)).
  assert (0 <= p <= 16639) by lia. clearbody p.
  rewrite (wrapu_small 32 (p * sc)) by (unfold in_u; pow2_norm; nia).
  rewrite Z.shiftr_div_pow2 by lia. change (2 ^ 10) with 1024.
  assert (0 <= p * sc < 4294967296) by nia.
  set (q := p * sc) in *. clearbody q.
  assert (0 <= q / 1024 < 4194304) by clia.
  set (r := q / 1024) in *. clearbody r.
  rewrite clamp_high; [done|unfold in_u, in_s; pow2_norm; lia..].
Qed.

Lemma calc_burst_penalty_zero T :
  penalty_tunables_ok T → calc_burst_penalty T 0 = 0.
Proof.
  intros HT. rewrite calc_burst_penalty_value by (done || split; lia).
  unfold burst_penalty_spec. rewrite log2p1_zero, max_burst_penalty_val.
  destruct HT as [? _]. rewrite Z.max_l by lia. reflexivity.
Qed.

Lemma burst_penalty_spec_mono T a b :
  0 <= sched_burst_penalty_scale T → 0 <= a <= b → b < 2 ^ 64 →
  burst_penalty_spec T a <= burst_penalty_spec T b.
Proof.
  intros HT Hab Hb. unfold burst_penalty_spec.
  pose proof (log2p1_mono_aux a b 8 Hab Hb ltac:(lia)) as Hlog.
  apply Z.min_le_compat_r, Z.div_le_mono; [lia|].
  apply Z.mul_le_mono_nonneg_r; [done|]. apply Z.max_le_compat_l. lia.
Qed.

Lemma calc_burst_penalty_le T a b :
  penalty_tunables_ok T → 0 <= a <= b → b < 2 ^ 64 →
  calc_burst_penalty T a <= calc_burst_penalty T b.
Proof.
  intros HT Hab Hb. rewrite !calc_burst_penalty_value by (done || split; lia).
  apply burst_penalty_spec_mono; [apply HT|done|done].
Qed.

(** ** Smoothing *)

(** The rounded-up fraction [1 / 2^s] of a growth. *)
Definition ceil_shift (x s : Z) : Z := (x + 2 ^ s - 1) / 2 ^ s.

Lemma ceil_shift_range x s :
  0 <= s → 0 < x → 0 < ceil_shift x s <= x.
Proof.
  intros Hs Hx. unfold ceil_shift.
  assert (0 < 2 ^ s) by (apply Z.pow_pos_nonneg; lia).
  pose proof (Z.div_mod (x + 2 ^ s - 1) (2 ^ s) ltac:(lia)).
  pose proof (Z.mod_pos_bound (x + 2 ^ s - 1) (2 ^ s) ltac:(lia)). nia.
Qed.

Lemma binary_smooth_value T new old :
  smoothness_ok T → in_u 16 new → in_u 16 old →
  binary_smooth T new old
  = if old <? new then old + ceil_shift (new - old) (sched_burst_smoothness T)
    else new.
Proof.
  intros Hs Hn Ho. unfold binary_smooth, smoothness_ok, in_u in *.
  change (2 ^ 16) with 65536 in *.
  set (s := sched_burst_smoothness T) in *. clearbody s.
  destruct (Z.ltb_spec old new) as [Hlt|Hge]; cbn [b2z].
  - assert (1 <= 2 ^ s <= 2147483648).
    { change 1 with (2 ^ 0). change 2147483648 with (2 ^ 31).
      split; apply Z.pow_le_mono_r; lia. }
    pose proof (ceil_shift_range (new - old) s ltac:(lia) ltac:(lia)) as Hc.
    change (u32 (~. u32 (Z.opp 1))) with 0. change (u32 (Z.opp 1)) with (Z.ones 32).
    rewrite Z.land_0_r, Z.lor_0_l, Z.mul_1_r, Z.shiftl_1_l.
    rewrite (wrapu_small 32 (new - old)) by (unfold in_u; pow2_norm; lia).
    rewrite (wrapu_small 32 (new - old)) by (unfold in_u; pow2_norm; lia).
    rewrite (wrapu_small 32 (2 ^ s)) by (unfold in_u; pow2_norm; lia).
    rewrite (wrapu_small 32 (new - old + 2 ^ s)) by (unfold in_u; pow2_norm; lia).
    rewrite (wrapu_small 32 (_ - 1)) by (unfold in_u; pow2_norm; lia).
    rewrite Z.shiftr_div_pow2 by lia. fold (ceil_shift (new - old) s).
    rewrite wrapu_small by (unfold in_u; pow2_norm; lia).
    apply land_ones_small; [lia|]. unfold in_u; pow2_norm; lia.
  - change (u32 (~. u32 (Z.opp 0))) with (Z.ones 32). change (u32 (Z.opp 0)) with 0.
    rewrite Z.land_0_r, Z.lor_0_r. apply land_ones_small; [lia|].
    unfold in_u; pow2_norm; lia.
Qed.

Lemma binary_smooth_between T new old :
  smoothness_ok T → in_u 16 new → in_u 16 old →
  if old <? new then old < binary_smooth T new old <= new
  else binary_smooth T new old = new.
Proof.
  intros Hs Hn Ho. rewrite binary_smooth_value by done.
  destruct (Z.ltb_spec old new); [|done].
  pose proof (ceil_shift_range (new - old) (sched_burst_smoothness T)). 
  unfold smoothness_ok in Hs. lia.
Qed.

(** ** The reciprocal table *)


(** ** The reciprocal table *)

Lemma init_lut_lookup i :
  (1 <= i <= Z.to_nat BURST_CACHE_SAMPLE_LIMIT)%nat →
  init_bore_reciprocal_lut bore_reciprocal_lut_bss !! i
  = Some (reciprocal (Z.of_nat i)).
Proof.
  intros Hi. unfold init_bore_reciprocal_lut.
  rewrite (foldl_insert_lookup (λ i, reciprocal (Z.of_nat i))).
  rewrite decide_True; [done|].
  unfold bore_reciprocal_lut_bss. rewrite length_replicate.
  unfold BURST_CACHE_SAMPLE_LIMIT in *. lia.
Qed.

Lemma init_lut_lookup_0 :
  init_bore_reciprocal_lut bore_reciprocal_lut_bss !! 0%nat = Some 0.
Proof. reflexivity. Qed.

(** The entries are reciprocals rounded up, by less than [n] units. *)
Lemma reciprocal_rounds_up n :
  2 <= n <= 63 →
  ∃ e, 0 <= e < n ∧ n * reciprocal n = 2 ^ 32 + e ∧
       2 ^ 26 <= reciprocal n <= 2 ^ 31 + 31.
Proof.
  intros Hn. unfold reciprocal.
  rewrite (wrapu_small 64) by (unfold in_u; pow2_norm; lia).
  pose proof (Z.div_mod (4294967295 + n) n ltac:(lia)) as Hdm.
  pose proof (Z.mod_pos_bound (4294967295 + n) n ltac:(lia)) as Hm.
  set (r := (4294967295 + n) / n) in *. set (m := (4294967295 + n) mod n) in *.
  clearbody r m. change (2 ^ 26) with 67108864. change (2 ^ 31) with 2147483648.
  change (2 ^ 32) with 4294967296.
  assert (67108864 <= r <= 2147483648 + 31) by nia.
  rewrite wrapu_small by (unfold in_u; pow2_norm; lia).
  exists (n - 1 - m). lia.
Qed.

(** Multiplying by the table entry and shifting is the division, for every
    sum that [n] 16-bit penalties can have. *)
Lemma reciprocal_mul n total :
  2 <= n <= 63 → 0 <= total <= n * 65535 →
  u32 (u64 (total * reciprocal n) >>. 32) = total / n.
Proof.
  intros Hn Ht.
  destruct (reciprocal_rounds_up n Hn) as (e & He & Hr & Hrng).
  set (r := reciprocal n) in *. clearbody r.
  pose proof (Z.div_mod total n ltac:(lia)) as Hdm.
  pose proof (Z.mod_pos_bound total n ltac:(lia)) as Hm.
  set (q := total / n) in *. set (b := total mod n) in *. clearbody q b.
  change (2 ^ 26) with 67108864 in *. change (2 ^ 31) with 2147483648 in *.
  change (2 ^ 32) with 4294967296 in *.
  assert (0 <= q <= 65535) by nia.
  assert (0 <= q * e <= 65535 * 62) by nia.
  assert (0 <= b * r <= 4294967296 + e - r) by nia.
  assert (total * r = q * 4294967296 + (q * e + b * r)) as Htr by nia.
  rewrite (wrapu_small 64) by (unfold in_u; pow2_norm; nia).
  rewrite Z.shiftr_div_pow2 by lia. change (2 ^ 32) with 4294967296.
  rewrite Htr, Z.add_comm, Z.div_add, Z.div_small by lia.
  apply wrapu_small. unfold in_u; pow2_norm; lia.
Qed.

(** The table computed by [init_bore_reciprocal_lut]. *)
Definition bore_lut : list Z := init_bore_reciprocal_lut bore_reciprocal_lut_bss.

(** The average of [n] values whose sum is [total], 0 of no value. *)
Definition average (n total : Z) : Z := if n =? 0 then 0 else total / n.

Lemma cache_average_value n total :
  0 <= n <= 63 → 0 <= total <= n * 65535 →
  cache_average bore_lut n total = Some (average n total).
Proof.
  intros Hn Ht. unfold cache_average, average.
  destruct (Z.eqb_spec n 1) as [->|H1]; [by rewrite Z.div_1_r|].
  destruct (Z.eqb_spec n 0) as [->|H0].
  - change (Z.to_nat 0) with 0%nat. unfold bore_lut. rewrite init_lut_lookup_0. cbn.
    by replace total with 0 by lia.
  - unfold bore_lut. rewrite init_lut_lookup
      by (unfold BURST_CACHE_SAMPLE_LIMIT; lia).
    cbn. rewrite Z2Nat.id by lia. by rewrite reciprocal_mul by lia.
Qed.

(** ** Properties *)

Section properties.
Implicit Types T : tunables.

(** C25: [log2p1_u64_u32fp] is the logarithm plus one in fixed point with
    [fp] fractional bits, linearly interpolated between powers of two and
    rounded down; it is 0 at 0 and monotone on all 64-bit values. *)
Theorem log2p1_correct v v' fp :
  in_u 64 v → 1 <= fp <= 24 → v <= v' < 2 ^ 64 →
  log2p1_u64_u32fp v fp
  = (if v =? 0 then 0
     else (Z.log2 v + 1) * 2 ^ fp + (v - 2 ^ Z.log2 v) * 2 ^ fp / 2 ^ Z.log2 v) ∧
  log2p1_u64_u32fp v fp <= log2p1_u64_u32fp v' fp.
Proof.
  unfold in_u. intros Hv Hfp Hv'. split.
  - destruct (Z.eqb_spec v 0) as [->|]; [done|]. apply log2p1_value; lia.
  - apply log2p1_mono_aux; lia.
Qed.

Lemma log2p1_correct_witness :
  log2p1_u64_u32fp 3000000 8
  = (21 + 1) * 2 ^ 8 + (3000000 - 2 ^ 21) * 2 ^ 8 / 2 ^ 21 ∧
  log2p1_u64_u32fp 3000000 8 <= log2p1_u64_u32fp 3000001 8.
Proof.
  pose proof (log2p1_correct 3000000 3000001 8) as H.
  apply H; [split; reflexivity || discriminate|lia|split; reflexivity || discriminate].
Defined.

(** C23: For tunables within the range where nothing wraps,
    [calc_burst_penalty] is the specified penalty (excess of the logarithm
    over the offset, scaled, saturated at [MAX_BURST_PENALTY]), and a longer
    burst never has a smaller penalty. *)
Theorem calc_burst_penalty_correct T bt bt' :
  penalty_tunables_ok T → in_u 64 bt → bt <= bt' < 2 ^ 64 →
  calc_burst_penalty T bt = burst_penalty_spec T bt ∧
  calc_burst_penalty T bt <= calc_burst_penalty T bt'.
Proof.
  unfold in_u. intros HT Hbt Hbt'.
  split; [by apply calc_burst_penalty_value|apply calc_burst_penalty_le; [done|lia..]].
Qed.

Lemma calc_burst_penalty_correct_witness :
  calc_burst_penalty default_tunables 40000000
  = burst_penalty_spec default_tunables 40000000 ∧
  calc_burst_penalty default_tunables 40000000
  <= calc_burst_penalty default_tunables 80000000.
Proof.
  apply (calc_burst_penalty_correct default_tunables 40000000 80000000).
  - repeat split; vm_compute; congruence.
  - split; reflexivity || discriminate.
  - split; reflexivity || discriminate.
Defined.

(** Whatever the tunables, even where intermediate values wrap, a burst
    penalty is between 0 and [MAX_BURST_PENALTY] = 10239, so it fits the
    16-bit fields it is stored in and its score fits 39 priority levels. *)
Theorem calc_burst_penalty_bounded T bt :
  0 <= calc_burst_penalty T bt <= 10239.
Proof. apply calc_burst_penalty_range. Qed.

(** C29: [binary_smooth] is branch-free code for: follow a decrease at once,
    follow a growth by the fraction [1 / 2^smoothness] of it rounded up. *)
Theorem binary_smooth_correct T new old :
  smoothness_ok T → in_u 16 new → in_u 16 old →
  binary_smooth T new old
  = if old <? new
    then old + (new - old + 2 ^ sched_burst_smoothness T - 1)
               / 2 ^ sched_burst_smoothness T
    else new.
Proof. apply binary_smooth_value. Qed.

Lemma binary_smooth_correct_witness :
  binary_smooth default_tunables 101 40 = 40 + (101 - 40 + 2 ^ 1 - 1) / 2 ^ 1.
Proof.
  apply (binary_smooth_correct default_tunables 101 40);
    split; reflexivity || discriminate.
Defined.

Lemma smooth_iter T new old n :
  smoothness_ok T → in_u 16 new → in_u 16 old → old <= new →
  let r := Nat.iter n (binary_smooth T new) old in
  Z.min new (old + Z.of_nat n) <= r <= new.
Proof.
  intros Hs Hn Ho Hle. induction n as [|n IH]; [cbn; lia|]. cbv zeta in *.
  cbn [Nat.iter nat_rect]. fold (Nat.iter n (binary_smooth T new) old).
  set (r := Nat.iter n (binary_smooth T new) old) in *.
  assert (in_u 16 r) as Hr by (unfold in_u in *; lia).
  pose proof (binary_smooth_between T new r Hs Hn Hr) as Hb.
  destruct (Z.ltb_spec r new); lia.
Qed.

(** Under a constant burst penalty the smoothed penalty reaches it: at
    most [new - old] bursts suffice, whatever the smoothness. *)
Theorem binary_smooth_converges T new old n :
  smoothness_ok T → in_u 16 new → in_u 16 old → new - old <= Z.of_nat n →
  (0 < n)%nat →
  Nat.iter n (binary_smooth T new) old = new.
Proof.
  intros Hs Hn Ho Hle Hpos. destruct (Z.le_gt_cases old new) as [Hon|Hgt].
  - pose proof (smooth_iter T new old n Hs Hn Ho Hon) as Hi. cbv zeta in Hi. lia.
  - destruct n as [|n]; [lia|]. rewrite Nat.iter_succ_r.
    pose proof (binary_smooth_between T new old Hs Hn Ho) as Hb.
    destruct (Z.ltb_spec old new); [lia|]. rewrite Hb.
    pose proof (smooth_iter T new new n Hs Hn Hn ltac:(lia)) as Hi. cbv zeta in Hi. lia.
Qed.

Lemma binary_smooth_converges_witness :
  Nat.iter 5 (binary_smooth default_tunables 100) 95 = 100.
Proof.
  apply (binary_smooth_converges default_tunables 100 95 5);
    try (split; reflexivity || discriminate); lia.
Defined.

(** C31: The division-free average of [update_burst_cache] is exact: for
    every count the scan can reach and every sum of that many 16-bit
    penalties, the reciprocal table built by [init_bore_reciprocal_lut]
    gives the integer quotient, without an access outside the table. *)
Theorem cache_average_exact n total :
  1 <= n <= BURST_CACHE_SAMPLE_LIMIT → 0 <= total <= n * 65535 →
  cache_average (init_bore_reciprocal_lut bore_reciprocal_lut_bss) n total
  = Some (total / n).
Proof.
  unfold BURST_CACHE_SAMPLE_LIMIT. intros Hn Ht.
  fold bore_lut. rewrite cache_average_value by lia. unfold average.
  by destruct (Z.eqb_spec n 0); [lia|].
Qed.

Lemma cache_average_exact_witness :
  cache_average (init_bore_reciprocal_lut bore_reciprocal_lut_bss) 63 (63 * 10239 - 1)
  = Some ((63 * 10239 - 1) / 63).
Proof.
  apply (cache_average_exact 63 (63 * 10239 - 1)); split; vm_compute; congruence.
Defined.
End properties.
