(* ===== verification/BoreCtx.v ===== *)
(** * The per-task state of BORE (bore_sched.h)

    [struct bore_bc], a 64-bit word with two bit-fields, and
    [struct bore_ctx], the 32 bytes that the module overlays on the four
    reserved words of a scheduling entity (little-endian layout). *)

From S2P Require Import Prelude KMonad Kernel BoreMath.

(** ** [struct bore_bc]

    The union is its [value] word: the low 48 bits are [timestamp], the high
    16 bits [penalty]. *)

Definition bc_timestamp (value : Z) : Z := value &. Z.ones 48.

Definition bc_penalty (value : Z) : Z := value >>. 48.

(** A [struct bore_bc] initialised with both fields; each is truncated to the
    width of its bit-field. *)
Definition mk_bc (penalty timestamp : Z) : Z :=
  (u16 penalty <<. 48) |. wrapu 48 timestamp.

(** ** [struct bore_ctx] *)

Record bore_ctx := BoreCtx {
  burst_time : Z;
  prev_penalty : Z;
  curr_penalty : Z;
  penalty : Z;
  stop_update : Z;
  futex_waiting : Z;
  subtree : Z;
  group : Z
}.

Definition bore_ctx_zero : bore_ctx := BoreCtx 0 0 0 0 0 0 0 0.

(** The fields are in the range of their C types. *)
Definition bore_ctx_typed (c : bore_ctx) : Prop :=
  in_u 64 (burst_time c) ∧ in_u 16 (prev_penalty c) ∧ in_u 16 (curr_penalty c) ∧
  in_u 16 (penalty c) ∧ in_u 8 (stop_update c) ∧ in_u 8 (futex_waiting c) ∧
  in_u 64 (subtree c) ∧ in_u 64 (group c).

(** The second word: three [u16] and two [u8], lowest address first. *)
Definition pack_penalties (c : bore_ctx) : Z :=
  ((((((((futex_waiting c <<. 8) |. stop_update c) <<. 16)
      |. penalty c) <<. 16) |. curr_penalty c) <<. 16) |. prev_penalty c).

(** Only a group's entity owns a run queue. *)
Definition bore_entity_is_task `{KernelHeaders} (se : sched_entity) : bool :=
  if CONFIG_FAIR_GROUP_SCHED then negb (se_my_q se) else true.

(** The overlay: [bore_get_ctx] casts the address of the first reserved word. *)
#[export] Instance bore_get_ctx_se : KabiView bore_ctx := {
  kv_ok := bore_ctx_typed;
  kv_load k := {|
    burst_time := kw1 k;
    prev_penalty := u16 (kw2 k);
    curr_penalty := u16 (kw2 k >>. 16);
    penalty := u16 (kw2 k >>. 32);
    stop_update := u8 (kw2 k >>. 48);
    futex_waiting := u8 (kw2 k >>. 56);
    subtree := kw3 k;
    group := kw4 k
  |};
  kv_store c _ := Kabi (burst_time c) (pack_penalties c) (subtree c) (group c)
}.

(** The ranges of the values BORE itself stores: penalties, and the penalties
    of the two caches, never exceed the maximum. *)
Definition bore_ctx_ok (c : bore_ctx) : Prop :=
  bore_ctx_typed c ∧
  prev_penalty c <= MAX_BURST_PENALTY ∧ curr_penalty c <= MAX_BURST_PENALTY ∧
  penalty c <= MAX_BURST_PENALTY ∧
  bc_penalty (subtree c) <= MAX_BURST_PENALTY ∧
  bc_penalty (group c) <= MAX_BURST_PENALTY.

(** ** Bit-fields *)

Lemma mk_bc_value p ts :
  mk_bc p ts = u16 p * 2 ^ 48 + wrapu 48 ts.
Proof. apply lor_shiftl_add; [lia|]. apply Z.mod_pos_bound. lia. Qed.

Lemma mk_bc_in_u p ts : in_u 64 (mk_bc p ts).
Proof.
  rewrite mk_bc_value. pose proof (wrapu_range 16 p). 
  pose proof (wrapu_range 48 ts). unfold in_u in *. pow2_norm. lia.
Qed.

Lemma bc_penalty_mk p ts : bc_penalty (mk_bc p ts) = u16 p.
Proof.
  unfold bc_penalty. rewrite mk_bc_value, Z.shiftr_div_pow2 by lia.
  pose proof (wrapu_range 48 ts ltac:(lia)) as H. unfold in_u in H.
  rewrite Z.add_comm, Z.div_add, Z.div_small by lia. lia.
Qed.

Lemma bc_timestamp_mk p ts : bc_timestamp (mk_bc p ts) = wrapu 48 ts.
Proof.
  unfold bc_timestamp. rewrite mk_bc_value, Z.land_ones by lia.
  rewrite Z.add_comm, Z_mod_plus_full. apply Z.mod_mod. lia.
Qed.

Lemma bc_penalty_in_u v : in_u 64 v → in_u 16 (bc_penalty v).
Proof.
  unfold bc_penalty. rewrite Z.shiftr_div_pow2 by lia. intros; clia.
Qed.

(** ** The overlay *)

Lemma pack_penalties_value c :
  bore_ctx_typed c →
  pack_penalties c
  = (((futex_waiting c * 2 ^ 8 + stop_update c) * 2 ^ 16 + penalty c) * 2 ^ 16
     + curr_penalty c) * 2 ^ 16 + prev_penalty c.
Proof.
  intros (_ & Hp & Hc & Hq & Hs & _). unfold pack_penalties.
  by rewrite !lor_shiftl_add by (lia || assumption).
Qed.

#[export] Instance bore_view_laws : KabiViewLaws bore_ctx.
Proof.
  split; cbn.
  - intros k (H1 & H2 & H3 & H4). unfold bore_ctx_typed; cbn.
    repeat split; try apply H1; try apply H3; try apply H4;
      apply wrapu_range; lia.
  - intros c k Hc _. unfold kabi_ok; cbn. rewrite pack_penalties_value by done.
    destruct Hc as (? & ? & ? & ? & ? & ? & ? & ?). repeat split; try done; clia.
  - intros c k Hc. rewrite !Z.shiftr_div_pow2, pack_penalties_value by (done || lia).
    destruct Hc as (? & ? & ? & ? & ? & ? & ? & ?), c; cbn in *. f_equal; clia.
  - intros [w1 w2 w3 w4] (H1 & H2 & H3 & H4); cbn in *.
    rewrite pack_penalties_value.
    + cbn. rewrite !Z.shiftr_div_pow2 by lia. f_equal; clia.
    + unfold bore_ctx_typed; cbn. repeat split; try apply H1; try apply H3;
        try apply H4; apply wrapu_range; lia.
  - done.
Qed.

Lemma bore_ctx_ok_zero : bore_ctx_ok bore_ctx_zero.
Proof. repeat split; vm_compute; congruence. Qed.

Lemma bore_load_zero : kv_load kabi_zero = bore_ctx_zero.
Proof. reflexivity. Qed.

(** ** Properties *)

(** C36: The packed representation loses nothing: the bit-fields of a cache
    word read back what was stored, truncated to 16 and 48 bits; a context
    written to the four reserved words reads back unchanged, and writing back
    what was read leaves the words as they were. *)
Theorem bore_layout_roundtrip p ts c k :
  bore_ctx_typed c → kabi_ok k →
  bc_penalty (mk_bc p ts) = u16 p ∧ bc_timestamp (mk_bc p ts) = wrapu 48 ts ∧
  kabi_ok (kv_store c k) ∧ kv_load (kv_store c k) = c ∧
  kv_store (kv_load (A:=bore_ctx) k) k = k.
Proof.
  intros Hc Hk.
  split_and!; [apply bc_penalty_mk|apply bc_timestamp_mk| | |].
  - by apply kv_store_ok.
  - by apply kv_load_store.
  - by apply kv_store_load.
Qed.

Lemma bore_layout_roundtrip_witness :
  kv_load (kv_store (BoreCtx 123456789 300 70 300 0 1 (mk_bc 80 7) (mk_bc 90 8))
             (Kabi 1 2 3 4))
  = BoreCtx 123456789 300 70 300 0 1 (mk_bc 80 7) (mk_bc 90 8) ∧
  kv_store (kv_load (A:=bore_ctx) (Kabi 1 2 3 4)) (Kabi 1 2 3 4) = Kabi 1 2 3 4.
Proof.
  apply (bore_layout_roundtrip 80 7
    (BoreCtx 123456789 300 70 300 0 1 (mk_bc 80 7) (mk_bc 90 8)) (Kabi 1 2 3 4));
    repeat split; vm_compute; congruence.
Defined.
