(* ===== verification/BoreInherit.v ===== *)
(** * Inheriting a penalty at fork (bore_sched_main.c, lines 58 to 226)

    A forked task inherits the average penalty of the children of its parent,
    of the tasks below its nearest ancestor with several children, or of the
    threads of its group.  The average is kept, with the time it was computed
    at, in a cache word of the task it belongs to. *)

From S2P Require Import Prelude KMonad Kernel BoreMath BoreCtx.

(** The two caches of a context. *)
Inductive bc_ref := Subtree | Group.

Definition bc_get (r : bc_ref) (c : bore_ctx) : Z :=
  match r with Subtree => subtree c | Group => group c end.

Definition bc_set (r : bc_ref) (v : Z) (c : bore_ctx) : bore_ctx :=
  match r with
  | Subtree => BoreCtx (burst_time c) (prev_penalty c) (curr_penalty c) (penalty c)
                 (stop_update c) (futex_waiting c) v (group c)
  | Group => BoreCtx (burst_time c) (prev_penalty c) (curr_penalty c) (penalty c)
               (stop_update c) (futex_waiting c) (subtree c) v
  end.

(** ** Definitions *)

Section inherit.
Context `{KernelHeaders} (T : tunables) (lut : list Z).

Definition bore_get_ctx (p : tid) : KM world bore_ctx := load_view (SeTask p).

Definition bore_put_ctx (p : tid) (c : bore_ctx) : KM world unit :=
  store_view (SeTask p) c.

Definition bore_task_is_eligible (p : task) : bool :=
  if negb (t_policy p =? SCHED_NORMAL) && negb (t_policy p =? SCHED_BATCH)
     && negb (t_policy p =? SCHED_IDLE)
  then false
  else if negb ((t_flags p &. PF_IDLE) =? 0) then false
  else true.

Definition count_children_upto2 (p : tid) : KM world Z :=
  t ← read_task p;
  match t_children t with
  | [] => mret 0
  | first :: rest => _ ← read_task first; mret (1 + b2z (bool_decide (rest ≠ [])))
  end.

Definition burst_cache_expired (value now : Z) : bool :=
  let timestamp := u64 (bc_timestamp value <<. BORE_BC_TIMESTAMP_SHIFT) in
  sched_burst_cache_lifetime T <? u64 (now - timestamp).

Definition update_burst_cache (bc : bc_ref) (p : tid) (count total now : Z) :
    KM world unit :=
  ctx ← bore_get_ctx p;
  average ← deref (cache_average lut count total);
  bore_put_ctx p
    (bc_set bc
       (mk_bc (Z.max average (penalty ctx)) (now >>. BORE_BC_TIMESTAMP_SHIFT)) ctx).

(** The loop over the tasks of a list: [visit] is the descent from an
    element to the task whose penalty is taken. *)
Fixpoint sample_penalties (visit : tid → KM world tid) (l : list tid)
    (count total scan_count : Z) : KM world (Z * Z) :=
  match l with
  | [] => mret (count, total)
  | x :: l' =>
      if BURST_CACHE_SAMPLE_LIMIT <=? count then mret (count, total)
      else if BURST_CACHE_SCAN_LIMIT <=? scan_count then mret (count, total)
      else
        d ← visit x;
        p ← read_task d;
        if negb (bore_task_is_eligible p)
        then sample_penalties visit l' count total (u32 (scan_count + 1))
        else
          ctx ← bore_get_ctx d;
          sample_penalties visit l' (u32 (count + 1))
            (u32 (total + penalty ctx)) (u32 (scan_count + 1))
  end.

(** The shared tail of the three functions: refresh the cache of [p] if it
    has expired, then read it. *)
Definition read_burst_cache (bc : bc_ref) (p : tid)
    (scan : KM world (Z * Z)) (now : Z) : KM world Z :=
  ctx ← bore_get_ctx p;
  _ ← (if burst_cache_expired (bc_get bc ctx) now then
         ct ← scan;
         update_burst_cache bc p (fst ct) (snd ct) now
       else mret tt);
  ctx ← bore_get_ctx p;
  mret (bc_penalty (bc_get bc ctx)).

Definition inherit_from_parent (parent : task_ptr) (clone_flags now : Z) :
    KM world Z :=
  parent ← (if (clone_flags &. CLONE_PARENT) =? 0 then mret parent
            else p ← deref parent; rcu_access ;; t ← read_task p;
                 mret (t_real_parent t));
  match parent with
  | None => mret 0
  | Some p =>
      read_burst_cache Subtree p
        (rcu_access ;; t ← read_task p;
         sample_penalties mret (t_children t) 0 0 0) now
  end.

(** The [while] loop towards the root. *)
Fixpoint climb (fuel : nat) (ancestor : tid) (sole_child_count : Z) :
    KM world tid :=
  match fuel with
  | O => out_of_fuel
  | S f =>
      rcu_access ;;
      t ← read_task ancestor;
      match t_real_parent t with
      | None => mret ancestor
      | Some next =>
          if decide (next = ancestor) then mret ancestor
          else
            n ← count_children_upto2 ancestor;
            if n <=? sole_child_count then climb f next 1 else mret ancestor
      end
  end.

(** The inner [while] loop, through tasks with a single child. *)
Fixpoint descend (fuel : nat) (descendant : tid) : KM world tid :=
  match fuel with
  | O => out_of_fuel
  | S f =>
      n ← count_children_upto2 descendant;
      if n =? 1 then
        rcu_access ;;
        t ← read_task descendant;
        match t_children t with
        | [] => mret descendant
        | next_descendant :: _ => descend f next_descendant
        end
      else mret descendant
  end.

Definition loop_fuel : KM world nat := gets (λ w, S (size (w_tasks w))).

Definition inherit_from_ancestor_hub (parent : task_ptr) (clone_flags now : Z) :
    KM world Z :=
  fuel ← loop_fuel;
  as_ ← (if (clone_flags &. CLONE_PARENT) =? 0 then mret (parent, 0)
         else p ← deref parent; rcu_access ;; t ← read_task p;
              mret (t_real_parent t, 1));
  match fst as_ with
  | None => mret 0
  | Some a0 =>
      a ← climb fuel a0 (snd as_);
      read_burst_cache Subtree a
        (rcu_access ;; t ← read_task a;
         sample_penalties (descend fuel) (t_children t) 0 0 0) now
  end.

Definition inherit_from_thread_group (p : tid) (now : Z) : KM world Z :=
  t ← read_task p;
  match t_group_leader t with
  | None => mret 0
  | Some leader =>
      read_burst_cache Group leader
        (rcu_access ;; l ← read_task leader;
         threads ← deref (t_signal l);
         sample_penalties mret threads 0 0 0) now
  end.
End inherit.

(** ** What the functions compute *)

Section inherit_spec.
Context `{KernelHeaders}.

Definition ctx_of (p : task) : bore_ctx := view_of p.

Definition eligible_at (w : world) (t : tid) : bool :=
  match w_tasks w !! t with Some p => bore_task_is_eligible p | None => false end.

Definition penalty_at (w : world) (t : tid) : Z :=
  match w_tasks w !! t with Some p => penalty (ctx_of p) | None => 0 end.

(** The tasks a scan of [l] takes into account: among the first 126, the
    eligible ones, at most 63. *)
Definition samples (w : world) (l : list tid) : list tid :=
  take 63 (List.filter (eligible_at w) (take 126 l)).

Definition sum_penalties (w : world) (l : list tid) : Z :=
  foldr (λ t a, penalty_at w t + a) 0 l.

Definition average_penalty (w : world) (l : list tid) : Z :=
  average (Z.of_nat (length l)) (sum_penalties w l).

(** [a] has no parent other than itself. *)
Definition is_root (w : world) (a : tid) : Prop :=
  ∃ p, w_tasks w !! a = Some p ∧
    (t_real_parent p = None ∨ t_real_parent p = Some a).

Definition num_children (w : world) (a : tid) : nat :=
  match w_tasks w !! a with Some p => length (t_children p) | None => 0 end.

(** [hub w sole a h]: [h] is the first task on the way from [a] to the root
    that is the root or has more children than the one the walk came
    from ([sole] of them at the start). *)
Inductive hub (w : world) : Z → tid → tid → Prop :=
  | hub_here sole a :
      is_root w a ∨ sole < Z.of_nat (num_children w a) → hub w sole a a
  | hub_up sole a p n h :
      w_tasks w !! a = Some p → t_real_parent p = Some n → n ≠ a →
      Z.of_nat (num_children w a) <= sole → hub w 1 n h → hub w sole a h.

(** [leaf w d l]: [l] is reached from [d] through tasks with one child and
    has no child or several. *)
Inductive leaf (w : world) : tid → tid → Prop :=
  | leaf_here d : num_children w d ≠ 1%nat → leaf w d d
  | leaf_down d p c l :
      w_tasks w !! d = Some p → t_children p = [c] → leaf w c l → leaf w d l.

(** The penalty read through the cache [bc] of task [t] with context [c],
    when a refresh would average the tasks [l]. *)
Definition inherited_value (T : tunables) (w : world) (bc : bc_ref)
    (c : bore_ctx) (l : list tid) (now : Z) : Z :=
  if burst_cache_expired T (bc_get bc c) now
  then Z.max (average_penalty w l) (penalty c)
  else bc_penalty (bc_get bc c).

Definition inherited_ctx (T : tunables) (w : world) (bc : bc_ref)
    (c : bore_ctx) (l : list tid) (now : Z) : bore_ctx :=
  if burst_cache_expired T (bc_get bc c) now
  then bc_set bc (mk_bc (Z.max (average_penalty w l) (penalty c))
                    (now >>. BORE_BC_TIMESTAMP_SHIFT)) c
  else c.

(** A change of a context that leaves everything but its caches. *)
Definition same_but_caches (c c' : bore_ctx) : Prop :=
  burst_time c' = burst_time c ∧ prev_penalty c' = prev_penalty c ∧
  curr_penalty c' = curr_penalty c ∧ penalty c' = penalty c ∧
  stop_update c' = stop_update c ∧ futex_waiting c' = futex_waiting c.

Definition other_bc (bc : bc_ref) : bc_ref :=
  match bc with Subtree => Group | Group => Subtree end.

(** From [w] to [w'] at most the cache [bc] of task [t] changed: when it had
    expired it now holds [r] with the time of [now], otherwise it is as it was. *)
Definition only_cache_written (T : tunables) (bc : bc_ref) (t : tid) (now r : Z)
    (w w' : world) : Prop :=
  (∀ t', t' ≠ t → w_tasks w' !! t' = w_tasks w !! t') ∧
  w_groups w' = w_groups w ∧ w_rcu w' = w_rcu w ∧
  ∃ p p', w_tasks w !! t = Some p ∧ w_tasks w' !! t = Some p' ∧ bare p' = bare p ∧
    same_but_caches (ctx_of p) (ctx_of p') ∧
    bc_get (other_bc bc) (ctx_of p') = bc_get (other_bc bc) (ctx_of p) ∧
    bc_get bc (ctx_of p')
    = (if burst_cache_expired T (bc_get bc (ctx_of p)) now
       then mk_bc r (now >>. BORE_BC_TIMESTAMP_SHIFT)
       else bc_get bc (ctx_of p)).

(** Every task carries a context in range. *)
Definition bore_world_ok (w : world) : Prop :=
  ∀ t p, w_tasks w !! t = Some p → bore_ctx_ok (ctx_of p).
End inherit_spec.

(** ** Proofs *)

Section inherit_facts.
Context `{KernelHeaders} (T : tunables).

Lemma bore_get_ctx_run w t p :
  w_tasks w !! t = Some p → bore_get_ctx t w = Done (ctx_of p, w).
Proof. apply load_view_run. Qed.

Lemma bore_put_ctx_run w t p c :
  w_tasks w !! t = Some p → bore_put_ctx t c w = Done (tt, put_view t c w).
Proof. apply store_view_run. Qed.

Lemma ctx_of_put c p :
  bore_ctx_typed c →
  ctx_of (task_set_kabi (kv_store c (se_kabi (t_se p))) p) = c.
Proof. intros Hc. apply kv_load_store, Hc. Qed.

Lemma penalty_at_range w t :
  bore_world_ok w → 0 <= penalty_at w t <= MAX_BURST_PENALTY.
Proof.
  intros Hw. unfold penalty_at. destruct (w_tasks w !! t) as [p|] eqn:Hp.
  - destruct (Hw t p Hp) as ((_ & _ & _ & Ht & _) & _ & _ & Hm & _).
    unfold in_u in Ht. lia.
  - by rewrite max_burst_penalty_val.
Qed.

Lemma sum_penalties_range w l :
  bore_world_ok w →
  0 <= sum_penalties w l <= Z.of_nat (length l) * MAX_BURST_PENALTY.
Proof.
  intros Hw. induction l as [|t l IH]; cbn [sum_penalties foldr length]; [lia|].
  fold (sum_penalties w l). pose proof (penalty_at_range w t Hw). lia.
Qed.

Lemma average_penalty_range w l :
  bore_world_ok w → 0 <= average_penalty w l <= MAX_BURST_PENALTY.
Proof.
  intros Hw. unfold average_penalty, average.
  pose proof (sum_penalties_range w l Hw) as Hs. rewrite max_burst_penalty_val in *.
  destruct (Z.eqb_spec (Z.of_nat (length l)) 0); [lia|].
  split; [apply Z.div_pos; lia|apply Z.div_le_upper_bound; lia].
Qed.

Lemma length_samples w l : (length (samples w l) <= 63)%nat.
Proof. unfold samples. rewrite length_take. lia. Qed.

(** The scan is the reference selection. *)
Lemma sample_penalties_run visit f w l c t sc :
  bore_world_ok w →
  (∀ x, x ∈ l → visit x w = Done (f x, w) ∧ is_Some (w_tasks w !! f x)) →
  0 <= c <= 63 → 0 <= sc <= 126 → 0 <= t <= c * MAX_BURST_PENALTY →
  let xs := take (Z.to_nat (63 - c))
              (List.filter (eligible_at w) (take (Z.to_nat (126 - sc)) (f <$> l))) in
  sample_penalties visit l c t sc w
  = Done ((c + Z.of_nat (length xs), t + sum_penalties w xs), w).
Proof.
  intros Hw. rewrite max_burst_penalty_val. revert c t sc.
  induction l as [|x l IH]; intros c t sc Hv Hc Hsc Ht; cbn [sample_penalties].
  { cbn [fmap list_fmap]. rewrite take_nil. cbn. rewrite take_nil. cbn.
    by rewrite !Z.add_0_r. }
  unfold BURST_CACHE_SAMPLE_LIMIT, BURST_CACHE_SCAN_LIMIT.
  destruct (Z.leb_spec 63 c).
  { replace (Z.to_nat (63 - c)) with 0%nat by lia. cbn. by rewrite !Z.add_0_r. }
  destruct (Z.leb_spec 126 sc).
  { replace (Z.to_nat (126 - sc)) with 0%nat by lia.
    rewrite take_0. cbn [List.filter]. rewrite take_nil. cbn. by rewrite !Z.add_0_r. }
  destruct (Hv x ltac:(left)) as [Hx [p Hp]].
  assert (∀ y, y ∈ l → visit y w = Done (f y, w) ∧ is_Some (w_tasks w !! f y)) as Hv'
    by (intros y Hy; apply Hv; by right).
  krun Hx. krun (read_task_run w _ p Hp).
  replace (Z.to_nat (126 - sc)) with (S (Z.to_nat (126 - (sc + 1)))) by lia.
  cbn [fmap list_fmap take List.filter].
  assert (eligible_at w (f x) = bore_task_is_eligible p) as ->
    by (unfold eligible_at; by rewrite Hp).
  assert (penalty (ctx_of p) = penalty_at w (f x)) as Hpen
    by (unfold penalty_at; by rewrite Hp).
  rewrite (wrapu_small 32 (sc + 1)) by (unfold in_u; pow2_norm; lia).
  destruct (bore_task_is_eligible p) eqn:He; cbn [negb].
  2:{ by rewrite IH by (done || lia). }
  krun (bore_get_ctx_run w _ p Hp).
  replace (Z.to_nat (63 - c)) with (S (Z.to_nat (63 - (c + 1)))) by lia.
  cbn [take length sum_penalties foldr].
  destruct (Hw _ _ Hp) as ((_ & _ & _ & [Hpl _] & _) & _ & _ & Hpm & _).
  rewrite max_burst_penalty_val in Hpm. rewrite Hpen in *.
  rewrite (wrapu_small 32 (c + 1)), (wrapu_small 32 (t + _))
    by (unfold in_u; pow2_norm; lia).
  rewrite IH by (done || lia). fold (sum_penalties w).
  do 2 f_equal. f_equal; [lia|]. unfold sum_penalties. lia.
Qed.

Lemma sample_penalties_samples visit f w l :
  bore_world_ok w →
  (∀ x, x ∈ l → visit x w = Done (f x, w) ∧ is_Some (w_tasks w !! f x)) →
  sample_penalties visit l 0 0 0 w
  = Done ((Z.of_nat (length (samples w (f <$> l))),
           sum_penalties w (samples w (f <$> l))), w).
Proof.
  intros Hw Hv.
  rewrite (sample_penalties_run visit f w l 0 0 0 Hw Hv)
    by (rewrite ?max_burst_penalty_val; lia).
  rewrite !Z.add_0_l. done.
Qed.

Lemma bc_set_typed bc v c :
  in_u 64 v → bore_ctx_typed c → bore_ctx_typed (bc_set bc v c).
Proof. intros Hv (?&?&?&?&?&?&?&?). destruct bc; unfold bore_ctx_typed; cbn; tauto. Qed.

Lemma bc_get_set bc v c : bc_get bc (bc_set bc v c) = v.
Proof. by destruct bc. Qed.

Lemma inherited_ctx_ok w bc c l now :
  bore_world_ok w → bore_ctx_ok c → bore_ctx_ok (inherited_ctx T w bc c l now).
Proof.
  intros Hw Hok. unfold inherited_ctx. case_match; [|done].
  destruct Hok as (Htyp & ? & ? & Hp & ? & ?).
  pose proof (average_penalty_range w l Hw) as Ha.
  set (v := mk_bc _ _).
  assert (bc_penalty v <= MAX_BURST_PENALTY) as Hv.
  { unfold v. rewrite bc_penalty_mk.
    destruct Htyp as (_ & _ & _ & [? _] & _).
    rewrite max_burst_penalty_val in *.
    rewrite wrapu_small; [lia|unfold in_u; pow2_norm; lia]. }
  split; [apply bc_set_typed; [apply mk_bc_in_u|done]|].
  destruct bc; cbn; auto.
Qed.

Lemma inherited_value_range w bc c l now :
  bore_world_ok w → bore_ctx_ok c →
  0 <= inherited_value T w bc c l now <= MAX_BURST_PENALTY.
Proof.
  intros Hw (Htyp & _ & _ & Hp & Hs & Hg). unfold inherited_value.
  pose proof (average_penalty_range w l Hw) as Ha.
  destruct Htyp as (_ & _ & _ & [? _] & _ & _ & Hsu & Hgu).
  pose proof (bc_penalty_in_u _ Hsu) as [? _]. pose proof (bc_penalty_in_u _ Hgu) as [? _].
  case_match; [lia|]. destruct bc; cbn; lia.
Qed.

(** Reading a cache: the value, and the context written back. *)
Lemma read_burst_cache_run bc scan l now w t p :
  bore_world_ok w → w_tasks w !! t = Some p →
  scan w = Done ((Z.of_nat (length (samples w l)),
                  sum_penalties w (samples w l)), w) →
  ∃ w', read_burst_cache T bore_lut bc t scan now w
        = Done (inherited_value T w bc (ctx_of p) (samples w l) now, w') ∧
        (w' = w ∨ w' = put_view t (inherited_ctx T w bc (ctx_of p) (samples w l) now) w) ∧
        (burst_cache_expired T (bc_get bc (ctx_of p)) now = true →
         w' = put_view t (inherited_ctx T w bc (ctx_of p) (samples w l) now) w).
Proof.
  intros Hw Hp Hscan. pose proof (Hw t p Hp) as Hok.
  pose proof (inherited_ctx_ok w bc (ctx_of p) (samples w l) now Hw Hok) as [Htyp _].
  unfold read_burst_cache. krun (bore_get_ctx_run w t p Hp).
  unfold inherited_value, inherited_ctx in *.
  destruct (burst_cache_expired T (bc_get bc (ctx_of p)) now).
  2:{ kred. krun (bore_get_ctx_run w t p Hp). eexists; split_and!; [done|by left|done]. }
  krun Hscan. cbn [fst snd]. unfold update_burst_cache.
  krun (bore_get_ctx_run w t p Hp).
  pose proof (length_samples w l). pose proof (sum_penalties_range w (samples w l) Hw) as Hs.
  rewrite max_burst_penalty_val in Hs.
  erewrite bind_deref by (apply cache_average_value; lia). fold (average_penalty w (samples w l)).
  krun (bore_put_ctx_run w t p _ Hp).
  eexists. krun (bore_get_ctx_run _ t _ (put_view_lookup_eq t _ w p Hp)).
  rewrite ctx_of_put, bc_get_set, bc_penalty_mk by done.
  split_and!; [|by right|done].
  pose proof (average_penalty_range w (samples w l) Hw) as Ha.
  destruct Hok as ((_ & _ & _ & [? _] & _) & _ & _ & Hm & _).
  rewrite max_burst_penalty_val in *.
  rewrite wrapu_small by (unfold in_u; pow2_norm; lia). done.
Qed.
End inherit_facts.

(** ** The walks *)

Section walks.
Context `{KernelHeaders} (T : tunables) (rank : tid → nat).

Lemma count_children_upto2_run w t p :
  tree_ok rank w → w_tasks w !! t = Some p →
  count_children_upto2 t w = Done (Z.min 2 (Z.of_nat (num_children w t)), w).
Proof.
  intros Hw Hp. unfold count_children_upto2, num_children.
  krun (read_task_run w t p Hp). rewrite Hp.
  destruct (t_children p) as [|c l] eqn:Hc; [done|].
  destruct (tk_child rank w Hw t p c Hp ltac:(rewrite Hc; left)) as [[pc Hpc] _].
  krun (read_task_run w c pc Hpc). destruct l; [done|].
  rewrite bool_decide_eq_true_2 by done. unfold mret, km_ret. do 2 f_equal.
  cbn [b2z length]. lia.
Qed.

Lemma climb_run w fuel a sole :
  tree_ok rank w → (0 < w_rcu w)%nat → is_Some (w_tasks w !! a) →
  (rank a < fuel)%nat → 0 <= sole <= 1 →
  ∃ h, climb fuel a sole w = Done (h, w) ∧ hub w sole a h ∧
       is_Some (w_tasks w !! h).
Proof.
  intros Hw Hrcu. revert a sole.
  induction fuel as [|fuel IH]; intros a sole [p Hp] Hr Hs; [lia|].
  cbn [climb]. krun (rcu_access_run w Hrcu). krun (read_task_run w a p Hp).
  destruct (t_real_parent p) as [n|] eqn:Hn.
  2:{ exists a. split_and!; [done| |by eauto].
      apply hub_here. left. exists p. auto. }
  destruct (decide (n = a)) as [->|Hne].
  { exists a. split_and!; [done| |by eauto].
    apply hub_here. left. exists p. auto. }
  krun (count_children_upto2_run w a p Hw Hp).
  destruct (tk_parent rank w Hw a p n Hp Hn) as [Hnsome Hrank].
  destruct (Z.leb_spec (Z.min 2 (Z.of_nat (num_children w a))) sole).
  - destruct (IH n 1 Hnsome) as (h & Hrun & Hhub & Hh).
    { specialize (Hrank Hne). lia. } { lia. }
    exists h. split_and!; [done| |done].
    eapply hub_up; eauto. lia.
  - exists a. split_and!; [done| |by eauto]. apply hub_here. right. lia.
Qed.

Lemma descend_run w fuel d :
  tree_ok rank w → (0 < w_rcu w)%nat → is_Some (w_tasks w !! d) →
  (size (w_tasks w) - rank d < fuel)%nat →
  ∃ l, descend fuel d w = Done (l, w) ∧ leaf w d l ∧ is_Some (w_tasks w !! l).
Proof.
  intros Hw Hrcu. revert d.
  induction fuel as [|fuel IH]; intros d [p Hp] Hr; [lia|].
  cbn [descend]. krun (count_children_upto2_run w d p Hw Hp).
  assert (num_children w d = length (t_children p)) as Hnum
    by (unfold num_children; by rewrite Hp).
  destruct (Z.eqb_spec (Z.min 2 (Z.of_nat (num_children w d))) 1).
  2:{ exists d. split_and!; [done| |by eauto]. apply leaf_here. lia. }
  krun (rcu_access_run w Hrcu). krun (read_task_run w d p Hp).
  destruct (t_children p) as [|c [|c' l']] eqn:Hc; cbn in Hnum; [lia| |lia].
  destruct (tk_child rank w Hw d p c Hp ltac:(rewrite Hc; left)) as [Hcs Hrank].
  pose proof (tk_bound rank w Hw d p Hp).
  destruct (IH c Hcs ltac:(lia)) as (l & Hrun & Hleaf & Hl).
  exists l. split_and!; [done| |done]. by eapply leaf_down.
Qed.

Definition leaf_of (fuel : nat) (w : world) (d : tid) : tid :=
  match descend fuel d w with Done (l, _) => l | _ => d end.

(** The task whose cache [inherit_from_parent] and [inherit_from_ancestor_hub]
    start from. *)
Definition first_owner (w : world) (parent : tid) (clone_flags : Z) : task_ptr :=
  if (clone_flags &. CLONE_PARENT) =? 0 then Some parent
  else match w_tasks w !! parent with Some p => t_real_parent p | None => None end.

(** What a run of an inherit function that ends in the cache [bc] of task
    [t], refreshed from the tasks [l], does. *)
Definition inherit_result (w : world) (bc : bc_ref) (t : tid) (l : list tid)
    (now r : Z) (w' : world) : Prop :=
  ∃ p, w_tasks w !! t = Some p ∧
    r = inherited_value T w bc (ctx_of p) (samples w l) now ∧
    w' = (if burst_cache_expired T (bc_get bc (ctx_of p)) now
          then put_view t (inherited_ctx T w bc (ctx_of p) (samples w l) now) w
          else w).

Lemma read_burst_cache_result bc scan l now w t p :
  bore_world_ok w → w_tasks w !! t = Some p →
  scan w = Done ((Z.of_nat (length (samples w l)),
                  sum_penalties w (samples w l)), w) →
  ∃ r w', read_burst_cache T bore_lut bc t scan now w = Done (r, w') ∧
          inherit_result w bc t l now r w'.
Proof.
  intros Hw Hp Hscan.
  destruct (read_burst_cache_run T bc scan l now w t p Hw Hp Hscan)
    as (w' & Hrun & Hor & Hexp).
  eexists _, w'. split; [exact Hrun|]. exists p. split_and!; [done|done|].
  destruct (burst_cache_expired T (bc_get bc (ctx_of p)) now) eqn:He; [auto|].
  destruct Hor as [|Hput]; [done|]. unfold read_burst_cache in Hrun.
  rewrite (bind_done _ _ _ _ _ (bore_get_ctx_run w t p Hp)), He in Hrun.
  revert Hrun. kred.
  rewrite (bind_done _ _ _ _ _ (bore_get_ctx_run w t p Hp)). kred.
  by intros [= _ <-].
Qed.

Lemma inherit_from_parent_run w parent clone_flags now :
  tree_ok rank w → bore_world_ok w → (0 < w_rcu w)%nat →
  is_Some (w_tasks w !! parent) →
  match first_owner w parent clone_flags with
  | None => inherit_from_parent T bore_lut (Some parent) clone_flags now w = Done (0, w)
  | Some t => ∃ p r w',
      inherit_from_parent T bore_lut (Some parent) clone_flags now w = Done (r, w') ∧
      w_tasks w !! t = Some p ∧
      inherit_result w Subtree t (t_children p) now r w'
  end.
Proof.
  intros Htree Hw Hrcu [pp Hpp].
  assert (∀ t p, w_tasks w !! t = Some p → ∃ p' r w',
    read_burst_cache T bore_lut Subtree t
      (rcu_access ;; t0 ← read_task t;
       sample_penalties mret (t_children t0) 0 0 0) now w = Done (r, w') ∧
    w_tasks w !! t = Some p' ∧
    inherit_result w Subtree t (t_children p') now r w') as Htail.
  { intros t p Hp. exists p.
    destruct (read_burst_cache_result Subtree
      (rcu_access ;; t0 ← read_task t;
       sample_penalties mret (t_children t0) 0 0 0)
      (t_children p) now w t p Hw Hp) as (r & w' & ? & ?); [|by eauto 6].
    krun (rcu_access_run w Hrcu). krun (read_task_run w t p Hp).
    rewrite (sample_penalties_samples mret id w) by
      (done || (intros x Hx; split; [done|]; eapply tk_child; eauto)).
    by rewrite list_fmap_id. }
  unfold first_owner, inherit_from_parent.
  destruct (Z.eqb_spec (clone_flags &. CLONE_PARENT) 0).
  - kred. by eapply Htail.
  - kred. erewrite bind_deref by done. krun (rcu_access_run w Hrcu).
    krun (read_task_run w parent pp Hpp). rewrite Hpp.
    destruct (t_real_parent pp) as [q|] eqn:Hq; [|done].
    destruct (tk_parent rank w Htree parent pp q Hpp Hq) as [[pq Hpq] _].
    by eapply Htail.
Qed.

(** The scan below the hub: each child of the hub stands for the leaf its
    chain of single children ends in. *)
Lemma hub_scan_run w fuel a p :
  tree_ok rank w → bore_world_ok w → (0 < w_rcu w)%nat →
  w_tasks w !! a = Some p → (size (w_tasks w) < fuel)%nat →
  ∃ ls, Forall2 (leaf w) (t_children p) ls ∧
    (rcu_access ;; t ← read_task a;
     sample_penalties (descend fuel) (t_children t) 0 0 0) w
    = Done ((Z.of_nat (length (samples w ls)), sum_penalties w (samples w ls)), w).
Proof.
  intros Htree Hw Hrcu Hp Hfuel.
  assert (∀ x, x ∈ t_children p → descend fuel x w = Done (leaf_of fuel w x, w) ∧
            leaf w x (leaf_of fuel w x) ∧ is_Some (w_tasks w !! leaf_of fuel w x)) as Hd.
  { intros x Hx. destruct (tk_child rank w Htree a p x Hp Hx) as [Hxs _].
    destruct (descend_run w fuel x Htree Hrcu Hxs ltac:(lia)) as (l & Hrun & ?).
    unfold leaf_of. by rewrite Hrun. }
  exists (leaf_of fuel w <$> t_children p). split.
  - apply Forall2_fmap_r, Forall_Forall2_diag, Forall_forall.
    intros x Hx. by apply Hd.
  - krun (rcu_access_run w Hrcu). krun (read_task_run w a p Hp).
    apply sample_penalties_samples; [done|].
    intros x Hx. destruct (Hd x Hx) as (? & _ & ?). done.
Qed.

Lemma inherit_from_ancestor_hub_run w parent clone_flags now :
  tree_ok rank w → bore_world_ok w → (0 < w_rcu w)%nat →
  is_Some (w_tasks w !! parent) →
  match first_owner w parent clone_flags with
  | None =>
      inherit_from_ancestor_hub T bore_lut (Some parent) clone_flags now w
      = Done (0, w)
  | Some a => ∃ h p ls r w',
      inherit_from_ancestor_hub T bore_lut (Some parent) clone_flags now w
      = Done (r, w') ∧
      hub w (b2z (negb ((clone_flags &. CLONE_PARENT) =? 0))) a h ∧
      w_tasks w !! h = Some p ∧ Forall2 (leaf w) (t_children p) ls ∧
      inherit_result w Subtree h ls now r w'
  end.
Proof.
  intros Htree Hw Hrcu [pp Hpp].
  assert (∀ a s, is_Some (w_tasks w !! a) → 0 <= s <= 1 → ∃ h p ls r w',
    (a' ← climb (S (size (w_tasks w))) a s;
     read_burst_cache T bore_lut Subtree a'
       (rcu_access ;; t ← read_task a';
        sample_penalties (descend (S (size (w_tasks w)))) (t_children t) 0 0 0) now) w
    = Done (r, w') ∧ hub w s a h ∧
    w_tasks w !! h = Some p ∧ Forall2 (leaf w) (t_children p) ls ∧
    inherit_result w Subtree h ls now r w') as Htail.
  { intros a s [pa Hpa] Hs. pose proof (tk_bound rank w Htree a pa Hpa).
    destruct (climb_run w (S (size (w_tasks w))) a s) as (h & Hrun & Hhub & [p Hp]);
      [done..|eauto|lia|done|].
    destruct (hub_scan_run w (S (size (w_tasks w))) h p) as (ls & Hls & Hscan);
      [done..|lia|].
    edestruct (read_burst_cache_result Subtree _ ls now w h p Hw Hp Hscan)
      as (r & w' & Hread & Hres).
    exists h, p, ls, r, w'. split_and!; [|done..]. by krun Hrun. }
  unfold first_owner, inherit_from_ancestor_hub, loop_fuel.
  destruct (Z.eqb_spec (clone_flags &. CLONE_PARENT) 0).
  - kred. cbn [fst snd b2z negb]. by apply Htail; [eauto|lia].
  - kred. erewrite bind_deref by done. krun (rcu_access_run w Hrcu).
    krun (read_task_run w parent pp Hpp). rewrite Hpp.
    destruct (t_real_parent pp) as [q|] eqn:Hq; [|done]. cbn [fst snd b2z negb].
    destruct (tk_parent rank w Htree parent pp q Hpp Hq) as [[pq Hpq] _].
    by apply Htail; [eauto|lia].
Qed.

Lemma inherit_from_thread_group_run w p pp now :
  tree_ok rank w → bore_world_ok w → (0 < w_rcu w)%nat →
  w_tasks w !! p = Some pp →
  match t_group_leader pp with
  | None => inherit_from_thread_group T bore_lut p now w = Done (0, w)
  | Some l => ∃ pl threads r w',
      inherit_from_thread_group T bore_lut p now w = Done (r, w') ∧
      w_tasks w !! l = Some pl ∧ t_signal pl = Some threads ∧
      inherit_result w Group l threads now r w'
  end.
Proof.
  intros Htree Hw Hrcu Hpp. unfold inherit_from_thread_group.
  krun (read_task_run w p pp Hpp).
  destruct (t_group_leader pp) as [l|] eqn:Hl; [|done].
  destruct (tk_leader rank w Htree p pp l Hpp Hl) as (pl & ths & Hpl & Hths & Hin).
  edestruct (read_burst_cache_result Group
    (rcu_access ;; l0 ← read_task l; threads ← deref (t_signal l0);
     sample_penalties mret threads 0 0 0) ths now w l pl Hw Hpl)
    as (r & w' & Hrun & Hres).
  - krun (rcu_access_run w Hrcu). krun (read_task_run w l pl Hpl).
    erewrite bind_deref by done.
    rewrite (sample_penalties_samples mret id w) by (done || (intros x Hx; split; auto)).
    by rewrite list_fmap_id.
  - exists pl, ths, r, w'. done.
Qed.

(** Inheriting changes nothing of a context but its caches. *)
Lemma inherited_ctx_same w bc c l now :
  same_but_caches c (inherited_ctx T w bc c l now).
Proof. unfold inherited_ctx. case_match; [by destruct bc|done]. Qed.

Lemma inherit_result_caches w bc t l now r w' :
  bore_world_ok w → inherit_result w bc t l now r w' →
  ∀ t' p p', w_tasks w !! t' = Some p → w_tasks w' !! t' = Some p' →
  same_but_caches (ctx_of p) (ctx_of p').
Proof.
  intros Hw (q & Hq & _ & ->) t' p p' Hp Hp'.
  assert (w_tasks w !! t' = Some p' → same_but_caches (ctx_of p) (ctx_of p')) as Hsame.
  { intros Hp2. rewrite Hp in Hp2. apply (inj Some) in Hp2. by subst. }
  case_match; [|auto].
  destruct (decide (t = t')) as [<-|Hne].
  - rewrite Hp in Hq. apply (inj Some) in Hq. subst q.
    rewrite (put_view_lookup_eq _ _ _ _ Hp) in Hp'. apply (inj Some) in Hp'. subst p'.
    rewrite ctx_of_put by (apply inherited_ctx_ok; eauto).
    apply inherited_ctx_same.
  - rewrite put_view_lookup_ne in Hp' by done. auto.
Qed.

(** Whatever the cache, an inherit function returns a penalty in range and
    leaves a world with the same links and contexts in range. *)
Lemma inherit_result_safe w bc t l now r w' :
  bore_world_ok w → inherit_result w bc t l now r w' →
  0 <= r <= MAX_BURST_PENALTY ∧ bore_world_ok w' ∧ same_links w' w ∧
  ∀ t', t' ≠ t → w_tasks w' !! t' = w_tasks w !! t'.
Proof.
  intros Hw (p & Hp & -> & ->). pose proof (Hw t p Hp) as Hok.
  split; [by apply inherited_value_range|].
  pose proof (inherited_ctx_ok T w bc (ctx_of p) (samples w l) now Hw Hok) as Hok'.
  case_match; [|done]. split_and!.
  - intros t' p'. destruct (decide (t = t')) as [<-|Hne].
    + rewrite (put_view_lookup_eq _ _ _ _ Hp).
      intros Heq%(inj Some). subst p'. by rewrite ctx_of_put by apply Hok'.
    + rewrite put_view_lookup_ne by done. apply Hw.
  - apply put_view_same_links.
  - intros t' Hne. by apply put_view_lookup_ne.
Qed.

(** What it writes is the cache it read through. *)
Lemma inherit_result_written w bc t l now r w' :
  bore_world_ok w → inherit_result w bc t l now r w' →
  only_cache_written T bc t now r w w'.
Proof.
  intros Hw Hres. pose proof (inherit_result_caches _ _ _ _ _ _ _ Hw Hres t) as Hsame.
  destruct (inherit_result_safe _ _ _ _ _ _ _ Hw Hres) as (_ & _ & (_ & _ & Hrcu) & Hne).
  destruct Hres as (p & Hp & -> & E). pose proof (Hw t p Hp) as Hok.
  pose proof (inherited_ctx_ok T w bc (ctx_of p) (samples w l) now Hw Hok) as [Htyp _].
  unfold inherited_value. split; [done|].
  destruct (burst_cache_expired T (bc_get bc (ctx_of p)) now) eqn:He; subst w'.
  - pose proof (put_view_lookup_eq t (inherited_ctx T w bc (ctx_of p) (samples w l) now) w p Hp)
      as Hp'.
    split; [unfold put_view; by rewrite Hp|]. split; [done|]. eexists p, _.
    split; [done|]. split; [exact Hp'|]. split; [done|]. split; [by eapply Hsame|].
    rewrite ctx_of_put by done. unfold inherited_ctx. rewrite He. by destruct bc.
  - split; [done|]. split; [done|]. exists p, p. rewrite He. by split_and!.
Qed.
End walks.
