(* ===== verification/SampleWorld.v ===== *)
(** * A small process tree

    Executable checks of the well-formedness of a world, and a concrete tree
    that passes them: the theorems with hypotheses about worlds are applied
    to it. *)

From S2P Require Import Prelude KMonad Kernel BoreMath BoreCtx BoreInherit.

(** ** Checks *)

Definition task_tree_okb (rank : tid → nat) (w : world) (tp : tid * task) : bool :=
  let '(t, p) := tp in
  (rank t <? size (w_tasks w))%nat &&
  match t_real_parent p with
  | None => true
  | Some q => is_someb (w_tasks w !! q) &&
              (bool_decide (q = t) || (rank q <? rank t)%nat)
  end &&
  forallb (λ c, is_someb (w_tasks w !! c) && (rank t <? rank c)%nat) (t_children p) &&
  match t_group_leader p with
  | None => true
  | Some l =>
      match w_tasks w !! l with
      | Some pl =>
          match t_signal pl with
          | Some threads => forallb (λ x, is_someb (w_tasks w !! x)) threads
          | None => false
          end
      | None => false
      end
  end.

Definition tree_okb (rank : tid → nat) (w : world) : bool :=
  forallb (task_tree_okb rank w) (map_to_list (w_tasks w)).

Lemma forallb_lookup {A} (f : tid * A → bool) (m : gmap tid A) t p :
  forallb f (map_to_list m) = true → m !! t = Some p → f (t, p) = true.
Proof.
  rewrite forallb_forall. intros Hall Hp. apply Hall.
  apply list_elem_of_In, elem_of_map_to_list, Hp.
Qed.

Lemma forallb_elem {A} (f : A → bool) l x :
  forallb f l = true → x ∈ l → f x = true.
Proof. rewrite forallb_forall. intros Hall Hx. by apply Hall, list_elem_of_In. Qed.

Lemma tree_okb_sound rank w : tree_okb rank w = true → tree_ok rank w.
Proof.
  intros Hall.
  assert (∀ t p, w_tasks w !! t = Some p → task_tree_okb rank w (t, p) = true) as Ht
    by (intros t p; by apply forallb_lookup).
  unfold task_tree_okb in Ht. split.
  - intros t p Hp. specialize (Ht t p Hp). apply andb_prop in Ht as [Ht _].
    apply andb_prop in Ht as [Ht _]. apply andb_prop in Ht as [Ht _].
    by apply Nat.ltb_lt.
  - intros t p q Hp Hq. specialize (Ht t p Hp). rewrite Hq in Ht.
    apply andb_prop in Ht as [Ht _]. apply andb_prop in Ht as [Ht _].
    apply andb_prop in Ht as [_ Ht]. apply andb_prop in Ht as [Hs Hr].
    split; [by apply is_someb_true|]. intros Hne.
    apply orb_prop in Hr as [Hr|Hr]; [by apply bool_decide_eq_true in Hr|].
    by apply Nat.ltb_lt.
  - intros t p c Hp Hc. specialize (Ht t p Hp). apply andb_prop in Ht as [Ht _].
    apply andb_prop in Ht as [_ Ht]. pose proof (forallb_elem _ _ _ Ht Hc) as Hx.
    apply andb_prop in Hx as [? ?]. split; [by apply is_someb_true|by apply Nat.ltb_lt].
  - intros t p l Hp Hl. specialize (Ht t p Hp). rewrite Hl in Ht.
    apply andb_prop in Ht as [_ Ht].
    destruct (w_tasks w !! l) as [pl|] eqn:Hpl; [|done].
    destruct (t_signal pl) as [ths|] eqn:Hths; [|done].
    exists pl, ths. split_and!; [done|done|].
    intros x Hx. apply is_someb_true. exact (forallb_elem (λ x, is_someb (w_tasks w !! x)) ths x Ht Hx).
Qed.

Definition in_ub (w x : Z) : bool := (0 <=? x) && (x <? 2 ^ w).

Lemma in_ub_sound w x : in_ub w x = true → in_u w x.
Proof. unfold in_ub, in_u. lia. Qed.

Definition bore_ctx_okb (c : bore_ctx) : bool :=
  in_ub 64 (burst_time c) && in_ub 16 (prev_penalty c) && in_ub 16 (curr_penalty c) &&
  in_ub 16 (penalty c) && in_ub 8 (stop_update c) && in_ub 8 (futex_waiting c) &&
  in_ub 64 (subtree c) && in_ub 64 (group c) &&
  forallb (λ x, x <=? MAX_BURST_PENALTY)
    [prev_penalty c; curr_penalty c; penalty c;
     bc_penalty (subtree c); bc_penalty (group c)].

Lemma bore_ctx_okb_sound c : bore_ctx_okb c = true → bore_ctx_ok c.
Proof.
  unfold bore_ctx_okb. cbn [forallb]. intros H.
  repeat match goal with
  | Hb : _ && _ = true |- _ => apply andb_prop in Hb as [? ?]
  | Hb : in_ub _ _ = true |- _ => apply in_ub_sound in Hb
  | Hb : (_ <=? _) = true |- _ => apply Z.leb_le in Hb
  end.
  unfold bore_ctx_ok, bore_ctx_typed. tauto.
Qed.

Definition bore_world_okb (w : world) : bool :=
  forallb (λ tp : tid * task, bore_ctx_okb (ctx_of (snd tp))) (map_to_list (w_tasks w)).

Lemma bore_world_okb_sound w : bore_world_okb w = true → bore_world_ok w.
Proof.
  intros Hall t p Hp. apply bore_ctx_okb_sound.
  exact (forallb_lookup (λ tp : tid * task, bore_ctx_okb (ctx_of (snd tp))) _ t p Hall Hp).
Qed.

(** ** The tree

<<
  1 init -- 2 daemon -- 3 shell -+- 4 app (threads 4, 7)
                                 +- 5 job -- 6 worker
>>
    Task 7 is a thread of the group of task 4; task 6 is a kernel thread. *)

Definition sample_kabi (bt prev curr pen : Z) : kabi :=
  kv_store (BoreCtx bt prev curr pen 0 0 0 0) kabi_zero.

Definition sample_task (flags prio : Z) (k : kabi) (parent leader : tid)
    (children threads : list tid) (comm : string) : task :=
  Task 0 flags prio (SchedEntity k false) (Some parent) (Some leader)
    children (Some threads) comm.

Definition sample_world (rcu : nat) : world := World
  (list_to_map
    [(1%positive, sample_task 0 120 (sample_kabi 0 0 0 0) 1 1 [2%positive] [1%positive] "init");
     (2%positive, sample_task 0 120 (sample_kabi 50000 10 5 10) 1 2 [3%positive] [2%positive] "daemon");
     (3%positive, sample_task 0 120 (sample_kabi 900000 40 60 60) 2 3 [4%positive; 5%positive] [3%positive] "shell");
     (4%positive, sample_task 0 120 (sample_kabi 70000000 900 1100 1100) 3 4 [] [4%positive; 7%positive] "app");
     (5%positive, sample_task 0 130 (sample_kabi 7000 0 0 0) 3 5 [6%positive] [5%positive] "job");
     (6%positive, sample_task 2097152 120 (sample_kabi 6000000 300 200 300) 5 6 [] [6%positive] "kswapd0");
     (7%positive, sample_task 0 120 (sample_kabi 8000000 500 700 700) 3 4 [] [4%positive; 7%positive] "app-io")])
  {[1%positive := SchedEntity kabi_zero true]} rcu.

Definition sample_rank (t : tid) : nat :=
  match t with
  | 1%positive => 0 | 2%positive => 1 | 3%positive => 2
  | 4%positive | 5%positive | 7%positive => 3
  | 6%positive => 4 | _ => 0
  end.

Lemma sample_tree_ok rcu : tree_ok sample_rank (sample_world rcu).
Proof. apply tree_okb_sound. vm_compute. reflexivity. Qed.

Lemma sample_bore_ok rcu : bore_world_ok (sample_world rcu).
Proof. apply bore_world_okb_sound. vm_compute. reflexivity. Qed.
