(* ===== verification/BoreProbes.v ===== *)
(** * The scheduler hooks of BORE (bore_sched_main.c, lines 228 to 375)

    The dynamic priority of a task, the bookkeeping of its burst, and the
    seven probes the module attaches to the vendor hooks. *)

From S2P Require Import Prelude KMonad Kernel BoreMath BoreCtx BoreInherit.

(** ** Field updates *)

Definition set_penalty (v : Z) (c : bore_ctx) : bore_ctx :=
  BoreCtx (burst_time c) (prev_penalty c) (curr_penalty c) v
    (stop_update c) (futex_waiting c) (subtree c) (group c).

Definition set_burst (bt curr : Z) (c : bore_ctx) : bore_ctx :=
  BoreCtx bt (prev_penalty c) curr (penalty c)
    (stop_update c) (futex_waiting c) (subtree c) (group c).

Definition set_prev_penalty (v : Z) (c : bore_ctx) : bore_ctx :=
  BoreCtx (burst_time c) v (curr_penalty c) (penalty c)
    (stop_update c) (futex_waiting c) (subtree c) (group c).

Definition clear_flags (c : bore_ctx) : bore_ctx :=
  BoreCtx (burst_time c) (prev_penalty c) (curr_penalty c) (penalty c)
    0 0 (subtree c) (group c).

(** ** Definitions *)

Definition DEQUEUE_SLEEP : Z := 1.

Section probes.
Context `{KernelHeaders} (T : tunables) (lut : list Z).

Definition bore_score (c : bore_ctx) : Z := u8 (penalty c >>. 8).

(** [effective_prio_bore] on the values it reads: the score only when the
    module is enabled. *)
Definition prio_of_score (static_prio score : Z) : Z :=
  let prio := s32 (static_prio - MAX_RT_PRIO) in
  let prio := if sched_bore T =? 0 then prio else s32 (prio + score) in
  let prio := prio &. ~. (prio >>. 31) in
  let diff := s32 (prio - 39) in
  let prio := s32 (prio - (diff &. ~. (diff >>. 31))) in
  u8 prio.

Definition effective_prio_bore (p : task) (c : bore_ctx) : Z :=
  prio_of_score (t_static_prio p) (bore_score c).

Definition is_protected (p : task) : bool :=
  negb ((t_flags p &. PF_KTHREAD) =? 0) || (t_static_prio p <? 120).

(** [new_prio] is the pointee of the out parameter, [None] for NULL; the
    result holds its value after the call. *)
Definition update_penalty (p : task) (c : bore_ctx) (new_prio : option Z) :
    bore_ctx * option Z :=
  let prev_prio := effective_prio_bore p c in
  let diff := s32 (curr_penalty c - prev_penalty c) in
  let max_val := u16 (curr_penalty c - (diff &. (diff >>. 31))) in
  let c := set_penalty (u16 (max_val &. s32 (- b2z (negb (is_protected p))))) c in
  let calculated_new_prio := effective_prio_bore p c in
  (c, if calculated_new_prio =? prev_prio then new_prio
      else (λ _, calculated_new_prio) <$> new_prio).

Definition restart_burst_bore (p : task) (c : bore_ctx) (new_prio : option Z) :
    bore_ctx * option Z :=
  let new_penalty := binary_smooth T (curr_penalty c) (prev_penalty c) in
  update_penalty p (set_burst 0 0 (set_prev_penalty (u16 new_penalty) c)) new_prio.

Definition probe_bore_update_curr (p : task_ptr) (delta_exec : Z)
    (new_prio : option Z) : KM world (option Z) :=
  match p with
  | None => mret new_prio
  | Some t =>
      if sched_bore T =? 0 then mret new_prio
      else
        ctx ← bore_get_ctx t;
        if negb (stop_update ctx =? 0) then mret new_prio
        else
          let bt := u64 (burst_time ctx + delta_exec) in
          let curr := u16 (calc_burst_penalty T bt) in
          let ctx := set_burst bt curr ctx in
          if curr <=? prev_penalty ctx
          then bore_put_ctx t ctx ;; mret new_prio
          else
            tk ← read_task t;
            let r := update_penalty tk ctx new_prio in
            bore_put_ctx t (fst r) ;; mret (snd r)
  end.

(** The common body of the dequeue and yield probes. *)
Definition restart_task (t : tid) : KM world unit :=
  ctx ← bore_get_ctx t;
  tk ← read_task t;
  bore_put_ctx t (fst (restart_burst_bore tk ctx None)).

Definition probe_bore_dequeue_task_fair (p : task_ptr) (flags : Z) :
    KM world unit :=
  match p with
  | None => mret tt
  | Some t =>
      if (sched_bore T =? 0) || ((flags &. DEQUEUE_SLEEP) =? 0) then mret tt
      else restart_task t
  end.

Definition probe_bore_set_next_entity (se : option se_ref) : KM world unit :=
  mret tt.

Definition probe_bore_yield_task_fair (p : task_ptr) : KM world unit :=
  match p with
  | None => mret tt
  | Some t => if sched_bore T =? 0 then mret tt else restart_task t
  end.

(** [parent] is [current], [now] the clock. *)
Definition fork_inherit (t : tid) (parent : task_ptr) (now : Z) : KM world Z :=
  tk ← read_task t;
  same_group ←
    match parent with
    | None => mret false
    | Some pt =>
        ptk ← read_task pt;
        mret (bool_decide (t_group_leader tk = t_group_leader ptk)
              && bool_decide (t ≠ pt))
    end;
  match parent with
  | Some pt =>
      if (same_group : bool) then inherit_from_thread_group T lut pt now
      else if sched_burst_inherit_type T =? 2
      then inherit_from_ancestor_hub T lut parent 0 now
      else if sched_burst_inherit_type T =? 1
      then inherit_from_parent T lut parent 0 now
      else mret 0
  | None =>
      if sched_burst_inherit_type T =? 2
      then inherit_from_ancestor_hub T lut parent 0 now
      else if sched_burst_inherit_type T =? 1
      then inherit_from_parent T lut parent 0 now
      else mret 0
  end.

(** The update of the context of the forked task. *)
Definition fork_ctx (tk : task) (inherited_penalty : Z) (ctx : bore_ctx) : bore_ctx :=
  let ctx :=
    if prev_penalty ctx <? inherited_penalty
    then set_prev_penalty (u16 inherited_penalty) ctx else ctx in
  fst (update_penalty tk (clear_flags (set_burst 0 0 ctx)) None).

Definition probe_bore_task_fork (p current : task_ptr) (now : Z) : KM world unit :=
  match p with
  | None => mret tt
  | Some t =>
      if sched_bore T =? 0 then mret tt
      else
        tk ← read_task t;
        if negb (bore_task_is_eligible tk) then mret tt
        else
          rcu_read_lock ;;
          inherited_penalty ← fork_inherit t current now;
          ctx ← bore_get_ctx t;
          bore_put_ctx t (fork_ctx tk inherited_penalty ctx) ;;
          rcu_read_unlock
  end.

Definition probe_bore_init_entity (se : option se_ref) : KM world unit :=
  match se with
  | None => mret tt
  | Some r => store_view r bore_ctx_zero
  end.

Definition probe_bore_set_load_weight (p : task_ptr) (prio : option Z) :
    KM world (option Z) :=
  match p, prio with
  | Some t, Some _ =>
      if sched_bore T =? 0 then mret prio
      else
        tk ← read_task t;
        if negb (bore_task_is_eligible tk) then mret prio
        else
          ctx ← bore_get_ctx t;
          mret (Some (effective_prio_bore tk ctx))
  | _, _ => mret prio
  end.
End probes.

(** ** Priorities and penalties *)

Section facts.
Context `{KernelHeaders} (T : tunables).

(** The intended priority: the static one, lowered by the score. *)
Definition effective_prio_spec (p : task) (c : bore_ctx) : Z :=
  Z.min 39 (Z.max 0
    (t_static_prio p - 100 + if sched_bore T =? 0 then 0 else penalty c / 256)).

(** A static priority of the scheduler. *)
Definition static_prio_ok (p : task) : Prop := 0 <= t_static_prio p <= 139.

Lemma bore_score_value c : in_u 16 (penalty c) → bore_score c = penalty c / 256.
Proof.
  unfold bore_score. rewrite Z.shiftr_div_pow2 by lia. intros Hp.
  apply wrapu_small. clia.
Qed.

Lemma prio_clamp x :
  in_s 32 x →
  u8 (s32 (x &. ~. (x >>. 31)
           - (s32 (x &. ~. (x >>. 31) - 39)
              &. ~. (s32 (x &. ~. (x >>. 31) - 39) >>. 31))))
  = Z.min 39 (Z.max 0 x).
Proof.
  intros Hx. rewrite (sign_mask_pos x Hx). unfold in_s in Hx. 
  change (2 ^ (32 - 1)) with 2147483648 in Hx.
  rewrite (wraps_small 32 (Z.max 0 x - 39)) by (unfold in_s; pow2_norm; lia).
  rewrite sign_mask_pos by (unfold in_s; pow2_norm; lia).
  rewrite wraps_small by (unfold in_s; pow2_norm; lia).
  rewrite wrapu_small by (unfold in_u; pow2_norm; lia). lia.
Qed.

Lemma effective_prio_range p c : 0 <= effective_prio_bore T p c <= 39.
Proof.
  unfold effective_prio_bore, prio_of_score. cbv zeta.
  rewrite prio_clamp; [lia|]. destruct (sched_bore T =? 0); by apply wraps_range.
Qed.

Lemma effective_prio_value p c :
  static_prio_ok p → in_u 16 (penalty c) →
  effective_prio_bore T p c = effective_prio_spec p c.
Proof.
  intros Hsp Hc. unfold effective_prio_bore, prio_of_score, effective_prio_spec, static_prio_ok in *.
  rewrite MAX_RT_PRIO_val, bore_score_value by done. cbv zeta.
  assert (0 <= penalty c / 256 < 256) by clia.
  rewrite (wraps_small 32 (_ - 100)) by (unfold in_s; pow2_norm; lia).
  destruct (sched_bore T =? 0).
  - rewrite prio_clamp by (unfold in_s; pow2_norm; lia). by rewrite Z.add_0_r.
  - rewrite (wraps_small 32 (_ - 100 + _)) by (unfold in_s; pow2_norm; lia).
    by rewrite prio_clamp by (unfold in_s; pow2_norm; lia).
Qed.

(** The penalty of a protected task is cleared, that of another one is the
    larger of its current and its previous burst penalty. *)
Definition shown_penalty (p : task) (c : bore_ctx) : Z :=
  if is_protected p then 0 else Z.max (curr_penalty c) (prev_penalty c).

Lemma update_penalty_ctx p c np :
  in_u 16 (curr_penalty c) → in_u 16 (prev_penalty c) →
  fst (update_penalty T p c np) = set_penalty (shown_penalty p c) c.
Proof.
  intros Hc Hp. cbn [update_penalty fst]. f_equal. unfold shown_penalty.
  unfold in_u in *. change (2 ^ 16) with 65536 in *.
  rewrite (wraps_small 32 (_ - _)) by (unfold in_s; pow2_norm; lia).
  rewrite sign_mask_neg by (unfold in_s; pow2_norm; lia).
  rewrite (wrapu_small 16 (_ - _)) by (unfold in_u; pow2_norm; lia).
  destruct (is_protected p).
  - by rewrite Z.land_0_r.
  - change (s32 (- b2z (negb false))) with (-1). rewrite Z.land_m1_r.
    rewrite wrapu_small by (unfold in_u; pow2_norm; lia). lia.
Qed.

Lemma update_penalty_prio p c np :
  snd (update_penalty T p c np)
  = if effective_prio_bore T p (fst (update_penalty T p c np))
       =? effective_prio_bore T p c
    then np
    else (λ _, effective_prio_bore T p (fst (update_penalty T p c np))) <$> np.
Proof. reflexivity. Qed.

(** *** Contexts stay in range *)

Ltac ctx_split := unfold bore_ctx_ok, bore_ctx_typed in *; cbn in *.

Lemma max_penalty_u16 x : 0 <= x <= MAX_BURST_PENALTY → in_u 16 x.
Proof. rewrite max_burst_penalty_val. unfold in_u. pow2_norm. lia. Qed.

Lemma set_penalty_ok v c :
  0 <= v <= MAX_BURST_PENALTY → bore_ctx_ok c → bore_ctx_ok (set_penalty v c).
Proof.
  intros Hv Hc. pose proof (max_penalty_u16 v Hv). ctx_split. tauto.
Qed.

Lemma set_prev_ok v c :
  0 <= v <= MAX_BURST_PENALTY → bore_ctx_ok c → bore_ctx_ok (set_prev_penalty v c).
Proof.
  intros Hv Hc. pose proof (max_penalty_u16 v Hv). ctx_split. tauto.
Qed.

Lemma set_burst_ok bt v c :
  in_u 64 bt → 0 <= v <= MAX_BURST_PENALTY → bore_ctx_ok c →
  bore_ctx_ok (set_burst bt v c).
Proof.
  intros Hbt Hv Hc. pose proof (max_penalty_u16 v Hv). ctx_split. tauto.
Qed.

Lemma clear_flags_ok c : bore_ctx_ok c → bore_ctx_ok (clear_flags c).
Proof.
  intros Hc. assert (in_u 8 0) by (unfold in_u; lia). ctx_split. tauto.
Qed.

Lemma update_penalty_ok p c np :
  bore_ctx_ok c → bore_ctx_ok (fst (update_penalty T p c np)).
Proof.
  intros Hc. assert (bore_ctx_ok c) as ((_&Hp&Hcu&_)&Hpm&Hcm&_) by done.
  rewrite update_penalty_ctx by done. apply set_penalty_ok; [|done].
  unfold shown_penalty, in_u in *. destruct (is_protected p); [|lia].
  by rewrite max_burst_penalty_val.
Qed.

Lemma binary_smooth_range c :
  smoothness_ok T → bore_ctx_ok c →
  0 <= binary_smooth T (curr_penalty c) (prev_penalty c) <= MAX_BURST_PENALTY.
Proof.
  intros Hs ((_&Hp&Hcu&_)&Hpm&Hcm&_).
  pose proof (binary_smooth_between T _ _ Hs Hcu Hp) as Hb. unfold in_u in *.
  destruct (_ <? _); lia.
Qed.

Lemma restart_burst_ok p c np :
  smoothness_ok T → bore_ctx_ok c →
  bore_ctx_ok (fst (restart_burst_bore T p c np)).
Proof.
  intros Hs Hc. unfold restart_burst_bore. apply update_penalty_ok.
  pose proof (binary_smooth_range c Hs Hc) as Hb.
  rewrite wrapu_small by (by apply max_penalty_u16).
  apply set_burst_ok; [unfold in_u; lia|by rewrite max_burst_penalty_val|].
  by apply set_prev_ok.
Qed.

Lemma fork_ctx_ok tk v c :
  0 <= v <= MAX_BURST_PENALTY → bore_ctx_ok c → bore_ctx_ok (fork_ctx T tk v c).
Proof.
  intros Hv Hc. unfold fork_ctx. apply update_penalty_ok, clear_flags_ok.
  apply set_burst_ok; [unfold in_u; lia|by rewrite max_burst_penalty_val|].
  destruct (_ <? _); [|done].
  rewrite wrapu_small by (by apply max_penalty_u16). by apply set_prev_ok.
Qed.
End facts.

(** ** Runs of the probes *)

(** The context after [probe_bore_update_curr] charged [delta] to it, and the
    out parameter. *)
Definition update_curr_ctx `{KernelHeaders} (T : tunables) (p : task)
    (delta : Z) (c : bore_ctx) (np : option Z) : bore_ctx * option Z :=
  let bt := u64 (burst_time c + delta) in
  let c1 := set_burst bt (calc_burst_penalty T bt) c in
  if calc_burst_penalty T bt <=? prev_penalty c then (c1, np)
  else update_penalty T p c1 np.

Definition with_rcu (n : nat) (w : world) : world :=
  World (w_tasks w) (w_groups w) n.

(** The calls the scheduler makes into the module. *)
Inductive bore_call :=
  | CallUpdateCurr (p : task_ptr) (delta_exec : Z) (new_prio : option Z)
  | CallDequeue (p : task_ptr) (flags : Z)
  | CallSetNext (se : option se_ref)
  | CallYield (p : task_ptr)
  | CallFork (p current : task_ptr) (now : Z)
  | CallInit (se : option se_ref)
  | CallLoadWeight (p : task_ptr) (prio : option Z).

Definition run_call `{KernelHeaders} (T : tunables) (lut : list Z)
    (c : bore_call) : KM world unit :=
  match c with
  | CallUpdateCurr p d np => _ ← probe_bore_update_curr T p d np; mret tt
  | CallDequeue p fl => probe_bore_dequeue_task_fair T p fl
  | CallSetNext se => probe_bore_set_next_entity se
  | CallYield p => probe_bore_yield_task_fair T p
  | CallFork p cur now => probe_bore_task_fork T lut p cur now
  | CallInit se => probe_bore_init_entity se
  | CallLoadWeight p prio => _ ← probe_bore_set_load_weight T p prio; mret tt
  end.

(** The same call on its own: the value of the out parameter, if it has one. *)
Definition call_output `{KernelHeaders} (T : tunables) (lut : list Z)
    (c : bore_call) : KM world (option Z) :=
  match c with
  | CallUpdateCurr p d np => probe_bore_update_curr T p d np
  | CallDequeue p fl => _ ← probe_bore_dequeue_task_fair T p fl; mret None
  | CallSetNext se => _ ← probe_bore_set_next_entity se; mret None
  | CallYield p => _ ← probe_bore_yield_task_fair T p; mret None
  | CallFork p cur now => _ ← probe_bore_task_fork T lut p cur now; mret None
  | CallInit se => _ ← probe_bore_init_entity se; mret None
  | CallLoadWeight p prio => probe_bore_set_load_weight T p prio
  end.

(** A priority the module computes is one of the forty; otherwise the scheduler
    keeps its own. *)
Definition output_ok (c : bore_call) (out : option Z) : Prop :=
  match c with
  | CallUpdateCurr _ _ np | CallLoadWeight _ np =>
      out = np ∨ is_Some np ∧ ∃ v, out = Some v ∧ 0 <= v <= 39
  | _ => out = None
  end.
(** The tunables may be written between two calls. *)
Fixpoint run_calls `{KernelHeaders} (lut : list Z)
    (l : list (tunables * bore_call)) : KM world unit :=
  match l with
  | [] => mret tt
  | (T, c) :: l' => _ ← run_call T lut c; run_calls lut l'
  end.

Lemma call_output_run `{KernelHeaders} T lut c w out w' :
  call_output T lut c w = Done (out, w') → run_call T lut c w = Done (tt, w').
Proof.
  destruct c; cbn; unfold mbind, km_bind, mret, km_ret;
    match goal with |- context [match ?m w with _ => _ end] => destruct (m w) as [[[] ?]| |] end
    || match goal with |- context [?m w] => destruct (m w) as [[? ?]| |] end;
    try done; by intros [= <- <-] || by intros [= ? <-].
Qed.

(** The pointers the scheduler passes are NULL or valid. *)
Definition ptr_ok (w : world) (p : task_ptr) : Prop :=
  match p with None => True | Some t => is_Some (w_tasks w !! t) end.

Definition se_ok (w : world) (se : option se_ref) : Prop :=
  match se with
  | None => True
  | Some (SeTask t) => is_Some (w_tasks w !! t)
  | Some (SeGroup g) => is_Some (w_groups w !! g)
  end.

Definition call_ok (w : world) (c : bore_call) : Prop :=
  match c with
  | CallUpdateCurr p _ _ | CallDequeue p _ | CallYield p | CallLoadWeight p _ => ptr_ok w p
  | CallFork p cur _ => ptr_ok w p ∧ ptr_ok w cur
  | CallSetNext _ => True
  | CallInit se => se_ok w se
  end.

Section runs.
Context `{KernelHeaders} (T : tunables).

Lemma update_penalty_output p c np :
  snd (update_penalty T p c np) = np ∨
  is_Some np ∧ ∃ v, snd (update_penalty T p c np) = Some v ∧ 0 <= v <= 39.
Proof.
  rewrite update_penalty_prio. case_match; [by left|].
  destruct np as [x|]; [right|by left]. split; [done|]. eexists. split; [done|].
  apply effective_prio_range.
Qed.

(** What a call reports is in its bounds. *)
Lemma call_output_ok c w out w' :
  call_output T bore_lut c w = Done (out, w') → output_ok c out.
Proof.
  destruct c as [[t|] d np|p fl|se|p|p cur now|se|[t|] prio]; cbn [call_output output_ok];
    try (intros (? & ? & _ & E)%bind_done_inv; apply ret_done_inv in E as [-> _]; done).
  - unfold probe_bore_update_curr. destruct (sched_bore T =? 0); [intros [-> _]%ret_done_inv; by left|].
    intros (ctx & w1 & _ & Hrun)%bind_done_inv. cbv beta in Hrun.
    destruct (negb (stop_update ctx =? 0)); [apply ret_done_inv in Hrun as [-> _]; by left|].
    cbv zeta in Hrun. destruct (_ <=? _).
    + apply bind_done_inv in Hrun as (? & ? & _ & E). apply ret_done_inv in E as [-> _]. by left.
    + apply bind_done_inv in Hrun as (tk & w2 & _ & Hrun).
      apply bind_done_inv in Hrun as (? & w3 & _ & E). apply ret_done_inv in E as [-> _].
      apply update_penalty_output.
  - intros [-> _]%ret_done_inv. by left.
  - destruct prio as [prio|]; [|intros [-> _]%ret_done_inv; by left].
    unfold probe_bore_set_load_weight. destruct (sched_bore T =? 0); [intros [-> _]%ret_done_inv; by left|].
    intros (tk & w1 & _ & Hrun)%bind_done_inv. cbv beta in Hrun.
    destruct (negb (bore_task_is_eligible tk)); [apply ret_done_inv in Hrun as [-> _]; by left|].
    apply bind_done_inv in Hrun as (ctx & w2 & _ & E). apply ret_done_inv in E as [-> _]. right.
    split; [done|]. eexists. split; [done|]. apply effective_prio_range.
  - intros [-> _]%ret_done_inv. by left.
Qed.

Lemma run_call_output c w w' :
  run_call T bore_lut c w = Done (tt, w') →
  ∃ out, call_output T bore_lut c w = Done (out, w') ∧ output_ok c out.
Proof.
  intros Hrun. assert (∃ out, call_output T bore_lut c w = Done (out, w')) as [out E].
  { destruct c; cbn [run_call call_output] in *;
      try (apply bind_done_inv in Hrun as (out & w1 & E & [= <-]); by exists out);
      exists None; by krun Hrun. }
  exists out. split; [done|by eapply call_output_ok].
Qed.

Lemma update_curr_run w t p d np :
  w_tasks w !! t = Some p → bore_world_ok w →
  sched_bore T ≠ 0 → stop_update (ctx_of p) = 0 →
  probe_bore_update_curr T (Some t) d np w
  = Done (snd (update_curr_ctx T p d (ctx_of p) np),
          put_view t (fst (update_curr_ctx T p d (ctx_of p) np)) w).
Proof.
  intros Hp Hw Hen Hstop. unfold probe_bore_update_curr, update_curr_ctx.
  destruct (Z.eqb_spec (sched_bore T) 0); [done|].
  krun (bore_get_ctx_run w t p Hp). rewrite Hstop. cbn [Z.eqb negb].
  rewrite (wrapu_small 16 (calc_burst_penalty T _))
    by (apply max_penalty_u16, calc_burst_penalty_range).
  cbn [set_burst prev_penalty]. destruct (_ <=? _).
  - by krun (bore_put_ctx_run w t p _ Hp).
  - krun (read_task_run w t p Hp). by krun (bore_put_ctx_run w t p _ Hp).
Qed.

Lemma restart_task_run w t p :
  w_tasks w !! t = Some p →
  restart_task T t w
  = Done (tt, put_view t (fst (restart_burst_bore T p (ctx_of p) None)) w).
Proof.
  intros Hp. unfold restart_task. krun (bore_get_ctx_run w t p Hp).
  krun (read_task_run w t p Hp). by eapply bore_put_ctx_run.
Qed.

Lemma put_ctx_world_ok w t c :
  bore_world_ok w → bore_ctx_ok c → bore_world_ok (put_view t c w).
Proof.
  intros Hw Hc t' p'. destruct (decide (t = t')) as [<-|Hne].
  2:{ rewrite put_view_lookup_ne by done. apply Hw. }
  destruct (w_tasks w !! t) as [p|] eqn:Hp.
  - rewrite (put_view_lookup_eq _ _ _ _ Hp). intros Heq%(inj Some). subst p'.
    by rewrite ctx_of_put by apply Hc.
  - unfold put_view. rewrite Hp. apply Hw.
Qed.

Lemma update_curr_ctx_ok p d c np :
  bore_ctx_ok c → bore_ctx_ok (fst (update_curr_ctx T p d c np)).
Proof.
  intros Hc. unfold update_curr_ctx.
  pose proof (calc_burst_penalty_range T (u64 (burst_time c + d))).
  assert (bore_ctx_ok (set_burst (u64 (burst_time c + d))
    (calc_burst_penalty T (u64 (burst_time c + d))) c))
    by (apply set_burst_ok; auto with cint).
  destruct (_ <=? _); [done|]. by apply update_penalty_ok.
Qed.

(** *** Fork *)

Lemma inherit_done w bc t l now r w1 :
  bore_world_ok w → inherit_result T w bc t l now r w1 →
  ∃ r' w', Done (r, w1) = Done (r', w') ∧
    0 <= r' <= MAX_BURST_PENALTY ∧ bore_world_ok w' ∧ same_links w' w ∧
    ∀ t' p p', w_tasks w !! t' = Some p → w_tasks w' !! t' = Some p' →
      same_but_caches (ctx_of p) (ctx_of p').
Proof.
  intros Hw Hres. exists r, w1.
  destruct (inherit_result_safe T w bc t l now r w1 Hw Hres) as (? & ? & ? & _).
  do 4 (split; [done|]). by eapply inherit_result_caches.
Qed.

Lemma fork_inherit_run rank w t cur now :
  tree_ok rank w → bore_world_ok w → (0 < w_rcu w)%nat →
  is_Some (w_tasks w !! t) → ptr_ok w cur →
  ∃ r w', fork_inherit T bore_lut t cur now w = Done (r, w') ∧
    0 <= r <= MAX_BURST_PENALTY ∧ bore_world_ok w' ∧ same_links w' w ∧
    ∀ t' p p', w_tasks w !! t' = Some p → w_tasks w' !! t' = Some p' →
      same_but_caches (ctx_of p) (ctx_of p').
Proof.
  intros Htree Hw Hrcu [tk Htk] Hcur. unfold fork_inherit.
  krun (read_task_run w t tk Htk).
  assert (∃ r w', Done (0, w) = Done (r, w') ∧
    0 <= r <= MAX_BURST_PENALTY ∧ bore_world_ok w' ∧ same_links w' w ∧
    ∀ t' p p', w_tasks w !! t' = Some p → w_tasks w' !! t' = Some p' →
      same_but_caches (ctx_of p) (ctx_of p')) as H0.
  { exists 0, w. rewrite max_burst_penalty_val. do 4 (split; [done|]).
    intros t' p p' -> Heq. apply (inj Some) in Heq. by subst. }
  destruct cur as [pt|].
  2:{ kred. repeat case_match; apply H0. }
  destruct Hcur as [pp Hpp]. krun (read_task_run w pt pp Hpp).
  destruct (_ && _).
  { pose proof (inherit_from_thread_group_run T rank w pt pp now Htree Hw Hrcu Hpp) as Hg.
    destruct (t_group_leader pp) as [l|].
    - destruct Hg as (pl & ths & r & w' & -> & _ & _ & Hres).
      by eapply inherit_done.
    - rewrite Hg. apply H0. }
  destruct (_ =? 2).
  { pose proof (inherit_from_ancestor_hub_run T rank w pt 0 now Htree Hw Hrcu ltac:(eauto)) as Hg.
    destruct Hg as (h & p & ls & r & w' & -> & _ & _ & _ & Hres).
    by eapply inherit_done. }
  destruct (_ =? 1); [|apply H0].
  pose proof (inherit_from_parent_run T rank w pt 0 now Htree Hw Hrcu ltac:(eauto)) as Hg.
  destruct Hg as (p & r & w' & -> & _ & Hres).
  by eapply inherit_done.
Qed.

Lemma tree_ok_rcu rank n w : tree_ok rank w → tree_ok rank (with_rcu n w).
Proof. intros [? ? ? ?]. by split. Qed.

(** The fork probe: the inherited penalty raises the previous penalty of the
    new task, its burst starts afresh and the shown penalty is recomputed. *)
Lemma task_fork_run rank w t tk cur now :
  tree_ok rank w → bore_world_ok w → w_tasks w !! t = Some tk → ptr_ok w cur →
  sched_bore T ≠ 0 → bore_task_is_eligible tk = true →
  ∃ inherited w1 tk1,
    fork_inherit T bore_lut t cur now (with_rcu (S (w_rcu w)) w) = Done (inherited, w1) ∧
    0 <= inherited <= MAX_BURST_PENALTY ∧
    bore_world_ok w1 ∧ same_links w1 (with_rcu (S (w_rcu w)) w) ∧
    w_tasks w1 !! t = Some tk1 ∧
    (∀ t' p p', w_tasks w !! t' = Some p → w_tasks w1 !! t' = Some p' →
      same_but_caches (ctx_of p) (ctx_of p')) ∧
    probe_bore_task_fork T bore_lut (Some t) cur now w
    = Done (tt, with_rcu (w_rcu w)
                  (put_view t (fork_ctx T tk inherited (ctx_of tk1)) w1)).
Proof.
  intros Htree Hw Htk Hcur Hen Hel. set (w0 := with_rcu (S (w_rcu w)) w).
  destruct (fork_inherit_run rank w0 t cur now) as (r & w1 & Hrun & Hr & Hw1 & Hl & Hsame);
    [by apply tree_ok_rcu|done|cbn; lia|by exists tk|done|].
  assert (same_links w0 w1) as Hl' by (by symmetry).
  destruct (same_links_lookup w0 w1 t tk Hl' Htk) as (tk1 & Htk1 & _).
  exists r, w1, tk1. do 6 (split; [done|]).
  unfold probe_bore_task_fork. destruct (Z.eqb_spec (sched_bore T) 0); [done|].
  krun (read_task_run w t tk Htk). rewrite Hel. cbn [negb].
  unfold rcu_read_lock. kred. change (World _ _ _) with w0.
  krun Hrun. krun (bore_get_ctx_run w1 t tk1 Htk1).
  krun (bore_put_ctx_run w1 t tk1 _ Htk1).
  unfold rcu_read_unlock. kred. rewrite put_view_rcu.
  destruct Hl as (_ & _ & Hrcu). rewrite Hrcu. cbn. done.
Qed.

Lemma same_links_with_rcu w w' :
  same_links w' (with_rcu (S (w_rcu w)) w) → same_links (with_rcu (w_rcu w) w') w.
Proof. by intros (? & ? & ?). Qed.

(** *** Every call *)

Lemma call_ok_same_links w w' c :
  same_links w' w → call_ok w c → call_ok w' c.
Proof.
  intros Hl.
  assert (∀ g, is_Some (w_groups w !! g) → is_Some (w_groups w' !! g)) as Hg.
  { intros g. destruct Hl as (_ & Hd & _). by rewrite <- !elem_of_dom, Hd. }
  assert (∀ t, is_Some (w_tasks w !! t) → is_Some (w_tasks w' !! t)) as Hs.
  { intros t [p Hp]. symmetry in Hl.
    destruct (same_links_lookup w w' t p Hl Hp) as (? & ? & _). eauto. }
  assert (∀ p, ptr_ok w p → ptr_ok w' p) as Hptr by (intros [t|]; cbn; auto).
  destruct c as [| | | |? ? ?|[[|]|]|]; cbn; auto.
  intros [? ?]. auto.
Qed.
End runs.
