(* ===== verification/BoreSpec.v ===== *)
(** * What BORE promises

    The module as a whole: any sequence of scheduler calls runs without a
    fault and keeps every context in range; and, for a task that is not
    protected, the concrete context implements a small abstract machine with
    two numbers, the time of the running burst and the remembered penalty. *)

From S2P Require Import Prelude KMonad Kernel BoreMath BoreCtx BoreInherit BoreProbes.

(** ** The abstract machine *)

Record burst := Burst { sp_time : Z; sp_prev : Z }.

Inductive burst_event := Ran (delta : Z) | Slept | Yielded.

(** The remembered penalty follows a growth by a fraction [1 / 2^s] of it,
    rounded up, and a decrease at once. *)
Definition smooth_spec (s new old : Z) : Z :=
  if old <? new then old + ceil_shift (new - old) s else new.

Definition burst_end (T : tunables) (s : burst) : burst :=
  Burst 0 (smooth_spec (sched_burst_smoothness T)
             (burst_penalty_spec T (sp_time s)) (sp_prev s)).

Definition burst_step (T : tunables) (s : burst) (e : burst_event) : burst :=
  match e with
  | Ran d => Burst (sp_time s + d) (sp_prev s)
  | Slept | Yielded => burst_end T s
  end.

Definition burst_run (T : tunables) (s : burst) (es : list burst_event) : burst :=
  foldl (burst_step T) s es.

(** The penalty the scheduler sees. *)
Definition burst_score (T : tunables) (s : burst) : Z :=
  Z.max (burst_penalty_spec T (sp_time s)) (sp_prev s).

(** The hook calls behind the events of task [t]. *)
Definition event_call (t : tid) (e : burst_event) : bore_call :=
  match e with
  | Ran d => CallUpdateCurr (Some t) d None
  | Slept => CallDequeue (Some t) DEQUEUE_SLEEP
  | Yielded => CallYield (Some t)
  end.

Definition ran (e : burst_event) : Z := match e with Ran d => d | _ => 0 end.

Definition total_ran (es : list burst_event) : Z := foldr (λ e a, ran e + a) 0 es.

(** The tunables for which the module computes what it is meant to. *)
Definition tunables_ok (T : tunables) : Prop :=
  sched_bore T ≠ 0 ∧ smoothness_ok T ∧ penalty_tunables_ok T.

(** The simulation relation. *)
Definition implements (T : tunables) (s : burst) (c : bore_ctx) : Prop :=
  bore_ctx_ok c ∧ stop_update c = 0 ∧
  burst_time c = sp_time s ∧ prev_penalty c = sp_prev s ∧
  curr_penalty c = burst_penalty_spec T (sp_time s) ∧
  penalty c = burst_score T s.

Section refinement.
Context `{KernelHeaders} (T : tunables).

Lemma implements_ran p s c d :
  tunables_ok T → is_protected p = false → implements T s c →
  0 <= d → sp_time s + d < 2 ^ 64 →
  implements T (burst_step T s (Ran d)) (fst (update_curr_ctx T p d c None)).
Proof.
  intros (_ & _ & Hpt) Hprot (Hok & Hstop & Ht & Hprev & Hcur & Hpen) Hd Hlt.
  assert (0 <= sp_time s) by (destruct Hok as ([[? _] _] & _); lia).
  pose proof (update_curr_ctx_ok T p d c None Hok) as Hok'.
  unfold update_curr_ctx in *. rewrite Ht in *.
  rewrite (wrapu_small 64 (sp_time s + d)) in * by (split; lia).
  rewrite (calc_burst_penalty_value T) in * by (done || (split; lia)).
  pose proof (burst_penalty_spec_mono T (sp_time s) (sp_time s + d)
                ltac:(apply Hpt) ltac:(lia) Hlt) as Hmono.
  unfold implements, burst_score in *. cbn [burst_step sp_time sp_prev].
  destruct (Z.leb_spec (burst_penalty_spec T (sp_time s + d)) (prev_penalty c));
    cbn [fst] in *.
  - split_and!; try done. cbn. lia.
  - split; [done|]. destruct Hok as ((_ & Hp16 & _) & _).
    assert (in_u 16 (burst_penalty_spec T (sp_time s + d))).
    { rewrite <- calc_burst_penalty_value by (done || (split; lia)).
      apply max_penalty_u16, calc_burst_penalty_range. }
    rewrite update_penalty_ctx by done. unfold shown_penalty. rewrite Hprot. cbn.
    split_and!; try done. lia.
Qed.

Lemma implements_end p s c :
  tunables_ok T → is_protected p = false → implements T s c →
  implements T (burst_end T s) (fst (restart_burst_bore T p c None)).
Proof.
  intros (_ & Hsm & Hpt) Hprot (Hok & Hstop & Ht & Hprev & Hcur & Hpen).
  pose proof (restart_burst_ok T p c None Hsm Hok) as Hok'.
  pose proof (binary_smooth_range T c Hsm Hok) as Hb.
  pose proof Hok as ((_ & Hp16 & Hc16 & _) & _).
  unfold implements. split; [done|]. unfold restart_burst_bore in *.
  rewrite wrapu_small in * by (by apply max_penalty_u16).
  rewrite update_penalty_ctx; [|cbn; unfold in_u; lia|cbn; by apply max_penalty_u16].
  unfold shown_penalty. rewrite Hprot. cbn.
  assert (burst_penalty_spec T 0 = 0) as Hz.
  { rewrite <- calc_burst_penalty_value by (done || (split; lia)).
    by apply calc_burst_penalty_zero. }
  unfold burst_score. cbn. rewrite Hz. rewrite binary_smooth_value in * by done.
  rewrite <- Hcur, <- Hprev. fold (smooth_spec (sched_burst_smoothness T)
    (curr_penalty c) (prev_penalty c)) in *. done.
Qed.

(** One event: the call runs, only task [t] changes, the relation is kept. *)
Lemma event_run w t p s e :
  tunables_ok T → bore_world_ok w → w_tasks w !! t = Some p →
  is_protected p = false → implements T s (ctx_of p) →
  0 <= ran e → sp_time s + ran e < 2 ^ 64 →
  ∃ w' p', run_call T bore_lut (event_call t e) w = Done (tt, w') ∧
    bore_world_ok w' ∧ w_tasks w' !! t = Some p' ∧ bare p' = bare p ∧
    implements T (burst_step T s e) (ctx_of p').
Proof.
  intros HT Hw Hp Hprot Himp Hd Hlt. pose proof Himp as (Hok & Hstop & _).
  pose proof HT as (Hen & Hsm & _).
  assert (∀ c, bore_ctx_ok c → implements T (burst_step T s e) c →
    run_call T bore_lut (event_call t e) w = Done (tt, put_view t c w) →
    ∃ w' p', run_call T bore_lut (event_call t e) w = Done (tt, w') ∧
      bore_world_ok w' ∧ w_tasks w' !! t = Some p' ∧ bare p' = bare p ∧
      implements T (burst_step T s e) (ctx_of p')) as Hput.
  { intros c Hc Hi Hrun. eexists _, _. split_and!; [exact Hrun| | | |].
    - by apply put_ctx_world_ok.
    - by apply put_view_lookup_eq.
    - done.
    - by rewrite ctx_of_put by apply Hc. }
  destruct e as [d| |]; cbn [event_call run_call ran] in *.
  - eapply Hput; [|by apply (implements_ran p)|].
    + by apply update_curr_ctx_ok.
    + by krun (update_curr_run T w t p d None Hp Hw Hen Hstop).
  - eapply Hput; [|by apply (implements_end p)|].
    + by apply restart_burst_ok.
    + unfold probe_bore_dequeue_task_fair.
      destruct (Z.eqb_spec (sched_bore T) 0); [done|]. cbn [orb].
      change ((DEQUEUE_SLEEP &. DEQUEUE_SLEEP) =? 0) with false. cbv iota.
      by apply restart_task_run.
  - eapply Hput; [|by apply (implements_end p)|].
    + by apply restart_burst_ok.
    + unfold probe_bore_yield_task_fair.
      destruct (Z.eqb_spec (sched_bore T) 0); [done|]. by apply restart_task_run.
Qed.

Lemma sp_time_step s e :
  0 <= sp_time s → 0 <= ran e → 0 <= sp_time (burst_step T s e) <= sp_time s + ran e.
Proof. destruct e; cbn; lia. Qed.

Lemma total_ran_nonneg es : Forall (λ e, 0 <= ran e) es → 0 <= total_ran es.
Proof.
  induction 1 as [|e es He _ IH]; cbn; [done|]. fold (total_ran es). lia.
Qed.

Lemma events_run es : ∀ w t p s,
  tunables_ok T → bore_world_ok w → w_tasks w !! t = Some p →
  is_protected p = false → implements T s (ctx_of p) →
  Forall (λ e, 0 <= ran e) es → sp_time s + total_ran es < 2 ^ 64 →
  ∃ w' p', run_calls bore_lut (map (λ e, (T, event_call t e)) es) w = Done (tt, w') ∧
    w_tasks w' !! t = Some p' ∧ bare p' = bare p ∧
    implements T (burst_run T s es) (ctx_of p').
Proof.
  induction es as [|e es IH]; intros w t p s HT Hw Hp Hprot Himp Hes Hlt.
  { by exists w, p. }
  inversion_clear Hes as [|? ? He Hes']. cbn in Hlt. fold (total_ran es) in Hlt.
  pose proof (total_ran_nonneg es Hes').
  destruct (event_run w t p s e) as (w1 & p1 & Hrun & Hw1 & Hp1 & Hb & Himp1);
    try done; [lia|].
  assert (0 <= sp_time s) as Hs0.
  { destruct Himp as ((([? _] & _) & _) & _ & Ht & _). lia. }
  pose proof (sp_time_step s e Hs0 He).
  destruct (IH w1 t p1 (burst_step T s e)) as (w' & p' & Hrun' & ? & Hb' & ?);
    try done.
  - unfold is_protected in *. pose proof (f_equal t_flags Hb) as E1.
    pose proof (f_equal t_static_prio Hb) as E2. cbn in E1, E2. by rewrite E1, E2.
  - lia.
  - exists w', p'. split_and!; [|done|congruence|done].
    cbn [map run_calls]. by krun Hrun.
Qed.
End refinement.

(** ** What one call can do to a context *)

Section steps.
Context `{KernelHeaders}.

(** The transitions of the context of a task [p] under a scheduler call. *)
Inductive ctx_step (T : tunables) (p : task) (c : bore_ctx) : bore_ctx → Prop :=
  | step_caches c' : same_but_caches c c' → ctx_step T p c c'
  | step_charge d np : ctx_step T p c (fst (update_curr_ctx T p d c np))
  | step_restart : ctx_step T p c (fst (restart_burst_bore T p c None))
  | step_fork v c1 : same_but_caches c c1 → ctx_step T p c (fork_ctx T p v c1)
  | step_init : ctx_step T p c bore_ctx_zero.

Definition world_step (T : tunables) (w w' : world) : Prop :=
  bore_world_ok w' ∧ same_links w' w ∧
  ∀ t p p', w_tasks w !! t = Some p → w_tasks w' !! t = Some p' →
    ctx_step T p (ctx_of p) (ctx_of p').

Lemma same_but_caches_refl c : same_but_caches c c.
Proof. done. Qed.

Lemma ctx_step_refl T p c : ctx_step T p c c.
Proof. by apply step_caches. Qed.

Lemma world_step_refl T w : bore_world_ok w → world_step T w w.
Proof.
  intros Hw. split_and!; [done|done|]. intros t p p' -> Heq.
  apply (inj Some) in Heq. subst. apply ctx_step_refl.
Qed.

Lemma world_step_put T w t p c :
  bore_world_ok w → w_tasks w !! t = Some p → bore_ctx_ok c →
  ctx_step T p (ctx_of p) c → world_step T w (put_view t c w).
Proof.
  intros Hw Hp Hc Hstep. split_and!.
  - by apply put_ctx_world_ok.
  - apply put_view_same_links.
  - intros t' q q' Hq Hq'. destruct (decide (t = t')) as [<-|Hne].
    + rewrite Hp in Hq. apply (inj Some) in Hq. subst q.
      rewrite (put_view_lookup_eq _ _ _ _ Hp) in Hq'. apply (inj Some) in Hq'. subst q'.
      by rewrite ctx_of_put by apply Hc.
    + rewrite put_view_lookup_ne in Hq' by done. rewrite Hq in Hq'.
      apply (inj Some) in Hq'. subst. apply ctx_step_refl.
Qed.

Lemma fork_step rank T w t tk cur now :
  tree_ok rank w → bore_world_ok w → w_tasks w !! t = Some tk → ptr_ok w cur →
  sched_bore T ≠ 0 → bore_task_is_eligible tk = true →
  ∃ w', probe_bore_task_fork T bore_lut (Some t) cur now w = Done (tt, w') ∧
        world_step T w w'.
Proof.
  intros Htree Hw Htk Hcur Hen Hel.
  destruct (task_fork_run T rank w t tk cur now)
    as (r & w1 & tk1 & _ & Hr & Hw1 & Hl & Htk1 & Hsame & Hrun); try done.
  eexists. split; [exact Hrun|].
  assert (bore_ctx_ok (fork_ctx T tk r (ctx_of tk1))) as Hok
    by (apply fork_ctx_ok; eauto).
  pose proof (put_ctx_world_ok w1 t _ Hw1 Hok) as Hwp.
  split_and!.
  - exact Hwp.
  - apply same_links_with_rcu. etrans; [apply put_view_same_links|done].
  - intros t' q q' Hq Hq'. unfold with_rcu in Hq'. cbn [w_tasks] in Hq'.
    destruct (decide (t = t')) as [<-|Hne].
    + rewrite Htk in Hq. apply (inj Some) in Hq. subst q.
      rewrite (put_view_lookup_eq _ _ _ _ Htk1) in Hq'.
      apply (inj Some) in Hq'. subst q'.
      rewrite ctx_of_put by apply Hok. apply step_fork. by eapply Hsame.
    + rewrite put_view_lookup_ne in Hq' by done. apply step_caches. by eapply Hsame.
Qed.

Lemma restart_step T w t p :
  bore_world_ok w → smoothness_ok T → w_tasks w !! t = Some p →
  ∃ w', restart_task T t w = Done (tt, w') ∧ world_step T w w'.
Proof.
  intros Hw Hsm Hp. eexists. split; [by apply restart_task_run|].
  eapply world_step_put; [done..|apply restart_burst_ok; eauto|apply step_restart].
Qed.

Lemma init_step T w se :
  bore_world_ok w → se_ok w se →
  ∃ w', probe_bore_init_entity se w = Done (tt, w') ∧ world_step T w w'.
Proof.
  intros Hw Hse. destruct se as [[t|g]|]; cbn [se_ok probe_bore_init_entity] in *.
  - destruct Hse as [p Hp]. eexists. split; [by eapply store_view_run|].
    eapply world_step_put; [done..|apply bore_ctx_ok_zero|apply step_init].
  - destruct Hse as [se Hse]. eexists. split; [by eapply store_view_group_run|].
    split_and!; [done|apply group_insert_same_links; by exists se|].
    intros t p p' Hp Hp'. cbn in Hp'. rewrite Hp in Hp'.
    apply (inj Some) in Hp'. subst. apply ctx_step_refl.
  - eexists. split; [done|]. by apply world_step_refl.
Qed.

Lemma update_curr_step T w t p d np :
  bore_world_ok w → w_tasks w !! t = Some p →
  ∃ r w', probe_bore_update_curr T (Some t) d np w = Done (r, w') ∧ world_step T w w'.
Proof.
  intros Hw Hp.
  destruct (Z.eq_dec (sched_bore T) 0) as [Hz|Hen].
  { exists np, w. split; [|by apply world_step_refl].
    unfold probe_bore_update_curr. by rewrite Hz. }
  destruct (Z.eq_dec (stop_update (ctx_of p)) 0) as [Hs|Hs].
  - eexists _, _. split; [by apply update_curr_run|].
    eapply world_step_put; [done..|apply update_curr_ctx_ok; eauto|apply step_charge].
  - exists np, w. split; [|by apply world_step_refl].
    unfold probe_bore_update_curr. destruct (Z.eqb_spec (sched_bore T) 0); [done|].
    krun (bore_get_ctx_run w t p Hp). by destruct (Z.eqb_spec (stop_update (ctx_of p)) 0).
Qed.

Lemma load_weight_run T w p prio :
  ptr_ok w p → ∃ r, probe_bore_set_load_weight T p prio w = Done (r, w).
Proof.
  intros Hp. unfold probe_bore_set_load_weight.
  destruct p as [t|], prio; [|by eexists..]. destruct Hp as [p Hp].
  destruct (_ =? 0); [by eexists|]. krun (read_task_run w t p Hp).
  destruct (bore_task_is_eligible p); [|by eexists]. cbn [negb].
  krun (bore_get_ctx_run w t p Hp). by eexists.
Qed.

(** Every call runs and is a step of the world. *)
Lemma run_call_step rank T w c :
  tree_ok rank w → bore_world_ok w → smoothness_ok T → call_ok w c →
  ∃ w', run_call T bore_lut c w = Done (tt, w') ∧ world_step T w w'.
Proof.
  intros Htree Hw Hsm Hc.
  assert (∃ w', Done (tt, w) = Done (tt, w') ∧ world_step T w w') as Hid
    by (exists w; split; [done|by apply world_step_refl]).
  destruct c as [p d np|p fl|se|p|p cur now|se|p prio]; cbn [run_call call_ok] in *.
  - destruct p as [t|]; [|done]. destruct Hc as [p Hp].
    destruct (update_curr_step T w t p d np Hw Hp) as (r & w' & Hrun & ?).
    exists w'. by krun Hrun.
  - unfold probe_bore_dequeue_task_fair. destruct p as [t|]; [|done].
    destruct Hc as [p Hp]. destruct (_ || _); [done|]. by eapply restart_step.
  - done.
  - unfold probe_bore_yield_task_fair. destruct p as [t|]; [|done].
    destruct Hc as [p Hp]. destruct (_ =? 0); [done|]. by eapply restart_step.
  - destruct p as [t|]; [|done]. destruct Hc as [[tk Htk] Hcur].
    destruct (Z.eq_dec (sched_bore T) 0) as [Hz|Hen].
    { unfold probe_bore_task_fork. by rewrite Hz. }
    destruct (bore_task_is_eligible tk) eqn:Hel; [by eapply fork_step|].
    unfold probe_bore_task_fork. destruct (Z.eqb_spec (sched_bore T) 0); [done|].
    krun (read_task_run w t tk Htk). by rewrite Hel.
  - by apply init_step.
  - destruct (load_weight_run T w p prio Hc) as [r Hrun].
    exists w. krun Hrun. split; [done|by apply world_step_refl].
Qed.

(** Calls under changing tunables. *)
Inductive world_steps : world → world → Prop :=
  | steps_refl w : world_steps w w
  | steps_trans T w w1 w' : smoothness_ok T →
      world_step T w w1 → world_steps w1 w' → world_steps w w'.

Lemma run_calls_steps rank l : ∀ w,
  tree_ok rank w → bore_world_ok w →
  Forall (λ Tc, smoothness_ok (fst Tc) ∧ call_ok w (snd Tc)) l →
  ∃ w', run_calls bore_lut l w = Done (tt, w') ∧ bore_world_ok w' ∧
        same_links w' w ∧ world_steps w w'.
Proof.
  induction l as [|[T c] l IH]; intros w Htree Hw Hl; cbn [run_calls].
  { exists w. split_and!; [done..|constructor]. }
  inversion_clear Hl as [|? ? [HT Hc] Hl'].
  destruct (run_call_step rank T w c Htree Hw HT Hc) as (w1 & Hrun & Hstep).
  pose proof Hstep as (Hw1 & Hlinks & _).
  destruct (IH w1) as (w' & Hrun' & Hw' & Hlinks' & Hsteps).
  - by rewrite Hlinks.
  - done.
  - eapply Forall_impl; [exact Hl'|]. intros [T' c'] [? ?]. split; [done|].
    by eapply call_ok_same_links.
  - exists w'. split_and!; [by krun Hrun|done|by etrans|by eapply steps_trans].
Qed.

(** *** Protected tasks *)

Lemma is_protected_bare p p' : bare p' = bare p → is_protected p' = is_protected p.
Proof.
  intros Hb. pose proof (f_equal t_flags Hb) as E1.
  pose proof (f_equal t_static_prio Hb) as E2. cbn in E1, E2.
  unfold is_protected. by rewrite E1, E2.
Qed.

Lemma protected_ctx_step T p c c' :
  smoothness_ok T → is_protected p = true → bore_ctx_ok c → penalty c = 0 →
  ctx_step T p c c' → bore_ctx_ok c' → penalty c' = 0.
Proof.
  intros Hsm Hprot Hok Hz Hstep Hok'.
  assert (∀ c1 np, in_u 16 (curr_penalty c1) → in_u 16 (prev_penalty c1) →
            penalty (fst (update_penalty T p c1 np)) = 0) as Hup.
  { intros c1 np ? ?. rewrite update_penalty_ctx by done.
    unfold shown_penalty. by rewrite Hprot. }
  pose proof Hok as ((_ & Hp16 & Hc16 & _) & _).
  assert (in_u 16 0) by (unfold in_u; lia).
  destruct Hstep as [c' (_ & _ & _ & E & _)|d np| |v c1 (_ & E & _)|].
  - by rewrite E.
  - unfold update_curr_ctx. destruct (_ <=? _); [done|]. apply Hup; [|done].
    cbn. apply max_penalty_u16, calc_burst_penalty_range.
  - unfold restart_burst_bore. apply Hup; [done|]. cbn. by apply wrapu_range.
  - unfold fork_ctx. apply Hup; [done|]. cbn.
    destruct (_ <? _); cbn; [by apply wrapu_range|]. by rewrite E.
  - done.
Qed.

Lemma protected_steps w w' : world_steps w w' → ∀ t p p',
  bore_world_ok w → w_tasks w !! t = Some p → w_tasks w' !! t = Some p' →
  is_protected p = true → penalty (ctx_of p) = 0 → penalty (ctx_of p') = 0.
Proof.
  induction 1 as [w|T w w1 w' Hsm (Hw1 & Hl & Hstep) _ IH];
    intros t p p' Hw Hp Hp' Hprot Hz.
  { rewrite Hp in Hp'. apply (inj Some) in Hp'. by subst. }
  symmetry in Hl. destruct (same_links_lookup w w1 t p Hl Hp) as (p1 & Hp1 & Hb).
  eapply (IH t p1); [done..|by rewrite (is_protected_bare p)|].
  eapply protected_ctx_step; [done|exact Hprot| |exact Hz| |]; eauto.
Qed.
End steps.
