(* ===== verification/BoreTheorems.v ===== *)
(** * The correctness theorems of the BORE module

    The properties of the functions that walk the process tree and of the
    scheduler hooks, each with an instance on the tree of [SampleWorld]. *)

From S2P Require Import Prelude KMonad Kernel BoreMath BoreCtx BoreInherit SampleWorld BoreProbes BoreSpec.

#[local] Existing Instance linux_headers.

(** ** Helpers for the instances *)

Lemma sample_tunables_ok : tunables_ok default_tunables.
Proof. unfold tunables_ok. repeat split; vm_compute; congruence. Qed.

(** Task 3 of the sample tree, about to be followed. *)
Definition sample_shell : task :=
  sample_task 0 120 (sample_kabi 900000 40 60 60) 2 3 [4%positive; 5%positive]
    [3%positive] "shell".

Lemma sample_shell_lookup rcu : w_tasks (sample_world rcu) !! 3%positive = Some sample_shell.
Proof. reflexivity. Qed.

(** Only the static priority and the penalty matter to the priority. *)
Lemma effective_prio_ext `{KernelHeaders} T p p' c c' :
  t_static_prio p = t_static_prio p' → penalty c = penalty c' →
  effective_prio_bore T p c = effective_prio_bore T p' c'.
Proof. intros Hp Hc. unfold effective_prio_bore, bore_score. by rewrite Hp, Hc. Qed.

Lemma update_curr_value `{KernelHeaders} T p d c np :
  let r := update_curr_ctx T p d c (Some np) in
  snd r = Some (if effective_prio_bore T p (fst r) =? effective_prio_bore T p c
                then np else effective_prio_bore T p (fst r)) ∧
  burst_time (fst r) = u64 (burst_time c + d) ∧
  curr_penalty (fst r) = calc_burst_penalty T (u64 (burst_time c + d)).
Proof.
  cbv zeta. unfold update_curr_ctx. destruct (_ <=? _); cbn [fst snd].
  - rewrite (effective_prio_ext T p p (set_burst _ _ _) c) by reflexivity.
    by rewrite Z.eqb_refl.
  - split; [|done]. rewrite update_penalty_prio.
    rewrite (effective_prio_ext T p p (set_burst _ _ _) c) by reflexivity.
    by destruct (_ =? _).
Qed.

Lemma hub_unique `{KernelHeaders} w s a h h' : hub w s a h → hub w s a h' → h = h'.
Proof.
  intros Hh. revert h'.
  induction Hh as [s a Hstop|s a p n h Hp Hn Hne Hc Hup IH]; intros h' Hh'.
  - inversion Hh' as [|? ? p n ? Hp Hn Hne Hc]; subst; [done|].
    destruct Hstop as [(q & Hq & Hroot)|]; [|lia]. exfalso.
    rewrite Hp in Hq. apply (inj Some) in Hq. subst q. destruct Hroot; congruence.
  - inversion Hh' as [? ? Hstop|? ? p' n' ? Hp' Hn' Hne' Hc' Hup']; subst.
    + destruct Hstop as [(q & Hq & Hroot)|]; [|lia]. exfalso.
      rewrite Hp in Hq. apply (inj Some) in Hq. subst q. destruct Hroot; congruence.
    + assert (n' = n) as -> by congruence. by apply IH.
Qed.

Section theorems.
Context `{KernelHeaders}.

(** C3: BORE implements its abstract machine.  Let a task that is not
    protected carry a context that represents an abstract burst.  Through any
    sequence of running, sleeping and yielding (with less than 2^64 ns in one
    burst) the hooks run without fault and the context represents the abstract
    burst after the same events: the burst time is the time run since the last
    sleep or yield, the previous penalty the smoothed one, and the penalty
    that sets the priority the larger of the two. *)
Theorem bore_refines_burst (T : tunables) es w t p s :
  tunables_ok T → bore_world_ok w → w_tasks w !! t = Some p →
  is_protected p = false → implements T s (ctx_of p) →
  Forall (λ e, 0 <= ran e) es → sp_time s + total_ran es < 2 ^ 64 →
  static_prio_ok p →
  ∃ w' p', run_calls bore_lut (map (λ e, (T, event_call t e)) es) w = Done (tt, w') ∧
    w_tasks w' !! t = Some p' ∧ bare p' = bare p ∧
    implements T (burst_run T s es) (ctx_of p') ∧
    effective_prio_bore T p' (ctx_of p')
    = Z.min 39 (Z.max 0 (t_static_prio p - 100
                         + burst_score T (burst_run T s es) / 256)).
Proof.
  intros HT Hw Hp Hprot Himp Hes Hlt Hsp.
  destruct (events_run T es w t p s HT Hw Hp Hprot Himp Hes Hlt)
    as (w' & p' & Hrun & Hp' & Hb & Himp').
  exists w', p'. do 4 (split; [done|]).
  destruct Himp' as (((_ & _ & _ & Hpen16 & _) & _) & _ & _ & _ & _ & Hpen).
  pose proof (f_equal t_static_prio Hb) as E. cbn in E.
  rewrite effective_prio_value; [|unfold static_prio_ok in *; by rewrite E|done].
  unfold effective_prio_spec. rewrite E, Hpen.
  destruct HT as [Hen _]. by destruct (Z.eqb_spec (sched_bore T) 0).
Qed.

(** C7: The hooks are safe.  In a well-formed process tree whose contexts are
    in range, any sequence of scheduler calls with NULL or valid pointers,
    under tunables that may change between calls (smoothness below 32), runs
    to the end: no invalid access, no table index out of bounds, no RCU access
    outside a read-side section, no endless walk.  Afterwards the RCU nesting
    and all links are as before and every context is again in range. *)
Theorem bore_calls_safe rank w (l : list (tunables * bore_call)) :
  tree_ok rank w → bore_world_ok w →
  Forall (λ Tc, smoothness_ok (fst Tc) ∧ call_ok w (snd Tc)) l →
  ∃ w', run_calls bore_lut l w = Done (tt, w') ∧
    bore_world_ok w' ∧ same_links w' w ∧ tree_ok rank w'.
Proof.
  intros Htree Hw Hl.
  destruct (run_calls_steps rank l w Htree Hw Hl) as (w' & ? & ? & Hlinks & _).
  exists w'. split_and!; [done..|]. by rewrite Hlinks.
Qed.

(** C12: [inherit_from_ancestor_hub] terminates and finds the hub.  From the
    forking task it reaches the first ancestor that is the root or has more
    children than the walk came from (there is only one such task); each
    child of the hub is followed down its chain of only children to a leaf; the
    result is the cached penalty of the hub, or, when that has expired, the
    larger of the hub's own penalty and the average over the sampled leaves.
    Nothing is written but the subtree cache of the hub, and that only when it
    had expired: it then holds the result and the time; the other cache, the
    burst, the penalties and the flags of the hub stay, and so does every other
    task. *)
Theorem inherit_from_ancestor_hub_correct (T : tunables) rank w parent now :
  tree_ok rank w → bore_world_ok w → (0 < w_rcu w)%nat →
  is_Some (w_tasks w !! parent) →
  ∃ h p ls r w',
    inherit_from_ancestor_hub T bore_lut (Some parent) 0 now w = Done (r, w') ∧
    hub w 0 parent h ∧ (∀ h', hub w 0 parent h' → h' = h) ∧
    w_tasks w !! h = Some p ∧ Forall2 (leaf w) (t_children p) ls ∧
    r = inherited_value T w Subtree (ctx_of p) (samples w ls) now ∧
    0 <= r <= MAX_BURST_PENALTY ∧
    only_cache_written T Subtree h now r w w'.
Proof.
  intros Htree Hw Hrcu Hp.
  pose proof (inherit_from_ancestor_hub_run T rank w parent 0 now Htree Hw Hrcu Hp) as Hrun.
  destruct Hrun as (h & p & ls & r & w' & Hrun & Hhub & Hh & Hls & Hres).
  exists h, p, ls, r, w'.
  pose proof (inherit_result_safe T w Subtree h ls now r w' Hw Hres) as (? & _).
  pose proof (inherit_result_written T w Subtree h ls now r w' Hw Hres).
  destruct Hres as (p' & Hp' & Hr & _). rewrite Hh in Hp'.
  apply (inj Some) in Hp'. subst p'.
  do 2 (split; [done|]). split; [by intros h' ?; eapply hub_unique|done].
Qed.

(** [inherit_from_parent] takes the parent (with [CLONE_PARENT] the
    parent's parent; none gives 0), and returns its cached penalty or, after
    expiry, the larger of its own penalty and the average over its sampled
    children, writing nothing but that cache. *)
Theorem inherit_from_parent_correct (T : tunables) rank w parent clone_flags now :
  tree_ok rank w → bore_world_ok w → (0 < w_rcu w)%nat →
  is_Some (w_tasks w !! parent) →
  match first_owner w parent clone_flags with
  | None => inherit_from_parent T bore_lut (Some parent) clone_flags now w = Done (0, w)
  | Some t => ∃ p r w',
      inherit_from_parent T bore_lut (Some parent) clone_flags now w = Done (r, w') ∧
      w_tasks w !! t = Some p ∧
      r = inherited_value T w Subtree (ctx_of p) (samples w (t_children p)) now ∧
      only_cache_written T Subtree t now r w w'
  end.
Proof.
  intros Htree Hw Hrcu Hp.
  pose proof (inherit_from_parent_run T rank w parent clone_flags now Htree Hw Hrcu Hp) as Hr.
  destruct (first_owner w parent clone_flags) as [t|]; [|done].
  destruct Hr as (p & r & w' & Hrun & Hpt & Hres). exists p, r, w'.
  pose proof (inherit_result_written T w Subtree t _ now r w' Hw Hres).
  destruct Hres as (p' & Hp' & Hr & _). rewrite Hpt in Hp'.
  apply (inj Some) in Hp'. by subst p'.
Qed.

(** C17: [inherit_from_thread_group] reads through the group cache of the leader
    (none: the result is 0): its cached penalty or, after expiry, the larger of
    the leader's own penalty and the average over the sampled threads of the
    group, writing nothing but that cache. *)
Theorem inherit_from_thread_group_correct (T : tunables) rank w p pp now :
  tree_ok rank w → bore_world_ok w → (0 < w_rcu w)%nat →
  w_tasks w !! p = Some pp →
  match t_group_leader pp with
  | None => inherit_from_thread_group T bore_lut p now w = Done (0, w)
  | Some l => ∃ pl threads r w',
      inherit_from_thread_group T bore_lut p now w = Done (r, w') ∧
      w_tasks w !! l = Some pl ∧ t_signal pl = Some threads ∧
      r = inherited_value T w Group (ctx_of pl) (samples w threads) now ∧
      only_cache_written T Group l now r w w'
  end.
Proof.
  intros Htree Hw Hrcu Hp.
  pose proof (inherit_from_thread_group_run T rank w p pp now Htree Hw Hrcu Hp) as Hr.
  destruct (t_group_leader pp) as [l|]; [|done].
  destruct Hr as (pl & ths & r & w' & Hrun & Hpl & Hths & Hres). exists pl, ths, r, w'.
  pose proof (inherit_result_written T w Group l _ now r w' Hw Hres).
  destruct Hres as (p' & Hp' & Hr & _). rewrite Hpl in Hp'.
  apply (inj Some) in Hp'. by subst p'.
Qed.

(** The sampling loop, with its two limits and its [continue], selects
    exactly the first 63 eligible tasks among the first 126 of the list, and
    returns their number and the sum of their penalties. *)
Theorem sample_penalties_selects w l :
  bore_world_ok w → (∀ x, x ∈ l → is_Some (w_tasks w !! x)) →
  let xs := take 63 (List.filter (eligible_at w) (take 126 l)) in
  sample_penalties mret l 0 0 0 w
  = Done ((Z.of_nat (length xs), sum_penalties w xs), w).
Proof.
  intros Hw Hl. cbv zeta.
  rewrite (sample_penalties_samples mret id w l Hw) by (intros x Hx; auto).
  by rewrite list_fmap_id.
Qed.

Lemma fork_ctx_value T tk r c :
  bore_ctx_ok c → 0 <= r <= MAX_BURST_PENALTY →
  let c' := fork_ctx T tk r c in
  prev_penalty c' = Z.max (prev_penalty c) r ∧ burst_time c' = 0 ∧ curr_penalty c' = 0 ∧
  stop_update c' = 0 ∧ futex_waiting c' = 0 ∧
  penalty c' = (if is_protected tk then 0 else Z.max (prev_penalty c) r) ∧
  subtree c' = subtree c ∧ group c' = group c.
Proof.
  intros ((_ & Hp16 & _) & _) Hr. cbv zeta. pose proof (max_penalty_u16 r Hr).
  unfold fork_ctx. rewrite (wrapu_small 16 r) by done.
  rewrite update_penalty_ctx; [|cbn; unfold in_u; lia|cbn; by destruct (_ <? _)].
  unfold shown_penalty. cbn.
  destruct (Z.ltb_spec (prev_penalty c) r); cbn; unfold in_u in *;
    split_and!; try done; try lia; destruct (is_protected tk); lia.
Qed.

(** C21: [probe_bore_task_fork].  For an eligible task the probe runs, with
    balanced RCU sections; the previous penalty of the new task becomes the
    larger of its own and the inherited one, its burst time and current penalty
    start at zero, its flag bytes are cleared, and its penalty is the previous
    one, or 0 when it is protected.  Its two caches are not reset: they are
    those it has when the inheritance returns, and no other task changes after
    that. *)
Theorem task_fork_correct (T : tunables) rank w t tk cur now :
  tree_ok rank w → bore_world_ok w → w_tasks w !! t = Some tk → ptr_ok w cur →
  sched_bore T ≠ 0 → bore_task_is_eligible tk = true →
  ∃ inherited w1 w' tk',
    fork_inherit T bore_lut t cur now (with_rcu (S (w_rcu w)) w) = Done (inherited, w1) ∧
    probe_bore_task_fork T bore_lut (Some t) cur now w = Done (tt, w') ∧
    same_links w' w ∧ w_tasks w' !! t = Some tk' ∧
    prev_penalty (ctx_of tk') = Z.max (prev_penalty (ctx_of tk)) inherited ∧
    burst_time (ctx_of tk') = 0 ∧ curr_penalty (ctx_of tk') = 0 ∧
    stop_update (ctx_of tk') = 0 ∧ futex_waiting (ctx_of tk') = 0 ∧
    penalty (ctx_of tk')
    = (if is_protected tk then 0 else Z.max (prev_penalty (ctx_of tk)) inherited) ∧
    (∃ tk1, w_tasks w1 !! t = Some tk1 ∧ bare tk' = bare tk1 ∧
       subtree (ctx_of tk') = subtree (ctx_of tk1) ∧ group (ctx_of tk') = group (ctx_of tk1)) ∧
    (∀ t', t' ≠ t → w_tasks w' !! t' = w_tasks w1 !! t').
Proof.
  intros Htree Hw Htk Hcur Hen Hel.
  destruct (task_fork_run T rank w t tk cur now)
    as (r & w1 & tk1 & Hinh & Hr & Hw1 & Hl & Htk1 & Hsame & Hrun); try done.
  assert (bore_ctx_ok (fork_ctx T tk r (ctx_of tk1))) as [Htyp _]
    by (apply fork_ctx_ok; eauto).
  eexists r, w1, _, _. split; [exact Hinh|]. split; [exact Hrun|]. split.
  { apply same_links_with_rcu. etrans; [apply put_view_same_links|done]. }
  split; [exact (put_view_lookup_eq _ _ _ _ Htk1)|].
  rewrite ctx_of_put by done. destruct (Hsame t tk tk1 Htk Htk1) as (_ & E & _). rewrite <- E.
  destruct (fork_ctx_value T tk r (ctx_of tk1)) as (? & ? & ? & ? & ? & ? & ? & ?); [by eauto|done|].
  do 6 (split; [done|]). split; [by exists tk1|].
  intros t' Hne. by apply put_view_lookup_ne.
Qed.

(** A cache entry written at [now] is expired at [now'] exactly when
    more than the lifetime has passed since [now] rounded down to a multiple of
    2^16 ns: it lives its lifetime, less at most 65.535 microseconds. *)
Theorem burst_cache_window (T : tunables) v now now' :
  0 <= now <= now' → now' < 2 ^ 64 → 0 <= sched_burst_cache_lifetime T →
  (burst_cache_expired T (mk_bc v (now >>. BORE_BC_TIMESTAMP_SHIFT)) now' = true
   ↔ sched_burst_cache_lifetime T < now' - now / 65536 * 65536) ∧
  (now' - now <= sched_burst_cache_lifetime T - 65535 →
   burst_cache_expired T (mk_bc v (now >>. BORE_BC_TIMESTAMP_SHIFT)) now' = false) ∧
  (sched_burst_cache_lifetime T < now' - now →
   burst_cache_expired T (mk_bc v (now >>. BORE_BC_TIMESTAMP_SHIFT)) now' = true).
Proof.
  intros Hn Hn' Hlt. unfold burst_cache_expired, BORE_BC_TIMESTAMP_SHIFT.
  rewrite bc_timestamp_mk, Z.shiftr_div_pow2, Z.shiftl_mul_pow2 by lia.
  change (2 ^ 64) with 18446744073709551616 in Hn'. change (2 ^ 16) with 65536.
  assert (0 <= now / 65536 * 65536 <= now ∧ now < now / 65536 * 65536 + 65536) by clia.
  rewrite (wrapu_small 48) by (unfold in_u; pow2_norm; lia).
  set (q := now / 65536 * 65536) in *. clearbody q.
  rewrite (wrapu_small 64 q) by (unfold in_u; pow2_norm; lia).
  rewrite (wrapu_small 64 (now' - q)) by (unfold in_u; pow2_norm; lia).
  split_and!; [by rewrite Z.ltb_lt|intros; apply Z.ltb_ge; lia|intros; apply Z.ltb_lt; lia].
Qed.

(** [effective_prio_bore] clamps without branches: for every input the
    priority is one of the 40 nice levels; for the scheduler's static
    priorities it is the static level plus the score (the penalty divided by
    256) when BORE is enabled, clamped to the range. *)
Theorem effective_prio_correct (T : tunables) p c :
  static_prio_ok p → in_u 16 (penalty c) →
  (∀ p' c', 0 <= effective_prio_bore T p' c' <= 39) ∧
  effective_prio_bore T p c
  = Z.min 39 (Z.max 0
      (t_static_prio p - 100 + if sched_bore T =? 0 then 0 else penalty c / 256)).
Proof.
  intros Hp Hc. split; [apply effective_prio_range|by apply effective_prio_value].
Qed.

(** C28: Kernel threads and tasks of negative nice value are never penalised:
    once the penalty of a protected task is 0, it stays 0 through any sequence
    of calls, so BORE leaves its static priority alone. *)
Theorem protected_never_penalised rank w (l : list (tunables * bore_call)) w' t p p' :
  tree_ok rank w → bore_world_ok w →
  Forall (λ Tc, smoothness_ok (fst Tc) ∧ call_ok w (snd Tc)) l →
  run_calls bore_lut l w = Done (tt, w') →
  w_tasks w !! t = Some p → w_tasks w' !! t = Some p' →
  is_protected p = true → penalty (ctx_of p) = 0 →
  penalty (ctx_of p') = 0.
Proof.
  intros Htree Hw Hl Hrun Hp Hp' Hprot Hz.
  destruct (run_calls_steps rank l w Htree Hw Hl) as (w2 & Hrun2 & _ & _ & Hsteps).
  rewrite Hrun in Hrun2. injection Hrun2 as <-.
  by eapply (protected_steps w w').
Qed.

(** [probe_bore_update_curr] reports a priority through its out
    parameter exactly when charging the time changed the effective priority of
    the task, and then it is the new one; otherwise the pointee is untouched. *)
Theorem update_curr_reports (T : tunables) w t p d np :
  w_tasks w !! t = Some p → bore_world_ok w →
  sched_bore T ≠ 0 → stop_update (ctx_of p) = 0 →
  ∃ w' p', probe_bore_update_curr T (Some t) d (Some np) w
    = Done (Some (if effective_prio_bore T p' (ctx_of p')
                     =? effective_prio_bore T p (ctx_of p)
                  then np else effective_prio_bore T p' (ctx_of p')), w') ∧
    w_tasks w' !! t = Some p' ∧
    burst_time (ctx_of p') = u64 (burst_time (ctx_of p) + d) ∧
    curr_penalty (ctx_of p') = calc_burst_penalty T (u64 (burst_time (ctx_of p) + d)).
Proof.
  intros Hp Hw Hen Hs. pose proof (Hw t p Hp) as Hok.
  pose proof (update_curr_ctx_ok T p d (ctx_of p) (Some np) Hok) as [Htyp _].
  destruct (update_curr_value T p d (ctx_of p) np) as (Hsnd & Hbt & Hcur).
  pose proof (update_curr_run T w t p d (Some np) Hp Hw Hen Hs) as Hrun.
  destruct (update_curr_ctx T p d (ctx_of p) (Some np)) as [c onp].
  cbn [fst snd] in *. subst onp.
  exists (put_view t c w), (task_set_kabi (kv_store c (se_kabi (t_se p))) p).
  rewrite ctx_of_put by exact Htyp.
  rewrite (effective_prio_ext T (task_set_kabi _ p) p c c) by reflexivity.
  split; [exact Hrun|]. split; [exact (put_view_lookup_eq t c w p Hp)|].
  split; [exact Hbt|exact Hcur].
Qed.
End theorems.

(** ** Instances on the sample tree *)

Definition sample_job : task :=
  sample_task 0 130 (sample_kabi 7000 0 0 0) 3 5 [6%positive] [5%positive] "job".

Definition sample_events : list burst_event :=
  [Ran 40000000; Slept; Ran 3000; Ran 90000000; Yielded].

Lemma bore_refines_burst_witness :
  ∃ w' p', run_calls bore_lut
      (map (λ e, (default_tunables, event_call 5%positive e)) sample_events)
      (sample_world 0) = Done (tt, w') ∧
    w_tasks w' !! 5%positive = Some p' ∧
    implements default_tunables
      (burst_run default_tunables (Burst 7000 0) sample_events) (ctx_of p').
Proof.
  destruct (bore_refines_burst default_tunables sample_events (sample_world 0)
    5%positive sample_job (Burst 7000 0)) as (w' & p' & H1 & H2 & _ & H3 & _).
  - exact sample_tunables_ok.
  - apply sample_bore_ok.
  - reflexivity.
  - reflexivity.
  - split; [apply bore_ctx_okb_sound; vm_compute; reflexivity|].
    repeat split; vm_compute; reflexivity.
  - repeat constructor; vm_compute; congruence.
  - vm_compute. reflexivity.
  - split; vm_compute; congruence.
  - exists w', p'. split; [exact H1|split; [exact H2|exact H3]].
Defined.

Definition sample_calls : list (tunables * bore_call) :=
  [(default_tunables, CallUpdateCurr (Some 3%positive) 70000000 (Some 20));
   (default_tunables, CallFork (Some 7%positive) (Some 4%positive) 5000000000);
   (default_tunables, CallFork (Some 5%positive) (Some 3%positive) 5000000001);
   (Tunables 1 1 0 20 2048 0, CallFork (Some 5%positive) (Some 3%positive) 6000000000);
   (default_tunables, CallDequeue (Some 6%positive) 1);
   (default_tunables, CallYield (Some 2%positive));
   (default_tunables, CallLoadWeight (Some 6%positive) (Some 0));
   (default_tunables, CallSetNext None);
   (default_tunables, CallInit (Some (SeGroup 1%positive)))].

Lemma sample_calls_ok rcu :
  Forall (λ Tc, smoothness_ok (fst Tc) ∧ call_ok (sample_world rcu) (snd Tc)) sample_calls.
Proof.
  unfold sample_calls.
  repeat (constructor; [split; [split; vm_compute; congruence|cbn; repeat split; by eexists]|]).
  constructor.
Qed.

Lemma bore_calls_safe_witness :
  ∃ w', run_calls bore_lut sample_calls (sample_world 0) = Done (tt, w') ∧
        bore_world_ok w' ∧ tree_ok sample_rank w'.
Proof.
  destruct (bore_calls_safe sample_rank (sample_world 0) sample_calls)
    as (w' & H1 & H2 & _ & H3).
  - apply sample_tree_ok.
  - apply sample_bore_ok.
  - apply sample_calls_ok.
  - exists w'. split; [exact H1|split; [exact H2|exact H3]].
Defined.

Lemma inherit_from_ancestor_hub_correct_witness :
  ∃ h r w', inherit_from_ancestor_hub default_tunables bore_lut (Some 4%positive) 0
      5000000000 (sample_world 1) = Done (r, w') ∧
    hub (sample_world 1) 0 4%positive h ∧ 0 <= r <= MAX_BURST_PENALTY ∧
    only_cache_written default_tunables Subtree h 5000000000 r (sample_world 1) w'.
Proof.
  destruct (inherit_from_ancestor_hub_correct default_tunables sample_rank
    (sample_world 1) 4%positive 5000000000)
    as (h & p & ls & r & w' & H1 & H2 & _ & _ & _ & _ & H3).
  - apply sample_tree_ok.
  - apply sample_bore_ok.
  - vm_compute. apply le_n.
  - eexists. reflexivity.
  - exists h, r, w'. split; [exact H1|split; [exact H2|exact H3]].
Defined.

Lemma inherit_from_parent_correct_witness :
  ∃ p r w', inherit_from_parent default_tunables bore_lut (Some 3%positive) 0 5000000000
      (sample_world 1) = Done (r, w') ∧
    r = inherited_value default_tunables (sample_world 1) Subtree (ctx_of p)
          (samples (sample_world 1) (t_children p)) 5000000000.
Proof.
  destruct (inherit_from_parent_correct default_tunables sample_rank (sample_world 1)
    3%positive 0 5000000000) as (p & r & w' & H1 & _ & H2 & _).
  - apply sample_tree_ok.
  - apply sample_bore_ok.
  - vm_compute. apply le_n.
  - eexists. reflexivity.
  - exists p, r, w'. split; [exact H1|exact H2].
Defined.

Definition sample_thread : task :=
  sample_task 0 120 (sample_kabi 8000000 500 700 700) 3 4 []
    [4%positive; 7%positive] "app-io".

Lemma inherit_from_thread_group_correct_witness :
  ∃ pl threads r w',
    inherit_from_thread_group default_tunables bore_lut 7%positive 5000000000
      (sample_world 1) = Done (r, w') ∧
    r = inherited_value default_tunables (sample_world 1) Group (ctx_of pl)
          (samples (sample_world 1) threads) 5000000000.
Proof.
  destruct (inherit_from_thread_group_correct default_tunables sample_rank
    (sample_world 1) 7%positive sample_thread 5000000000)
    as (pl & ths & r & w' & H1 & _ & _ & H2 & _).
  - apply sample_tree_ok.
  - apply sample_bore_ok.
  - vm_compute. apply le_n.
  - reflexivity.
  - exists pl, ths, r, w'. split; [exact H1|exact H2].
Defined.

Lemma sample_penalties_selects_witness :
  sample_penalties mret [4%positive; 5%positive; 7%positive] 0 0 0 (sample_world 1)
  = Done ((3, 1800), sample_world 1).
Proof.
  refine (eq_trans (sample_penalties_selects (sample_world 1)
    [4%positive; 5%positive; 7%positive] _ _) _).
  - apply sample_bore_ok.
  - intros x Hx. repeat (apply elem_of_cons in Hx as [->|Hx]; [by eexists|]).
    by apply elem_of_nil in Hx.
  - vm_compute. reflexivity.
Defined.

Lemma task_fork_correct_witness :
  ∃ inherited w' tk',
    probe_bore_task_fork default_tunables bore_lut (Some 5%positive) (Some 3%positive)
      5000000000 (sample_world 0) = Done (tt, w') ∧
    w_tasks w' !! 5%positive = Some tk' ∧
    prev_penalty (ctx_of tk') = Z.max (prev_penalty (ctx_of sample_job)) inherited.
Proof.
  destruct (task_fork_correct default_tunables sample_rank (sample_world 0) 5%positive
    sample_job (Some 3%positive) 5000000000)
    as (i & w1 & w' & tk' & _ & H1 & _ & H2 & H3 & _).
  - apply sample_tree_ok.
  - apply sample_bore_ok.
  - reflexivity.
  - eexists. reflexivity.
  - vm_compute. congruence.
  - reflexivity.
  - exists i, w', tk'. split; [exact H1|split; [exact H2|exact H3]].
Defined.

Lemma burst_cache_window_witness :
  burst_cache_expired default_tunables (mk_bc 700 (5000000000 >>. BORE_BC_TIMESTAMP_SHIFT))
    5074934465 = false ∧
  burst_cache_expired default_tunables (mk_bc 700 (5000000000 >>. BORE_BC_TIMESTAMP_SHIFT))
    5075000001 = true.
Proof.
  split.
  - apply (burst_cache_window default_tunables 700 5000000000 5074934465);
      try split; vm_compute; congruence.
  - apply (burst_cache_window default_tunables 700 5000000000 5075000001);
      try split; vm_compute; congruence.
Defined.

Lemma effective_prio_correct_witness :
  effective_prio_bore default_tunables sample_job
    (set_penalty 1100 (ctx_of sample_job)) = 34.
Proof.
  refine (eq_trans (proj2 (effective_prio_correct default_tunables sample_job
    (set_penalty 1100 (ctx_of sample_job)) _ _)) _).
  - split; vm_compute; congruence.
  - split; vm_compute; congruence.
  - reflexivity.
Defined.

Definition sample_protected_world : world :=
  put_view 6%positive bore_ctx_zero (sample_world 0).

Lemma sample_protected_tree : tree_ok sample_rank sample_protected_world.
Proof. apply tree_okb_sound. vm_compute. reflexivity. Qed.

Lemma sample_protected_ok : bore_world_ok sample_protected_world.
Proof. apply bore_world_okb_sound. vm_compute. reflexivity. Qed.

Definition sample_kworker : task :=
  sample_task 2097152 120 kabi_zero 5 6 [] [6%positive] "kswapd0".

Definition kworker_calls : list (tunables * bore_call) :=
  [(default_tunables, CallUpdateCurr (Some 6%positive) 900000000 None);
   (default_tunables, CallYield (Some 6%positive))].

Lemma protected_never_penalised_witness :
  ∃ w' p', run_calls bore_lut kworker_calls sample_protected_world = Done (tt, w') ∧
    w_tasks w' !! 6%positive = Some p' ∧ penalty (ctx_of p') = 0 ∧
    prev_penalty (ctx_of p') > 0.
Proof.
  eexists _, _. split; [vm_compute; reflexivity|].
  split; [vm_compute; reflexivity|]. split; [|vm_compute; reflexivity].
  eapply (protected_never_penalised sample_rank sample_protected_world kworker_calls _
    6%positive sample_kworker).
  - exact sample_protected_tree.
  - exact sample_protected_ok.
  - repeat constructor; vm_compute; try congruence; eexists; reflexivity.
  - vm_compute. reflexivity.
  - reflexivity.
  - vm_compute. reflexivity.
  - reflexivity.
  - reflexivity.
Defined.

Lemma update_curr_reports_witness :
  ∃ w' p', probe_bore_update_curr default_tunables (Some 5%positive) 900000000 (Some 77)
      (sample_world 0)
    = Done (Some (if effective_prio_bore default_tunables p' (ctx_of p') =? 30
                  then 77 else effective_prio_bore default_tunables p' (ctx_of p')), w').
Proof.
  destruct (update_curr_reports default_tunables (sample_world 0) 5%positive sample_job
    900000000 77) as (w' & p' & H1 & _).
  - reflexivity.
  - apply sample_bore_ok.
  - vm_compute. congruence.
  - reflexivity.
  - exists w', p'. exact H1.
Defined.
