(* ===== verification/BoreSteps.v ===== *)
(** * The fork path of BORE, access by access

    The inherit functions and the fork probe of bore_sched_main.c as programs
    of atomic actions: each READ_ONCE, WRITE_ONCE, field access or read of a
    list head is one action, so that other CPUs can act between any two of
    them.  The read of a list is a snapshot of it.  Run alone, the programs
    are the functions of [BoreInherit] and [BoreProbes]. *)

From S2P Require Import Prelude KMonad Kernel BoreMath BoreCtx BoreInherit BoreProbes Interleave.

#[local] Open Scope Z_scope.

(** ** Accesses *)

Definition field {A} (f : bore_ctx → A) (p : tid) : KM world A :=
  ctx ← bore_get_ctx p; mret (f ctx).

(** A store to some fields; the others keep what they have by then. *)
Definition store_fields (f : bore_ctx → bore_ctx) (p : tid) : KM world unit :=
  ctx ← bore_get_ctx p; bore_put_ctx p (f ctx).

Definition task_field {A} (f : task → A) (p : tid) : KM world A :=
  t ← read_task p; mret (f t).

Section steps.
Context `{KernelHeaders} (T : tunables) (lut : list Z).

(** How many steps the two walks may take. *)
Context (walk_fuel : prog world nat).

Definition count_children_upto2_steps (p : tid) : prog world Z :=
  children ← act (task_field t_children p);
  match children with
  | [] => mret 0
  | first :: rest => _ ← act (read_task first); mret (1 + b2z (bool_decide (rest ≠ [])))
  end.

Definition update_burst_cache_steps (bc : bc_ref) (p : tid) (count total now : Z) :
    prog world unit :=
  average ← act (deref (cache_average lut count total));
  own ← act (field penalty p);
  act (store_fields
         (bc_set bc (mk_bc (Z.max average own) (now >>. BORE_BC_TIMESTAMP_SHIFT))) p).

Fixpoint sample_penalties_steps (visit : tid → prog world tid) (l : list tid)
    (count total scan_count : Z) : prog world (Z * Z) :=
  match l with
  | [] => mret (count, total)
  | x :: l' =>
      if BURST_CACHE_SAMPLE_LIMIT <=? count then mret (count, total)
      else if BURST_CACHE_SCAN_LIMIT <=? scan_count then mret (count, total)
      else
        d ← visit x;
        eligible ← act (task_field bore_task_is_eligible d);
        if negb eligible
        then sample_penalties_steps visit l' count total (u32 (scan_count + 1))
        else
          pen ← act (field penalty d);
          sample_penalties_steps visit l' (u32 (count + 1))
            (u32 (total + pen)) (u32 (scan_count + 1))
  end.

Definition read_burst_cache_steps (bc : bc_ref) (p : tid)
    (scan : prog world (Z * Z)) (now : Z) : prog world Z :=
  value ← act (field (bc_get bc) p);
  _ ← (if burst_cache_expired T value now then
         ct ← scan;
         update_burst_cache_steps bc p (fst ct) (snd ct) now
       else mret tt);
  value ← act (field (bc_get bc) p);
  mret (bc_penalty value).

(** [rcu_dereference] of a field. *)
Definition rcu_field {A} (f : task → A) (p : tid) : KM world A :=
  rcu_access ;; task_field f p.

Definition inherit_from_parent_steps (parent : task_ptr) (clone_flags now : Z) :
    prog world Z :=
  parent ← (if (clone_flags &. CLONE_PARENT) =? 0 then mret parent
            else p ← act (deref parent); act (rcu_field t_real_parent p));
  match parent with
  | None => mret 0
  | Some p =>
      read_burst_cache_steps Subtree p
        (children ← act (rcu_field t_children p);
         sample_penalties_steps mret children 0 0 0) now
  end.

Fixpoint climb_steps (fuel : nat) (ancestor : tid) (sole_child_count : Z) :
    prog world tid :=
  match fuel with
  | O => act out_of_fuel
  | S f =>
      parent ← act (rcu_field t_real_parent ancestor);
      match parent with
      | None => mret ancestor
      | Some next =>
          if decide (next = ancestor) then mret ancestor
          else
            n ← count_children_upto2_steps ancestor;
            if n <=? sole_child_count then climb_steps f next 1 else mret ancestor
      end
  end.

Fixpoint descend_steps (fuel : nat) (descendant : tid) : prog world tid :=
  match fuel with
  | O => act out_of_fuel
  | S f =>
      n ← count_children_upto2_steps descendant;
      if n =? 1 then
        children ← act (rcu_field t_children descendant);
        match children with
        | [] => mret descendant
        | next_descendant :: _ => descend_steps f next_descendant
        end
      else mret descendant
  end.

Definition inherit_from_ancestor_hub_steps (parent : task_ptr) (clone_flags now : Z) :
    prog world Z :=
  fuel ← walk_fuel;
  as_ ← (if (clone_flags &. CLONE_PARENT) =? 0 then mret (parent, 0)
         else p ← act (deref parent); q ← act (rcu_field t_real_parent p); mret (q, 1));
  match fst as_ with
  | None => mret 0
  | Some a0 =>
      a ← climb_steps fuel a0 (snd as_);
      read_burst_cache_steps Subtree a
        (children ← act (rcu_field t_children a);
         sample_penalties_steps (descend_steps fuel) children 0 0 0) now
  end.

(** [for_each_thread] is only valid under RCU. *)
Definition signal_threads (leader : tid) : KM world (list tid) :=
  rcu_access ;; l ← read_task leader; deref (t_signal l).

Definition inherit_from_thread_group_steps (p : tid) (now : Z) : prog world Z :=
  leader ← act (task_field t_group_leader p);
  match leader with
  | None => mret 0
  | Some leader =>
      read_burst_cache_steps Group leader
        (threads ← act (signal_threads leader);
         sample_penalties_steps mret threads 0 0 0) now
  end.

(** [p->group_leader == parent->group_leader && p != parent]: the two leaders
    are read one after the other. *)
Definition fork_inherit_steps (t : tid) (parent : task_ptr) (now : Z) : prog world Z :=
  leader ← act (task_field t_group_leader t);
  same_group ←
    match parent with
    | None => mret false
    | Some pt =>
        parent_leader ← act (task_field t_group_leader pt);
        mret (bool_decide (leader = parent_leader) && bool_decide (t ≠ pt))
    end;
  match parent with
  | Some pt =>
      if (same_group : bool) then inherit_from_thread_group_steps pt now
      else if sched_burst_inherit_type T =? 2
      then inherit_from_ancestor_hub_steps parent 0 now
      else if sched_burst_inherit_type T =? 1
      then inherit_from_parent_steps parent 0 now
      else mret 0
  | None =>
      if sched_burst_inherit_type T =? 2
      then inherit_from_ancestor_hub_steps parent 0 now
      else if sched_burst_inherit_type T =? 1
      then inherit_from_parent_steps parent 0 now
      else mret 0
  end.

(** The context of a task that is being forked is still its own: the stores
    to it are one action. *)
Definition probe_bore_task_fork_steps (p current : task_ptr) (now : Z) : prog world unit :=
  match p with
  | None => mret tt
  | Some t =>
      if sched_bore T =? 0 then mret tt
      else
        tk ← act (read_task t);
        if negb (bore_task_is_eligible tk) then mret tt
        else
          _ ← act rcu_read_lock;
          inherited_penalty ← fork_inherit_steps t current now;
          _ ← act (store_fields (fork_ctx T tk inherited_penalty) t);
          act rcu_read_unlock
  end.
End steps.

(** ** Run alone, the programs are the functions *)

(** An action on a task followed by the rest. *)
Lemma implements_task {A B} p (f : task → A) (k : A → prog world B) (g : task → KM world B) :
  (∀ t, implements_km (k (f t)) (g t)) →
  implements_km (act (task_field f p) ≫= k) (read_task p ≫= g).
Proof.
  intros Hk s. rewrite run_bind. unfold task_field.
  unfold mbind at 1, km_bind at 1. rewrite implements_act.
  unfold mbind, km_bind. destruct (read_task p s) as [[t s1]| |]; [apply Hk|done..].
Qed.

Lemma implements_rcu_task {A B} p (f : task → A) (k : A → prog world B) (g : task → KM world B) :
  (∀ t, implements_km (k (f t)) (g t)) →
  implements_km (act (rcu_field f p) ≫= k) (rcu_access ;; t ← read_task p; g t).
Proof.
  intros Hk s. rewrite run_bind. unfold rcu_field, task_field.
  unfold mbind at 1, km_bind at 1. rewrite implements_act.
  unfold mbind, km_bind. destruct (rcu_access s) as [[u s1]| |]; [|done..].
  destruct (read_task p s1) as [[t s2]| |]; [apply Hk|done..].
Qed.

Lemma implements_field {A B} p (f : bore_ctx → A) (k : A → prog world B) (g : bore_ctx → KM world B) :
  (∀ c, implements_km (k (f c)) (g c)) →
  implements_km (act (field f p) ≫= k) (bore_get_ctx p ≫= g).
Proof.
  intros Hk s. rewrite run_bind. unfold field.
  unfold mbind at 1, km_bind at 1. rewrite implements_act.
  unfold mbind, km_bind. destruct (bore_get_ctx p s) as [[c s1]| |]; [apply Hk|done..].
Qed.

(** Reading a context changes nothing. *)
Lemma bore_get_ctx_cases p s :
  (∃ c, bore_get_ctx p s = Done (c, s)) ∨ bore_get_ctx p s = Oops.
Proof.
  unfold bore_get_ctx, load_view, read_kabi, read_task, mbind, km_bind, gets, deref, mret, km_ret.
  destruct (w_tasks s !! p) as [t|]; [left; eauto|by right].
Qed.

Section alone.
Context `{KernelHeaders} (T : tunables) (lut : list Z).

Lemma count_children_alone p :
  implements_km (count_children_upto2_steps p) (count_children_upto2 p).
Proof.
  apply implements_task. intros t. implements_auto.
Qed.

Lemma update_burst_cache_alone bc p count total now :
  implements_km (update_burst_cache_steps lut bc p count total now)
    (update_burst_cache lut bc p count total now).
Proof.
  intros s. unfold update_burst_cache_steps, update_burst_cache, store_fields, field.
  destruct (cache_average lut count total) as [av|] eqn:Ha;
    cbn [run act mbind prog_mbind prog_bind]; unfold mbind, km_bind, deref, mret, km_ret;
    destruct (bore_get_ctx_cases p s) as [[c E]|E]; rewrite E, ?Ha; try done.
  rewrite E. by destruct (bore_put_ctx p _ s) as [[]| |].
Qed.

Lemma sample_penalties_alone visit visit' l : 
  (∀ x, implements_km (visit x) (visit' x)) → ∀ c t s,
  implements_km (sample_penalties_steps visit l c t s) (sample_penalties visit' l c t s).
Proof.
  intros Hv. induction l as [|x l IH]; intros c t s;
    cbn [sample_penalties_steps sample_penalties]; [apply implements_ret|].
  do 2 (case_match; [apply implements_ret|]).
  apply implements_bind; [apply Hv|intros d]. apply implements_task. intros p.
  case_match; [apply IH|]. apply implements_field. intros ctx. apply IH.
Qed.

Lemma read_burst_cache_alone bc p scan scan' now :
  implements_km scan scan' →
  implements_km (read_burst_cache_steps T lut bc p scan now)
    (read_burst_cache T lut bc p scan' now).
Proof.
  intros Hs. apply implements_field. intros c. apply implements_bind.
  - case_match; [|apply implements_ret]. apply implements_bind; [done|].
    intros ct. apply update_burst_cache_alone.
  - intros _. apply implements_field. intros c'. apply implements_ret.
Qed.

Lemma first_parent_alone {A} (parent : task_ptr) (g : task_ptr → A) :
  implements_km (p ← act (deref parent); q ← act (rcu_field t_real_parent p); mret (g q))
    (p ← deref parent; rcu_access ;; t ← read_task p; mret (g (t_real_parent t))).
Proof.
  apply implements_bind; [apply implements_act|]. intros p.
  apply implements_rcu_task. intros t. apply implements_ret.
Qed.

Lemma inherit_from_parent_alone parent flags now :
  implements_km (inherit_from_parent_steps T lut parent flags now)
    (inherit_from_parent T lut parent flags now).
Proof.
  apply implements_bind.
  - case_match; [apply implements_ret|]. apply implements_bind; [apply implements_act|].
    intros p s. rewrite implements_act. unfold rcu_field, task_field. done.
  - intros [p|]; [|apply implements_ret]. apply read_burst_cache_alone.
    apply implements_rcu_task. intros t. apply sample_penalties_alone.
    intros x. apply implements_ret.
Qed.

Lemma climb_alone fuel : ∀ a sole,
  implements_km (climb_steps fuel a sole) (climb fuel a sole).
Proof.
  induction fuel as [|fuel IH]; intros a sole; cbn [climb_steps climb]; [apply implements_act|].
  apply implements_rcu_task. intros t. case_match; [|apply implements_ret].
  case_match; [apply implements_ret|].
  apply implements_bind; [apply count_children_alone|]. intros cnt.
  case_match; [apply IH|apply implements_ret].
Qed.

Lemma descend_alone fuel : ∀ d, implements_km (descend_steps fuel d) (descend fuel d).
Proof.
  induction fuel as [|fuel IH]; intros d; cbn [descend_steps descend]; [apply implements_act|].
  apply implements_bind; [apply count_children_alone|]. intros cnt.
  case_match; [|apply implements_ret].
  apply implements_rcu_task. intros t. case_match; [apply implements_ret|apply IH].
Qed.

Lemma inherit_from_ancestor_hub_alone parent flags now :
  implements_km (inherit_from_ancestor_hub_steps T lut (act loop_fuel) parent flags now)
    (inherit_from_ancestor_hub T lut parent flags now).
Proof.
  apply implements_bind; [apply implements_act|]. intros fuel. apply implements_bind.
  { case_match; [apply implements_ret|]. apply (first_parent_alone parent (λ q, (q, 1))). }
  intros [[a|] sole]; cbn [fst snd]; [|apply implements_ret].
  apply implements_bind; [apply climb_alone|]. intros h. apply read_burst_cache_alone.
  apply implements_rcu_task. intros t. apply sample_penalties_alone. apply descend_alone.
Qed.

Lemma inherit_from_thread_group_alone p now :
  implements_km (inherit_from_thread_group_steps T lut p now)
    (inherit_from_thread_group T lut p now).
Proof.
  apply implements_task. intros t. case_match; [|apply implements_ret].
  apply read_burst_cache_alone. intros s. rewrite run_bind. unfold signal_threads.
  unfold mbind at 1, km_bind at 1. rewrite implements_act.
  unfold mbind, km_bind. destruct (rcu_access s) as [[u s1]| |]; [|done..].
  destruct (read_task _ s1) as [[tl s2]| |]; [|done..].
  destruct (deref (t_signal tl) s2) as [[threads s3]| |]; [|done..].
  apply sample_penalties_alone. intros x. apply implements_ret.
Qed.

Lemma fork_inherit_alone t parent now :
  implements_km (fork_inherit_steps T lut (act loop_fuel) t parent now)
    (fork_inherit T lut t parent now).
Proof.
  apply implements_task. intros tk. apply implements_bind.
  { destruct parent as [pt|]; [|apply implements_ret].
    apply implements_task. intros ptk. apply implements_ret. }
  intros same. destruct parent as [pt|]; repeat case_match;
    auto using implements_ret, inherit_from_thread_group_alone,
      inherit_from_ancestor_hub_alone, inherit_from_parent_alone.
Qed.

(** Run by itself, the fork probe taken access by access is the fork probe:
    the same result, the same final state, and a fault exactly when the other
    has one. *)
Lemma fork_steps_alone p current now w :
  run (probe_bore_task_fork_steps T lut (act loop_fuel) p current now) w
  = probe_bore_task_fork T lut p current now w.
Proof.
  revert w. destruct p as [t|]; [|apply implements_ret].
  cbn [probe_bore_task_fork_steps probe_bore_task_fork]. case_match; [apply implements_ret|].
  apply implements_bind; [apply implements_act|]. intros tk.
  case_match; [apply implements_ret|].
  apply implements_bind; [apply implements_act|]. intros _.
  apply implements_bind; [apply fork_inherit_alone|]. intros v s.
  unfold store_fields. rewrite run_bind. unfold mbind at 1, km_bind at 1.
  rewrite implements_act. unfold mbind, km_bind.
  destruct (bore_get_ctx t s) as [[c s1]| |]; [|done..].
  destruct (bore_put_ctx t _ s1) as [[u s2]| |]; [|done..]. apply implements_act.
Qed.
End alone.
