(* ===== verification/BoreConcurrent.v ===== *)
(** * What CPUs that run BORE rely on

    Any number of CPUs run the probes of BORE at once, sharing the caches of
    the tasks they inherit from, while the rest of the kernel reparents, creates
    and frees tasks.  RCU keeps every task alive that was reachable when a CPU
    entered its read-side section, and the run queue lock keeps others away
    from the burst of a task.  The logic of [yields] reasons about one CPU
    among the others; here it is applied to the fork probe. *)

From S2P Require Import Prelude KMonad Kernel BoreMath BoreCtx BoreInherit SampleWorld BoreProbes Interleave BoreSteps.

#[local] Open Scope Z_scope.

(** ** CPUs *)

(** What a CPU holds: its RCU nesting, and the tasks and group entities that
    live as long as it works on them. *)
Record cpu := Cpu { cpu_rcu : nat; cpu_own : gset tid; cpu_groups : gset positive }.

#[export] Instance bore_sharing : Sharing world world cpu := {
  view _ sh l := World (w_tasks sh) (w_groups sh) (cpu_rcu l);
  shared_of _ sh s := World (w_tasks s) (w_groups s) (w_rcu sh);
  local_of l s := Cpu (w_rcu s) (cpu_own l) (cpu_groups l);
  owner _ := None
}.

(** The state as a CPU sees it. *)
Definition seen (l : cpu) (w : world) : world := World (w_tasks w) (w_groups w) (cpu_rcu l).

Definition alive (w : world) (t : tid) : Prop := is_Some (w_tasks w !! t).

(** The kernel may not free [t] under this CPU. *)
Definition protected (l : cpu) (t : tid) : Prop := (0 < cpu_rcu l)%nat ∨ t ∈ cpu_own l.

(** Every penalty of the context, cached ones included, is at most [B]. *)
Definition ctx_within (B : Z) (c : bore_ctx) : Prop :=
  bore_ctx_typed c ∧ prev_penalty c <= B ∧ curr_penalty c <= B ∧ penalty c <= B ∧
  bc_penalty (subtree c) <= B ∧ bc_penalty (group c) <= B.

(** Nothing changed of a task that its run queue lock protects: the burst of its
    context, and what the module reads of the task itself. *)
Definition burst_kept `{KernelHeaders} (p p' : task) : Prop :=
  same_but_caches (ctx_of p) (ctx_of p') ∧ t_static_prio p' = t_static_prio p ∧
  is_protected p' = is_protected p ∧ bore_task_is_eligible p' = bore_task_is_eligible p.

Section concurrent.
Context `{KernelHeaders} (rank : tid → nat) (N : nat) (B : Z).

(** The CPU that holds the run queue of a task, if it is one of those we look
    at: the scheduler calls the hooks of a task with this lock held, and that of
    a fork before any other CPU can see the new task. *)
Context (holder : tid → option nat).

(** The shared state is sound at every moment: contexts are within the bound,
    links lead to live tasks, parents are of lower and children of higher rank,
    and ranks are below [N], the number of tasks there can be. *)
Record good (w : world) : Prop := {
  gd_ctx t p : w_tasks w !! t = Some p → ctx_within B (ctx_of p);
  gd_rank t : alive w t → (rank t < N)%nat;
  gd_parent t p q : w_tasks w !! t = Some p → t_real_parent p = Some q →
    alive w q ∧ (q ≠ t → (rank q < rank t)%nat);
  gd_child t p c : w_tasks w !! t = Some p → c ∈ t_children p →
    alive w c ∧ (rank t < rank c)%nat;
  gd_leader t p g : w_tasks w !! t = Some p → t_group_leader p = Some g →
    ∃ pg threads, w_tasks w !! g = Some pg ∧ t_signal pg = Some threads
}.

(** A live group leader keeps its signal structure, and the threads on its list
    are alive. *)
Definition good_leaders (w : world) : Prop :=
  ∀ g pg threads x, w_tasks w !! g = Some pg → t_signal pg = Some threads →
    x ∈ threads → alive w x.

Definition sound (w : world) : Prop := good w ∧ good_leaders w.

(** Leaders stay leaders while RCU readers look at them. *)
Definition leader (w : world) (g : tid) : Prop :=
  ∃ pg threads, w_tasks w !! g = Some pg ∧ t_signal pg = Some threads.

(** No CPU's tasks and entities are taken away from it. *)
Record evolves (l : cpu) (w w' : world) : Prop := {
  ev_sound : sound w → sound w';
  ev_alive t : protected l t → alive w t → alive w' t;
  ev_leader g : (0 < cpu_rcu l)%nat → leader w g → leader w' g;
  ev_group g : g ∈ cpu_groups l → is_Some (w_groups w !! g) → is_Some (w_groups w' !! g)
}.

(** The tasks CPU [i] holds stay as they are. *)
Definition steady (i : nat) (w w' : world) : Prop :=
  ∀ t p, holder t = Some i → w_tasks w !! t = Some p →
  ∃ p', w_tasks w' !! t = Some p' ∧ burst_kept p p'.

(** What a CPU relies on. *)
Definition bore_rely (i : nat) (l : cpu) (w w' : world) : Prop :=
  evolves l w w' ∧ steady i w w'.

(** The rest of the kernel, next to the CPUs [ls]: it does whatever keeps the
    shared state sound and respects what the CPUs hold. *)
Definition bore_env (ls : list cpu) (w w' : world) : Prop :=
  (sound w → sound w') ∧ ∀ i l, ls !! i = Some l → bore_rely i l w w'.

Lemma evolves_refl l w : evolves l w w.
Proof. by split. Qed.

Lemma evolves_trans l w1 w2 w3 : evolves l w1 w2 → evolves l w2 w3 → evolves l w1 w3.
Proof. intros [] []. split; auto. Qed.

Lemma burst_kept_refl p : burst_kept p p.
Proof. done. Qed.

Lemma burst_kept_trans p1 p2 p3 : burst_kept p1 p2 → burst_kept p2 p3 → burst_kept p1 p3.
Proof. unfold burst_kept, same_but_caches. intuition congruence. Qed.

Lemma steady_refl i w : steady i w w.
Proof. intros t p _ Hp. by exists p. Qed.

Lemma steady_trans i w1 w2 w3 : steady i w1 w2 → steady i w2 w3 → steady i w1 w3.
Proof.
  intros H1 H2 t p Ht Hp. destruct (H1 t p Ht Hp) as (p2 & Hp2 & Hk2).
  destruct (H2 t p2 Ht Hp2) as (p3 & Hp3 & Hk3). exists p3. eauto using burst_kept_trans.
Qed.

Lemma rely_refl i l w : bore_rely i l w w.
Proof. split; [apply evolves_refl|apply steady_refl]. Qed.

Lemma rely_trans i l w1 w2 w3 : bore_rely i l w1 w2 → bore_rely i l w2 w3 → bore_rely i l w1 w3.
Proof. intros [] []. split; eauto using evolves_trans, steady_trans. Qed.

(** [p] run by a CPU that holds [l] is safe and ends, still holding [l], with a
    result in [P]. *)
Definition yields {A} (i : nat) (l : cpu) (w : world) (p : prog world A)
    (P : A → world → Prop) : Prop :=
  safe bore_rely i l w p (λ a l' w', l' = l ∧ evolves l w w' ∧ sound w' ∧ P a w').

Lemma yields_ret_rely {A} i l w (a : A) (P : A → world → Prop) :
  sound w → (∀ w', bore_rely i l w w' → sound w' → P a w') → yields i l w (mret a) P.
Proof.
  intros Hw HP w' Hr. pose proof (ev_sound _ _ _ (proj1 Hr) Hw).
  split_and!; [done|apply Hr|done|auto].
Qed.

Lemma yields_ret {A} i l w (a : A) (P : A → world → Prop) :
  sound w → (∀ w', evolves l w w' → sound w' → P a w') → yields i l w (mret a) P.
Proof. intros Hw HP. apply yields_ret_rely; [done|]. intros w' [Hr _]. by apply HP. Qed.

Lemma yields_bind {A C} i l w (p : prog world A) (f : A → prog world C) P R :
  yields i l w p P →
  (∀ a w', evolves l w w' → sound w' → P a w' → yields i l w' (f a) R) →
  yields i l w (p ≫= f) R.
Proof.
  intros Hp Hf. apply (safe_bind bore_rely rely_refl). eapply safe_mono; [exact Hp|].
  intros a l' w' (-> & Hr & Hs & HP). eapply safe_mono; [by apply Hf|].
  intros c l' w2 (-> & Hr2 & Hs2 & HR). split_and!; [done|by eapply evolves_trans|done..].
Qed.

Lemma yields_mono {A} i l w (p : prog world A) (P R : A → world → Prop) :
  yields i l w p P → (∀ a w', P a w' → R a w') → yields i l w p R.
Proof. intros Hp HR. eapply safe_mono; [exact Hp|]. intros a l' w' (? & ? & ? & ?). auto. Qed.

(** An action on the shared state. *)
Lemma yields_act {A} i l w (m : KM world A) (P : A → world → Prop) :
  sound w →
  (∀ w', bore_rely i l w w' → sound w' →
     ∃ a w1, m (seen l w') = Done (a, seen l w1) ∧ w_rcu w1 = w_rcu w' ∧
       (∀ l, evolves l w' w1) ∧ (∀ j, j ≠ i → steady j w' w1) ∧
       ∀ w2, bore_rely i l w1 w2 → sound w2 → P a w2) →
  yields i l w (act m) P.
Proof.
  intros Hw Hm w' Hr. split; [done|]. intros _.
  destruct (Hm w' Hr (ev_sound _ _ _ (proj1 Hr) Hw)) as (a & w1 & E & Hrcu & Hev & Hst & HP).
  eapply wp_of_result; [exact E|]. destruct l as [d o g]. cbn.
  assert (World (w_tasks w1) (w_groups w1) (w_rcu w') = w1) as -> by (rewrite <- Hrcu; by destruct w1).
  split; [split; [intros; split; auto|by left]|].
  intros w2 [Hr2 Hst2]. assert (sound w2) by (eapply ev_sound; [exact Hr2|];
    eapply ev_sound; [apply (Hev (Cpu d o g))|]; by eapply ev_sound; [apply Hr|]).
  split_and!; [done| |done|].
  - eapply evolves_trans; [apply Hr|]. by eapply evolves_trans.
  - by apply HP.
Qed.

(** An action that only looks. *)
Lemma yields_read_rely {A} i l w (m : KM world A) (P : A → world → Prop) :
  sound w →
  (∀ w', bore_rely i l w w' → sound w' →
     ∃ a, m (seen l w') = Done (a, seen l w') ∧
          ∀ w2, bore_rely i l w' w2 → sound w2 → P a w2) →
  yields i l w (act m) P.
Proof.
  intros Hw Hm. apply yields_act; [done|]. intros w' Hr Hs.
  destruct (Hm w' Hr Hs) as (a & E & HP).
  exists a, w'. split_and!; [done|done|intros; apply evolves_refl|intros; apply steady_refl|done].
Qed.

Lemma yields_read {A} i l w (m : KM world A) (P : A → world → Prop) :
  sound w →
  (∀ w', evolves l w w' → sound w' →
     ∃ a, m (seen l w') = Done (a, seen l w') ∧
          ∀ w2, evolves l w' w2 → sound w2 → P a w2) →
  yields i l w (act m) P.
Proof.
  intros Hw Hm. apply yields_read_rely; [done|]. intros w' [Hr _] Hs.
  destruct (Hm w' Hr Hs) as (a & E & HP). exists a. split; [done|].
  intros w2 [Hr2 _]. by apply HP.
Qed.

Lemma yields_task {A} i l w t (f : task → A) (P : A → world → Prop) :
  sound w → protected l t → alive w t →
  (∀ w' p, evolves l w w' → sound w' → w_tasks w' !! t = Some p →
     ∀ w2, evolves l w' w2 → sound w2 → P (f p) w2) →
  yields i l w (act (task_field f t)) P.
Proof.
  intros Hw Hpr Hal HP. apply yields_read; [done|]. intros w' Hr Hs.
  destruct (ev_alive _ _ _ Hr t Hpr Hal) as [p Hp].
  exists (f p). split; [|by eapply HP]. unfold task_field.
  by rewrite (bind_done _ _ _ _ _ (read_task_run (seen l w') t p Hp)).
Qed.

Lemma yields_rcu {A} i l w t (f : task → A) (P : A → world → Prop) :
  sound w → (0 < cpu_rcu l)%nat → alive w t →
  (∀ w' p, evolves l w w' → sound w' → w_tasks w' !! t = Some p →
     ∀ w2, evolves l w' w2 → sound w2 → P (f p) w2) →
  yields i l w (act (rcu_field f t)) P.
Proof.
  intros Hw Hrcu Hal HP. apply yields_read; [done|]. intros w' Hr Hs.
  destruct (ev_alive _ _ _ Hr t (or_introl Hrcu) Hal) as [p Hp].
  exists (f p). split; [|by eapply HP]. unfold rcu_field, task_field.
  rewrite (bind_done _ _ _ _ _ (rcu_access_run (seen l w') Hrcu)).
  by rewrite (bind_done _ _ _ _ _ (read_task_run (seen l w') t p Hp)).
Qed.

Lemma yields_field {A} i l w t (f : bore_ctx → A) (P : A → world → Prop) :
  sound w → protected l t → alive w t →
  (∀ c w2, ctx_within B c → P (f c) w2) →
  yields i l w (act (field f t)) P.
Proof.
  intros Hw Hpr Hal HP. apply yields_read; [done|]. intros w' Hr [Hs Hl].
  destruct (ev_alive _ _ _ Hr t Hpr Hal) as [p Hp].
  exists (f (ctx_of p)). split; [|intros w2 _ _; by eapply HP, gd_ctx]. unfold field.
  by rewrite (bind_done _ _ _ _ _ (bore_get_ctx_run (seen l w') t p Hp)).
Qed.

(** *** The pieces of the inherit functions *)

Lemma rely_alive l w w' t : evolves l w w' → protected l t → alive w t → alive w' t.
Proof. intros He. by apply ev_alive. Qed.

Lemma children_yield i l w t :
  sound w → (0 < cpu_rcu l)%nat → alive w t →
  yields i l w (count_children_upto2_steps t) (λ n _, 0 <= n <= 2).
Proof.
  intros Hw Hrcu Hal. unfold count_children_upto2_steps.
  eapply (yields_bind _ _ _ _ _ (λ cs w', ∀ c, c ∈ cs → alive w' c)).
  - apply yields_task; [done|by left|done|].
    intros w1 p Hr1 [Hg _] Hp w2 Hr2 _ c Hc.
    eapply rely_alive; [exact Hr2|by left|]. by eapply (gd_child w1 Hg).
  - intros [|c cs] w1 Hr1 Hs1 Hcs; [by apply yields_ret; [done|lia]|].
    eapply (yields_bind _ _ _ _ _ (λ _ _, True)).
    + destruct (Hcs c ltac:(left)) as [pc Hpc].
      apply yields_read; [done|]. intros w2 Hr2 Hs2.
      destruct (rely_alive _ _ _ c Hr2 (or_introl Hrcu)) as [p2 Hp2]; [by eexists|].
      exists p2. split; [|done]. exact (read_task_run (seen l w2) c p2 Hp2).
    + intros _ w2 Hr2 Hs2 _. apply yields_ret; [done|]. intros _ _ _.
      destruct (bool_decide _); cbn; lia.
Qed.

(** The loop: its counters stay in range, and no task is met that was freed. *)
Lemma sample_yield i l visit :
  0 <= B <= MAX_BURST_PENALTY → (0 < cpu_rcu l)%nat →
  (∀ x w, sound w → alive w x → yields i l w (visit x) (λ d w', alive w' d)) →
  ∀ xs w c t sc, sound w → (∀ x, x ∈ xs → alive w x) →
  0 <= c <= 63 → 0 <= t <= c * B → 0 <= sc <= 126 →
  yields i l w (sample_penalties_steps visit xs c t sc)
    (λ r _, 0 <= fst r <= 63 ∧ 0 <= snd r <= fst r * B).
Proof.
  rewrite max_burst_penalty_val. intros HB Hrcu Hv xs.
  induction xs as [|x xs IH]; intros w c t sc Hw Hxs Hc Ht Hsc; cbn [sample_penalties_steps];
    [by apply yields_ret|].
  unfold BURST_CACHE_SAMPLE_LIMIT, BURST_CACHE_SCAN_LIMIT.
  destruct (Z.leb_spec 63 c); [by apply yields_ret|].
  destruct (Z.leb_spec 126 sc); [by apply yields_ret|].
  rewrite (wrapu_small 32 (sc + 1)) by (unfold in_u; pow2_norm; lia).
  eapply yields_bind; [apply Hv; [done|apply Hxs; left]|]. intros d w1 Hr1 Hs1 Hd.
  assert (∀ y, y ∈ xs → alive w1 y) as Hxs1.
  { intros y Hy. eapply rely_alive; [exact Hr1|by left|apply Hxs; by right]. }
  eapply (yields_bind _ _ _ _ _ (λ _ w', alive w' d)).
  { apply yields_task; [done|by left|done|]. intros w2 p Hr2 Hs2 Hp w3 Hr3 _.
    eapply rely_alive; [exact Hr3|by left|by eexists]. }
  intros elig w2 Hr2 Hs2 Hd2.
  assert (∀ y, y ∈ xs → alive w2 y) as Hxs2.
  { intros y Hy. eapply rely_alive; [exact Hr2|by left|by apply Hxs1]. }
  destruct elig; cbn [negb]; [|by apply IH; (done || lia)].
  eapply (yields_bind _ _ _ _ _ (λ pen _, 0 <= pen <= B)).
  { apply yields_field; [done|by left|done|].
    intros c' _ ((_ & _ & _ & [? _] & _) & _ & _ & ? & _). lia. }
  intros pen w3 Hr3 Hs3 Hpen.
  rewrite (wrapu_small 32 (c + 1)), (wrapu_small 32 (t + pen)) by (unfold in_u; pow2_norm; nia).
  apply IH; [done| |lia|nia|lia].
  intros y Hy. eapply rely_alive; [exact Hr3|by left|by apply Hxs2].
Qed.

(** A store of a value within the bound to a cache word. *)
Lemma bc_set_within bc v c :
  in_u 64 v → bc_penalty v <= B → ctx_within B c → ctx_within B (bc_set bc v c).
Proof.
  intros Hv Hb (Ht & ? & ? & ? & ? & ?).
  split; [by apply bc_set_typed|]. destruct bc; cbn; tauto.
Qed.

Lemma put_view_lookup_inv w t (c : bore_ctx) t' q :
  ctx_within B c → w_tasks (put_view t c w) !! t' = Some q →
  ∃ q0, w_tasks w !! t' = Some q0 ∧ bare q = bare q0 ∧ (ctx_of q = c ∨ q = q0).
Proof.
  intros Hc. unfold put_view. destruct (w_tasks w !! t) as [p|] eqn:Hp; [|by eauto].
  cbn [w_tasks with_tasks]. destruct (decide (t' = t)) as [->|Hne].
  - rewrite lookup_insert_eq. intros [= <-]. exists p. split_and!; [done|done|].
    left. by apply ctx_of_put, Hc.
  - rewrite lookup_insert_ne by done. eauto.
Qed.

Lemma put_view_lookup w t (c : bore_ctx) t' q :
  w_tasks w !! t' = Some q → ∃ q', w_tasks (put_view t c w) !! t' = Some q' ∧ bare q' = bare q.
Proof.
  intros Hq. unfold put_view. destruct (w_tasks w !! t) as [p|] eqn:Hp; [|by eauto].
  cbn [w_tasks with_tasks]. destruct (decide (t' = t)) as [->|Hne].
  - rewrite lookup_insert_eq. eexists. split; [done|]. by simplify_eq.
  - rewrite lookup_insert_ne by done. eauto.
Qed.

Lemma put_view_alive w t (c : bore_ctx) t' : alive w t' → alive (put_view t c w) t'.
Proof. intros [q Hq]. destruct (put_view_lookup w t c t' q Hq) as (? & ? & _). by eexists. Qed.

Lemma put_view_leader w t (c : bore_ctx) g : leader w g → leader (put_view t c w) g.
Proof.
  intros (pg & threads & Hpg & Hth). destruct (put_view_lookup w t c g pg Hpg) as (q & Hq & Hb).
  exists q, threads. split; [done|]. by rewrite <- Hth; apply (f_equal t_signal) in Hb.
Qed.

Lemma put_view_sound w t (c : bore_ctx) : ctx_within B c → sound w → sound (put_view t c w).
Proof.
  intros Hc [Hg Hl].
  assert (∀ t' q, w_tasks (put_view t c w) !! t' = Some q →
    ∃ q0, w_tasks w !! t' = Some q0 ∧ bare q = bare q0 ∧ (ctx_of q = c ∨ q = q0)) as Hold
    by (intros t' q; by apply put_view_lookup_inv).
  split; [split|].
  - intros t' q Hq. destruct (Hold t' q Hq) as (q0 & Hq0 & _ & [->| ->]); [done|].
    by eapply gd_ctx.
  - intros t' [q Hq]. destruct (Hold t' q Hq) as (q0 & Hq0 & _). eapply gd_rank; [done|by eexists].
  - intros t' q r Hq Hr. destruct (Hold t' q Hq) as (q0 & Hq0 & E & _).
    apply (f_equal t_real_parent) in E. cbn in E. rewrite E in Hr.
    destruct (gd_parent w Hg t' q0 r Hq0 Hr) as [? ?]. split; [by apply put_view_alive|done].
  - intros t' q r Hq Hr. destruct (Hold t' q Hq) as (q0 & Hq0 & E & _).
    apply (f_equal t_children) in E. cbn in E. rewrite E in Hr.
    destruct (gd_child w Hg t' q0 r Hq0 Hr) as [? ?]. split; [by apply put_view_alive|done].
  - intros t' q g Hq Hr. destruct (Hold t' q Hq) as (q0 & Hq0 & E & _).
    apply (f_equal t_group_leader) in E. cbn in E. rewrite E in Hr.
    by apply put_view_leader, (gd_leader w Hg t' q0).
  - intros g pg threads x Hpg Hth Hx. destruct (Hold g pg Hpg) as (q0 & Hq0 & E & _).
    apply (f_equal t_signal) in E. cbn in E. rewrite E in Hth.
    apply put_view_alive. by eapply Hl.
Qed.

Lemma put_view_evolves l w t (c : bore_ctx) : ctx_within B c → evolves l w (put_view t c w).
Proof.
  intros Hc. split.
  - by apply put_view_sound.
  - intros t' _. apply put_view_alive.
  - intros g _. apply put_view_leader.
  - intros g _ Hg. unfold put_view. by destruct (w_tasks w !! t).
Qed.

(** Another CPU does not see a store to a task that this one holds, nor one to
    a cache of any task. *)
Lemma put_view_steady j w t p (c : bore_ctx) :
  ctx_within B c → w_tasks w !! t = Some p →
  holder t ≠ Some j ∨ same_but_caches (ctx_of p) c → steady j w (put_view t c w).
Proof.
  intros Hc Hp Hor t' q Ht' Hq. destruct (decide (t = t')) as [<-|Hne].
  - rewrite (put_view_lookup_eq _ _ _ _ Hp). rewrite Hp in Hq. simplify_eq.
    eexists. split; [done|]. destruct Hor as [?|Hsame]; [done|].
    split_and!; [|done..]. by rewrite ctx_of_put by apply Hc.
  - rewrite put_view_lookup_ne by done. exists q. split; [done|apply burst_kept_refl].
Qed.

(** A store to some fields of a context: what is true after it. *)
Lemma yields_store_rely i l w t (f : bore_ctx → bore_ctx) (P : unit → world → Prop) :
  sound w → (∀ w', bore_rely i l w w' → alive w' t) →
  (∀ w' p, bore_rely i l w w' → sound w' → w_tasks w' !! t = Some p → ctx_within B (ctx_of p) →
     ctx_within B (f (ctx_of p)) ∧
     (holder t = Some i ∨ same_but_caches (ctx_of p) (f (ctx_of p))) ∧
     ∀ w2, bore_rely i l (put_view t (f (ctx_of p)) w') w2 → P tt w2) →
  yields i l w (act (store_fields f t)) P.
Proof.
  intros Hw Hal HP. apply yields_act; [done|]. intros w1 Hr1 Hs1.
  destruct (Hal w1 Hr1) as [p Hp].
  assert (ctx_within B (ctx_of p)) as Hc by (eapply gd_ctx; [apply Hs1|done]).
  destruct (HP w1 p Hr1 Hs1 Hp Hc) as (Hfc & Hown & HP2).
  exists tt, (put_view t (f (ctx_of p)) w1). split_and!.
  - unfold store_fields.
    rewrite (bind_done _ _ _ _ _ (bore_get_ctx_run (seen l w1) t p Hp)).
    rewrite (bore_put_ctx_run (seen l w1) t p (f (ctx_of p)) Hp).
    unfold put_view. cbn [seen w_tasks]. by rewrite Hp.
  - apply put_view_rcu.
  - intros. by apply put_view_evolves.
  - intros j Hj. eapply put_view_steady; [done|exact Hp|].
    destruct Hown as [Hh|Hsame]; [left|by right]. rewrite Hh. by intros [= ?].
  - intros w2 Hr2 _. by apply HP2.
Qed.

Lemma yields_store i l w t (f : bore_ctx → bore_ctx) (P : unit → world → Prop) :
  sound w → protected l t → alive w t →
  (∀ c, ctx_within B c → ctx_within B (f c)) →
  holder t = Some i ∨ (∀ c, same_but_caches c (f c)) → (∀ w', P tt w') →
  yields i l w (act (store_fields f t)) P.
Proof.
  intros Hw Hpr Hal Hf Hown HP. apply yields_store_rely; [done| |].
  - intros w' [Hr _]. by eapply rely_alive.
  - intros w' p _ _ _ Hc. split_and!; [by apply Hf| |done]. destruct Hown; auto.
Qed.

(** *** Reading a penalty through a cache *)

Context (T : tunables) (HB : 0 <= B <= MAX_BURST_PENALTY).

Lemma update_cache_yield i l w bc t count total now :
  sound w → protected l t → alive w t → 0 <= count <= 63 → 0 <= total <= count * B →
  yields i l w (update_burst_cache_steps bore_lut bc t count total now) (λ _ _, True).
Proof.
  rewrite max_burst_penalty_val in HB. intros Hw Hpr Hal Hc Ht.
  assert (cache_average bore_lut count total = Some (average count total)) as Ha
    by (apply cache_average_value; nia).
  assert (0 <= average count total <= B) as Hav.
  { unfold average. destruct (Z.eqb_spec count 0); [lia|].
    split; [apply Z.div_pos; lia|apply Z.div_le_upper_bound; lia]. }
  eapply (yields_bind _ _ _ _ _ (λ a _, a = average count total)).
  { apply yields_read; [done|]. intros w' _ _. exists (average count total).
    split; [by rewrite Ha|done]. }
  intros a w1 Hr1 Hs1 ->. pose proof (rely_alive _ _ _ t Hr1 Hpr Hal) as Hal1.
  eapply (yields_bind _ _ _ _ _ (λ own _, 0 <= own <= B)).
  { apply yields_field; [done|done|done|].
    intros c _ ((_ & _ & _ & [? _] & _) & _ & _ & ? & _). lia. }
  intros own w2 Hr2 Hs2 Hown. apply yields_store;
    [done|done|by eapply rely_alive| |right; intros c; by destruct bc|done].
  intros c Hctx. apply bc_set_within; [apply mk_bc_in_u| |done].
  rewrite bc_penalty_mk, wrapu_small by (unfold in_u; pow2_norm; lia). lia.
Qed.

Lemma read_cache_yield i l w bc t scan now :
  sound w → (0 < cpu_rcu l)%nat → alive w t →
  (∀ w', sound w' → alive w' t → evolves l w w' →
     yields i l w' scan (λ r _, 0 <= fst r <= 63 ∧ 0 <= snd r <= fst r * B)) →
  yields i l w (read_burst_cache_steps T bore_lut bc t scan now) (λ r _, 0 <= r <= B).
Proof.
  intros Hw Hrcu Hal Hscan.
  eapply (yields_bind _ _ _ _ _ (λ _ _, True)); [by apply yields_field; [done|by left|done|]|].
  intros v w1 Hr1 Hs1 _. pose proof (rely_alive _ _ _ t Hr1 (or_introl Hrcu) Hal) as Hal1.
  eapply (yields_bind _ _ _ _ _ (λ _ _, True)).
  { case_match; [|by apply yields_ret].
    eapply yields_bind; [by apply Hscan|]. intros [count total] w2 Hr2 Hs2 [Hc Ht].
    apply update_cache_yield; [done|by left| |done|done].
    by eapply rely_alive; [exact Hr2|by left|]. }
  intros _ w2 Hr2 Hs2 _.
  eapply (yields_bind _ _ _ _ _ (λ v _, 0 <= bc_penalty v <= B)).
  { apply yields_field; [done|by left|by eapply rely_alive; [exact Hr2|by left|]|].
    intros c _ ((_ & _ & _ & _ & _ & _ & Hsu & Hgu) & _ & _ & _ & ? & ?).
    pose proof (bc_penalty_in_u _ Hsu) as [? _]. pose proof (bc_penalty_in_u _ Hgu) as [? _].
    destruct bc; cbn; lia. }
  intros v2 w3 Hr3 Hs3 Hv. by apply yields_ret.
Qed.

(** *** The walks *)

Definition all_alive (xs : list tid) (w : world) : Prop := ∀ x, x ∈ xs → alive w x.

Definition ptr_alive (p : task_ptr) (w : world) : Prop :=
  match p with None => True | Some t => alive w t end.

Lemma rcu_children_yield i l w t :
  sound w → (0 < cpu_rcu l)%nat → alive w t →
  yields i l w (act (rcu_field t_children t))
    (λ cs w', all_alive cs w' ∧ ∀ c, c ∈ cs → (rank t < rank c)%nat).
Proof.
  intros Hw Hrcu Hal. apply yields_rcu; [done..|].
  intros w1 p _ [Hg _] Hp w2 Hr2 _. split.
  - intros c Hc. eapply rely_alive; [exact Hr2|by left|]. by eapply (gd_child w1 Hg).
  - intros c Hc. by eapply (gd_child w1 Hg).
Qed.

Lemma rcu_parent_yield i l w t :
  sound w → (0 < cpu_rcu l)%nat → alive w t →
  yields i l w (act (rcu_field t_real_parent t))
    (λ q w', ptr_alive q w' ∧ ∀ q', q = Some q' → q' ≠ t → (rank q' < rank t)%nat).
Proof.
  intros Hw Hrcu Hal. apply yields_rcu; [done..|].
  intros w1 p _ [Hg _] Hp w2 Hr2 _. destruct (t_real_parent p) as [q|] eqn:Hq; [|done].
  destruct (gd_parent w1 Hg t p q Hp Hq) as [Hq1 Hrk]. split.
  - cbn. eapply rely_alive; [exact Hr2|by left|done].
  - intros q' [= <-]. apply Hrk.
Qed.

Lemma climb_yield i l : (0 < cpu_rcu l)%nat → ∀ fuel w a sole,
  sound w → alive w a → (rank a < fuel)%nat →
  yields i l w (climb_steps fuel a sole) (λ h w', alive w' h).
Proof.
  intros Hrcu fuel. induction fuel as [|fuel IH]; intros w a sole Hw Hal Hr; [lia|].
  cbn [climb_steps]. eapply yields_bind; [by apply rcu_parent_yield|].
  intros q w1 Hr1 Hs1 [Hq Hrk]. pose proof (rely_alive _ _ _ a Hr1 (or_introl Hrcu) Hal) as Hal1.
  assert (∀ w2 sh, sound sh → alive sh a → evolves l w2 sh → 
    yields i l sh (mret a) (λ h w', alive w' h)) as Hstop.
  { intros w2 sh Hsh Ha _. apply yields_ret; [done|]. intros w' Hr' _.
    eapply rely_alive; [exact Hr'|by left|done]. }
  destruct q as [q|]; [|by eapply Hstop]. destruct (decide (q = a)); [by eapply Hstop|].
  eapply yields_bind; [by apply children_yield|]. intros cnt w2 Hr2 Hs2 _.
  case_match; [|eapply Hstop; [done| |done]; by eapply rely_alive; [exact Hr2|by left|]].
  apply IH; [done| |specialize (Hrk q eq_refl); lia].
  eapply rely_alive; [exact Hr2|by left|exact Hq].
Qed.

Lemma descend_yield i l : (0 < cpu_rcu l)%nat → ∀ fuel w d,
  sound w → alive w d → (N - rank d < fuel)%nat →
  yields i l w (descend_steps fuel d) (λ h w', alive w' h).
Proof.
  intros Hrcu fuel. induction fuel as [|fuel IH]; intros w d Hw Hal Hr; [lia|].
  cbn [descend_steps]. eapply yields_bind; [by apply children_yield|].
  intros cnt w1 Hr1 Hs1 _. pose proof (rely_alive _ _ _ d Hr1 (or_introl Hrcu) Hal) as Hal1.
  assert (∀ sh, sound sh → alive sh d → yields i l sh (mret d) (λ h w', alive w' h)) as Hstop.
  { intros sh Hsh Ha. apply yields_ret; [done|]. intros w' Hr' _.
    eapply rely_alive; [exact Hr'|by left|done]. }
  destruct (cnt =? 1); [|by apply Hstop].
  eapply yields_bind; [by apply rcu_children_yield|]. intros cs w2 Hr2 Hs2 [Hcs Hrk].
  destruct cs as [|c cs].
  { apply Hstop; [done|]. by eapply rely_alive; [exact Hr2|by left|]. }
  pose proof (Hrk c ltac:(left)). pose proof (Hcs c ltac:(left)) as Hc.
  pose proof (gd_rank w2 (proj1 Hs2) c Hc). apply IH; [done|done|lia].
Qed.

(** *** The inherit functions and the fork probe *)

Lemma deref_yield i l w (parent : task_ptr) :
  sound w → (0 < cpu_rcu l)%nat → (∃ p, parent = Some p ∧ alive w p) →
  yields i l w (act (deref parent)) (λ p w', parent = Some p ∧ alive w' p).
Proof.
  intros Hw Hrcu (p & -> & Hal). apply yields_read; [done|]. intros w' Hr' _.
  exists p. split; [done|]. intros w2 Hr2 _. split; [done|].
  eapply rely_alive; [exact Hr2|by left|]. by eapply rely_alive; [exact Hr'|by left|].
Qed.

Lemma ptr_yield {A} i l w (p : task_ptr) (x : A) (P : A → world → Prop) :
  sound w → (0 < cpu_rcu l)%nat → ptr_alive p w → (∀ w', ptr_alive p w' → P x w') →
  yields i l w (mret x) P.
Proof.
  intros Hw Hrcu Hp HP. apply yields_ret; [done|]. intros w' Hr' _. apply HP.
  destruct p; [|done]. by eapply rely_alive; [exact Hr'|by left|].
Qed.

(** What an inherit function does once it knows whose cache to read. *)
Lemma tail_yield i l w visit p now :
  sound w → (0 < cpu_rcu l)%nat → alive w p →
  (∀ x w, sound w → alive w x → yields i l w (visit x) (λ d w', alive w' d)) →
  yields i l w
    (read_burst_cache_steps T bore_lut Subtree p
       (children ← act (rcu_field t_children p);
        sample_penalties_steps visit children 0 0 0) now) (λ r _, 0 <= r <= B).
Proof.
  intros Hw Hrcu Hal Hv. apply read_cache_yield; [done..|]. intros w2 Hs2 Hq2 _.
  eapply yields_bind; [by apply rcu_children_yield|]. intros cs w3 _ Hs3 [Hcs _].
  apply sample_yield; (done || lia).
Qed.

Lemma inherit_from_parent_yield i l w parent flags now :
  sound w → (0 < cpu_rcu l)%nat → (∃ p, parent = Some p ∧ alive w p) →
  yields i l w (inherit_from_parent_steps T bore_lut parent flags now) (λ r _, 0 <= r <= B).
Proof.
  intros Hw Hrcu Hp. unfold inherit_from_parent_steps.
  eapply (yields_bind _ _ _ _ _ ptr_alive).
  { case_match.
    - destruct Hp as (p & -> & Hal). by apply (ptr_yield _ _ _ (Some p)).
    - eapply yields_bind; [by apply deref_yield|]. intros p w1 _ Hs1 [_ Hal].
      eapply safe_mono; [by apply rcu_parent_yield|]. by intros q l' w2 (? & ? & ? & ? & _). }
  intros [q|] w1 _ Hs1 Hq; [|apply yields_ret; [done|lia]].
  apply tail_yield; [done|done|done|]. intros x w2 Hs2 Hx. by apply (ptr_yield _ _ _ (Some x)).
Qed.

Lemma inherit_from_ancestor_hub_yield i l w parent flags now :
  sound w → (0 < cpu_rcu l)%nat → (∃ p, parent = Some p ∧ alive w p) →
  yields i l w (inherit_from_ancestor_hub_steps T bore_lut (mret (S N)) parent flags now)
    (λ r _, 0 <= r <= B).
Proof.
  intros Hw Hrcu Hp. unfold inherit_from_ancestor_hub_steps.
  eapply (yields_bind _ _ _ _ _ (λ n w', n = S N ∧ ∃ p, parent = Some p ∧ alive w' p)).
  { destruct Hp as (p & -> & Hal). apply (ptr_yield _ _ _ (Some p)); [done..|].
    intros w' Hp. split; [done|by exists p]. }
  intros n w1 _ Hs1 [-> Hp1].
  eapply (yields_bind _ _ _ _ _ (λ r w', ptr_alive (fst r) w')).
  { case_match.
    - destruct Hp1 as (p & -> & Hal). by apply (ptr_yield _ _ _ (Some p)).
    - eapply yields_bind; [by apply deref_yield|]. intros p w2 _ Hs2 [_ Hal].
      eapply yields_bind; [by apply rcu_parent_yield|]. intros q w3 _ Hs3 [Hq _].
      by apply (ptr_yield _ _ _ q). }
  intros [[q|] sole] w2 _ Hs2 Hq; cbn [fst snd] in *; [|apply yields_ret; [done|lia]].
  eapply yields_bind.
  { apply climb_yield; [done|done|done|]. pose proof (gd_rank w2 (proj1 Hs2) q Hq). lia. }
  intros h w3 _ Hs3 Hh. apply tail_yield; [done|done|done|].
  intros x w4 Hs4 Hx. apply descend_yield; [done|done|done|lia].
Qed.

Lemma signal_threads_yield i l w g :
  sound w → (0 < cpu_rcu l)%nat → leader w g →
  yields i l w (act (signal_threads g)) all_alive.
Proof.
  intros Hw Hrcu Hg. apply yields_read; [done|]. intros w' Hr' [_ Hl].
  destruct (ev_leader _ _ _ Hr' g Hrcu Hg) as (pg & threads & Hpg & Hth). exists threads. split.
  - unfold signal_threads.
    rewrite (bind_done _ _ _ _ _ (rcu_access_run (seen l w') Hrcu)).
    rewrite (bind_done _ _ _ _ _ (read_task_run (seen l w') g pg Hpg)). by rewrite Hth.
  - intros w2 Hr2 _ x Hx. eapply rely_alive; [exact Hr2|by left|by eapply Hl].
Qed.

Lemma inherit_from_thread_group_yield i l w p now :
  sound w → (0 < cpu_rcu l)%nat → alive w p →
  yields i l w (inherit_from_thread_group_steps T bore_lut p now) (λ r _, 0 <= r <= B).
Proof.
  intros Hw Hrcu Hal. unfold inherit_from_thread_group_steps.
  eapply (yields_bind _ _ _ _ _ (λ g w', match g with None => True | Some g => leader w' g end)).
  { apply yields_task; [done|by left|done|]. intros w1 tk _ [Hg _] Htk w2 Hr2 _.
    destruct (t_group_leader tk) as [g|] eqn:E; [|done].
    eapply ev_leader; [exact Hr2|done|]. by eapply (gd_leader w1 Hg). }
  intros [g|] w1 _ Hs1 Hg; [|apply yields_ret; [done|lia]].
  assert (alive w1 g) as Hga by (destruct Hg as (pg & ? & ? & _); by exists pg).
  apply read_cache_yield; [done..|]. intros w2 Hs2 _ Hr2.
  eapply yields_bind; [by apply signal_threads_yield; [done|done|by eapply ev_leader]|].
  intros ths w3 _ Hs3 Hths. apply sample_yield; try (done || lia).
  intros x w4 Hs4 Hx. by apply (ptr_yield _ _ _ (Some x)).
Qed.

Lemma fork_inherit_yield i l w t pt now :
  sound w → (0 < cpu_rcu l)%nat → alive w t → alive w pt →
  yields i l w (fork_inherit_steps T bore_lut (mret (S N)) t (Some pt) now)
    (λ r _, 0 <= r <= B).
Proof.
  intros Hw Hrcu Ht Hpt. unfold fork_inherit_steps.
  eapply (yields_bind _ _ _ _ _ (λ _ w', alive w' pt)).
  { apply yields_task; [done|by left|done|]. intros w1 tk Hr1 _ _ w2 Hr2 _.
    eapply rely_alive; [exact Hr2|by left|]. by eapply rely_alive; [exact Hr1|by left|]. }
  intros g w1 _ Hs1 Hpt1.
  eapply (yields_bind _ _ _ _ _ (λ _ w', alive w' pt)).
  { eapply (yields_bind _ _ _ _ _ (λ _ w', alive w' pt)).
    - apply yields_task; [done|by left|done|]. intros w2 tk Hr2 _ _ w3 Hr3 _.
      eapply rely_alive; [exact Hr3|by left|]. by eapply rely_alive; [exact Hr2|by left|].
    - intros g' w2 _ Hs2 Hpt2. by apply (ptr_yield _ _ _ (Some pt)). }
  intros same w2 _ Hs2 Hpt2. repeat case_match.
  - by apply inherit_from_thread_group_yield.
  - apply inherit_from_ancestor_hub_yield; [done|done|by exists pt].
  - apply inherit_from_parent_yield; [done|done|by exists pt].
  - apply yields_ret; [done|lia].
Qed.

Lemma fork_ctx_within tk v c :
  0 <= v <= B → ctx_within B c → ctx_within B (fork_ctx T tk v c).
Proof.
  pose proof HB as HB'. rewrite max_burst_penalty_val in HB'.
  intros Hv Hc. pose proof Hc as (Ht & Hp & _ & _ & Hsu & Hgr).
  pose proof Ht as (_ & [Hp0 _] & _).
  assert (in_u 16 v) as Hv16 by (unfold in_u; pow2_norm; lia).
  unfold fork_ctx. set (c1 := if prev_penalty c <? v then _ else c).
  assert (ctx_within B c1) as Hc1.
  { unfold c1. case_match; [|done]. rewrite wrapu_small by done.
    unfold ctx_within, bore_ctx_typed in *. cbn. tauto. }
  clearbody c1. destruct Hc1 as (Ht1 & Hp1 & Hc1 & Hq1 & Hs1 & Hg1).
  assert (in_u 16 0 ∧ in_u 8 0 ∧ in_u 64 0) as (Z16 & Z8 & Z64) by (unfold in_u; pow2_norm; lia).
  rewrite update_penalty_ctx by (cbn; first [done | apply Ht1]).
  assert (0 <= shown_penalty tk (clear_flags (set_burst 0 0 c1)) <= B) as Hsh.
  { unfold shown_penalty. cbn. destruct Ht1 as (_ & [? _] & _). case_match; lia. }
  unfold ctx_within, bore_ctx_typed in *. cbn in *. intuition (try lia).
  unfold in_u; pow2_norm; lia.
Qed.

(** Entering and leaving an RCU section. *)
Definition deeper (l : cpu) : cpu := Cpu (S (cpu_rcu l)) (cpu_own l) (cpu_groups l).

Lemma evolves_deeper l w w' : evolves (deeper l) w w' → evolves l w w'.
Proof.
  intros [H1 H2 H3 H4]. split; [done| | |done].
  - intros t [?|?]; apply H2; [left; cbn; lia|by right].
  - intros g ?. apply H3. cbn. lia.
Qed.

(** [p] leaves the section it is in, and ends. *)
Definition leaves {A} (i : nat) (l : cpu) (w : world) (p : prog world A) : Prop :=
  safe bore_rely i (deeper l) w p (λ _ l' w', l' = l ∧ evolves l w w' ∧ sound w').

Lemma leaves_bind {A C} i l w (p : prog world A) (f : A → prog world C) R :
  yields i (deeper l) w p R →
  (∀ a w', evolves (deeper l) w w' → sound w' → R a w' → leaves i l w' (f a)) →
  leaves i l w (p ≫= f).
Proof.
  intros Hp Hf. apply (safe_bind bore_rely rely_refl). eapply safe_mono; [exact Hp|].
  intros a l' w' (-> & Hr & Hs & HR). eapply safe_mono; [by eapply Hf|].
  intros c l' w2 (-> & Hr2 & Hs2). split_and!; [done| |done].
  eapply evolves_trans; [by apply evolves_deeper|done].
Qed.

Lemma leaves_unlock i l w : sound w → leaves i l w (act rcu_read_unlock).
Proof.
  intros Hw w1 Hr1. split; [done|]. intros _.
  pose proof (evolves_deeper _ _ _ (proj1 Hr1)) as He1. pose proof (ev_sound _ _ _ He1 Hw) as Hs1.
  eapply wp_of_result; [reflexivity|]. cbn.
  assert (World (w_tasks w1) (w_groups w1) (w_rcu w1) = w1) as -> by (by destruct w1).
  assert (Cpu (cpu_rcu l) (cpu_own l) (cpu_groups l) = l) as -> by (by destruct l).
  split; [split; [intros; apply rely_refl|by left]|]. intros w2 [Hr2 _].
  split_and!; [done|by eapply evolves_trans|by eapply ev_sound].
Qed.

Lemma yields_lock {A} i l w (q : prog world A) :
  sound w → (∀ w', bore_rely i l w w' → sound w' → leaves i l w' q) →
  yields i l w (_ ← act rcu_read_lock; q) (λ _ _, True).
Proof.
  intros Hw Hq. apply safe_act. intros w1 Hr1.
  pose proof (ev_sound _ _ _ (proj1 Hr1) Hw) as Hs1.
  eapply wp_of_result; [reflexivity|]. cbn.
  assert (World (w_tasks w1) (w_groups w1) (w_rcu w1) = w1) as -> by (by destruct w1).
  change (Cpu (S (cpu_rcu l)) _ _) with (deeper l).
  split; [split; [intros; apply rely_refl|by left]|]. eapply safe_mono; [by apply Hq|].
  intros a l' w2 (-> & Hr2 & Hs2). split_and!; [done| |done|done].
  eapply evolves_trans; [apply Hr1|done].
Qed.

(** A CPU in the fork probe: it holds the new task, and the current one stays. *)
Lemma fork_yield i l w t pt now :
  sound w → holder t = Some i → protected l t → protected l pt → alive w t → alive w pt →
  yields i l w (probe_bore_task_fork_steps T bore_lut (mret (S N)) (Some t) (Some pt) now)
    (λ _ _, True).
Proof.
  intros Hw Hh Pt Ppt Ht Hpt. cbn [probe_bore_task_fork_steps].
  case_match; [by apply yields_ret|].
  eapply (yields_bind _ _ _ _ _ (λ _ _, True)).
  { apply yields_read; [done|]. intros w' Hr' _. destruct (rely_alive _ _ _ t Hr' Pt Ht) as [p Hp].
    exists p. split; [|done]. exact (read_task_run (seen l w') t p Hp). }
  intros tk w1 Hr1 Hs1 _. case_match; [by apply yields_ret|].
  apply yields_lock; [done|]. intros w2 [Hr2 _] Hs2.
  pose proof (evolves_trans _ _ _ _ Hr1 Hr2) as Hr.
  pose proof (rely_alive _ _ _ t Hr Pt Ht) as Ht2.
  pose proof (rely_alive _ _ _ pt Hr Ppt Hpt) as Hpt2.
  assert (0 < cpu_rcu (deeper l))%nat as Hrcu by (cbn; lia).
  eapply leaves_bind; [by apply fork_inherit_yield|]. intros v w3 Hr3 Hs3 Hv.
  eapply leaves_bind; [|intros _ w4 _ Hs4 _; by apply leaves_unlock].
  apply (yields_store _ _ _ _ _ (λ _ _, True)); [done|by left| | |by left|done].
  - eapply rely_alive; [exact Hr3|by left|done].
  - intros c. by apply fork_ctx_within.
Qed.
End concurrent.

(** The shared state stays sound through the steps of the CPUs. *)
Lemma bore_guarantee_sound `{KernelHeaders} rank N B holder i w w' :
  guarantee (bore_rely rank N B holder) i w w' → sound rank N B w → sound rank N B w'.
Proof. intros [Hg _]. destruct (Hg (S i) (Cpu 0 ∅ ∅) ltac:(lia)) as [He _]. by apply (ev_sound _ _ _ _ _ _ He). Qed.

(** ** Instances *)

#[local] Existing Instance linux_headers.

(** The state of [tree_ok] is sound when the thread lists are. *)
Lemma tree_sound rank w :
  tree_ok rank w → bore_world_ok w → good_leaders w →
  sound rank (size (w_tasks w)) MAX_BURST_PENALTY w.
Proof.
  intros Ht Hw Hl. split; [split|done].
  - intros t p Hp. exact (Hw t p Hp).
  - intros t [p Hp]. by eapply tk_bound.
  - intros t p q Hp Hq. by eapply tk_parent.
  - intros t p c Hp Hc. by eapply tk_child.
  - intros t p g Hp Hg. destruct (tk_leader rank w Ht t p g Hp Hg) as (pg & ths & ? & ? & _). eauto.
Qed.

Definition good_leadersb (w : world) : bool :=
  forallb (λ tp : tid * task,
    match t_signal (snd tp) with
    | Some threads => forallb (λ x, is_someb (w_tasks w !! x)) threads
    | None => true
    end) (map_to_list (w_tasks w)).

Lemma good_leadersb_sound w : good_leadersb w = true → good_leaders w.
Proof.
  intros Hall g pg threads x Hpg Hth Hx. apply is_someb_true.
  pose proof (forallb_lookup _ _ g pg Hall Hpg) as Hg. cbn in Hg. rewrite Hth in Hg.
  exact (forallb_elem (λ x, is_someb (w_tasks w !! x)) threads x Hg Hx).
Qed.

Lemma sample_sound : sound sample_rank 7 MAX_BURST_PENALTY (sample_world 0).
Proof.
  apply (tree_sound sample_rank (sample_world 0)); [apply sample_tree_ok|apply sample_bore_ok|].
  apply good_leadersb_sound. vm_compute. reflexivity.
Qed.
