(* ===== verification/BoreProbeSteps.v ===== *)
(** * The other probes of BORE, access by access

    [update_penalty], [restart_burst_bore] and the probes that charge, restart,
    report and clear the burst of a task, as programs of single reads and
    stores of fields, and sequences of scheduler calls with what they report.
    The fork probe is that of [BoreSteps]. *)

From S2P Require Import Prelude KMonad Kernel BoreMath BoreCtx BoreInherit BoreProbes Interleave BoreSteps.

#[local] Open Scope Z_scope.

(** ** Stores *)

Definition set_time (v : Z) (c : bore_ctx) : bore_ctx := set_burst v (curr_penalty c) c.

Definition set_curr (v : Z) (c : bore_ctx) : bore_ctx := set_burst (burst_time c) v c.

(** The second word of the context cleared. *)
Definition clear_penalties (c : bore_ctx) : bore_ctx :=
  BoreCtx (burst_time c) 0 0 0 0 0 (subtree c) (group c).

Section steps.
Context `{KernelHeaders} (T : tunables) (lut : list Z) (walk_fuel : prog world nat).

Definition effective_prio_bore_steps (t : tid) : prog world Z :=
  static_prio ← act (task_field t_static_prio t);
  score ← (if sched_bore T =? 0 then mret 0 else act (field bore_score t));
  mret (prio_of_score T static_prio score).

Definition update_penalty_steps (t : tid) (new_prio : option Z) : prog world (option Z) :=
  prev_prio ← effective_prio_bore_steps t;
  curr ← act (field curr_penalty t);
  prev ← act (field prev_penalty t);
  let diff := s32 (curr - prev) in
  curr ← act (field curr_penalty t);
  let max_val := u16 (curr - (diff &. (diff >>. 31))) in
  prot ← act (task_field is_protected t);
  _ ← act (store_fields (set_penalty (u16 (max_val &. s32 (- b2z (negb prot))))) t);
  calculated_new_prio ← effective_prio_bore_steps t;
  mret (if calculated_new_prio =? prev_prio then new_prio
        else (λ _, calculated_new_prio) <$> new_prio).

Definition restart_burst_bore_steps (t : tid) (new_prio : option Z) : prog world (option Z) :=
  curr ← act (field curr_penalty t);
  prev ← act (field prev_penalty t);
  let new_penalty := binary_smooth T curr prev in
  _ ← act (store_fields (set_prev_penalty (u16 new_penalty)) t);
  _ ← act (store_fields (set_curr 0) t);
  _ ← act (store_fields (set_time 0) t);
  update_penalty_steps t new_prio.

Definition probe_bore_update_curr_steps (p : task_ptr) (delta_exec : Z)
    (new_prio : option Z) : prog world (option Z) :=
  match p with
  | None => mret new_prio
  | Some t =>
      if sched_bore T =? 0 then mret new_prio
      else
        stop ← act (field stop_update t);
        if negb (stop =? 0) then mret new_prio
        else
          time ← act (field burst_time t);
          _ ← act (store_fields (set_time (u64 (time + delta_exec))) t);
          time ← act (field burst_time t);
          let curr := u16 (calc_burst_penalty T time) in
          _ ← act (store_fields (set_curr curr) t);
          prev ← act (field prev_penalty t);
          if curr <=? prev then mret new_prio else update_penalty_steps t new_prio
  end.

Definition probe_bore_dequeue_task_fair_steps (p : task_ptr) (flags : Z) : prog world (option Z) :=
  match p with
  | None => mret None
  | Some t =>
      if (sched_bore T =? 0) || ((flags &. DEQUEUE_SLEEP) =? 0) then mret None
      else restart_burst_bore_steps t None
  end.

Definition probe_bore_yield_task_fair_steps (p : task_ptr) : prog world (option Z) :=
  match p with
  | None => mret None
  | Some t => if sched_bore T =? 0 then mret None else restart_burst_bore_steps t None
  end.

(** [memset] clears a context word by word; the entity of a group is not yet
    known to anybody else. *)
Definition probe_bore_init_entity_steps (se : option se_ref) : prog world (option Z) :=
  match se with
  | None => mret None
  | Some (SeTask t) =>
      _ ← act (store_fields (set_time 0) t);
      _ ← act (store_fields clear_penalties t);
      _ ← act (store_fields (bc_set Subtree 0) t);
      _ ← act (store_fields (bc_set Group 0) t);
      mret None
  | Some (SeGroup g) => _ ← act (store_view (SeGroup g) bore_ctx_zero); mret None
  end.

Definition probe_bore_set_load_weight_steps (p : task_ptr) (prio : option Z) :
    prog world (option Z) :=
  match p, prio with
  | Some t, Some _ =>
      if sched_bore T =? 0 then mret prio
      else
        eligible ← act (task_field bore_task_is_eligible t);
        if negb eligible then mret prio
        else prio ← effective_prio_bore_steps t; mret (Some prio)
  | _, _ => mret prio
  end.

(** ** Scheduler calls and what they report *)

Definition call_steps (c : bore_call) : prog world (option Z) :=
  match c with
  | CallUpdateCurr p d np => probe_bore_update_curr_steps p d np
  | CallDequeue p fl => probe_bore_dequeue_task_fair_steps p fl
  | CallSetNext _ => mret None
  | CallYield p => probe_bore_yield_task_fair_steps p
  | CallFork p cur now => _ ← probe_bore_task_fork_steps T lut walk_fuel p cur now; mret None
  | CallInit se => probe_bore_init_entity_steps se
  | CallLoadWeight p prio => probe_bore_set_load_weight_steps p prio
  end.
End steps.

Section calls.
Context `{KernelHeaders} (lut : list Z) (walk_fuel : prog world nat).

Fixpoint calls_steps (l : list (tunables * bore_call)) : prog world (list (option Z)) :=
  match l with
  | [] => mret []
  | (T, c) :: l => out ← call_steps T lut walk_fuel c; outs ← calls_steps l; mret (out :: outs)
  end.

Fixpoint calls_outputs (l : list (tunables * bore_call)) : KM world (list (option Z)) :=
  match l with
  | [] => mret []
  | (T, c) :: l => out ← call_output T lut c; outs ← calls_outputs l; mret (out :: outs)
  end.
End calls.


