(* ===== verification/BoreHeld.v ===== *)
(** * A CPU that holds its tasks

    The scheduler calls the probes of BORE for a task with the lock of its run
    queue held.  A probe that works on a held task then does, access by access,
    what it does alone, whatever the others do to the caches ([tracks],
    [comes_out]); with the fork probe of [BoreConcurrent] every sequence of
    calls is safe. *)

From S2P Require Import Prelude KMonad Kernel BoreMath BoreCtx BoreInherit SampleWorld BoreProbes Interleave BoreSteps BoreConcurrent BoreProbeSteps.

#[local] Open Scope Z_scope.

(** ** Operations on the burst of a context *)

(** A function of the burst: the caches do not matter. *)
Definition burst_fn {A} (f : bore_ctx → A) : Prop :=
  ∀ c c', same_but_caches c c' → f c' = f c.

(** A change of the burst: the caches stay. *)
Definition burst_op (f : bore_ctx → bore_ctx) : Prop :=
  ∀ c c', same_but_caches c c' →
    same_but_caches (f c) (f c') ∧ subtree (f c') = subtree c' ∧ group (f c') = group c'.

Ltac burst_op_tac :=
  intros ? ? (? & ? & ? & ? & ? & ?); unfold same_but_caches; cbn; intuition congruence.

Lemma burst_op_set_time v : burst_op (set_time v).
Proof. burst_op_tac. Qed.
Lemma burst_op_set_curr v : burst_op (set_curr v).
Proof. burst_op_tac. Qed.
Lemma burst_op_set_penalty v : burst_op (set_penalty v).
Proof. burst_op_tac. Qed.
Lemma burst_op_set_prev v : burst_op (set_prev_penalty v).
Proof. burst_op_tac. Qed.
Lemma burst_op_clear : burst_op clear_penalties.
Proof. burst_op_tac. Qed.
Create HintDb burst_db.
#[export] Hint Resolve burst_op_set_time burst_op_set_curr burst_op_set_penalty
  burst_op_set_prev burst_op_clear : burst_db.

Ltac burst_fn_tac :=
  intros ? ? (? & ? & ? & ? & ? & ?); unfold bore_score; congruence.

Lemma same_ctx_trans c1 c2 c3 : same_but_caches c1 c2 → same_but_caches c2 c3 → same_but_caches c1 c3.
Proof. unfold same_but_caches. intuition congruence. Qed.

Lemma same_ctx_sym c1 c2 : same_but_caches c1 c2 → same_but_caches c2 c1.
Proof. unfold same_but_caches. intuition congruence. Qed.

(** The burst of [c] and the caches of [c'] are in range. *)
Lemma merge_ok c c' d :
  bore_ctx_ok c → same_but_caches c d → subtree d = subtree c' → group d = group c' →
  bore_ctx_ok c' → bore_ctx_ok d.
Proof.
  unfold bore_ctx_ok, bore_ctx_typed. intros Hc (-> & -> & -> & -> & -> & ->) -> -> Hc'. tauto.
Qed.

Lemma curr_range c : bore_ctx_ok c → 0 <= curr_penalty c <= MAX_BURST_PENALTY.
Proof. intros ((_ & _ & [? _] & _) & _ & ? & _). by split. Qed.

(** ** A task that the CPU holds *)

Section held.
Context `{KernelHeaders} (rank : tid → nat) (N : nat) (holder : tid → option nat).
Context (i : nat) (t : tid) (p : task) (w0 : world).
Context (Hh : holder t = Some i) (Hp : w_tasks w0 !! t = Some p).

Abbreviation yields := (yields rank N MAX_BURST_PENALTY holder).
Abbreviation steady := (steady holder i).
Abbreviation sound := (sound rank N MAX_BURST_PENALTY).

(** From a state whose tasks of this CPU are those of [w0] with context [c] for
    [t], the program is safe, ends with [a], and leaves [c'] in [t]. *)
Definition tracks {A} (m : prog world A) (c : bore_ctx) (a : A) (c' : bore_ctx) : Prop :=
  ∀ l w, sound w → steady (put_view t c w0) w →
  yields i l w m (λ r w', r = a ∧ steady (put_view t c' w0) w').

Lemma tracks_ret {A} (a : A) c : tracks (mret a) c a c.
Proof.
  intros l w Hw Hc. apply yields_ret_rely; [done|]. intros w' [_ Hr] _.
  split; [done|by eapply steady_trans].
Qed.

Lemma tracks_bind {A C} (m : prog world A) (f : A → prog world C) c a c1 b c' :
  tracks m c a c1 → tracks (f a) c1 b c' → tracks (m ≫= f) c b c'.
Proof.
  intros Hm Hf l w Hw Hc. eapply yields_bind; [by apply Hm|].
  intros a' w' _ Hs [-> Hc1]. by apply Hf.
Qed.

(** What the state shows of [t]. *)
Lemma steady_task c w :
  bore_ctx_ok c → steady (put_view t c w0) w →
  ∃ p', w_tasks w !! t = Some p' ∧ same_but_caches c (ctx_of p') ∧
    t_static_prio p' = t_static_prio p ∧ is_protected p' = is_protected p ∧
    bore_task_is_eligible p' = bore_task_is_eligible p.
Proof.
  intros Hc Hs. destruct (Hs t _ Hh (put_view_lookup_eq t c w0 p Hp)) as (p' & Hp' & Hk & ? & ? & ?).
  rewrite ctx_of_put in Hk by apply Hc. by exists p'.
Qed.

Lemma tracks_read {A} (m : KM world A) c a :
  bore_ctx_ok c →
  (∀ l w p', w_tasks w !! t = Some p' → same_but_caches c (ctx_of p') →
     t_static_prio p' = t_static_prio p → is_protected p' = is_protected p →
     bore_task_is_eligible p' = bore_task_is_eligible p → m (seen l w) = Done (a, seen l w)) →
  tracks (act m) c a c.
Proof.
  intros Hok Hm l w Hw Hc. apply yields_read_rely; [done|]. intros w' [_ Hr] Hs.
  pose proof (steady_trans _ _ _ _ _ Hc Hr) as Hc'.
  destruct (steady_task c w' Hok Hc') as (p' & Hp' & ? & ? & ? & ?).
  exists a. split; [by eapply Hm|]. intros w2 [_ Hr2] _. split; [done|by eapply steady_trans].
Qed.

Lemma tracks_field {A} (f : bore_ctx → A) c :
  bore_ctx_ok c → burst_fn f → tracks (act (field f t)) c (f c) c.
Proof.
  intros Hok Hf. apply tracks_read; [done|]. intros l w p' Hp' Hsame _ _ _. unfold field.
  rewrite (bind_done _ _ _ _ _ (bore_get_ctx_run (seen l w) t p' Hp')). by rewrite (Hf _ _ Hsame).
Qed.

Lemma tracks_task {A} (g : task → A) c :
  bore_ctx_ok c →
  (∀ p', t_static_prio p' = t_static_prio p → is_protected p' = is_protected p →
     bore_task_is_eligible p' = bore_task_is_eligible p → g p' = g p) →
  tracks (act (task_field g t)) c (g p) c.
Proof.
  intros Hok Hg. apply tracks_read; [done|]. intros l w p' Hp' _ ? ? ?. unfold task_field.
  rewrite (bind_done _ _ _ _ _ (read_task_run (seen l w) t p' Hp')). by rewrite (Hg p').
Qed.

(** After a store to [t] the tasks of this CPU are those of [w0] with the new
    context. *)
Lemma steady_put c c' d w p' :
  bore_ctx_ok c' → bore_ctx_ok d → steady (put_view t c w0) w → w_tasks w !! t = Some p' →
  same_but_caches c' d → t_static_prio p' = t_static_prio p →
  is_protected p' = is_protected p → bore_task_is_eligible p' = bore_task_is_eligible p →
  steady (put_view t c' w0) (put_view t d w).
Proof.
  intros Hc' Hd Hs Hp' Hsame ? ? ? t' q Ht' Hq. destruct (decide (t = t')) as [<-|Hne].
  - rewrite (put_view_lookup_eq _ _ _ _ Hp) in Hq. simplify_eq.
    rewrite (put_view_lookup_eq _ _ _ _ Hp'). eexists. split; [done|].
    split; [|by split_and!]. rewrite (ctx_of_put _ _ (proj1 Hc')), (ctx_of_put _ _ (proj1 Hd)). done.
  - rewrite put_view_lookup_ne in Hq |- * by done.
    apply (Hs t' q Ht'). by rewrite put_view_lookup_ne.
Qed.

Lemma tracks_put f c c' :
  bore_ctx_ok c → bore_ctx_ok c' →
  (∀ d, bore_ctx_ok d → same_but_caches c d → bore_ctx_ok (f d) ∧ same_but_caches c' (f d)) →
  tracks (act (store_fields f t)) c tt c'.
Proof.
  intros Hok Hok' Hf l w Hw Hc. apply yields_store_rely; [done| |].
  - intros w' [_ Hr]. destruct (steady_task c w' Hok) as (p' & Hp' & _); [by eapply steady_trans|].
    by exists p'.
  - intros w' p' [_ Hr] Hs Hp' Hin. pose proof (steady_trans _ _ _ _ _ Hc Hr) as Hc'.
    destruct (steady_task c w' Hok Hc') as (p'' & Hp'' & Hsame & ? & ? & ?).
    rewrite Hp' in Hp''. apply (inj Some) in Hp''. subst p''.
    destruct (Hf _ Hin Hsame) as [Hfd Hsf]. split_and!; [exact Hfd|by left|].
    intros w2 [_ Hr2]. split; [done|]. eapply steady_trans; [|exact Hr2]. by eapply steady_put.
Qed.

Lemma tracks_store f c :
  bore_ctx_ok c → bore_ctx_ok (f c) → burst_op f → tracks (act (store_fields f t)) c tt (f c).
Proof.
  intros Hok Hfok Hf. apply tracks_put; [done..|]. intros d Hd Hsame.
  destruct (Hf c d Hsame) as (Hs & E1 & E2). split; [|done]. by apply (merge_ok (f c) d).
Qed.

(** A store to a cache. *)
Lemma tracks_cache r v c :
  in_u 64 v → bc_penalty v <= MAX_BURST_PENALTY → bore_ctx_ok c →
  tracks (act (store_fields (bc_set r v) t)) c tt c.
Proof.
  intros Hv Hb Hok. apply tracks_put; [done..|]. intros d Hd Hsame. split.
  - by apply bc_set_within.
  - eapply same_ctx_trans; [exact Hsame|]. by destruct r.
Qed.

(** *** The probes *)

Context (T : tunables).

Lemma effective_prio_tracks c :
  bore_ctx_ok c → tracks (effective_prio_bore_steps T t) c (effective_prio_bore T p c) c.
Proof.
  intros Hok. eapply tracks_bind; [apply tracks_task; [done|by intros p' -> _ _]|].
  eapply (tracks_bind _ _ _ (if sched_bore T =? 0 then 0 else bore_score c)).
  - case_match; [apply tracks_ret|]. apply tracks_field; [done|]. burst_fn_tac.
  - assert (effective_prio_bore T p c
      = prio_of_score T (t_static_prio p) (if sched_bore T =? 0 then 0 else bore_score c)) as ->
      by (unfold effective_prio_bore, prio_of_score; by case_match).
    apply tracks_ret.
Qed.

Lemma update_penalty_tracks c np :
  bore_ctx_ok c →
  tracks (update_penalty_steps T t np) c (snd (update_penalty T p c np))
    (fst (update_penalty T p c np)).
Proof.
  intros Hok. pose proof (update_penalty_ok T p c np Hok) as Hok'.
  eapply tracks_bind; [by apply effective_prio_tracks|].
  eapply tracks_bind; [apply tracks_field; [done|burst_fn_tac]|].
  eapply tracks_bind; [apply tracks_field; [done|burst_fn_tac]|].
  eapply tracks_bind; [apply tracks_field; [done|burst_fn_tac]|].
  eapply tracks_bind; [apply tracks_task; [done|by intros p' _ -> _]|].
  eapply tracks_bind; [apply tracks_store; [done|exact Hok'|auto with burst_db]|].
  eapply tracks_bind; [by apply effective_prio_tracks|]. apply tracks_ret.
Qed.

Lemma restart_burst_tracks c np :
  smoothness_ok T → bore_ctx_ok c →
  tracks (restart_burst_bore_steps T t np) c (snd (restart_burst_bore T p c np))
    (fst (restart_burst_bore T p c np)).
Proof.
  intros Hsm Hok. pose proof (binary_smooth_range T c Hsm Hok) as Hb.
  assert (0 <= 0 <= MAX_BURST_PENALTY) as H0 by (by rewrite max_burst_penalty_val).
  set (c1 := set_prev_penalty (u16 (binary_smooth T (curr_penalty c) (prev_penalty c))) c).
  assert (bore_ctx_ok c1) as Hok1.
  { apply set_prev_ok; [|done]. by rewrite wrapu_small by (by apply max_penalty_u16). }
  assert (bore_ctx_ok (set_curr 0 c1)) as Hok2 by (apply set_burst_ok; [apply Hok1|done|done]).
  assert (bore_ctx_ok (set_time 0 (set_curr 0 c1))) as Hok3
    by (apply set_burst_ok; [unfold in_u; lia|apply H0|done]).
  eapply tracks_bind; [apply tracks_field; [done|burst_fn_tac]|].
  eapply tracks_bind; [apply tracks_field; [done|burst_fn_tac]|].
  eapply tracks_bind; [apply tracks_store; [done|exact Hok1|auto with burst_db]|].
  eapply tracks_bind; [apply tracks_store; [done|exact Hok2|auto with burst_db]|].
  eapply tracks_bind; [apply tracks_store; [done|exact Hok3|auto with burst_db]|].
  by apply update_penalty_tracks.
Qed.

Lemma update_curr_tracks c d np :
  sched_bore T ≠ 0 → stop_update c = 0 → bore_ctx_ok c →
  tracks (probe_bore_update_curr_steps T (Some t) d np) c
    (snd (update_curr_ctx T p d c np)) (fst (update_curr_ctx T p d c np)).
Proof.
  intros Hen Hstop Hok. cbn [probe_bore_update_curr_steps].
  destruct (Z.eqb_spec (sched_bore T) 0); [done|].
  set (bt := u64 (burst_time c + d)).
  pose proof (calc_burst_penalty_range T bt) as Hpen.
  assert (u16 (calc_burst_penalty T bt) = calc_burst_penalty T bt) as Hu
    by (by apply wrapu_small, max_penalty_u16).
  pose proof (curr_range c Hok) as Hcur.
  assert (bore_ctx_ok (set_time bt c)) as Hok1 by (apply set_burst_ok; [by apply wrapu_range|done..]).
  assert (bore_ctx_ok (set_curr (calc_burst_penalty T bt) (set_time bt c))) as Hok2
    by (apply set_burst_ok; [by apply wrapu_range|done..]).
  eapply tracks_bind; [apply tracks_field; [done|burst_fn_tac]|]. rewrite Hstop. cbn [Z.eqb negb].
  eapply tracks_bind; [apply tracks_field; [done|burst_fn_tac]|].
  eapply tracks_bind; [apply tracks_store; [done|exact Hok1|auto with burst_db]|].
  eapply tracks_bind; [apply tracks_field; [exact Hok1|burst_fn_tac]|].
  cbn [set_time set_burst burst_time]. fold bt. rewrite Hu.
  eapply tracks_bind; [apply tracks_store; [exact Hok1|exact Hok2|auto with burst_db]|].
  eapply tracks_bind; [apply tracks_field; [exact Hok2|burst_fn_tac]|].
  unfold update_curr_ctx. fold bt. cbn [set_time set_curr set_burst prev_penalty].
  case_match; [apply tracks_ret|]. by apply update_penalty_tracks.
Qed.

Lemma init_tracks c :
  bore_ctx_ok c → tracks (probe_bore_init_entity_steps (Some (SeTask t))) c None bore_ctx_zero.
Proof.
  intros Hok.
  assert (in_u 64 0) as Z64 by (unfold in_u; lia).
  assert (bc_penalty 0 <= MAX_BURST_PENALTY) as Hb by (by vm_compute).
  pose proof (curr_range c Hok) as Hcur.
  assert (bore_ctx_ok (set_time 0 c)) as Hok1 by (apply set_burst_ok; done).
  assert (bore_ctx_ok (clear_penalties (set_time 0 c))) as Hok2.
  { apply (merge_ok bore_ctx_zero c); [apply bore_ctx_ok_zero|done..]. }
  eapply tracks_bind; [apply tracks_store; [done|exact Hok1|auto with burst_db]|].
  eapply tracks_bind; [apply tracks_store; [exact Hok1|exact Hok2|auto with burst_db]|].
  eapply tracks_bind; [by apply tracks_cache|]. eapply tracks_bind; [by apply tracks_cache|].
  intros l w Hw Hs. eapply yields_mono; [by apply tracks_ret|].
  intros a w' [-> Hs']. split; [done|]. intros t' q Ht' Hq.
  destruct (decide (t = t')) as [<-|Hne].
  - rewrite (put_view_lookup_eq _ _ _ _ Hp) in Hq. apply (inj Some) in Hq. subst q.
    destruct (steady_task _ _ Hok2 Hs') as (p' & Hp' & Hsame & ? & ? & ?).
    exists p'. split; [done|]. split; [|done].
    rewrite ctx_of_put by apply bore_ctx_ok_zero. done.
  - rewrite put_view_lookup_ne in Hq by done. apply (Hs' t' q Ht').
    by rewrite put_view_lookup_ne.
Qed.

Lemma load_weight_tracks c prio :
  sched_bore T ≠ 0 → bore_ctx_ok c →
  tracks (probe_bore_set_load_weight_steps T (Some t) (Some prio)) c
    (Some (if bore_task_is_eligible p then effective_prio_bore T p c else prio)) c.
Proof.
  intros Hen Hok. cbn [probe_bore_set_load_weight_steps].
  destruct (Z.eqb_spec (sched_bore T) 0); [done|].
  eapply tracks_bind; [apply tracks_task; [done|by intros p' _ _ ->]|].
  destruct (bore_task_is_eligible p); cbn [negb]; [|apply tracks_ret].
  eapply tracks_bind; [by apply effective_prio_tracks|]. apply tracks_ret.
Qed.
End held.

(** ** Calls *)

Section calls.
Context `{KernelHeaders} (rank : tid → nat) (N : nat) (holder : tid → option nat) (i : nat) (l : cpu).

Abbreviation yields := (yields rank N MAX_BURST_PENALTY holder).
Abbreviation steady := (steady holder i).
Abbreviation sound := (sound rank N MAX_BURST_PENALTY).

(** The CPU holds the task, and it lives as long as the CPU works on it. *)
Definition task_held (w : world) (t : tid) : Prop :=
  holder t = Some i ∧ t ∈ cpu_own l ∧ alive w t.

Definition ptr_held (w : world) (p : task_ptr) : Prop :=
  match p with None => True | Some t => task_held w t end.

(** What the scheduler passes: tasks the CPU holds; the current task of a fork
    only has to stay. *)
Definition call_held (w : world) (c : bore_call) : Prop :=
  match c with
  | CallUpdateCurr p _ _ | CallDequeue p _ | CallYield p | CallLoadWeight p _ => ptr_held w p
  | CallSetNext _ => True
  | CallFork p cur _ =>
      ptr_held w p ∧ match cur with None => False | Some pt => pt ∈ cpu_own l ∧ alive w pt end
  | CallInit se =>
      match se with
      | None => True
      | Some (SeTask t) => task_held w t
      | Some (SeGroup g) => g ∈ cpu_groups l ∧ is_Some (w_groups w !! g)
      end
  end.

Lemma call_held_evolves w w' c : evolves rank N MAX_BURST_PENALTY l w w' → call_held w c → call_held w' c.
Proof.
  intros He. assert (∀ t, t ∈ cpu_own l → alive w t → alive w' t) as Ha
    by (intros t Ht; eapply ev_alive; [exact He|by right]).
  assert (∀ p, ptr_held w p → ptr_held w' p) as Hptr.
  { intros [t|]; [|done]. intros (? & ? & ?). split_and!; auto. }
  destruct c as [p d np|p fl|se|p|p cur now|[[t|g]|]|p prio]; cbn; auto.
  - destruct cur; intuition auto.
  - intros (? & ? & ?). split_and!; auto.
  - intros [? ?]. split; [done|]. by eapply ev_group.
Qed.

Lemma call_held_links w w' c : same_links w' w → call_held w c → call_held w' c.
Proof.
  intros Hl.
  assert (∀ t, alive w t → alive w' t) as Ha.
  { intros t [p Hp]. symmetry in Hl.
    destruct (same_links_lookup w w' t p Hl Hp) as (? & ? & _). by eexists. }
  assert (∀ g, is_Some (w_groups w !! g) → is_Some (w_groups w' !! g)) as Hg.
  { intros g. destruct Hl as (_ & Hd & _). by rewrite <- !elem_of_dom, Hd. }
  assert (∀ p, ptr_held w p → ptr_held w' p) as Hptr.
  { intros [t|]; [|done]. intros (? & ? & ?). split_and!; auto. }
  destruct c as [p d np|p fl|se|p|p cur now|[[t|g]|]|p prio]; cbn; auto.
  - destruct cur; intuition auto.
  - intros (? & ? & ?). split_and!; auto.
  - intros [? ?]. auto.
Qed.

(** The tasks of the CPU are as after a store to one of them. *)
Lemma steady_same_view w0 t p w :
  w_tasks w0 !! t = Some p → bore_ctx_ok (ctx_of p) →
  steady w0 w ↔ steady (put_view t (ctx_of p) w0) w.
Proof.
  intros Hp Hok.
  assert (∀ t' q, w_tasks w0 !! t' = Some q →
    ∃ q', w_tasks (put_view t (ctx_of p) w0) !! t' = Some q' ∧ burst_kept q q' ∧ burst_kept q' q) as H1.
  { intros t' q Hq. destruct (decide (t = t')) as [<-|Hne].
    - rewrite Hp in Hq. simplify_eq. rewrite (put_view_lookup_eq _ _ _ _ Hp).
      eexists. split; [done|]. unfold burst_kept. by rewrite ctx_of_put by apply Hok.
    - rewrite put_view_lookup_ne by done. by exists q. }
  split; intros Hs t' q Ht' Hq.
  - destruct (decide (t = t')) as [<-|Hne].
    + rewrite (put_view_lookup_eq _ _ _ _ Hp) in Hq. apply (inj Some) in Hq. subst q.
      destruct (Hs t p Ht' Hp) as (p' & Hp' & Hk). exists p'. split; [done|].
      eapply burst_kept_trans; [|exact Hk]. unfold burst_kept. by rewrite ctx_of_put by apply Hok.
    + rewrite put_view_lookup_ne in Hq by done. by apply Hs.
  - destruct (H1 t' q Hq) as (q' & Hq' & Hk & _). destruct (Hs t' q' Ht' Hq') as (p' & ? & ?).
    exists p'. split; [done|]. by eapply burst_kept_trans.
Qed.

Context (T : tunables).

(** The outcome of a call alone, and that it comes out so among the others. *)
Definition comes_out (w0 : world) (c : bore_call) (out : option Z) (w1 : world) : Prop :=
  call_output T bore_lut c w0 = Done (out, w1) ∧ bore_world_ok w1 ∧ same_links w1 w0 ∧
  output_ok c out ∧
  ∀ w, sound w → steady w0 w → call_held w c →
    yields i l w (call_steps T bore_lut (mret (S N)) c) (λ r w', r = out ∧ steady w1 w').

Lemma comes_out_same w0 c out :
  call_output T bore_lut c w0 = Done (out, w0) → bore_world_ok w0 → output_ok c out →
  call_steps T bore_lut (mret (S N)) c = mret out → comes_out w0 c out w0.
Proof.
  intros Hrun Hok Ho E. split_and!; try done. intros w Hw Hs _. rewrite E.
  apply yields_ret_rely; [done|]. intros w' [_ Hr] _. split; [done|by eapply steady_trans].
Qed.

(** A call that works on the context of a held task. *)
Lemma comes_out_put w0 c t p out c' :
  w_tasks w0 !! t = Some p → bore_world_ok w0 → bore_ctx_ok c' → output_ok c out →
  call_output T bore_lut c w0 = Done (out, put_view t c' w0) →
  tracks rank N holder i t w0 (call_steps T bore_lut (mret (S N)) c) (ctx_of p) out c' →
  comes_out w0 c out (put_view t c' w0).
Proof.
  intros Hp Hok Hc' Ho Hrun Htr. split_and!; [done|by apply put_ctx_world_ok|
    apply put_view_same_links|done|].
  intros w Hw Hs _. apply Htr; [done|]. apply (steady_same_view w0 t p); [done|by eapply Hok|done].
Qed.

Lemma comes_out_read w0 c t p out :
  w_tasks w0 !! t = Some p → bore_world_ok w0 → output_ok c out →
  call_output T bore_lut c w0 = Done (out, w0) →
  tracks rank N holder i t w0 (call_steps T bore_lut (mret (S N)) c) (ctx_of p) out (ctx_of p) →
  comes_out w0 c out w0.
Proof.
  intros Hp Hok Ho Hrun Htr. pose proof (Hok t p Hp) as Hc. split_and!; try done.
  intros w Hw Hs _. pose proof (proj1 (steady_same_view w0 t p w Hp Hc) Hs) as Hs'.
  eapply yields_mono; [by apply Htr|]. intros a w' [-> Hw']. split; [done|].
  by apply (steady_same_view w0 t p w' Hp Hc).
Qed.

Definition is_fork (c : bore_call) : bool :=
  match c with CallFork _ _ _ => true | _ => false end.

Lemma update_curr_comes_out w0 t p d np :
  w_tasks w0 !! t = Some p → holder t = Some i → bore_world_ok w0 →
  ∃ out w1, comes_out w0 (CallUpdateCurr (Some t) d np) out w1.
Proof.
  intros Hp Hh Hok. pose proof (Hok t p Hp) as Hc.
  destruct (Z.eq_dec (sched_bore T) 0) as [Hz|Hen].
  { exists np, w0. apply comes_out_same; cbn; rewrite ?Hz; auto. }
  destruct (Z.eq_dec (stop_update (ctx_of p)) 0) as [Hs|Hs].
  - exists (snd (update_curr_ctx T p d (ctx_of p) np)), (put_view t (fst (update_curr_ctx T p d (ctx_of p) np)) w0).
    apply (comes_out_put _ _ _ p); [done|done|by apply update_curr_ctx_ok| | |].
    + cbn. unfold update_curr_ctx. case_match; [by left|apply update_penalty_output].
    + exact (update_curr_run T w0 t p d np Hp Hok Hen Hs).
    + exact (update_curr_tracks rank N holder i t p w0 Hh Hp T (ctx_of p) d np Hen Hs Hc).
  - exists np, w0. eapply comes_out_read; [exact Hp|done|by left| |].
    + cbn [call_output]. unfold probe_bore_update_curr. destruct (Z.eqb_spec (sched_bore T) 0); [done|].
      krun (bore_get_ctx_run w0 t p Hp). by destruct (Z.eqb_spec (stop_update (ctx_of p)) 0).
    + cbn [call_steps probe_bore_update_curr_steps].
      destruct (Z.eqb_spec (sched_bore T) 0); [done|].
      eapply tracks_bind; [eapply tracks_field; [exact Hh|exact Hp|done|burst_fn_tac]|].
      destruct (Z.eqb_spec (stop_update (ctx_of p)) 0); [done|]. apply tracks_ret.
Qed.

(** The calls that restart the burst. *)
Lemma restart_comes_out w0 c t p :
  w_tasks w0 !! t = Some p → holder t = Some i → bore_world_ok w0 → smoothness_ok T →
  call_output T bore_lut c = (_ ← restart_task T t; mret None) →
  call_steps T bore_lut (mret (S N)) c = restart_burst_bore_steps T t None →
  output_ok c None → ∃ out w1, comes_out w0 c out w1.
Proof.
  intros Hp Hh Hok Hsm Erun Esteps Ho. pose proof (Hok t p Hp) as Hc.
  exists None, (put_view t (fst (restart_burst_bore T p (ctx_of p) None)) w0).
  eapply comes_out_put; [exact Hp|done|by apply (restart_burst_ok T p _ None)|exact Ho| |].
  - rewrite Erun. by krun (restart_task_run T w0 t p Hp).
  - rewrite Esteps.
    assert (snd (restart_burst_bore T p (ctx_of p) None) = None) as E
      by (unfold restart_burst_bore; rewrite update_penalty_prio; by destruct (_ =? _)).
    pose proof (restart_burst_tracks rank N holder i t p w0 Hh Hp T (ctx_of p) None Hsm Hc) as Htr.
    rewrite E in Htr. exact Htr.
Qed.

Lemma load_weight_comes_out w0 t p prio :
  w_tasks w0 !! t = Some p → holder t = Some i → bore_world_ok w0 →
  ∃ out w1, comes_out w0 (CallLoadWeight (Some t) (Some prio)) out w1.
Proof.
  intros Hp Hh Hok. pose proof (Hok t p Hp) as Hc.
  destruct (Z.eq_dec (sched_bore T) 0) as [Hz|Hen].
  { exists (Some prio), w0. apply comes_out_same; cbn; rewrite ?Hz; auto. }
  exists (Some (if bore_task_is_eligible p then effective_prio_bore T p (ctx_of p) else prio)), w0.
  eapply comes_out_read; [exact Hp|done| | |by eapply load_weight_tracks].
  - cbn [output_ok]. case_match; [right|by left]. split; [done|]. eexists. split; [done|].
    apply effective_prio_range.
  - cbn [call_output]. unfold probe_bore_set_load_weight. destruct (Z.eqb_spec (sched_bore T) 0); [done|].
    krun (read_task_run w0 t p Hp). destruct (bore_task_is_eligible p); [|done]. cbn [negb].
    by krun (bore_get_ctx_run w0 t p Hp).
Qed.

(** The entity of a group is no task's. *)
Lemma group_evolves k w g se : evolves rank N MAX_BURST_PENALTY k w
  (World (w_tasks w) (<[g := se]> (w_groups w)) (w_rcu w)).
Proof.
  split.
  - intros [[H1 H2 H3 H4 H5] Hl]. split; [by split|exact Hl].
  - done.
  - done.
  - intros g' _ Hg. apply elem_of_dom. cbn. rewrite dom_insert_L.
    apply elem_of_dom in Hg. set_solver.
Qed.

Lemma init_group_comes_out w0 g :
  bore_world_ok w0 → is_Some (w_groups w0 !! g) →
  ∃ out w1, comes_out w0 (CallInit (Some (SeGroup g))) out w1.
Proof.
  intros Hok Hg. pose proof Hg as [se Hse]. eexists None, _. split_and!.
  - cbn [call_output]. unfold probe_bore_init_entity.
    by krun (store_view_group_run w0 g se bore_ctx_zero Hse).
  - exact Hok.
  - by apply group_insert_same_links.
  - done.
  - intros w Hw Hs [Hin Hgw]. cbn [call_steps probe_bore_init_entity_steps].
    eapply (yields_bind _ _ _ _ _ _ _ _ _ (λ _ w', steady w0 w')).
    + apply yields_act; [done|]. intros w' [Hr Hst] _.
      destruct (ev_group _ _ _ _ _ _ Hr g Hin Hgw) as [se' Hse'].
      exists tt, (World (w_tasks w')
        (<[g := set_kabi (kv_store bore_ctx_zero (se_kabi se')) se']> (w_groups w')) (w_rcu w')).
      split_and!; [exact (store_view_group_run (seen l w') g se' bore_ctx_zero Hse')|done|
        intros; apply group_evolves|intros j _ t' q _ Hq; by exists q|].
      intros w2 [_ Hr2] _. eapply steady_trans; [exact Hs|].
      eapply steady_trans; [exact Hst|exact Hr2].
    + intros _ w' _ Hs' Hst. apply yields_ret_rely; [done|]. intros w2 [_ Hr2] _.
      split; [done|]. by eapply steady_trans.
Qed.

Lemma call_comes_out w0 c :
  bore_world_ok w0 → smoothness_ok T → call_held w0 c → is_fork c = false →
  ∃ out w1, comes_out w0 c out w1.
Proof.
  intros Hok Hsm Hc Hf.
  assert (∀ out, output_ok c out → call_output T bore_lut c w0 = Done (out, w0) →
    call_steps T bore_lut (mret (S N)) c = mret out → ∃ out w1, comes_out w0 c out w1) as Hsame
    by (intros out ? ? ?; exists out, w0; by apply comes_out_same).
  destruct c as [[t|] d np|[t|] fl|se|[t|]|p cur now|[[t|g]|]|[t|] [prio|]];
    try done; cbn [call_held ptr_held] in Hc;
    try (destruct Hc as (Hh & _ & p & Hp));
    try (by (apply (Hsame np); [by left|done|done]));
    try (by (apply (Hsame (Some prio)); [by left|done|done]));
    try (by (apply (Hsame None); [by left|done|done])); try (by apply (Hsame None)).
  - by eapply update_curr_comes_out.
  - destruct ((sched_bore T =? 0) || ((fl &. DEQUEUE_SLEEP) =? 0)) eqn:E.
    + apply (Hsame None); cbn [call_output call_steps];
        unfold probe_bore_dequeue_task_fair, probe_bore_dequeue_task_fair_steps; by rewrite ?E.
    + eapply restart_comes_out; [exact Hp|done..| | |done]; cbn [call_output call_steps];
        unfold probe_bore_dequeue_task_fair, probe_bore_dequeue_task_fair_steps; by rewrite E.
  - destruct (sched_bore T =? 0) eqn:E.
    + apply (Hsame None); cbn [call_output call_steps];
        unfold probe_bore_yield_task_fair, probe_bore_yield_task_fair_steps; by rewrite ?E.
    + eapply restart_comes_out; [exact Hp|done..| | |done]; cbn [call_output call_steps];
        unfold probe_bore_yield_task_fair, probe_bore_yield_task_fair_steps; by rewrite E.
  - eexists None, _. eapply comes_out_put; [exact Hp|done|apply bore_ctx_ok_zero|done| |].
    + cbn [call_output]. unfold probe_bore_init_entity. by krun (store_view_run w0 t p bore_ctx_zero Hp).
    + eapply init_tracks; [exact Hh|exact Hp|by eapply Hok].
  - apply init_group_comes_out; [done|apply Hc].
  - by eapply load_weight_comes_out.
Qed.

(** Every call is safe among the others. *)
Lemma call_yields w c :
  sound w → smoothness_ok T → call_held w c →
  yields i l w (call_steps T bore_lut (mret (S N)) c) (λ out _, output_ok c out).
Proof.
  intros Hw Hsm Hc. destruct (is_fork c) eqn:Hf.
  - destruct c as [| | | |p cur now| |]; try done. destruct Hc as [Hp Hcur]. cbn [call_steps].
    eapply (yields_bind _ _ _ _ _ _ _ _ _ (λ _ _, True)); [|intros _ w' _ Hs _; by apply yields_ret].
    destruct p as [t|]; [|by apply yields_ret]. destruct cur as [pt|]; [|done].
    destruct Hp as (? & ? & ?), Hcur as [? ?].
    assert (0 <= MAX_BURST_PENALTY <= MAX_BURST_PENALTY) by (by rewrite max_burst_penalty_val).
    by apply fork_yield; try right.
  - assert (bore_world_ok w) as Hok by (intros t p Hp; by eapply gd_ctx; [apply Hw|]).
    destruct (call_comes_out w c Hok Hsm Hc Hf) as (out & w1 & _ & _ & _ & Ho & Hy).
    eapply yields_mono; [by apply Hy, Hc; [done|apply steady_refl]|]. by intros a w' [-> _].
Qed.
End calls.

Section sequences.
Context `{KernelHeaders} (rank : tid → nat) (N : nat) (holder : tid → option nat) (i : nat) (l : cpu).

Abbreviation yields := (yields rank N MAX_BURST_PENALTY holder).
Abbreviation steady := (steady holder i).
Abbreviation sound := (sound rank N MAX_BURST_PENALTY).

Definition calls_held (w : world) (cs : list (tunables * bore_call)) : Prop :=
  Forall (λ Tc, smoothness_ok (fst Tc) ∧ call_held holder i l w (snd Tc)) cs.

Lemma calls_held_evolves w w' cs :
  evolves rank N MAX_BURST_PENALTY l w w' → calls_held w cs → calls_held w' cs.
Proof.
  intros He Hcs. eapply Forall_impl; [exact Hcs|]. intros [T c] [? ?]. split; [done|].
  by eapply call_held_evolves.
Qed.

Lemma calls_yield cs : ∀ w, sound w → calls_held w cs →
  yields i l w (calls_steps bore_lut (mret (S N)) cs)
    (λ outs _, Forall2 output_ok (snd <$> cs) outs).
Proof.
  induction cs as [|[T c] cs IH]; intros w Hw Hcs; cbn [calls_steps]; [by apply yields_ret|].
  inversion_clear Hcs as [|? ? [Hsm Hc] Hcs'].
  eapply yields_bind; [by apply call_yields|]. intros out w1 Hr1 Hs1 Ho.
  eapply yields_bind; [apply IH; [done|by eapply calls_held_evolves]|].
  intros outs w2 _ Hs2 Hos. apply yields_ret; [done|]. intros _ _ _. by constructor.
Qed.

(** Alone and among the others, starting from the same tasks. *)
Lemma calls_come_out cs : ∀ w0, bore_world_ok w0 → calls_held w0 cs →
  Forall (λ Tc, is_fork (snd Tc) = false) cs →
  ∃ outs w1, calls_outputs bore_lut cs w0 = Done (outs, w1) ∧
  Forall2 output_ok (snd <$> cs) outs ∧
  ∀ w, sound w → steady w0 w → calls_held w cs →
    yields i l w (calls_steps bore_lut (mret (S N)) cs) (λ r w', r = outs ∧ steady w1 w').
Proof.
  induction cs as [|[T c] cs IH]; intros w0 Hok Hcs Hf; cbn [calls_steps calls_outputs].
  { exists [], w0. split_and!; [done..|]. intros w Hw Hs _. apply yields_ret_rely; [done|].
    intros w' [_ Hr] _. split; [done|by eapply steady_trans]. }
  inversion_clear Hcs as [|? ? [Hsm Hc] Hcs']. inversion_clear Hf as [|? ? Hfc Hf'].
  destruct (call_comes_out rank N holder i l T w0 c Hok Hsm Hc Hfc)
    as (out & w1 & Hrun & Hok1 & Hl1 & Ho & Hy).
  assert (calls_held w1 cs) as Hcs1.
  { eapply Forall_impl; [exact Hcs'|]. intros [T' c'] [? Hc']. split; [done|].
    by eapply call_held_links. }
  destruct (IH w1 Hok1 Hcs1 Hf') as (outs & w2 & Hrun' & Hos & Hy').
  exists (out :: outs), w2. split_and!; [by krun Hrun; krun Hrun'|by constructor|].
  intros w Hw Hs Hheld. inversion_clear Hheld as [|? ? [_ Hcw] Hcsw].
  eapply yields_bind; [by apply Hy|]. intros a wa Hra Hsa [-> Hsta].
  eapply yields_bind; [apply Hy'; [done|done|by eapply calls_held_evolves]|].
  intros b wb _ Hsb [-> Hstb]. apply yields_ret_rely; [done|].
  intros w' [_ Hr] _. split; [done|by eapply steady_trans].
Qed.
End sequences.
