(* ===== verification/BoreConcurrentProbes.v ===== *)
(** * BORE on several CPUs

    Any number of CPUs, each calling any probes of BORE for the tasks it holds,
    one field access at a time: every run is safe and ends, and the bursts come
    out as if each CPU were alone. *)

From S2P Require Import Prelude KMonad Kernel BoreMath BoreCtx BoreInherit SampleWorld BoreProbes Interleave BoreSteps BoreConcurrent BoreProbeSteps BoreHeld.

#[local] Open Scope Z_scope.

(** ** Pools of CPUs *)

(** What a CPU is asked to do, the tasks and group entities that stay for it,
    and its calls in order. *)
Record job := Job {
  job_own : gset tid;
  job_groups : gset positive;
  job_calls : list (tunables * bore_call)
}.

Definition job_cpu (j : job) : cpu := Cpu 0 (job_own j) (job_groups j).

Definition no_forks (j : job) : bool :=
  forallb (λ Tc, negb (is_fork (snd Tc))) (job_calls j).

Section pool.
Context `{KernelHeaders} (rank : tid → nat) (N : nat) (holder : tid → option nat).

Abbreviation sound := (sound rank N MAX_BURST_PENALTY).

Definition probe_pool (w : world) (jobs : list job) :
    world * list (cpu * prog world (list (option Z))) :=
  (w, (λ j, (job_cpu j, calls_steps bore_lut (mret (S N)) (job_calls j))) <$> jobs).

(** Each CPU works on tasks that it holds. *)
Definition jobs_ok (w : world) (jobs : list job) : Prop :=
  ∀ i j, jobs !! i = Some j → calls_held holder i (job_cpu j) w (job_calls j).

(** The burst of every task CPU [i] holds is the one of the world [wa]. *)
Definition same_bursts (i : nat) (wa w : world) : Prop :=
  ∀ t p, holder t = Some i → w_tasks wa !! t = Some p →
  ∃ p', w_tasks w !! t = Some p' ∧ same_but_caches (ctx_of p) (ctx_of p').

(** How a CPU ends. *)
Definition job_done (w0 : world) (jobs : list job) (i : nat) (outs : list (option Z))
    (l : cpu) (w : world) : Prop :=
  cpu_rcu l = 0%nat ∧ ∃ j, jobs !! i = Some j ∧ Forall2 output_ok (snd <$> job_calls j) outs ∧
  (no_forks j = true →
   ∃ wa, calls_outputs bore_lut (job_calls j) w0 = Done (outs, wa) ∧ same_bursts i wa w).

Lemma job_safe w jobs i j :
  sound w → jobs_ok w jobs → jobs !! i = Some j →
  safe (bore_rely rank N MAX_BURST_PENALTY holder) i (job_cpu j) w
    (calls_steps bore_lut (mret (S N)) (job_calls j)) (job_done w jobs i).
Proof.
  intros Hw Hjobs Hj. pose proof (Hjobs i j Hj) as Hcs.
  destruct (no_forks j) eqn:Hf.
  - assert (bore_world_ok w) as Hok by (intros t p Hp; by eapply gd_ctx; [apply Hw|]).
    assert (Forall (λ Tc, is_fork (snd Tc) = false) (job_calls j)) as Hnf.
    { apply Forall_forall. intros Tc Hin. unfold no_forks in Hf. rewrite forallb_forall in Hf.
      specialize (Hf Tc (proj1 (list_elem_of_In _ _) Hin)). by destruct (is_fork _). }
    destruct (calls_come_out rank N holder i (job_cpu j) (job_calls j) w Hok Hcs Hnf)
      as (outs & wa & Hrun & Hos & Hy).
    eapply safe_mono; [by apply Hy; [|apply steady_refl|]|].
    intros a l' w' (-> & _ & _ & -> & Hst). split; [done|]. exists j. split_and!; [done|done|].
    intros _. exists wa. split; [done|]. intros t p Ht Hp.
    destruct (Hst t p Ht Hp) as (p' & ? & ? & _). by exists p'.
  - eapply safe_mono; [by apply calls_yield|].
    intros outs l' w' (-> & _ & _ & Hos). split; [done|]. exists j. split_and!; [done|done|].
    by rewrite Hf.
Qed.

Lemma probe_pool_correct w jobs c' :
  sound w → jobs_ok w jobs →
  rtc (pool_step (bore_env rank N MAX_BURST_PENALTY holder)) (probe_pool w jobs) c' →
  sound (fst c') ∧ no_fault c' ∧
  (∀ i l outs, snd c' !! i = Some (l, PRet outs) → job_done w jobs i outs l (fst c')) ∧ ends c'.
Proof.
  intros Hw Hjobs Hrun.
  edestruct (pool_correct (A:=list (option Z)) (bore_rely rank N MAX_BURST_PENALTY holder)
      (rely_refl rank N MAX_BURST_PENALTY holder) (rely_trans rank N MAX_BURST_PENALTY holder)
      (bore_env rank N MAX_BURST_PENALTY holder))
    with (inv := sound) (Q := job_done w jobs)
      (c := probe_pool w jobs) (c' := c') as (Hs & Hnf & Hres & _ & Hend & _).
  - intros ls w1 w2 i l He. by apply He.
  - done.
  - intros ls w1 w2 He. by apply He.
  - apply bore_guarantee_sound.
  - done.
  - split; [exact Hw|]. split; [|done]. intros i l p Hi. cbn in Hi. rewrite list_lookup_fmap in Hi.
    destruct (jobs !! i) as [j|] eqn:Hj; [|done]. cbn in Hi. injection Hi as <- <-.
    by apply job_safe.
  - exact Hrun.
  - exact (conj Hs (conj Hnf (conj Hres Hend))).
Qed.

(** C1: BORE is safe on any number of CPUs.  Each CPU makes any calls for tasks
    whose run queue lock it holds, forks included, access by access; in whatever
    order the accesses fall, and whatever the rest of the kernel does in between
    (reparenting and creating tasks, freeing those that no CPU protects), as
    long as it respects RCU and the locks: no access hits a freed task, no table
    index is out of range, no list is walked outside RCU, both walks end; no
    penalty, cached or inherited, ever leaves its range; every priority that is
    reported is one of the forty; each CPU leaves its RCU section and takes
    finitely many steps, and unless all have ended one of them can take the
    next. *)
Theorem concurrent_probes_safe w jobs c' :
  sound w → jobs_ok w jobs →
  rtc (pool_step (bore_env rank N MAX_BURST_PENALTY holder)) (probe_pool w jobs) c' →
  sound (fst c') ∧ no_fault c' ∧ ends c' ∧
  ∀ i l outs, snd c' !! i = Some (l, PRet outs) →
    cpu_rcu l = 0%nat ∧
    ∃ j, jobs !! i = Some j ∧ Forall2 output_ok (snd <$> job_calls j) outs.
Proof.
  intros Hw Hjobs Hrun.
  destruct (probe_pool_correct w jobs c' Hw Hjobs Hrun) as (Hs & Hnf & Hdone & Hend).
  split; [exact Hs|]. split; [exact Hnf|]. split; [exact Hend|]. intros i l outs Hi.
  destruct (Hdone i l outs Hi) as (? & j & ? & ? & _). split; [done|]. by exists j.
Qed.

(** C10: The bursts come out as if each CPU were alone.  Take a CPU that has
    ended and made no forks of its own: whatever the others did meanwhile, to
    the caches in the contexts of its tasks or elsewhere, its calls reported
    exactly what they report when nobody else runs, and the burst time and the
    three penalties of every task it holds are exactly those of that run. *)
Theorem concurrent_bursts_exact w jobs c' i j l outs :
  sound w → jobs_ok w jobs →
  rtc (pool_step (bore_env rank N MAX_BURST_PENALTY holder)) (probe_pool w jobs) c' →
  jobs !! i = Some j → no_forks j = true → snd c' !! i = Some (l, PRet outs) →
  ∃ wa, calls_outputs bore_lut (job_calls j) w = Done (outs, wa) ∧ same_bursts i wa (fst c').
Proof.
  intros Hw Hjobs Hrun Hj Hf Hi.
  destruct (probe_pool_correct w jobs c' Hw Hjobs Hrun) as (_ & _ & Hdone & _).
  destruct (Hdone i l outs Hi) as (_ & j' & Hj' & _ & Hexact).
  rewrite Hj in Hj'. apply (inj Some) in Hj'. subst j'. by apply Hexact.
Qed.
End pool.

(** ** Instances *)

#[local] Existing Instance linux_headers.

(** CPU 0 runs the shell and then lets it sleep; CPU 1 forks the job and the app
    as children of it, refreshing the cache in the shell's context; CPU 2 sets
    up the kernel thread and a group. *)
Definition sample_holder (t : tid) : option nat :=
  match t with
  | 3%positive => Some 0%nat
  | 4%positive | 5%positive => Some 1%nat
  | 6%positive => Some 2%nat
  | _ => None
  end.

Definition sample_jobs : list job :=
  [Job {[3%positive]} ∅
     [(default_tunables, CallUpdateCurr (Some 3%positive) (10 ^ 9) (Some 20));
      (default_tunables, CallLoadWeight (Some 3%positive) (Some 20));
      (default_tunables, CallDequeue (Some 3%positive) DEQUEUE_SLEEP)];
   Job {[3%positive; 4%positive; 5%positive]} ∅
     [(default_tunables, CallFork (Some 5%positive) (Some 3%positive) (10 ^ 12));
      (default_tunables, CallFork (Some 4%positive) (Some 3%positive) (10 ^ 12 + 5))];
   Job {[6%positive]} {[1%positive]}
     [(default_tunables, CallInit (Some (SeGroup 1%positive)));
      (default_tunables, CallInit (Some (SeTask 6%positive)));
      (default_tunables, CallYield (Some 6%positive))]].

Definition sample_probe_pool := probe_pool 7 (sample_world 0) sample_jobs.

(** One access each in turn, as long as they have any left. *)
Definition sample_turns : list nat := concat (repeat [0; 1; 2]%nat 60).

Definition sample_jobs_end := exec_able sample_turns sample_probe_pool.

Lemma sample_jobs_finished : finished sample_jobs_end.
Proof. apply finishedb_sound. vm_compute. reflexivity. Qed.

Lemma sample_jobs_ok : jobs_ok sample_holder (sample_world 0) sample_jobs.
Proof.
  intros [|[|[|i]]] j Hj; cbn in Hj; try discriminate; injection Hj as <-.
  all: repeat (apply Forall_cons; split; [|]); try apply Forall_nil; try done.
  all: split; [by vm_compute|].
  all: cbn; repeat split; first [done | set_solver | vm_compute; eauto].
Qed.

Lemma concurrent_probes_safe_witness :
  sound sample_rank 7 MAX_BURST_PENALTY (fst sample_jobs_end) ∧
  no_fault sample_jobs_end ∧ ends sample_jobs_end ∧
  (∃ l, snd sample_jobs_end !! 1%nat = Some (l, PRet [None; None]) ∧ cpu_rcu l = 0%nat).
Proof.
  destruct (concurrent_probes_safe sample_rank 7 sample_holder (sample_world 0) sample_jobs
              sample_jobs_end sample_sound sample_jobs_ok (exec_able_sound _ sample_turns _))
    as (Hs & Hn & He & Hd).
  split; [exact Hs|]. split; [exact Hn|]. split; [exact He|].
  assert (∃ l, snd sample_jobs_end !! 1%nat = Some (l, PRet [None; None])) as [l Hl]
    by (eexists; vm_compute; reflexivity).
  exists l. split; [exact Hl|]. exact (proj1 (Hd 1%nat l _ Hl)).
Defined.

(** The shell is charged, shown and put to sleep while the other CPU refreshes
    the cache in its context. *)
Lemma concurrent_bursts_exact_witness :
  ∃ wa, calls_outputs bore_lut (job_calls (nth 0 sample_jobs (Job ∅ ∅ []))) (sample_world 0)
    = Done ([Some 30; Some 30; None], wa) ∧
    same_bursts sample_holder 0 wa (fst sample_jobs_end).
Proof.
  assert (∃ l, snd sample_jobs_end !! 0%nat = Some (l, PRet [Some 30; Some 30; None])) as [l Hl]
    by (eexists; vm_compute; reflexivity).
  exact (concurrent_bursts_exact sample_rank 7 sample_holder (sample_world 0) sample_jobs
           sample_jobs_end 0 _ l _ sample_sound sample_jobs_ok (exec_able_sound _ sample_turns _)
           eq_refl eq_refl Hl).
Defined.
