(* ===== verification/Hooks.v ===== *)
(** * Loading and unloading a module

    What a module's init and exit functions ask of the kernel: attaching probes
    to vendor hooks, a sysctl table and a proc entry.  The answers of the kernel
    are the fields of [ModuleEnv]; the effects of successful calls are kept on
    the kernel's side of [module_state]. *)

From S2P Require Import Prelude KMonad Kernel FileOps.

Class ModuleEnv (H : Type) := {
  (* the result of registering a probe when some are registered already *)
  register_trace : H → list H → Z;
  (* whether the sysctl registration and the proc creation return non-NULL *)
  register_sysctl : bool;
  register_sysctl_table : bool;
  proc_create : bool;
  (* [LINUX_VERSION_CODE >= KERNEL_VERSION(6, 4, 0)] *)
  linux_6_4 : bool;
  (* [LINUX_VERSION_CODE >= KERNEL_VERSION(5, 6, 0)] *)
  linux_5_6 : bool;
  (* the threads [for_each_process_thread] visits *)
  process_threads : gmap tid task → list tid
}.

Record module_state (H : Type) := ModuleState {
  ms_hooks : list H;         (* kernel: probes attached, in order *)
  ms_sysctl : list ctl_dir;  (* kernel: sysctl tables registered *)
  ms_proc : list (proc_node Empty_set);   (* kernel: proc entries *)
  ms_active : bool;          (* module: hooks_active *)
  ms_sysctl_header : bool;   (* module: sysctl header is not NULL *)
  ms_proc_entry : bool       (* module: proc entry is not NULL *)
}.
Arguments ModuleState {H}.
Arguments ms_hooks {H}.
Arguments ms_sysctl {H}.
Arguments ms_proc {H}.
Arguments ms_active {H}.
Arguments ms_sysctl_header {H}.
Arguments ms_proc_entry {H}.

(** The static data of a module that was just loaded. *)
Definition module_loaded {H} : module_state H := ModuleState [] [] [] false false false.

Section calls.
Context {H : Type} `{EqDecision H} `{ModuleEnv H}.

Definition do_register (h : H) (s : module_state H) : Z * module_state H :=
  let ret := register_trace h (ms_hooks s) in
  (ret, if ret =? 0
        then ModuleState (ms_hooks s ++ [h]) (ms_sysctl s) (ms_proc s)
               (ms_active s) (ms_sysctl_header s) (ms_proc_entry s)
        else s).

Definition do_unregister (h : H) (s : module_state H) : module_state H :=
  ModuleState (List.filter (λ x, negb (bool_decide (x = h))) (ms_hooks s))
    (ms_sysctl s) (ms_proc s) (ms_active s) (ms_sysctl_header s) (ms_proc_entry s).

Definition set_active (b : bool) (s : module_state H) : module_state H :=
  ModuleState (ms_hooks s) (ms_sysctl s) (ms_proc s) b
    (ms_sysctl_header s) (ms_proc_entry s).

(** [register_sysctl("kernel", table)], or [register_sysctl_table(root)]. *)
Definition do_register_sysctl (table : list ctl_entry) (root : list ctl_root)
    (s : module_state H) : module_state H :=
  let ok := if linux_6_4 then register_sysctl else register_sysctl_table in
  let dirs := if linux_6_4 then [("kernel", table)]
              else (λ r, (root_procname r, child r)) <$> root in
  ModuleState (ms_hooks s) ((if ok then dirs else []) ++ ms_sysctl s) (ms_proc s)
    (ms_active s) ok (ms_proc_entry s).

(** The tables with these rows are removed. *)
Definition do_unregister_sysctl (table : list ctl_entry) (s : module_state H) : module_state H :=
  ModuleState (ms_hooks s) (filter (λ d, snd d ≠ table) (ms_sysctl s)) (ms_proc s)
    (ms_active s) (ms_sysctl_header s) (ms_proc_entry s).

Definition do_proc_create (f : proc_node Empty_set) (s : module_state H) : module_state H :=
  ModuleState (ms_hooks s) (ms_sysctl s) ((if proc_create then [f] else []) ++ ms_proc s)
    (ms_active s) (ms_sysctl_header s) proc_create.

Definition do_proc_remove (f : proc_node Empty_set) (s : module_state H) : module_state H :=
  ModuleState (ms_hooks s) (ms_sysctl s) (filter (λ g, g ≠ f) (ms_proc s))
    (ms_active s) (ms_sysctl_header s) (ms_proc_entry s).

(** The loop over all threads: a walk that is valid inside a read-side section
    only. *)
Definition for_each_process_thread (body : tid → KM world unit) : KM world unit :=
  rcu_access ;;
  m ← gets w_tasks;
  foldr (λ t k, _ ← body t; k) (mret tt) (process_threads m).

(** Every probe of [hs], attached in this order, is accepted. *)
Definition all_accepted (hs : list H) : Prop :=
  ∀ i h, hs !! i = Some h → register_trace h (take i hs) = 0.

(** Nothing of the module is left in the kernel. *)
Definition clean (s : module_state H) : Prop :=
  ms_hooks s = [] ∧ ms_sysctl s = [] ∧ ms_proc s = [].
End calls.

Lemma filter_other {A} (P : A → Prop) `{∀ x, Decision (P x)} x : ¬ P x → filter P [x] = [].
Proof. intros Hx. by rewrite filter_cons_False. Qed.

(** ** The walk over all threads *)

(** From [w] to [w'] the tasks of [ts] were changed by [upd], and nothing else. *)
Definition walked (upd : task → task) (ts : list tid) (w w' : world) : Prop :=
  (∀ t, w_tasks w' !! t = if decide (t ∈ ts) then upd <$> w_tasks w !! t else w_tasks w !! t) ∧
  w_groups w' = w_groups w ∧ w_rcu w' = w_rcu w.

Lemma walked_same_links upd ts w w' :
  (∀ p, bare (upd p) = bare p) → walked upd ts w w' → same_links w' w.
Proof.
  intros Hb (Ht & Hg & Hr). split; [|by rewrite Hg]. apply map_eq. intros t.
  rewrite !lookup_fmap, Ht. case_decide; [|done].
  destruct (w_tasks w !! t) as [p|]; [|done]. cbn. by rewrite Hb.
Qed.

Section walk.
Context (body : tid → KM world unit) (upd : task → task).
Context (Hbody : ∀ w t p, w_tasks w !! t = Some p →
  body t w = Done (tt, with_tasks (<[t := upd p]> (w_tasks w)) w)).
Context (Hidem : ∀ p, upd (upd p) = upd p).

Lemma each_thread_run ts : ∀ w,
  (∀ t, t ∈ ts → is_Some (w_tasks w !! t)) →
  ∃ w', foldr (λ t k, _ ← body t; k) (mret tt) ts w = Done (tt, w') ∧ walked upd ts w w'.
Proof.
  induction ts as [|t ts IH]; intros w Hts; cbn [foldr].
  { exists w. split; [done|]. split; [|done]. intros t. by rewrite decide_False by (by inversion 1). }
  destruct (Hts t ltac:(left)) as [p Hp]. krun (Hbody w t p Hp).
  set (w1 := with_tasks _ w).
  destruct (IH w1) as (w' & Hrun & Hwalk & Hg & Hr).
  { intros t' Ht'. cbn. destruct (decide (t = t')) as [<-|]; [rewrite lookup_insert_eq; by eexists|].
    rewrite lookup_insert_ne by done. apply Hts. by right. }
  exists w'. split; [done|]. split; [|by rewrite Hg, Hr]. intros t'. rewrite Hwalk. cbn.
  destruct (decide (t = t')) as [<-|Hne].
  - rewrite lookup_insert_eq, Hp. rewrite (decide_True (P := t ∈ t :: ts)) by left. cbn.
    case_decide; [by rewrite Hidem|done].
  - rewrite lookup_insert_ne by done.
    assert (t' ∈ t :: ts ↔ t' ∈ ts) as Hin by (rewrite elem_of_cons; naive_solver).
    repeat case_decide; naive_solver.
Qed.

(** The walk in its read-side section. *)
Lemma walk_threads_run `{ModuleEnv H} w :
  (∀ t, t ∈ process_threads (w_tasks w) → is_Some (w_tasks w !! t)) →
  ∃ w', (rcu_read_lock ;; _ ← for_each_process_thread body; rcu_read_unlock) w = Done (tt, w') ∧
    walked upd (process_threads (w_tasks w)) w w'.
Proof.
  intros Hts. unfold for_each_process_thread, rcu_read_lock, rcu_read_unlock, rcu_access. kred.
  erewrite (bind_done (assertk _)) by reflexivity. kred.
  destruct (each_thread_run _ (World (w_tasks w) (w_groups w) (S (w_rcu w))) Hts)
    as (w' & Hrun & Hwalk & Hg & Hr).
  krun Hrun. rewrite Hr. eexists. split; [done|]. by split.
Qed.
End walk.

(** What is left of a list after its only element is removed. *)
Ltac solve_clean :=
  split_and!; first [reflexivity | cbn -[filter]; apply filter_other; cbn; tauto].

(** [%u], [%d], [%ld] and [%lld]. *)
Definition fmt_int (x : Z) : string :=
  if x <? 0 then "-" +:+ pretty (Z.to_N (- x)) else pretty (Z.to_N x).

(** A kernel that accepts the probes [accept] allows, and everything else. *)
Definition sample_env {H} (accept : H → bool) : ModuleEnv H := {|
  register_trace h _ := if accept h then 0 else -38;
  register_sysctl := true;
  register_sysctl_table := true;
  proc_create := true;
  linux_6_4 := true;
  linux_5_6 := true;
  process_threads m := fst <$> map_to_list m
|}.

Lemma sample_env_visits {H} (accept : H → bool) w t :
  t ∈ @process_threads H (sample_env accept) (w_tasks w) ↔ is_Some (w_tasks w !! t).
Proof.
  cbn. rewrite list_elem_of_fmap. split.
  - intros ([t' p] & -> & Hp). apply elem_of_map_to_list in Hp. by exists p.
  - intros [p Hp]. exists (t, p). split; [done|]. by apply elem_of_map_to_list.
Qed.
