(* ===== verification/BoreModule.v ===== *)
(** * Loading BORE (bore_sched_main.c, lines 377 to 573)

    The init function resets the context of every thread, attaches the seven
    probes and undoes all of it when one hook is missing; the exit function
    removes what init left. *)

From S2P Require Import Prelude KMonad Kernel BoreMath BoreCtx BoreInherit SampleWorld FileOps Hooks.

Inductive bore_hook :=
  | HUpdateCurr | HDequeueTaskFair | HSetNextEntity | HYieldTaskFair
  | HTaskFork | HInitEntity | HSetLoadWeight.

#[export] Instance bore_hook_eq_dec : EqDecision bore_hook.
Proof. solve_decision. Defined.

(** The probes in the order of their registration. *)
Definition bore_hooks : list bore_hook :=
  [HUpdateCurr; HDequeueTaskFair; HSetNextEntity; HYieldTaskFair;
   HTaskFork; HInitEntity; HSetLoadWeight].

(** The static data of the module and the world it is loaded into. *)
Record bore_module := BoreModule {
  bm_state : module_state bore_hook;
  bm_tunables : tunables;
  bm_lut : list Z;
  bm_world : world
}.

Definition bm_map (f : module_state bore_hook → module_state bore_hook)
    (m : bore_module) : bore_module :=
  BoreModule (f (bm_state m)) (bm_tunables m) (bm_lut m) (bm_world m).

Definition disable (T : tunables) : tunables :=
  Tunables 0 (sched_burst_inherit_type T) (sched_burst_smoothness T)
    (sched_burst_penalty_offset T) (sched_burst_penalty_scale T)
    (sched_burst_cache_lifetime T).

(** ** Definitions *)

Definition bore_table : list ctl_entry :=
  [CtlEntry "sched_bore" "sched_bore" 4 420 ProcDointvecMinmax None None;
   CtlEntry "sched_burst_inherit_type" "sched_burst_inherit_type" 4 420 ProcDointvecMinmax None None;
   CtlEntry "sched_burst_smoothness" "sched_burst_smoothness" 4 420 ProcDointvecMinmax None None;
   CtlEntry "sched_burst_penalty_offset" "sched_burst_penalty_offset" 4 420 ProcDointvecMinmax None None;
   CtlEntry "sched_burst_penalty_scale" "sched_burst_penalty_scale" 4 420 ProcDointvecMinmax None None;
   CtlEntry "sched_burst_cache_lifetime" "sched_burst_cache_lifetime" 4 420 ProcDointvecMinmax None None].

(** Before Linux 6.4; mode 0555. *)
Definition bore_root_table : list ctl_root := [CtlRoot "kernel" 365 bore_table].

Definition bore_proc_show (m : bore_module) : list string :=
  let T := bm_tunables m in
  "BORE (Burst-Oriented Response Enhancer) CPU Scheduler 6.8.0" ::
  (if negb (ms_active (bm_state m)) then
     ["status:                      disabled (kernel hooks not present / no-op mode)"]
   else
     ["sched_bore:                  " +:+ fmt_int (sched_bore T);
      "sched_burst_inherit_type:    " +:+ fmt_int (sched_burst_inherit_type T);
      "sched_burst_smoothness:      " +:+ fmt_int (sched_burst_smoothness T);
      "sched_burst_penalty_offset:  " +:+ fmt_int (sched_burst_penalty_offset T);
      "sched_burst_penalty_scale:   " +:+ fmt_int (sched_burst_penalty_scale T);
      "sched_burst_cache_lifetime:  " +:+ fmt_int (sched_burst_cache_lifetime T)]).

Section bore_module.
Context `{ModuleEnv bore_hook}.

(** [bore_proc_open] gives [bore_proc_show] to [single_open]. *)
Definition bore_proc_open : seq_show := ShowBore.

Definition bore_proc_fops : proc_ops Empty_set :=
  if linux_5_6
  then ProcOps StructProcOps false (Some bore_proc_open) seq_read None (Some SeqLseek)
         single_release
  else ProcOps StructFileOperations false (Some bore_proc_open) seq_read None (Some SeqLseek)
         single_release.

(** Mode 0444. *)
Definition bore_proc_node : proc_node Empty_set := ProcNode "bore" 292 bore_proc_fops.

(** [memset] of the context of every thread, in a read-side section. *)
Definition init_bore_tasks : KM world unit :=
  rcu_read_lock ;;
  _ ← for_each_process_thread (λ t, store_view (SeTask t) bore_ctx_zero);
  rcu_read_unlock.

(** The labels of the error path, from the last to the first. *)
Definition fail_hooks (m : bore_module) : Z * bore_module :=
  (0, BoreModule (do_proc_create bore_proc_node (set_active false (bm_state m)))
        (disable (bm_tunables m)) (bm_lut m) (bm_world m)).

Definition fail_dequeue (m : bore_module) : Z * bore_module :=
  fail_hooks (bm_map (do_unregister HUpdateCurr) m).

Definition fail_set_next (m : bore_module) : Z * bore_module :=
  fail_dequeue (bm_map (do_unregister HDequeueTaskFair) m).

Definition fail_yield (m : bore_module) : Z * bore_module :=
  fail_set_next (bm_map (do_unregister HSetNextEntity) m).

Definition fail_task_fork (m : bore_module) : Z * bore_module :=
  fail_yield (bm_map (do_unregister HYieldTaskFair) m).

Definition fail_init_entity (m : bore_module) : Z * bore_module :=
  fail_task_fork (bm_map (do_unregister HTaskFork) m).

Definition fail_set_load_weight (m : bore_module) : Z * bore_module :=
  fail_init_entity (bm_map (do_unregister HInitEntity) m).

(** Registers [h]; continues with [k], or with [fail] when the kernel
    refuses. *)
Definition try_register (h : bore_hook) (fail k : bore_module → Z * bore_module)
    (m : bore_module) : Z * bore_module :=
  let '(ret, s) := do_register h (bm_state m) in
  let m := bm_map (λ _, s) m in
  if negb (ret =? 0) then fail m else k m.

(** [bore_sched_init] after the contexts have been reset. *)
Definition attach_probes : bore_module → Z * bore_module :=
  try_register HUpdateCurr fail_hooks
  (try_register HDequeueTaskFair fail_dequeue
  (try_register HSetNextEntity fail_set_next
  (try_register HYieldTaskFair fail_yield
  (try_register HTaskFork fail_task_fork
  (try_register HInitEntity fail_init_entity
  (try_register HSetLoadWeight fail_set_load_weight
  (λ m, (0, bm_map (λ s, do_proc_create bore_proc_node (do_register_sysctl bore_table bore_root_table (set_active true s))) m))
  )))))).

Definition bore_sched_init (m : bore_module) : outcome (Z * bore_module) :=
  let lut := init_bore_reciprocal_lut (bm_lut m) in
  match init_bore_tasks (bm_world m) with
  | Done (_, w) => Done (attach_probes (BoreModule (bm_state m) (bm_tunables m) lut w))
  | Oops => Oops
  | OutOfFuel => OutOfFuel
  end.

Definition bore_sched_exit (m : bore_module) : bore_module :=
  let m := if ms_proc_entry (bm_state m) then bm_map (do_proc_remove bore_proc_node) m else m in
  if negb (ms_active (bm_state m)) then m
  else
    let m := if ms_sysctl_header (bm_state m) then bm_map (do_unregister_sysctl bore_table) m else m in
    let m := bm_map (do_unregister HSetLoadWeight) m in
    let m := bm_map (do_unregister HInitEntity) m in
    let m := bm_map (do_unregister HTaskFork) m in
    let m := bm_map (do_unregister HYieldTaskFair) m in
    let m := bm_map (do_unregister HSetNextEntity) m in
    let m := bm_map (do_unregister HDequeueTaskFair) m in
    bm_map (do_unregister HUpdateCurr) m.
End bore_module.

(** ** Proofs *)

Section facts.
Context `{ModuleEnv bore_hook}.

Definition bore_loaded (T : tunables) (w : world) : bore_module :=
  BoreModule module_loaded T bore_reciprocal_lut_bss w.

(** The state after init, by the number of probes the kernel accepts. *)
Definition init_success (T : tunables) (w : world) : bore_module :=
  BoreModule
    (do_proc_create bore_proc_node (do_register_sysctl bore_table bore_root_table (set_active true
       (ModuleState bore_hooks [] [] false false false))))
    T bore_lut w.

Definition init_noop (T : tunables) (w : world) : bore_module :=
  BoreModule (do_proc_create bore_proc_node module_loaded) (disable T) bore_lut w.

Definition acceptedb : bool :=
  forallb (λ i, match bore_hooks !! i with
                | Some h => register_trace h (take i bore_hooks) =? 0
                | None => true
                end) (seq 0 7).

Lemma acceptedb_spec : acceptedb = true ↔ all_accepted bore_hooks.
Proof.
  unfold acceptedb, all_accepted. rewrite forallb_forall. split.
  - intros Hall i h Hi. pose proof (lookup_lt_Some _ _ _ Hi) as Hlt. cbn in Hlt.
    specialize (Hall i ltac:(apply in_seq; lia)). rewrite Hi in Hall.
    by apply Z.eqb_eq in Hall.
  - intros Hall i _. destruct (bore_hooks !! i) as [h|] eqn:Hi; [|done].
    apply Z.eqb_eq. by apply Hall.
Qed.

Lemma try_register_run h fail k T lut w (s : module_state bore_hook) :
  try_register h fail k (BoreModule s T lut w)
  = if register_trace h (ms_hooks s) =? 0
    then k (BoreModule (ModuleState (ms_hooks s ++ [h]) (ms_sysctl s) (ms_proc s)
              (ms_active s) (ms_sysctl_header s) (ms_proc_entry s)) T lut w)
    else fail (BoreModule s T lut w).
Proof.
  unfold try_register, do_register. cbn [bm_state].
  by destruct (register_trace h (ms_hooks s) =? 0).
Qed.

Lemma attach_probes_cases T w :
  attach_probes (BoreModule module_loaded T bore_lut w)
  = (0, if acceptedb then init_success T w else init_noop T w).
Proof.
  unfold attach_probes, init_success, init_noop. generalize bore_lut. intros lut.
  unfold acceptedb. cbn [forallb seq lookup list_lookup bore_hooks take].
  do 7 (rewrite try_register_run; cbn [bm_state ms_hooks module_loaded bm_map app];
        destruct (register_trace _ _ =? 0); [|reflexivity]).
  reflexivity.
Qed.

(** A thread after its context was reset. *)
Definition reset_task (p : task) : task :=
  task_set_kabi (kv_store bore_ctx_zero (se_kabi (t_se p))) p.

Lemma reset_task_idem p : reset_task (reset_task p) = reset_task p.
Proof.
  unfold reset_task, task_set_kabi, set_kabi. cbn -[kv_store].
  by rewrite kv_store_store by apply bore_ctx_ok_zero.
Qed.

Lemma init_bore_tasks_run w :
  (∀ t, t ∈ process_threads (w_tasks w) → is_Some (w_tasks w !! t)) →
  ∃ w', init_bore_tasks w = Done (tt, w') ∧
    walked reset_task (process_threads (w_tasks w)) w w'.
Proof.
  apply walk_threads_run; [|exact reset_task_idem]. intros w0 t p Hp.
  rewrite (store_view_run w0 t p) by done. unfold put_view. by rewrite Hp.
Qed.

Lemma bore_init_cases T w :
  (∀ t, t ∈ process_threads (w_tasks w) → is_Some (w_tasks w !! t)) →
  ∃ w', walked reset_task (process_threads (w_tasks w)) w w' ∧
    bore_sched_init (bore_loaded T w)
    = Done (0, if acceptedb then init_success T w' else init_noop T w').
Proof.
  intros Hts. destruct (init_bore_tasks_run w Hts) as (w' & Hrun & Hw).
  exists w'. split; [done|]. unfold bore_sched_init, bore_loaded.
  cbn [bm_state bm_tunables bm_lut bm_world]. rewrite Hrun. fold bore_lut.
  by rewrite attach_probes_cases.
Qed.

(** *** Properties *)

(** C32: Loading BORE is all or nothing.  When the thread walk visits exactly the
    tasks there are, [bore_sched_init] makes no invalid access and returns 0.
    If the kernel accepts all seven probes, exactly these are attached in
    order, the module is active and its tunables are kept; if it refuses any,
    every probe attached before is detached again, no sysctl table is
    registered, the module is inactive and [sched_bore] is 0.  In both cases the
    reciprocal table is built, and every task has a context of zeroes, all
    else of the tasks and the RCU nesting being as before. *)
Theorem bore_init_all_or_nothing T w :
  (∀ t, t ∈ process_threads (w_tasks w) ↔ is_Some (w_tasks w !! t)) →
  ∃ m, bore_sched_init (bore_loaded T w) = Done (0, m) ∧
    bm_lut m = bore_lut ∧ bore_world_ok (bm_world m) ∧ same_links (bm_world m) w ∧
    (∀ t p, w_tasks (bm_world m) !! t = Some p → ctx_of p = bore_ctx_zero) ∧
    (all_accepted bore_hooks →
       ms_hooks (bm_state m) = bore_hooks ∧ ms_active (bm_state m) = true ∧
       bm_tunables m = T) ∧
    (¬ all_accepted bore_hooks →
       ms_hooks (bm_state m) = [] ∧ ms_active (bm_state m) = false ∧
       ms_sysctl (bm_state m) = [] ∧ sched_bore (bm_tunables m) = 0).
Proof.
  intros Hall. destruct (bore_init_cases T w) as (w' & Hwalk & E); [by intros t ?%Hall|].
  eexists. split; [exact E|].
  assert (∀ t p, w_tasks w' !! t = Some p → ctx_of p = bore_ctx_zero) as Hz.
  { intros t p Hp. destruct Hwalk as (Hwalk & _). rewrite Hwalk in Hp. case_decide as Hin.
    - destruct (w_tasks w !! t) as [q|]; [|done]. injection Hp as <-.
      apply ctx_of_put, bore_ctx_ok_zero.
    - destruct Hin. apply Hall. by exists p. }
  assert (bore_world_ok w') as Hw.
  { intros t p Hp. rewrite (Hz t p Hp). apply bore_ctx_ok_zero. }
  assert (same_links w' w) by (eapply walked_same_links; [|exact Hwalk]; done).
  rewrite <- acceptedb_spec. destruct acceptedb; naive_solver.
Qed.

(** C37: Unloading undoes loading: whatever the kernel answered to init (the
    thread walk visiting valid tasks), init ends with 0 and after
    [bore_sched_exit] no probe is attached, no sysctl table is registered and
    no proc entry is left. *)
Theorem bore_exit_clean T w :
  (∀ t, t ∈ process_threads (w_tasks w) → is_Some (w_tasks w !! t)) →
  ∃ m, bore_sched_init (bore_loaded T w) = Done (0, m) ∧
    clean (bm_state (bore_sched_exit m)).
Proof.
  intros Hts. destruct (bore_init_cases T w Hts) as (w' & _ & E).
  eexists. split; [exact E|]. unfold clean.
  destruct acceptedb; unfold bore_sched_exit, init_success, init_noop, do_proc_create,
    do_register_sysctl, bore_root_table;
    generalize bore_lut bore_proc_node bore_table; intros lut f table.
  - destruct proc_create, linux_6_4, register_sysctl, register_sysctl_table; solve_clean.
  - destruct proc_create; solve_clean.
Qed.
End facts.

(** A kernel without the fork hook. *)
Definition no_fork_env : ModuleEnv bore_hook :=
  sample_env (λ h, negb (bool_decide (h = HTaskFork))).

Lemma bore_init_all_or_nothing_witness :
  ∃ m, @bore_sched_init no_fork_env (bore_loaded default_tunables (sample_world 0)) = Done (0, m) ∧
    ms_hooks (bm_state m) = [] ∧ sched_bore (bm_tunables m) = 0.
Proof.
  destruct (@bore_init_all_or_nothing no_fork_env default_tunables (sample_world 0))
    as (m & H1 & _ & _ & _ & _ & _ & H2).
  - intros t. apply sample_env_visits.
  - exists m. split; [exact H1|].
    destruct H2 as (H2 & _ & _ & H3); [|split; [exact H2|exact H3]].
    intros Hacc. specialize (Hacc 4%nat HTaskFork eq_refl).
    vm_compute in Hacc. discriminate.
Defined.

Lemma bore_exit_clean_witness :
  ∃ m, @bore_sched_init no_fork_env (bore_loaded default_tunables (sample_world 0)) = Done (0, m) ∧
    clean (bm_state (@bore_sched_exit no_fork_env m)).
Proof.
  apply (@bore_exit_clean no_fork_env default_tunables (sample_world 0)).
  intros t. apply sample_env_visits.
Defined.
