(* ===== verification/Latency.v ===== *)
(** * The latency-nice module (latency_sched.h, latency_sched_main.c)

    Each task carries a latency-nice value and the wake-up offset computed from
    it; the wake-up and tick probes compare the offsets of two entities. *)

From S2P Require Import Prelude KMonad Kernel Hooks.

(** ** Data *)

Definition MAX_LATENCY_NICE : Z := 19.
Definition MIN_LATENCY_NICE : Z := -20.
Definition DEFAULT_LATENCY_NICE : Z := 0.
Definition LATENCY_NICE_WIDTH : Z := MAX_LATENCY_NICE - MIN_LATENCY_NICE + 1.
Definition DEFAULT_LATENCY_PRIO : Z := DEFAULT_LATENCY_NICE + Z.quot LATENCY_NICE_WIDTH 2.
Definition LATENCY_TO_NICE (prio : Z) : Z := prio - DEFAULT_LATENCY_PRIO.
Definition NICE_TO_LATENCY (nice : Z) : Z := nice + DEFAULT_LATENCY_PRIO.

(** The module parameters: [uint] and [long] (64 bits). *)
Record latency_params := LatencyParams {
  sched_latency_nice_enabled : Z;
  sched_latency_max : Z
}.

Definition DEFAULT_SCHED_LATENCY_MAX : Z := 24000000.

Definition default_latency_params : latency_params := LatencyParams 1 DEFAULT_SCHED_LATENCY_MAX.

(** [s32 latency_offset; s16 latency_nice; u16 flags], 8 bytes. *)
Record latency_sched_entity := LatencySE {
  latency_offset : Z;
  latency_nice : Z;
  l_flags : Z
}.

Definition latency_se_zero : latency_sched_entity := LatencySE 0 0 0.

Definition pack_latency (e : latency_sched_entity) : Z :=
  (((l_flags e <<. 16) |. u16 (latency_nice e)) <<. 32) |. u32 (latency_offset e).

(** The overlay: the first reserved word. *)
#[export] Instance latency_get_se : KabiView latency_sched_entity := {
  kv_ok e := in_s 32 (latency_offset e) ∧ in_s 16 (latency_nice e) ∧ in_u 16 (l_flags e);
  kv_load k := {|
    latency_offset := s32 (kw1 k);
    latency_nice := s16 (kw1 k >>. 32);
    l_flags := u16 (kw1 k >>. 48)
  |};
  kv_store e k := Kabi (pack_latency e) (kw2 k) (kw3 k) (kw4 k)
}.

(** ** Definitions *)

Definition latency_get_task (p : tid) : KM world latency_sched_entity :=
  load_view (SeTask p).

Section latency.
Context `{KernelHeaders} (L : latency_params).

Definition latency_task_is_eligible (p : task) : bool :=
  if negb (t_policy p =? SCHED_NORMAL) && negb (t_policy p =? SCHED_BATCH)
     && negb (t_policy p =? SCHED_IDLE)
  then false
  else if negb ((t_flags p &. PF_IDLE) =? 0) then false
  else true.

Definition calc_latency_offset (nice : Z) : Z :=
  s32 (Z.quot (s64 (sched_latency_max L * nice)) 20).

Definition nice_of_prio (static_prio : Z) : Z :=
  if static_prio <? 120 then MIN_LATENCY_NICE
  else if 120 <? static_prio then MAX_LATENCY_NICE
  else DEFAULT_LATENCY_NICE.

Definition update_task_latency_nice (p : task_ptr) : KM world unit :=
  match p with
  | None => mret tt
  | Some t =>
      tk ← read_task t;
      if negb (latency_task_is_eligible tk) then mret tt
      else
        lse ← latency_get_task t;
        let nice_val := nice_of_prio (t_static_prio tk) in
        store_view (SeTask t)
          (LatencySE (calc_latency_offset nice_val) nice_val (l_flags lse))
  end.

Definition wakeup_latency_gran (lcurr lse : latency_sched_entity) : Z :=
  let offset := latency_offset lse in
  let offset :=
    if (offset <? 0) || (latency_offset lcurr <? 0)
    then s64 (offset - latency_offset lcurr) else offset in
  if sched_latency_max L <? offset then sched_latency_max L
  else if offset <? s64 (- sched_latency_max L) then s64 (- sched_latency_max L)
  else offset.

(** [offset] is the pointee of the out parameter, [None] for NULL. *)
Definition probe_latency_wakeup_offset (curr se : option se_ref) (offset : option Z) :
    KM world (option Z) :=
  match curr, se, offset with
  | Some c, Some e, Some _ =>
      if sched_latency_nice_enabled L =? 0 then mret offset
      else
        lcurr ← load_view c;
        lse ← load_view e;
        mret (Some (wakeup_latency_gran lcurr lse))
  | _, _, _ => mret offset
  end.

Definition probe_latency_tick_offset (curr se : option se_ref) (offset : option Z) :
    KM world (option Z) :=
  match curr, se, offset with
  | Some c, Some e, Some _ =>
      if sched_latency_nice_enabled L =? 0 then mret offset
      else
        lcurr ← load_view c;
        lse ← load_view e;
        mret (Some (wakeup_latency_gran lcurr lse))
  | _, _, _ => mret offset
  end.

Definition probe_latency_init_entity (se : option se_ref) : KM world unit :=
  match se with
  | None => mret tt
  | Some r => store_view r latency_se_zero
  end.

Definition probe_latency_set_user_nice (p : task_ptr) : KM world unit :=
  if sched_latency_nice_enabled L =? 0 then mret tt
  else update_task_latency_nice p.
End latency.

(** ** Proofs *)

Lemma pack_latency_value e :
  kv_ok e →
  pack_latency e
  = l_flags e * 2 ^ 48 + u16 (latency_nice e) * 2 ^ 32 + u32 (latency_offset e).
Proof.
  intros (_ & _ & Hf). unfold pack_latency.
  rewrite !lor_shiftl_add by (lia || (apply Z.mod_pos_bound; lia)).
  change (2 ^ 48) with (2 ^ 16 * 2 ^ 32). lia.
Qed.

#[export] Instance latency_view_laws : KabiViewLaws latency_sched_entity.
Proof.
  split.
  - intros k _. split_and!; [by apply wraps_range..|by apply wrapu_range].
  - intros e k He (? & Hk2 & Hk3 & Hk4). split_and!; try done. cbn [kv_store latency_get_se kw1].
    rewrite pack_latency_value by done. destruct He as (_ & _ & Hf).
    pose proof (wrapu_range 16 (latency_nice e)). pose proof (wrapu_range 32 (latency_offset e)).
    unfold in_u in *. pow2_norm. lia.
  - intros e k He. cbn [kv_load kv_store latency_get_se kw1].
    rewrite !Z.shiftr_div_pow2, pack_latency_value by (done || lia).
    destruct He as (Ho & Hn & Hf), e as [o n f]; cbn [latency_offset latency_nice l_flags] in *.
    f_equal; clia.
  - intros [w1 w2 w3 w4] (H1 & _). cbn [kv_load kv_store latency_get_se kw1 kw2 kw3 kw4] in *.
    rewrite pack_latency_value
      by (split_and!; [by apply wraps_range..|by apply wrapu_range]).
    cbn [latency_offset latency_nice l_flags]. rewrite !Z.shiftr_div_pow2 by lia.
    f_equal. clia.
  - done.
Qed.

Section facts.
Context `{KernelHeaders}.
Implicit Types L : latency_params.

(** The clamp values for which no [long] or [s32] computation of the module
    wraps. *)
Definition latency_max_ok L : Prop := 0 <= sched_latency_max L < 2 ^ 31.

Definition lat_of (p : task) : latency_sched_entity := view_of p.

Lemma calc_latency_offset_value L nice :
  latency_max_ok L → MIN_LATENCY_NICE <= nice <= MAX_LATENCY_NICE →
  calc_latency_offset L nice = Z.quot (sched_latency_max L * nice) 20 ∧
  - sched_latency_max L <= calc_latency_offset L nice <= sched_latency_max L.
Proof.
  unfold latency_max_ok, MIN_LATENCY_NICE, MAX_LATENCY_NICE, calc_latency_offset.
  intros HL Hn. set (m := sched_latency_max L) in *. clearbody m.
  change (2 ^ 31) with 2147483648 in HL.
  assert (- (m * 20) <= m * nice <= m * 19) by nia.
  rewrite (wraps_small 64) by (unfold in_s; pow2_norm; lia).
  set (x := m * nice) in *. clearbody x.
  assert (- m <= Z.quot x 20 <= m) by clia.
  rewrite wraps_small by (unfold in_s; pow2_norm; lia). done.
Qed.

(** The granularity in plain arithmetic. *)
Definition gran_spec L (lcurr lse : latency_sched_entity) : Z :=
  Z.max (- sched_latency_max L) (Z.min (sched_latency_max L)
    (if (latency_offset lse <? 0) || (latency_offset lcurr <? 0)
     then latency_offset lse - latency_offset lcurr else latency_offset lse)).

Lemma wakeup_latency_gran_value L lcurr lse :
  latency_max_ok L → kv_ok lcurr → kv_ok lse →
  wakeup_latency_gran L lcurr lse = gran_spec L lcurr lse.
Proof.
  intros HL (Hc & _) (He & _). unfold latency_max_ok in HL.
  unfold wakeup_latency_gran, gran_spec, in_s in *. pow2_norm.
  set (m := sched_latency_max L) in *. set (a := latency_offset lse) in *.
  set (b := latency_offset lcurr) in *. clearbody m a b.
  rewrite (wraps_small 64 (- m)) by (unfold in_s; pow2_norm; lia).
  rewrite (wraps_small 64 (a - b)) by (unfold in_s; pow2_norm; lia).
  set (x := if (a <? 0) || (b <? 0) then a - b else a). clearbody x.
  destruct (Z.ltb_spec m x); [lia|]. destruct (Z.ltb_spec x (- m)); lia.
Qed.

Definition new_entity L (p : task) : latency_sched_entity :=
  LatencySE (calc_latency_offset L (nice_of_prio (t_static_prio p)))
    (nice_of_prio (t_static_prio p)) (l_flags (lat_of p)).

Lemma load_lat_run w t p :
  w_tasks w !! t = Some p →
  load_view (SeTask t) w = Done (lat_of p, w).
Proof. apply load_view_run. Qed.

Lemma latency_get_task_run w t p :
  w_tasks w !! t = Some p → latency_get_task t w = Done (lat_of p, w).
Proof. apply load_view_run. Qed.

Lemma update_task_run L w t p :
  w_tasks w !! t = Some p →
  update_task_latency_nice L (Some t) w
  = Done (tt, if latency_task_is_eligible p
              then put_view t (new_entity L p) w else w).
Proof.
  intros Hp. unfold update_task_latency_nice. krun (read_task_run w t p Hp).
  destruct (latency_task_is_eligible p); [|done]. cbn [negb].
  krun (latency_get_task_run w t p Hp). by eapply store_view_run.
Qed.

Lemma nice_of_prio_range prio :
  MIN_LATENCY_NICE <= nice_of_prio prio <= MAX_LATENCY_NICE.
Proof.
  unfold nice_of_prio, MIN_LATENCY_NICE, MAX_LATENCY_NICE, DEFAULT_LATENCY_NICE.
  repeat case_match; lia.
Qed.

Lemma new_entity_ok L p : in_u 16 (l_flags (lat_of p)) → kv_ok (new_entity L p).
Proof.
  intros Hf. pose proof (nice_of_prio_range (t_static_prio p)) as Hn.
  unfold MIN_LATENCY_NICE, MAX_LATENCY_NICE in Hn.
  split_and!; cbn; [by apply wraps_range|unfold in_s; pow2_norm; lia|apply Hf].
Qed.

Lemma l_flags_range p : in_u 16 (l_flags (lat_of p)).
Proof. by apply wrapu_range. Qed.

Lemma lat_of_put e p :
  kv_ok e → lat_of (task_set_kabi (kv_store e (se_kabi (t_se p))) p) = e.
Proof. intros He. by apply (kv_load_store (A:=latency_sched_entity)). Qed.

(** The offset by class of static priority. *)
Definition class_offset L (prio : Z) : Z :=
  if prio <? 120 then - sched_latency_max L
  else if 120 <? prio then Z.quot (sched_latency_max L * 19) 20
  else 0.

Lemma calc_latency_offset_class L prio :
  latency_max_ok L →
  calc_latency_offset L (nice_of_prio prio) = class_offset L prio.
Proof.
  intros HL. destruct (calc_latency_offset_value L _ HL (nice_of_prio_range prio)) as [-> _].
  unfold nice_of_prio, class_offset, MIN_LATENCY_NICE, MAX_LATENCY_NICE, DEFAULT_LATENCY_NICE.
  destruct (_ <? _); [|destruct (_ <? _); [done|by rewrite Z.mul_0_r]].
  replace (sched_latency_max L * -20) with (- sched_latency_max L * 20) by lia.
  by apply Z.quot_mul.
Qed.

(** ** Properties *)

(** [wakeup_latency_gran] never exceeds the configured bound in either
    direction and computes without overflow the clamped offset of the entity,
    relative to the running one when either is negative; in that case swapping
    the entities negates it. *)
Theorem wakeup_latency_gran_correct L lcurr lse :
  latency_max_ok L → kv_ok lcurr → kv_ok lse →
  wakeup_latency_gran L lcurr lse = gran_spec L lcurr lse ∧
  - sched_latency_max L <= wakeup_latency_gran L lcurr lse <= sched_latency_max L ∧
  (latency_offset lcurr < 0 ∨ latency_offset lse < 0 →
   wakeup_latency_gran L lse lcurr = - wakeup_latency_gran L lcurr lse).
Proof.
  intros HL Hc He. rewrite !wakeup_latency_gran_value by done.
  unfold gran_spec, latency_max_ok in *. split; [done|].
  set (m := sched_latency_max L) in *. set (a := latency_offset lse) in *.
  set (b := latency_offset lcurr) in *. clearbody m a b. split; [lia|].
  intros Hneg.
  destruct (Z.ltb_spec a 0), (Z.ltb_spec b 0); cbn [orb]; lia.
Qed.

Lemma wakeup_latency_gran_correct_witness :
  - 24000000 <= wakeup_latency_gran default_latency_params
                 (LatencySE 22800000 19 0) (LatencySE (-24000000) (-20) 0) <= 24000000 ∧
  wakeup_latency_gran default_latency_params
    (LatencySE (-24000000) (-20) 0) (LatencySE 22800000 19 0)
  = - wakeup_latency_gran default_latency_params
      (LatencySE 22800000 19 0) (LatencySE (-24000000) (-20) 0).
Proof.
  destruct (wakeup_latency_gran_correct default_latency_params
    (LatencySE 22800000 19 0) (LatencySE (-24000000) (-20) 0)) as (_ & H1 & H2).
  - split; vm_compute; congruence.
  - repeat split; vm_compute; congruence.
  - repeat split; vm_compute; congruence.
  - split; [exact H1|]. apply H2. right. reflexivity.
Defined.

(** C35: [probe_latency_set_user_nice] then [probe_latency_wakeup_offset].
    After both tasks were reniced with the module enabled, the offset the
    wake-up probe reports depends only on which side of the default priority
    120 each task is: a task above it ([static_prio < 120]) waking against one
    that is not gets the full negative bound, the opposite the full positive
    bound, two of them 0, and otherwise the waking task's own offset counts. *)
Theorem wakeup_after_renice L w c e pc pe old :
  latency_max_ok L → sched_latency_nice_enabled L ≠ 0 → c ≠ e →
  w_tasks w !! c = Some pc → w_tasks w !! e = Some pe →
  latency_task_is_eligible pc = true → latency_task_is_eligible pe = true →
  (_ ← probe_latency_set_user_nice L (Some c);
   _ ← probe_latency_set_user_nice L (Some e);
   probe_latency_wakeup_offset L (Some (SeTask c)) (Some (SeTask e)) (Some old)) w
  = Done (Some (if t_static_prio pe <? 120
                then (if t_static_prio pc <? 120 then 0 else - sched_latency_max L)
                else if t_static_prio pc <? 120 then sched_latency_max L
                else class_offset L (t_static_prio pe)),
          put_view e (new_entity L pe) (put_view c (new_entity L pc) w)).
Proof.
  intros HL Hen Hne Hc He Helc Hele.
  assert (w_tasks (put_view c (new_entity L pc) w) !! e = Some pe) as He'
    by (by rewrite put_view_lookup_ne).
  pose proof (put_view_lookup_eq e (new_entity L pe) _ pe He') as He2.
  assert (w_tasks (put_view e (new_entity L pe) (put_view c (new_entity L pc) w)) !! c
          = Some (task_set_kabi (kv_store (new_entity L pc) (se_kabi (t_se pc))) pc)) as Hc2
    by (rewrite put_view_lookup_ne by done; by apply put_view_lookup_eq).
  pose proof (new_entity_ok L pc (l_flags_range pc)) as Hokc.
  pose proof (new_entity_ok L pe (l_flags_range pe)) as Hoke.
  unfold probe_latency_set_user_nice, probe_latency_wakeup_offset.
  destruct (Z.eqb_spec (sched_latency_nice_enabled L) 0); [done|].
  krun (update_task_run L w c pc Hc). rewrite Helc.
  krun (update_task_run L _ e pe He'). rewrite Hele.
  krun (load_lat_run _ c _ Hc2). krun (load_lat_run _ e _ He2).
  rewrite !lat_of_put by done. rewrite wakeup_latency_gran_value by done.
  unfold gran_spec, new_entity. cbn [latency_offset].
  rewrite !calc_latency_offset_class by done.
  unfold mret, km_ret. do 3 f_equal. unfold latency_max_ok, class_offset in *.
  set (m := sched_latency_max L) in *. clearbody m.
  change (2 ^ 31) with 2147483648 in HL.
  assert (0 <= Z.quot (m * 19) 20 <= m) as Hq by clia.
  set (q := Z.quot (m * 19) 20) in *. clearbody q.
  destruct (Z.ltb_spec (t_static_prio pe) 120), (Z.ltb_spec (t_static_prio pc) 120),
    (Z.ltb_spec 120 (t_static_prio pe)), (Z.ltb_spec 120 (t_static_prio pc)),
    (Z.ltb_spec (- m) 0), (Z.ltb_spec q 0), (Z.ltb_spec 0 0); cbn [orb]; lia.
Qed.
End facts.
