(* ===== verification/LatencyModule.v ===== *)
(** * Loading the latency-nice module (latency_sched_main.c, lines 112 to 253) *)

From S2P Require Import Prelude KMonad Kernel BoreMath BoreCtx BoreInherit SampleWorld FileOps Hooks Latency.

Inductive latency_hook :=
  | LWakeupOffset | LTickOffset | LInitEntity | LSetUserNice.

#[export] Instance latency_hook_eq_dec : EqDecision latency_hook.
Proof. solve_decision. Defined.

Definition latency_hooks : list latency_hook :=
  [LWakeupOffset; LTickOffset; LInitEntity; LSetUserNice].

Record latency_module := LatencyModule {
  lm_state : module_state latency_hook;
  lm_params : latency_params
}.

Definition lm_map (f : module_state latency_hook → module_state latency_hook)
    (m : latency_module) : latency_module :=
  LatencyModule (f (lm_state m)) (lm_params m).

(** ** Definitions *)

Definition latency_table : list ctl_entry :=
  [CtlEntry "sched_latency_nice_enabled" "sched_latency_nice_enabled" 4 420
     ProcDointvecMinmax None None;
   CtlEntry "sched_latency_max" "sched_latency_max" 8 420 ProcDoulongvecMinmax None None].

(** Before Linux 6.4; mode 0555. *)
Definition latency_root_table : list ctl_root := [CtlRoot "kernel" 365 latency_table].

Definition latency_proc_show (m : latency_module) : list string :=
  "CFS Latency-Nice Scheduler Module (CachyOS / Vincent Guittot)" ::
  (if negb (ms_active (lm_state m)) then
     ["status:                      disabled (kernel hooks not present / no-op mode)"]
   else
     ["sched_latency_nice_enabled:  " +:+ fmt_int (sched_latency_nice_enabled (lm_params m));
      "sched_latency_max:           " +:+ fmt_int (sched_latency_max (lm_params m)) +:+ " ns"]).

Section latency_module.
Context `{KernelHeaders} `{ModuleEnv latency_hook}.

(** [latency_proc_open] gives [latency_proc_show] to [single_open]. *)
Definition latency_proc_open : seq_show := ShowLatency.

Definition latency_proc_fops : proc_ops Empty_set :=
  if linux_5_6
  then ProcOps StructProcOps false (Some latency_proc_open) seq_read None (Some SeqLseek)
         single_release
  else ProcOps StructFileOperations false (Some latency_proc_open) seq_read None (Some SeqLseek)
         single_release.

(** Mode 0444. *)
Definition latency_proc_node : proc_node Empty_set :=
  ProcNode "latency_sched" 292 latency_proc_fops.

Definition init_latency_tasks (L : latency_params) : KM world unit :=
  rcu_read_lock ;;
  _ ← for_each_process_thread (λ t, update_task_latency_nice L (Some t));
  rcu_read_unlock.

Definition l_fail_hooks (m : latency_module) : Z * latency_module :=
  (0, LatencyModule (do_proc_create latency_proc_node (set_active false (lm_state m)))
        (LatencyParams 0 (sched_latency_max (lm_params m)))).

Definition l_fail_tick (m : latency_module) : Z * latency_module :=
  l_fail_hooks (lm_map (do_unregister LWakeupOffset) m).

Definition l_fail_init_entity (m : latency_module) : Z * latency_module :=
  l_fail_tick (lm_map (do_unregister LTickOffset) m).

Definition l_fail_user_nice (m : latency_module) : Z * latency_module :=
  l_fail_init_entity (lm_map (do_unregister LInitEntity) m).

Definition l_try_register (h : latency_hook)
    (fail k : latency_module → Z * latency_module) (m : latency_module) :
    Z * latency_module :=
  let '(ret, s) := do_register h (lm_state m) in
  let m := lm_map (λ _, s) m in
  if negb (ret =? 0) then fail m else k m.

(** The result is the return value and the module's data; the world is the
    state. *)
Definition latency_sched_init (m : latency_module) : KM world (Z * latency_module) :=
  _ ← init_latency_tasks (lm_params m);
  mret (
    (l_try_register LWakeupOffset l_fail_hooks
    (l_try_register LTickOffset l_fail_tick
    (l_try_register LInitEntity l_fail_init_entity
    (l_try_register LSetUserNice l_fail_user_nice
    (λ m, (0, lm_map (λ s, do_proc_create latency_proc_node (do_register_sysctl latency_table latency_root_table (set_active true s))) m))
    )))) m).

Definition latency_sched_exit (m : latency_module) : latency_module :=
  let m := if ms_proc_entry (lm_state m) then lm_map (do_proc_remove latency_proc_node) m else m in
  if negb (ms_active (lm_state m)) then m
  else
    let m := if ms_sysctl_header (lm_state m) then lm_map (do_unregister_sysctl latency_table) m else m in
    let m := lm_map (do_unregister LSetUserNice) m in
    let m := lm_map (do_unregister LInitEntity) m in
    let m := lm_map (do_unregister LTickOffset) m in
    lm_map (do_unregister LWakeupOffset) m.
End latency_module.

(** ** Proofs *)

Section facts.
Context `{KernelHeaders} `{ModuleEnv latency_hook}.

Definition latency_loaded (L : latency_params) : latency_module :=
  LatencyModule module_loaded L.

Definition l_success (L : latency_params) : latency_module :=
  LatencyModule
    (do_proc_create latency_proc_node (do_register_sysctl latency_table latency_root_table (set_active true
       (ModuleState latency_hooks [] [] false false false)))) L.

Definition l_noop (L : latency_params) : latency_module :=
  LatencyModule (do_proc_create latency_proc_node module_loaded) (LatencyParams 0 (sched_latency_max L)).

Definition l_acceptedb : bool :=
  forallb (λ i, match latency_hooks !! i with
                | Some h => register_trace h (take i latency_hooks) =? 0
                | None => true
                end) (seq 0 4).

Lemma l_acceptedb_spec : l_acceptedb = true ↔ all_accepted latency_hooks.
Proof.
  unfold l_acceptedb, all_accepted. rewrite forallb_forall. split.
  - intros Hall i h Hi. pose proof (lookup_lt_Some _ _ _ Hi) as Hlt. cbn in Hlt.
    specialize (Hall i ltac:(apply in_seq; lia)). rewrite Hi in Hall.
    by apply Z.eqb_eq in Hall.
  - intros Hall i _. destruct (latency_hooks !! i) as [h|] eqn:Hi; [|done].
    apply Z.eqb_eq. by apply Hall.
Qed.

Lemma l_try_register_run h fail k L (s : module_state latency_hook) :
  l_try_register h fail k (LatencyModule s L)
  = if register_trace h (ms_hooks s) =? 0
    then k (LatencyModule (ModuleState (ms_hooks s ++ [h]) (ms_sysctl s) (ms_proc s)
              (ms_active s) (ms_sysctl_header s) (ms_proc_entry s)) L)
    else fail (LatencyModule s L).
Proof.
  unfold l_try_register, do_register. cbn [lm_state].
  by destruct (register_trace h (ms_hooks s) =? 0).
Qed.

(** A thread after the walk: an eligible one has a new entity. *)
Definition renewed L (p : task) : task :=
  if latency_task_is_eligible p
  then task_set_kabi (kv_store (new_entity L p) (se_kabi (t_se p))) p else p.

Lemma renewed_eligible L p :
  latency_task_is_eligible (renewed L p) = latency_task_is_eligible p.
Proof. unfold renewed. by destruct (latency_task_is_eligible p) eqn:E. Qed.

Lemma renewed_entity L p :
  latency_task_is_eligible p = true → lat_of (renewed L p) = new_entity L p.
Proof.
  intros E. unfold renewed. rewrite E. apply lat_of_put, new_entity_ok, l_flags_range.
Qed.

Lemma renewed_idem L p : renewed L (renewed L p) = renewed L p.
Proof.
  unfold renewed at 1. rewrite renewed_eligible.
  destruct (latency_task_is_eligible p) eqn:E; [|done].
  assert (new_entity L (renewed L p) = new_entity L p) as ->.
  { unfold new_entity at 1. rewrite (renewed_entity L p E). unfold renewed. by rewrite E. }
  unfold renewed. rewrite E. unfold task_set_kabi, set_kabi. cbn -[kv_store].
  by rewrite kv_store_store by apply new_entity_ok, l_flags_range.
Qed.

Lemma with_tasks_same w : with_tasks (w_tasks w) w = w.
Proof. by destruct w. Qed.

Lemma init_latency_tasks_run L w :
  (∀ t, t ∈ process_threads (w_tasks w) → is_Some (w_tasks w !! t)) →
  ∃ w', init_latency_tasks L w = Done (tt, w') ∧
    walked (renewed L) (process_threads (w_tasks w)) w w'.
Proof.
  apply walk_threads_run; [|apply renewed_idem]. intros w0 t p Hp.
  rewrite (update_task_run L w0 t p Hp). unfold renewed.
  destruct (latency_task_is_eligible p).
  - unfold put_view. by rewrite Hp.
  - by rewrite insert_id, with_tasks_same.
Qed.

Lemma renewed_bare L p : bare (renewed L p) = bare p.
Proof. unfold renewed. by destruct (latency_task_is_eligible p). Qed.

Lemma l_init_cases L w w' :
  init_latency_tasks L w = Done (tt, w') →
  latency_sched_init (latency_loaded L) w
  = Done ((0, if l_acceptedb then l_success L else l_noop L), w').
Proof.
  intros Hrun. unfold latency_sched_init, latency_loaded, l_success, l_noop.
  krun Hrun. unfold l_acceptedb.
  cbn [forallb seq lookup list_lookup latency_hooks take].
  do 4 (rewrite l_try_register_run; cbn [lm_state ms_hooks module_loaded lm_map app];
        destruct (register_trace _ _ =? 0); [|reflexivity]).
  reflexivity.
Qed.

(** ** Properties *)

(** C34: Loading and unloading the latency-nice module.  When the thread walk
    visits valid tasks, init runs and returns 0; every visited task that is
    eligible then has the nice value of its static priority, the offset of this
    nice value and the flags it had, and every other task is as it was, as are
    links and RCU nesting.  Init attaches all four probes and stays enabled,
    or, when the kernel refuses one, none, and disables itself; exit then
    removes every probe, the sysctl table and the proc entry. *)
Theorem latency_init_exit L w :
  (∀ t, t ∈ process_threads (w_tasks w) → is_Some (w_tasks w !! t)) →
  ∃ m w', latency_sched_init (latency_loaded L) w = Done ((0, m), w') ∧
    same_links w' w ∧
    (∀ t p, w_tasks w !! t = Some p →
       if decide (t ∈ process_threads (w_tasks w) ∧ latency_task_is_eligible p = true)
       then ∃ p', w_tasks w' !! t = Some p' ∧ lat_of p' =
              LatencySE (calc_latency_offset L (nice_of_prio (t_static_prio p)))
                (nice_of_prio (t_static_prio p)) (l_flags (lat_of p))
       else w_tasks w' !! t = Some p) ∧
    (all_accepted latency_hooks →
       ms_hooks (lm_state m) = latency_hooks ∧ ms_active (lm_state m) = true ∧
       lm_params m = L) ∧
    (¬ all_accepted latency_hooks →
       ms_hooks (lm_state m) = [] ∧ ms_active (lm_state m) = false ∧
       sched_latency_nice_enabled (lm_params m) = 0) ∧
    clean (lm_state (latency_sched_exit m)).
Proof.
  intros Hts. destruct (init_latency_tasks_run L w Hts) as (w' & Hrun & Hwalk).
  eexists _, w'. split; [by apply l_init_cases|].
  split; [eapply walked_same_links; [apply renewed_bare|exact Hwalk]|]. split.
  { intros t p Hp. destruct Hwalk as (Hwalk & _). specialize (Hwalk t). rewrite Hp in Hwalk.
    destruct (decide (t ∈ process_threads (w_tasks w) ∧ _)) as [[Hin He]|Hno].
    - rewrite decide_True in Hwalk by done. exists (renewed L p). split; [done|].
      by apply renewed_entity.
    - rewrite Hwalk. case_decide as Hin; [|done]. cbn. f_equal. unfold renewed.
      destruct (latency_task_is_eligible p); [by destruct Hno|done]. }
  rewrite <- l_acceptedb_spec. destruct l_acceptedb.
  - do 2 (split; [naive_solver|]).
    unfold clean, latency_sched_exit, l_success, do_proc_create, do_register_sysctl,
      latency_root_table. generalize latency_proc_node latency_table. intros f table.
    destruct proc_create, linux_6_4, register_sysctl, register_sysctl_table; solve_clean.
  - do 2 (split; [naive_solver|]).
    unfold clean, latency_sched_exit, l_noop, do_proc_create. generalize latency_proc_node. intros f.
    destruct proc_create; solve_clean.
Qed.
End facts.

(** ** Instances *)

#[local] Existing Instance linux_headers.

Definition all_hooks_env : ModuleEnv latency_hook := sample_env (λ _, true).

Lemma latency_init_exit_witness :
  ∃ m w', @latency_sched_init _ all_hooks_env (latency_loaded default_latency_params)
            (sample_world 0) = Done ((0, m), w') ∧
    ms_hooks (lm_state m) = latency_hooks ∧
    clean (lm_state (@latency_sched_exit all_hooks_env m)).
Proof.
  destruct (@latency_init_exit _ all_hooks_env default_latency_params (sample_world 0))
    as (m & w' & H1 & _ & _ & H2 & _ & H3).
  - intros t. apply sample_env_visits.
  - exists m, w'. split; [exact H1|]. split; [|exact H3]. apply H2.
    intros i h _. reflexivity.
Defined.

Lemma wakeup_after_renice_witness :
  ∃ w', (_ ← probe_latency_set_user_nice default_latency_params (Some 4%positive);
         _ ← probe_latency_set_user_nice default_latency_params (Some 5%positive);
         probe_latency_wakeup_offset default_latency_params (Some (SeTask 4%positive))
           (Some (SeTask 5%positive)) (Some 7)) (sample_world 0)
        = Done (Some 22800000, w').
Proof.
  eexists. refine (eq_trans (wakeup_after_renice default_latency_params (sample_world 0)
    4%positive 5%positive _ _ 7 _ _ _ eq_refl eq_refl _ _) _).
  - split; vm_compute; congruence.
  - vm_compute. congruence.
  - congruence.
  - reflexivity.
  - reflexivity.
  - reflexivity.
Defined.
