(* ===== verification/Sharing.v ===== *)
(** * Two modules on the same reserved words

    [bore_get_ctx_se] and [latency_get_se] both start at
    [android_kabi_reserved1], and nothing in the build keeps the two modules
    from being loaded together: the latency entity is the first word of the
    BORE context, its [burst_time]. *)

From S2P Require Import Prelude KMonad Kernel BoreMath BoreCtx BoreInherit SampleWorld BoreProbes Hooks Latency.

Definition set_burst_time (v : Z) (c : bore_ctx) : bore_ctx :=
  set_burst v (curr_penalty c) c.

Section sharing.
Context `{KernelHeaders}.

(** What BORE sees of a task after a write through the latency view. *)
Lemma ctx_of_latency_put e p :
  ctx_of (task_set_kabi (kv_store (A:=latency_sched_entity) e (se_kabi (t_se p))) p)
  = set_burst_time (pack_latency e) (ctx_of p).
Proof. reflexivity. Qed.

(** What the latency module sees of a task after a write of BORE. *)
Lemma lat_of_bore_put c p :
  lat_of (task_set_kabi (kv_store (A:=bore_ctx) c (se_kabi (t_se p))) p)
  = LatencySE (s32 (burst_time c)) (s16 (burst_time c >>. 32)) (u16 (burst_time c >>. 48)).
Proof. reflexivity. Qed.

Lemma pack_latency_range e : kv_ok e → in_u 64 (pack_latency e).
Proof.
  intros He. rewrite pack_latency_value by done. destruct He as (_ & _ & Hf).
  pose proof (wrapu_range 16 (latency_nice e)). pose proof (wrapu_range 32 (latency_offset e)).
  unfold in_u in *. pow2_norm. lia.
Qed.

Lemma pack_latency_ge e :
  kv_ok e → 0 <= latency_nice e → latency_nice e * 2 ^ 32 <= pack_latency e.
Proof.
  intros He Hn. rewrite pack_latency_value by done. destruct He as (_ & Hs & Hf).
  pose proof (wrapu_range 32 (latency_offset e)).
  rewrite (wrapu_small 16 (latency_nice e)) by (unfold in_u, in_s in *; pow2_norm; lia).
  unfold in_u in *. pow2_norm. lia.
Qed.

(** A write of the module changes one word of a task, the burst time of its
    BORE context, or a word of a group. *)
Lemma latency_put_ok w t e p :
  bore_world_ok w → w_tasks w !! t = Some p → kv_ok e →
  bore_world_ok (put_view t (e : latency_sched_entity) w).
Proof.
  intros Hw Hp He t' q. destruct (decide (t = t')) as [<-|Hne].
  - rewrite (put_view_lookup_eq t e w p Hp). intros Hq%(inj Some). subst q.
    rewrite ctx_of_latency_put. pose proof (Hw t p Hp) as ((_ & _ & [? _] & _) & _ & ? & _).
    apply set_burst_ok; [by apply pack_latency_range|lia|by eapply Hw].
  - rewrite put_view_lookup_ne by done. apply Hw.
Qed.

Lemma renice_world_ok L w t p :
  bore_world_ok w → w_tasks w !! t = Some p →
  bore_world_ok (put_view t (new_entity L p) w).
Proof. intros Hw Hp. by eapply latency_put_ok, new_entity_ok, l_flags_range. Qed.

Lemma update_curr_charges T p d c :
  burst_time (fst (update_curr_ctx T p d c None)) = u64 (burst_time c + d) ∧
  curr_penalty (fst (update_curr_ctx T p d c None))
  = calc_burst_penalty T (u64 (burst_time c + d)) ∧
  snd (update_curr_ctx T p d c None) = None.
Proof.
  unfold update_curr_ctx. destruct (_ <=? _); [done|].
  rewrite update_penalty_prio. by destruct (_ =? _).
Qed.

Lemma default_penalty_81s bt :
  19 * 2 ^ 32 <= bt < 2 ^ 64 → 5064 <= calc_burst_penalty default_tunables bt.
Proof.
  intros Hbt. change 5064 with (calc_burst_penalty default_tunables (19 * 2 ^ 32)).
  apply calc_burst_penalty_le; [repeat split; vm_compute; congruence|lia|lia].
Qed.

(** Writes of the latency-nice module to a task change nothing of its
    BORE context but the burst time: the penalties, the flags and the caches
    stay, and a world in which BORE is safe stays so. *)
Theorem latency_renice_keeps_bore_safe L w t p :
  bore_world_ok w → w_tasks w !! t = Some p →
  ∃ w' p', probe_latency_set_user_nice L (Some t) w = Done (tt, w') ∧
    bore_world_ok w' ∧ same_links w' w ∧ w_tasks w' !! t = Some p' ∧
    prev_penalty (ctx_of p') = prev_penalty (ctx_of p) ∧
    curr_penalty (ctx_of p') = curr_penalty (ctx_of p) ∧
    penalty (ctx_of p') = penalty (ctx_of p) ∧
    stop_update (ctx_of p') = stop_update (ctx_of p) ∧
    subtree (ctx_of p') = subtree (ctx_of p) ∧ group (ctx_of p') = group (ctx_of p).
Proof.
  intros Hw Hp. unfold probe_latency_set_user_nice.
  destruct (sched_latency_nice_enabled L =? 0); [by exists w, p|].
  pose proof (update_task_run L w t p Hp) as Hrun.
  destruct (latency_task_is_eligible p); [|by exists w, p].
  pose proof (put_view_lookup_eq t (new_entity L p) w p Hp) as Hp'.
  pose proof (ctx_of_latency_put (new_entity L p) p) as Hctx.
  set (w' := put_view t (new_entity L p) w) in *.
  set (p' := task_set_kabi (kv_store (new_entity L p) (se_kabi (t_se p))) p) in *.
  exists w', p'. split; [done|]. split; [by apply renice_world_ok|].
  split; [apply put_view_same_links|]. split; [done|]. by rewrite Hctx.
Qed.

(** C24: With both modules loaded each corrupts the other.  Renicing a task
    to [static_prio > 120] overwrites whatever burst time BORE had with at
    least [19 * 2^32] ns (81 seconds), so that the next tick of any length
    gives a task that may never have run a current penalty of at least 5064,
    19 nice levels; and a tick charged by BORE replaces the latency offset of
    the task with the low 32 bits of its burst time. *)
Theorem shared_words_conflict L w t p d :
  bore_world_ok w → w_tasks w !! t = Some p →
  sched_latency_nice_enabled L ≠ 0 → latency_task_is_eligible p = true →
  120 < t_static_prio p → stop_update (ctx_of p) = 0 → 0 <= d < 2 ^ 32 →
  ∃ w1 p1 w2 p2,
    probe_latency_set_user_nice L (Some t) w = Done (tt, w1) ∧
    w_tasks w1 !! t = Some p1 ∧ 19 * 2 ^ 32 <= burst_time (ctx_of p1) ∧
    (burst_time (ctx_of p1) + d < 2 ^ 64 →
     probe_bore_update_curr default_tunables (Some t) d None w1 = Done (None, w2) ∧
     w_tasks w2 !! t = Some p2 ∧ 5064 <= curr_penalty (ctx_of p2) ∧
     latency_offset (lat_of p2) = s32 (burst_time (ctx_of p1) + d)).
Proof.
  intros Hw Hp Hen Hel Hprio Hstop Hd.
  pose proof (update_task_run L w t p Hp) as Hrun. rewrite Hel in Hrun.
  pose proof (put_view_lookup_eq t (new_entity L p) w p Hp) as Hp1.
  pose proof (ctx_of_latency_put (new_entity L p) p) as Hctx.
  pose proof (new_entity_ok L p (l_flags_range p)) as Hek.
  pose proof (renice_world_ok L w t p Hw Hp) as Hw1.
  set (w1 := put_view t (new_entity L p) w) in *.
  set (p1 := task_set_kabi (kv_store (new_entity L p) (se_kabi (t_se p))) p) in *.
  destruct (update_curr_charges default_tunables p1 d (ctx_of p1)) as (Hbt & Hcur & Hnone).
  pose proof (update_curr_ctx_ok default_tunables p1 d (ctx_of p1) None (Hw1 t p1 Hp1))
    as [Htyp _].
  assert (19 * 2 ^ 32 <= burst_time (ctx_of p1)) as Hge.
  { rewrite Hctx. assert (latency_nice (new_entity L p) = 19) as Hn.
    { cbn. unfold nice_of_prio. destruct (Z.ltb_spec (t_static_prio p) 120); [lia|].
      by destruct (Z.ltb_spec 120 (t_static_prio p)); [|lia]. }
    rewrite <- Hn. apply pack_latency_ge; [done|]. by rewrite Hn. }
  assert (stop_update (ctx_of p1) = 0) as Hstop1 by (rewrite Hctx; exact Hstop).
  pose proof (update_curr_run default_tunables w1 t p1 d None Hp1 Hw1 ltac:(done) Hstop1)
    as Hrun1.
  set (c2 := fst (update_curr_ctx default_tunables p1 d (ctx_of p1) None)) in *.
  rewrite Hnone in Hrun1.
  exists w1, p1, (put_view t c2 w1), (task_set_kabi (kv_store c2 (se_kabi (t_se p1))) p1).
  split; [|split; [exact Hp1|split; [exact Hge|]]].
  { unfold probe_latency_set_user_nice.
    by destruct (Z.eqb_spec (sched_latency_nice_enabled L) 0). }
  intros Hlt. rewrite (wrapu_small 64) in Hbt, Hcur by (split; lia).
  split; [exact Hrun1|]. split; [exact (put_view_lookup_eq t c2 w1 p1 Hp1)|].
  rewrite (ctx_of_put c2 p1 Htyp), lat_of_bore_put, Hcur, Hbt.
  split; [|done]. apply default_penalty_81s. lia.
Qed.
End sharing.

(** ** Instances *)

#[local] Existing Instance linux_headers.

Definition job_task : task :=
  sample_task 0 130 (sample_kabi 7000 0 0 0) 3 5 [6%positive] [5%positive] "job".

Lemma latency_renice_keeps_bore_safe_witness :
  ∃ w', probe_latency_set_user_nice default_latency_params (Some 5%positive)
          (sample_world 0) = Done (tt, w') ∧ bore_world_ok w'.
Proof.
  destruct (latency_renice_keeps_bore_safe default_latency_params (sample_world 0)
    5%positive job_task) as (w' & p' & H1 & H2 & _).
  - apply sample_bore_ok.
  - reflexivity.
  - exists w'. split; [exact H1|exact H2].
Defined.

Lemma shared_words_conflict_witness :
  ∃ w1 p1, probe_latency_set_user_nice default_latency_params (Some 5%positive)
             (sample_world 0) = Done (tt, w1) ∧
    w_tasks w1 !! 5%positive = Some p1 ∧ burst_time (ctx_of job_task) = 7000 ∧
    19 * 2 ^ 32 <= burst_time (ctx_of p1).
Proof.
  destruct (shared_words_conflict default_latency_params (sample_world 0)
    5%positive job_task 1000000) as (w1 & p1 & _ & _ & H1 & H2 & H3 & _).
  - apply sample_bore_ok.
  - reflexivity.
  - vm_compute. congruence.
  - reflexivity.
  - vm_compute. reflexivity.
  - reflexivity.
  - split; vm_compute; congruence.
  - exists w1, p1. split; [exact H1|split; [exact H2|split; [reflexivity|exact H3]]].
Defined.
