(* ===== verification/Schedulers.v ===== *)
(** * Both scheduler modules in one kernel

    kernel_modules.mk lets BORE and the latency-nice module be built in
    together.  The scheduler then calls the probes of both, in any order, on
    the same reserved words.  What each computes from words of the other may be
    wrong ([Sharing]), but no call fails, and what reaches the scheduler stays
    within the bounds of the module that reports it. *)

From S2P Require Import Prelude KMonad Kernel BoreMath BoreCtx BoreInherit SampleWorld BoreProbes BoreSpec BoreTheorems Hooks Latency Sharing.

#[local] Open Scope Z_scope.

(** ** Calls *)

(** The calls the scheduler makes into the latency-nice module. *)
Inductive latency_call :=
  | LCallWakeup (curr se : option se_ref) (offset : option Z)
  | LCallTick (curr se : option se_ref) (offset : option Z)
  | LCallInit (se : option se_ref)
  | LCallRenice (p : task_ptr).

(** A call into either module, with the parameters it has by then. *)
Inductive sched_event :=
  | BoreEvent (T : tunables) (c : bore_call)
  | LatencyEvent (L : latency_params) (c : latency_call).

Section events.
Context `{KernelHeaders}.

(** The pointee of the out parameter after the call, if it has one. *)
Definition run_latency_call (L : latency_params) (c : latency_call) : KM world (option Z) :=
  match c with
  | LCallWakeup curr se offset => probe_latency_wakeup_offset L curr se offset
  | LCallTick curr se offset => probe_latency_tick_offset L curr se offset
  | LCallInit se => probe_latency_init_entity se ;; mret None
  | LCallRenice p => probe_latency_set_user_nice L p ;; mret None
  end.

(** One call, and the pointee of its out parameter afterwards: the priority a
    BORE probe reports ([call_output]) or the offset of a latency probe. *)
Definition run_event (e : sched_event) : KM world (option Z) :=
  match e with
  | BoreEvent T c => call_output T bore_lut c
  | LatencyEvent L c => run_latency_call L c
  end.

Fixpoint run_events (l : list sched_event) : KM world (list (option Z)) :=
  match l with
  | [] => mret []
  | e :: l' => out ← run_event e; outs ← run_events l'; mret (out :: outs)
  end.

(** ** What the scheduler passes, and what it gets *)

Definition latency_call_ok (w : world) (c : latency_call) : Prop :=
  match c with
  | LCallWakeup curr se _ | LCallTick curr se _ => se_ok w curr ∧ se_ok w se
  | LCallInit se => se_ok w se
  | LCallRenice p => ptr_ok w p
  end.

Definition event_ok (w : world) (e : sched_event) : Prop :=
  match e with
  | BoreEvent T c => smoothness_ok T ∧ call_ok w c
  | LatencyEvent L c => latency_max_ok L ∧ latency_call_ok w c
  end.

(** An offset the module computes is within its bound; otherwise the scheduler
    keeps the one it had. *)
Definition offset_ok (L : latency_params) (curr se : option se_ref) (old out : option Z) : Prop :=
  match curr, se, old with
  | Some _, Some _, Some _ =>
      if decide (sched_latency_nice_enabled L = 0) then out = old
      else ∃ r, out = Some r ∧ - sched_latency_max L <= r <= sched_latency_max L
  | _, _, _ => out = old
  end.

Definition event_result (e : sched_event) (out : option Z) : Prop :=
  match e with
  | LatencyEvent L (LCallWakeup curr se old) | LatencyEvent L (LCallTick curr se old) =>
      offset_ok L curr se old out
  | LatencyEvent _ _ => out = None
  | BoreEvent _ c => output_ok c out
  end.

(** ** Proofs *)

Lemma se_ok_same_links w w' se : same_links w' w → se_ok w se → se_ok w' se.
Proof. intros Hl Hs. exact (call_ok_same_links w w' (CallInit se) Hl Hs). Qed.

Lemma ptr_ok_same_links w w' p : same_links w' w → ptr_ok w p → ptr_ok w' p.
Proof. intros Hl Hs. exact (call_ok_same_links w w' (CallYield p) Hl Hs). Qed.

Lemma event_ok_same_links w w' e : same_links w' w → event_ok w e → event_ok w' e.
Proof.
  intros Hl. destruct e as [T c|L c]; cbn.
  - intros [? ?]. split; [done|by eapply call_ok_same_links].
  - intros [? Hc]. split; [done|].
    destruct c; cbn in *; intuition eauto using se_ok_same_links, ptr_ok_same_links.
Qed.

(** Reading an entity of a task or group through the view. *)
Lemma load_lat_ok w r :
  se_ok w (Some r) → ∃ e, load_view (A:=latency_sched_entity) r w = Done (e, w) ∧ kv_ok e.
Proof.
  intros Hr. assert (∀ k, kv_ok (kv_load (A:=latency_sched_entity) k)) as Hok.
  { intros k. split_and!; [by apply wraps_range..|by apply wrapu_range]. }
  destruct r as [t|g]; cbn in Hr.
  - destruct Hr as [p Hp]. exists (lat_of p). split; [by apply load_lat_run|apply Hok].
  - destruct Hr as [se Hg]. eexists. split; [|apply Hok]. unfold load_view, read_kabi. kred.
    by erewrite bind_deref by done.
Qed.

Lemma offset_run L w curr se old :
  latency_max_ok L → se_ok w curr → se_ok w se →
  ∃ out, probe_latency_wakeup_offset L curr se old w = Done (out, w) ∧
         offset_ok L curr se old out.
Proof.
  intros HL Hc He. unfold probe_latency_wakeup_offset, offset_ok.
  destruct curr as [c|], se as [e|], old as [o|]; try by eexists.
  destruct (Z.eqb_spec (sched_latency_nice_enabled L) 0); case_decide; try done; [by eexists|].
  destruct (load_lat_ok w c Hc) as (lc & E1 & Hlc). destruct (load_lat_ok w e He) as (le & E2 & Hle).
  krun E1. krun E2. eexists. split; [done|]. eexists. split; [done|].
  rewrite wakeup_latency_gran_value by done. unfold gran_spec, latency_max_ok in *. lia.
Qed.

Lemma kv_ok_zero : kv_ok latency_se_zero.
Proof. repeat split; vm_compute; congruence. Qed.

Lemma latency_call_run L w c :
  bore_world_ok w → latency_max_ok L → latency_call_ok w c →
  ∃ out w', run_latency_call L c w = Done (out, w') ∧ event_result (LatencyEvent L c) out ∧
    bore_world_ok w' ∧ same_links w' w.
Proof.
  intros Hw HL Hc. destruct c as [curr se old|curr se old|se|p]; cbn [run_latency_call event_result].
  - destruct Hc as [? ?]. destruct (offset_run L w curr se old) as (out & E & Ho); [done..|].
    by exists out, w.
  - destruct Hc as [? ?]. destruct (offset_run L w curr se old) as (out & E & Ho); [done..|].
    by exists out, w.
  - destruct se as [r|]; [|by exists None, w].
    change (probe_latency_init_entity (Some r)) with (store_view r latency_se_zero).
    destruct r as [t|g].
    + destruct Hc as [p Hp]. exists None, (put_view t latency_se_zero w).
      split; [by krun (store_view_run w t p latency_se_zero Hp)|]. split; [done|].
      split; [by eapply latency_put_ok, kv_ok_zero|apply put_view_same_links].
    + destruct Hc as [e Hg]. eexists None, _.
      split; [by krun (store_view_group_run w g e latency_se_zero Hg)|]. split; [done|].
      split; [exact Hw|]. apply group_insert_same_links. by eexists.
  - unfold probe_latency_set_user_nice. destruct (_ =? 0); [by exists None, w|].
    destruct p as [t|]; [|by exists None, w]. destruct Hc as [p Hp].
    eexists None, _. split; [by krun (update_task_run L w t p Hp)|]. split; [done|].
    destruct (latency_task_is_eligible p); [|done].
    split; [by apply renice_world_ok|apply put_view_same_links].
Qed.

Lemma sched_event_run rank w e :
  tree_ok rank w → bore_world_ok w → event_ok w e →
  ∃ out w', run_event e w = Done (out, w') ∧ event_result e out ∧
    bore_world_ok w' ∧ same_links w' w.
Proof.
  intros Ht Hw He. destruct e as [T c|L c]; cbn in He; destruct He as [HP Hc].
  - destruct (run_call_step rank T w c Ht Hw HP Hc) as (w' & Hrun & Hw' & Hl & _).
    destruct (run_call_output T c w w' Hrun) as (out & E & Ho). by exists out, w'.
  - by apply latency_call_run.
Qed.

(** C11: Both modules together are safe.  Any sequence of calls into either of
    them, in any order and with parameters that may change between calls
    (smoothness below 32, latency bound below 2^31), on valid or NULL pointers,
    runs to the end although they overwrite each other's words: the process
runs to the end although they overwrite each other's words: the process
    tree stays, every BORE context stays in range, every priority a BORE probe
    writes through its out parameter is one of the forty (or the parameter is
    untouched), and every offset the latency module writes is within its
    bound. *)
Theorem schedulers_safe rank w l :
  tree_ok rank w → bore_world_ok w → Forall (event_ok w) l →
  ∃ outs w', run_events l w = Done (outs, w') ∧ Forall2 event_result l outs ∧
    bore_world_ok w' ∧ same_links w' w ∧ tree_ok rank w'.
Proof.
  revert w. induction l as [|e l IH]; intros w Ht Hw Hl.
  { by exists [], w. }
  inversion_clear Hl as [|? ? He Hl'].
  destruct (sched_event_run rank w e Ht Hw He) as (out & w1 & E & Ho & Hw1 & Hl1).
  assert (tree_ok rank w1) as Ht1 by (by rewrite Hl1).
  destruct (IH w1 Ht1 Hw1) as (outs & w' & E' & Hos & Hw' & Hl2 & Ht').
  { eapply Forall_impl; [exact Hl'|]. intros e'. by apply event_ok_same_links. }
  exists (out :: outs), w'. cbn [run_events]. krun E. krun E'.
  split_and!; [done|by constructor|done|by etrans|done].
Qed.
End events.

(** ** Instances *)

#[local] Existing Instance linux_headers.

(** The current task forks and is charged, both are reniced, a wake-up is
    compared with words that BORE has written since. *)
Definition sample_events : list sched_event :=
  [LatencyEvent default_latency_params (LCallRenice (Some 3%positive));
   BoreEvent default_tunables (CallUpdateCurr (Some 3%positive) 70000000 (Some 20));
   LatencyEvent default_latency_params
     (LCallWakeup (Some (SeTask 3%positive)) (Some (SeTask 5%positive)) (Some 0));
   BoreEvent default_tunables (CallFork (Some 5%positive) (Some 3%positive) 5000000000);
   LatencyEvent default_latency_params (LCallInit (Some (SeGroup 1%positive)));
   LatencyEvent default_latency_params
     (LCallTick (Some (SeGroup 1%positive)) (Some (SeTask 5%positive)) (Some 7))].

Lemma schedulers_safe_witness :
  ∃ outs w', run_events sample_events (sample_world 0) = Done (outs, w') ∧
    Forall2 event_result sample_events outs ∧ bore_world_ok w'.
Proof.
  destruct (schedulers_safe sample_rank (sample_world 0) sample_events)
    as (outs & w' & H1 & H2 & H3 & _).
  - apply sample_tree_ok.
  - apply sample_bore_ok.
  - unfold sample_events, event_ok, smoothness_ok, latency_max_ok.
    repeat (constructor; [split; [split; vm_compute; congruence|cbn; repeat split; by eexists]|]).
    constructor.
  - exists outs, w'. split; [exact H1|split; [exact H2|exact H3]].
Defined.
