(* ===== verification/KString.v ===== *)
(** * Strings in memory

    The buffers the proc handlers parse in place.  A buffer has a size, its
    bytes may be uninitialised, and an access outside it or a read of an
    uninitialised byte faults.  The kernel's string functions the handlers
    call ([copy_from_user], [strim], [kstrtoint], [kstrtoul], [sscanf]) are
    the fields of [KString]; what the handlers rely on is [KStringLaws]. *)

From Stdlib Require Export Ascii.
From S2P Require Import Prelude KMonad.

Abbreviation text := (list ascii).

Definition NUL : ascii := Ascii.zero.
Definition SPACE : ascii := " "%char.

(** [None] is an uninitialised byte. *)
Abbreviation buffer := (list (option ascii)).

(** The C string at the start of a buffer: fails when it is not terminated. *)
Fixpoint c_str (b : buffer) : option text :=
  match b with
  | Some c :: b' =>
      if Ascii.eqb c NUL then Some [] else (s ← c_str b'; Some (c :: s))
  | _ => None
  end.

Class KString := {
  (* [None]: the copy fails; the bytes otherwise *)
  copy_from_user : Z → nat → option text;
  isspace : ascii → bool;
  (* the number of leading characters skipped and the length of the result *)
  strim : text → nat * nat;
  (* an error code or the number parsed *)
  kstrtoint : text → Z → Z + Z;
  kstrtoul : text → Z → Z + Z;
  (* ["%d %d"]: the numbers stored *)
  sscanf_dd : text → option (Z * option Z)
}.

(** What is left of a string by [strim]. *)
Definition trimmed `{KString} (s : text) : text :=
  take (snd (strim s)) (drop (fst (strim s)) s).

(** No blank at either end. *)
Definition tight `{KString} (s : text) : Prop :=
  (∀ c, head s = Some c → isspace c = false) ∧
  (∀ c, last s = Some c → isspace c = false).

Definition blank `{KString} (s : text) : Prop := Forall (λ c, isspace c = true) s.

Class KStringLaws `{KString} : Prop := {
  copy_length u n bytes : copy_from_user u n = Some bytes → length bytes = n;
  isspace_space : isspace SPACE = true;
  strim_bound s : (fst (strim s) + snd (strim s) ≤ length s)%nat;
  strim_left s : blank (take (fst (strim s)) s);
  strim_right s : blank (drop (fst (strim s) + snd (strim s)) s);
  strim_tight s : tight (trimmed s);
  kstrtoint_error s base e : kstrtoint s base = inl e → e < 0;
  kstrtoul_error s base e : kstrtoul s base = inl e → e < 0
}.

(** ** Operations on buffers *)

Section buffers.
Context {S : Type} `{KString}.

(** An array on the stack or from the allocator. *)
Definition buf_new (n : nat) : buffer := replicate n None.

Definition buf_store (b : buffer) (i : nat) (c : ascii) : KM S buffer :=
  assertk (i <? length b)%nat ;; mret (<[i := Some c]> b).

Definition buf_fill (b : buffer) (bytes : text) : KM S buffer :=
  assertk (length bytes <=? length b)%nat ;;
  mret ((Some <$> bytes) ++ drop (length bytes) b).

Definition buf_str (b : buffer) (off : nat) : KM S text := deref (c_str (drop off b)).

(** Terminates the string behind its last character that is not blank and
    returns a pointer to its first one. *)
Definition strim_at (b : buffer) (off : nat) : KM S (buffer * nat) :=
  s ← buf_str b off;
  let '(k, n) := strim s in
  b' ← buf_store b (off + k + n) NUL;
  mret (b', (off + k)%nat).

Fixpoint find_char (c : ascii) (s : text) : option nat :=
  match s with
  | [] => None
  | d :: s' => if Ascii.eqb c d then Some 0%nat else (n ← find_char c s'; Some (Datatypes.S n))
  end.

Definition strchr_at (b : buffer) (off : nat) (c : ascii) : KM S (option nat) :=
  s ← buf_str b off;
  mret (i ← find_char c s; Some (off + i)%nat).
End buffers.

(** ** The string at an offset *)

Definition holds (b : buffer) (off : nat) (s : text) : Prop :=
  (∀ i c, s !! i = Some c → b !! (off + i)%nat = Some (Some c) ∧ c ≠ NUL) ∧
  b !! (off + length s)%nat = Some (Some NUL).

Lemma holds_c_str b off s : holds b off s → c_str (drop off b) = Some s.
Proof.
  revert off. induction s as [|c s IH]; intros off [Hs Hn]; cbn in Hn.
  - rewrite Nat.add_0_r in Hn. by rewrite (drop_S _ _ _ Hn).
  - destruct (Hs 0%nat c eq_refl) as [Hc Hne]. rewrite Nat.add_0_r in Hc.
    rewrite (drop_S _ _ _ Hc). cbn.
    destruct (Ascii.eqb_spec c NUL); [done|].
    rewrite IH; [done|]. split.
    + intros i d Hi. destruct (Hs (S i) d Hi) as [? ?].
      by rewrite Nat.add_succ_r in *.
    + by rewrite Nat.add_succ_r in Hn.
Qed.

Lemma holds_drop b off s k :
  holds b off s → (k ≤ length s)%nat → holds b (off + k) (drop k s).
Proof.
  intros [Hs Hn] Hk. split.
  - intros i c Hi. rewrite lookup_drop in Hi. destruct (Hs _ _ Hi).
    by rewrite <- Nat.add_assoc.
  - rewrite length_drop. by replace (off + k + (length s - k))%nat with (off + length s)%nat by lia.
Qed.

Lemma holds_cut b off s n :
  holds b off s → (n ≤ length s)%nat →
  holds (<[(off + n)%nat := Some NUL]> b) off (take n s).
Proof.
  intros [Hs Hn] Hle. split.
  - intros i c Hi. apply lookup_take_Some in Hi as [Hi Hlt].
    rewrite list_lookup_insert_ne by lia. auto.
  - rewrite length_take, Nat.min_l by done.
    apply list_lookup_insert_eq.
    apply lookup_lt_Some in Hn. lia.
Qed.

Lemma holds_other b off s i c :
  holds b off s → (i < off ∨ off + length s < i)%nat →
  holds (<[i := c]> b) off s.
Proof.
  intros [Hs Hn] Hi. split.
  - intros j d Hj. pose proof (lookup_lt_Some _ _ _ Hj).
    rewrite list_lookup_insert_ne by lia. auto.
  - by rewrite list_lookup_insert_ne by lia.
Qed.

Lemma find_char_some c s i :
  find_char c s = Some i → s !! i = Some c ∧ c ∉ take i s.
Proof.
  revert i. induction s as [|d s IH]; intros i; cbn; [done|].
  destruct (Ascii.eqb_spec c d) as [->|Hne]; [intros [= <-]; split; [done|apply not_elem_of_nil]|].
  destruct (find_char c s) as [j|]; [|done]. cbn. intros [= <-].
  destruct (IH j eq_refl) as [? ?]. split; [done|]. cbn. by apply not_elem_of_cons.
Qed.

(** The bytes up to the first NUL. *)
Fixpoint c_prefix (s : text) : text :=
  match s with
  | [] => []
  | c :: s' => if Ascii.eqb c NUL then [] else c :: c_prefix s'
  end.

Lemma c_prefix_no_nul s : NUL ∉ c_prefix s.
Proof.
  induction s as [|c s IH]; cbn; [apply not_elem_of_nil|].
  destruct (Ascii.eqb_spec c NUL); [apply not_elem_of_nil|].
  by apply not_elem_of_cons.
Qed.

Lemma holds_prefix s b :
  holds ((Some <$> s) ++ Some NUL :: b) 0 (c_prefix s).
Proof.
  induction s as [|c s [IH1 IH2]]; cbn.
  - split; [done|]. done.
  - destruct (Ascii.eqb_spec c NUL) as [->|Hne]; [by split|]. split.
    + intros [|i] d Hi; cbn in *; [by injection Hi as <-|]. by apply IH1.
    + done.
Qed.

(** ** Trimming *)

(** A reference for [strim] on values. *)
Fixpoint ltrim `{KString} (s : text) : text :=
  match s with
  | [] => []
  | c :: s' => if isspace c then ltrim s' else s
  end.

Definition trim `{KString} (s : text) : text := reverse (ltrim (reverse (ltrim s))).

Section trim.
Context `{KStringLaws}.

Lemma ltrim_blank a s : blank a → ltrim (a ++ s) = ltrim s.
Proof. induction 1 as [|c a Hc _ IH]; cbn; [done|]. by rewrite Hc. Qed.

Lemma ltrim_tight c s : isspace c = false → ltrim (c :: s) = c :: s.
Proof. cbn. by intros ->. Qed.

Lemma blank_reverse s : blank s → blank (reverse s).
Proof. apply Forall_reverse. Qed.

(** The blanks around a string that has none at its ends are removed. *)
Lemma trim_around a m b : blank a → blank b → tight m → trim (a ++ m ++ b) = m.
Proof.
  intros Ha Hb [Hh Hl]. unfold trim. rewrite ltrim_blank by done.
  destruct m as [|c m].
  - cbn. rewrite <- (app_nil_r b), ltrim_blank by done. done.
  - cbn [app]. rewrite ltrim_tight by (by apply Hh).
    change (c :: m ++ b) with ((c :: m) ++ b). rewrite reverse_app.
    rewrite ltrim_blank by (by apply blank_reverse).
    destruct (reverse (c :: m)) as [|d r] eqn:E.
    { apply (f_equal length) in E. by rewrite length_reverse in E. }
    rewrite ltrim_tight; [by rewrite <- E, reverse_involutive|].
    apply Hl. rewrite <- (reverse_involutive (c :: m)), E.
    by rewrite reverse_cons, last_snoc.
Qed.

Lemma trimmed_split s :
  s = take (fst (strim s)) s ++ trimmed s ++ drop (fst (strim s) + snd (strim s)) s.
Proof.
  unfold trimmed. rewrite <- drop_drop, take_drop, take_drop. done.
Qed.

Lemma trimmed_trim s : trimmed s = trim s.
Proof.
  rewrite (trimmed_split s) at 2. symmetry.
  apply trim_around; [apply strim_left|apply strim_right|apply strim_tight].
Qed.

Lemma trim_idempotent a s : blank a → trim (a ++ trimmed s) = trimmed s.
Proof.
  intros Ha. rewrite <- (app_nil_r (trimmed s)) at 1.
  apply trim_around; [done|constructor|apply strim_tight].
Qed.

Lemma elem_ltrim c s : c ∈ ltrim s → c ∈ s.
Proof.
  induction s as [|d s IH]; cbn; [done|].
  destruct (isspace d); [|done]. intros Hc. right. by apply IH.
Qed.

Lemma elem_trim c s : c ∈ trim s → c ∈ s.
Proof.
  unfold trim. rewrite elem_of_reverse. intros Hc%elem_ltrim.
  rewrite elem_of_reverse in Hc. by apply elem_ltrim.
Qed.
End trim.

(** ** Runs *)

Section runs.
Context {S : Type} `{KStringLaws}.
Implicit Types st : S.

Lemma buf_str_run b off s st :
  holds b off s → buf_str b off st = Done (s, st).
Proof. intros Hb. unfold buf_str. by rewrite (holds_c_str _ _ _ Hb). Qed.

Lemma buf_store_run b i c st :
  (i < length b)%nat → buf_store b i c st = Done (<[i := Some c]> b, st).
Proof.
  intros Hi. unfold buf_store. rewrite (proj2 (Nat.ltb_lt _ _) Hi). done.
Qed.

Lemma buf_fill_run b bytes st :
  (length bytes ≤ length b)%nat →
  buf_fill b bytes st = Done ((Some <$> bytes) ++ drop (length bytes) b, st).
Proof.
  intros Hi. unfold buf_fill. rewrite (proj2 (Nat.leb_le _ _) Hi). done.
Qed.

(** [copy_from_user] followed by the terminating NUL. *)
Lemma fill_terminated n bytes :
  (length bytes < n)%nat →
  ∃ b, <[length bytes := Some NUL]>
         ((Some <$> bytes) ++ drop (length bytes) (buf_new n)) = b ∧
       length b = n ∧ holds b 0 (c_prefix bytes).
Proof.
  intros Hn. unfold buf_new. eexists. split; [reflexivity|]. split.
  - rewrite length_insert, length_app, length_fmap, length_drop, length_replicate. lia.
  - rewrite drop_replicate.
    destruct (n - length bytes)%nat as [|m] eqn:E; [lia|]. cbn [replicate].
    rewrite insert_app_r_alt by (rewrite length_fmap; lia).
    rewrite length_fmap, Nat.sub_diag. cbn. apply holds_prefix.
Qed.

Lemma strim_at_run b off s st :
  holds b off s →
  ∃ b' off', strim_at b off st = Done ((b', off'), st) ∧
    holds b' off' (trimmed s) ∧ length b' = length b ∧ (off ≤ off')%nat ∧
    (* the part before the string is not touched *)
    (∀ o s', holds b o s' → (o + length s' < off)%nat → holds b' o s') ∧
    (* the leading blanks stay in place *)
    holds b' off (take (fst (strim s)) s ++ trimmed s).
Proof.
  intros Hb. unfold strim_at. krun (buf_str_run b off s st Hb).
  pose proof (strim_bound s) as Hk. unfold trimmed.
  destruct (strim s) as [k n] eqn:E. cbn [fst snd] in *.
  assert (off + k + n < length b)%nat as Hlt.
  { destruct Hb as [_ Hn]. apply lookup_lt_Some in Hn. lia. }
  krun (buf_store_run b _ NUL st Hlt). eexists _, _. split; [done|].
  split_and!.
  - apply holds_cut; [apply holds_drop; [done|lia]|]. rewrite length_drop. lia.
  - by rewrite length_insert.
  - lia.
  - intros o s' Ho Hlen. apply holds_other; [done|lia].
  - rewrite take_take_drop, <- Nat.add_assoc. apply holds_cut; [done|lia].
Qed.

Lemma strchr_at_run b off s c st :
  holds b off s →
  strchr_at b off c st = Done (Nat.add off <$> find_char c s, st).
Proof.
  intros Hb. unfold strchr_at. krun (buf_str_run b off s st Hb).
  by destruct (find_char c s).
Qed.

(** Cutting a string at a character found in it. *)
Lemma holds_split b off s c i :
  holds b off s → find_char c s = Some i →
  let b' := <[(off + i)%nat := Some NUL]> b in
  (off + i < length b)%nat ∧ holds b' off (take i s) ∧
  holds b' (off + i + 1) (drop (Datatypes.S i) s).
Proof.
  intros Hb Hi b'. apply find_char_some in Hi as [Hi _].
  pose proof (lookup_lt_Some _ _ _ Hi) as Hlt.
  split_and!.
  - destruct Hb as [Hb _]. destruct (Hb _ _ Hi) as [Hc _].
    by apply lookup_lt_Some in Hc.
  - apply holds_cut; [done|lia].
  - apply holds_other; [|lia].
    replace (off + i + 1)%nat with (off + Datatypes.S i)%nat by lia.
    apply holds_drop; [done|lia].
Qed.
End runs.
