(* ===== verification/SampleStrings.v ===== *)
(** * A concrete string library

    An instance of [KString] that satisfies [KStringLaws], on which the
    theorems about the proc handlers are run: a user memory with a few
    strings, blanks, and numbers in base 10 and 16. *)

From S2P Require Import Prelude KMonad KString.

#[local] Open Scope Z_scope.

(** The blanks of Linux: tab to carriage return, space and the no-break space
    of Latin-1. *)
Definition sample_isspace (c : ascii) : bool :=
  let n := Ascii.N_of_ascii c in
  (n =? 32)%N || ((9 <=? n)%N && (n <=? 13)%N) || (n =? 160)%N.

Fixpoint sample_ltrim (s : text) : text :=
  match s with
  | [] => []
  | c :: s' => if sample_isspace c then sample_ltrim s' else s
  end.

Definition sample_trim (s : text) : text :=
  reverse (sample_ltrim (reverse (sample_ltrim s))).

Definition sample_strim (s : text) : nat * nat :=
  (length s - length (sample_ltrim s), length (sample_trim s))%nat.

Definition digit (base : Z) (c : ascii) : option Z :=
  let n := Z.of_N (Ascii.N_of_ascii c) in
  let d := if (48 <=? n) && (n <=? 57) then n - 48
           else if (97 <=? n) && (n <=? 102) then n - 87
           else if (65 <=? n) && (n <=? 70) then n - 55 else 99 in
  if d <? base then Some d else None.

Fixpoint digits (base acc : Z) (s : text) : option Z :=
  match s with
  | [] => Some acc
  | c :: s' => d ← digit base c; digits base (base * acc + d) s'
  end.

(** -22 is -EINVAL, -34 is -ERANGE. *)
Definition number (base lo hi : Z) (s : text) : Z + Z :=
  match s with
  | [] => inl (-22)
  | _ => match digits base 0 s with
         | Some v => if (lo <=? v) && (v <? hi) then inr v else inl (-34)
         | None => inl (-22)
         end
  end.

Definition number_prefixed (base lo hi : Z) (s : text) : Z + Z :=
  match s with
  | "0"%char :: "x"%char :: s' => number 16 lo hi s'
  | _ => number (if base =? 0 then 10 else base) lo hi s
  end.

(** A minus sign, and digits. *)
Definition number_signed (base lo hi : Z) (s : text) : Z + Z :=
  match s with
  | "-"%char :: s' =>
      match number (if base =? 0 then 10 else base) 0 (1 - lo) s' with
      | inr v => inr (- v)
      | inl e => inl e
      end
  | _ => number_prefixed base lo hi s
  end.

Definition chars (s : string) : text := String.list_ascii_of_string s.

(** The strings at addresses 1 to 6; the other addresses fault. *)
Definition sample_memory (u : Z) : option text :=
  match u with
  | 1 => Some (chars " 4 app 0xf  ")
  | 2 => Some (chars "4 ")
  | 3 => Some (chars "app ff")
  | 4 => Some (chars "5 0")
  | 5 => Some (chars "f0")
  | 6 => Some (chars "4" ++ ["010"%char])
  | _ => None
  end.

Definition sample_kstring : KString := {|
  copy_from_user u n := s ← sample_memory u; Some (take n (s ++ replicate n NUL));
  isspace := sample_isspace;
  strim := sample_strim;
  kstrtoint s base := number_signed base (- 2 ^ 31) (2 ^ 31) s;
  kstrtoul s base := number_prefixed base 0 (2 ^ 64) s;
  sscanf_dd s :=
    match find_char SPACE s with
    | None => match number 10 0 (2 ^ 31) s with inr a => Some (a, None) | _ => None end
    | Some i =>
        match number 10 0 (2 ^ 31) (take i s), number 10 0 (2 ^ 31) (drop (S i) s) with
        | inr a, inr b => Some (a, Some b)
        | inr a, _ => Some (a, None)
        | _, _ => None
        end
    end
|}.

#[local] Existing Instance sample_kstring.

Lemma ltrim_split s : ∃ a, s = a ++ sample_ltrim s ∧ blank a ∧
  ∀ c, head (sample_ltrim s) = Some c → isspace c = false.
Proof.
  induction s as [|c s (a & Hs & Ha & Hh)]; cbn.
  - exists []. split_and!; [done|constructor|done].
  - destruct (sample_isspace c) eqn:E.
    + exists (c :: a). split_and!; [by rewrite Hs at 1|by constructor|done].
    + exists []. split_and!; [done|constructor|]. by intros d [= <-].
Qed.

Lemma sample_split s : ∃ a b,
  s = a ++ sample_trim s ++ b ∧ blank a ∧ blank b ∧ tight (sample_trim s) ∧
  fst (sample_strim s) = length a.
Proof.
  destruct (ltrim_split s) as (a & Hs & Ha & Hh).
  destruct (ltrim_split (reverse (sample_ltrim s))) as (b & Hb & Hbb & Hl).
  apply (f_equal reverse) in Hb. rewrite reverse_involutive, reverse_app in Hb.
  fold (sample_trim s) in Hb. exists a, (reverse b).
  split_and!; [by rewrite <- Hb|done|by apply Forall_reverse| |].
  - split.
    + intros c Hc. apply Hh. rewrite Hb. by destruct (sample_trim s).
    + intros c Hc. apply Hl. unfold sample_trim in Hc.
      by rewrite last_reverse in Hc.
  - cbn. rewrite Hs at 1. rewrite length_app. lia.
Qed.

Lemma number_error base lo hi s e : number base lo hi s = inl e → e < 0.
Proof.
  unfold number. repeat case_match; naive_solver lia.
Qed.

Lemma number_prefixed_error base lo hi s e :
  number_prefixed base lo hi s = inl e → e < 0.
Proof.
  unfold number_prefixed. repeat case_match; apply number_error.
Qed.

Lemma number_signed_error base lo hi s e : number_signed base lo hi s = inl e → e < 0.
Proof.
  unfold number_signed. intros E.
  repeat case_match; simplify_eq; eauto using number_error, number_prefixed_error.
Qed.

#[export] Instance sample_kstring_laws : KStringLaws.
Proof.
  assert (∀ s, ∃ a b, s = a ++ sample_trim s ++ b ∧ blank a ∧ blank b ∧
    tight (sample_trim s) ∧ strim s = (length a, length (sample_trim s))) as Hsplit.
  { intros s. destruct (sample_split s) as (a & b & ? & ? & ? & ? & Hk).
    exists a, b. split_and!; try done. cbn in *. unfold sample_strim. by rewrite <- Hk. }
  split.
  - intros u n bytes. cbn. destruct (sample_memory u) as [s|]; [|done].
    intros [= <-]. rewrite length_take, length_app, length_replicate. lia.
  - done.
  - intros s. destruct (Hsplit s) as (a & b & Hs & _ & _ & _ & ->). cbn.
    rewrite Hs at 2. rewrite !length_app. lia.
  - intros s. destruct (Hsplit s) as (a & b & Hs & Ha & _ & _ & ->). cbn.
    rewrite Hs. by rewrite take_app_length.
  - intros s. destruct (Hsplit s) as (a & b & Hs & _ & Hb & _ & ->). cbn.
    rewrite Hs at 2. by rewrite <- drop_drop, !drop_app_length.
  - intros s. unfold trimmed. destruct (Hsplit s) as (a & b & Hs & _ & _ & Ht & ->). cbn.
    rewrite Hs at 2. by rewrite drop_app_length, take_app_length.
  - intros s base e. apply number_signed_error.
  - intros s base e. apply number_prefixed_error.
Qed.
