(* ===== verification/ProcSwaps.v ===== *)
(** * Scanning /proc/swaps

    Both programs of RAM Plus read [/proc/swaps]: the setup service with a C++
    string stream, lmkd's hooks with [fscanf].  This file has the scanning of
    words and numbers the two library functions do (C locale), and, as a
    relation, the lines the file may have: a path, a type and three numbers,
    separated by any spaces and tabs.  (The kernel pads the path to a column
    and puts one or two tabs before a number, depending on the type and the
    sizes; all of this is in the relation, see [sample_swaps].) *)

From S2P Require Import Prelude KMonad KString.

#[local] Open Scope Z_scope.

(** [isspace] of the C locale. *)
Definition c_isspace (c : ascii) : bool :=
  let n := Ascii.N_of_ascii c in (n =? 32)%N || ((9 <=? n)%N && (n <=? 13)%N).

Definition is_digit (c : ascii) : bool :=
  let n := Ascii.N_of_ascii c in (48 <=? n)%N && (n <=? 57)%N.

Definition digit_value (c : ascii) : Z := Z.of_N (Ascii.N_of_ascii c) - 48.

Fixpoint skip_blanks (s : text) : text :=
  match s with
  | [] => []
  | c :: s' => if c_isspace c then skip_blanks s' else s
  end.

(** At most [n] characters of [s] up to the first that [stop] accepts, and the
    rest. *)
Fixpoint span (stop : ascii → bool) (n : nat) (s : text) : text * text :=
  match n, s with
  | S n', c :: s' =>
      if stop c then ([], s) else let '(w, r) := span stop n' s' in (c :: w, r)
  | _, _ => ([], s)
  end.

(** A word of at most [n] characters: [%<n>s]; [stream >> string] has no
    limit, which is that of the stream's length. *)
Definition scan_word (n : nat) (s : text) : option (text * text) :=
  match span c_isspace n (skip_blanks s) with
  | ([], _) => None
  | (w, r) => Some (w, r)
  end.

Definition decimal (ds : text) : Z :=
  foldl (λ a c, 10 * a + digit_value c) 0 ds.

(** A leading sign: whether it is a minus, and the rest. *)
Definition scan_sign (s : text) : bool * text :=
  match s with
  | [] => (false, [])
  | c :: s' =>
      if Ascii.eqb c "-" then (true, s')
      else if Ascii.eqb c "+" then (false, s') else (false, s)
  end.

(** A decimal number with an optional sign. *)
Definition scan_number (s : text) : option (Z * text) :=
  let '(neg, s) := scan_sign (skip_blanks s) in
  match span (λ c, negb (is_digit c)) (length s) s with
  | ([], _) => None
  | (ds, r) => Some (if neg then - decimal ds else decimal ds, r)
  end.

(** ** Lines of the file *)

(** The fields of a line; the numbers as they are printed. *)
Record swap_line := SwapLine {
  sl_path : text;
  sl_type : text;
  sl_size : text;
  sl_used : text;
  sl_negative : bool;
  sl_priority : text
}.

Definition word_of (s : text) : Prop :=
  s ≠ [] ∧ Forall (λ c, c_isspace c = false) s.

Definition digits_of (s : text) : Prop :=
  s ≠ [] ∧ Forall (λ c, is_digit c = true) s.

Definition line_ok (l : swap_line) : Prop :=
  word_of (sl_path l) ∧ (length (sl_path l) <= 255)%nat ∧
  word_of (sl_type l) ∧ (length (sl_type l) <= 31)%nat ∧
  digits_of (sl_size l) ∧ decimal (sl_size l) < 2 ^ 63 ∧
  digits_of (sl_used l) ∧ decimal (sl_used l) < 2 ^ 63 ∧
  digits_of (sl_priority l) ∧ decimal (sl_priority l) < 2 ^ 31.

Definition priority_value (l : swap_line) : Z :=
  if sl_negative l then - decimal (sl_priority l) else decimal (sl_priority l).

Definition TAB : ascii := "009"%char.
Definition MINUS : ascii := "-"%char.
Definition NEWLINE : ascii := "010"%char.

(** What separates two fields. *)
Definition blanks (b : text) : Prop := b ≠ [] ∧ Forall (λ c, c = SPACE ∨ c = TAB) b.

(** [line_text l s]: [s] is a line with the fields [l]. *)
Inductive line_text (l : swap_line) : text → Prop :=
  | LineText b1 b2 b3 b4 :
      blanks b1 → blanks b2 → blanks b3 → blanks b4 →
      line_text l
        (sl_path l ++ b1 ++ sl_type l ++ b2 ++ sl_size l ++ b3 ++ sl_used l ++ b4 ++
         (if sl_negative l then [MINUS] else []) ++ sl_priority l ++ [NEWLINE]).

Inductive lines_text : list swap_line → text → Prop :=
  | lines_nil : lines_text [] []
  | lines_cons l ls s r : line_text l s → lines_text ls r → lines_text (l :: ls) (s ++ r).

(** The whole file: a header line and the lines of the swap areas. *)
Inductive swaps_text (ls : list swap_line) : text → Prop :=
  | SwapsText header body :
      Forall (λ c, Ascii.eqb NEWLINE c = false) header → (length header < 511)%nat →
      lines_text ls body → swaps_text ls (header ++ NEWLINE :: body).

(** ** Facts *)

Lemma span_app stop n w r :
  Forall (λ c, stop c = false) w → (length w <= n)%nat →
  match r with [] => True | c :: _ => stop c = true ∨ length w = n end →
  span stop n (w ++ r) = (w, r).
Proof.
  intros Hw. revert n. induction Hw as [|c w Hc Hw IH]; intros n Hn Hr; cbn in *.
  - destruct n, r as [|d r]; cbn; try done.
    destruct Hr as [->|?]; [done|lia].
  - destruct n as [|n]; [lia|]. cbn. rewrite Hc, IH; [done|lia|].
    destruct r; [done|]. destruct Hr; [by left|right; lia].
Qed.

Lemma skip_blanks_word w r : word_of w → skip_blanks (w ++ r) = w ++ r.
Proof. intros [Hne Hw]. destruct Hw as [|c w Hc Hw]; [done|]. cbn. by rewrite Hc. Qed.

Lemma scan_word_app n w c r :
  word_of w → (length w <= n)%nat → c_isspace c = true →
  scan_word n (w ++ c :: r) = Some (w, c :: r).
Proof.
  intros Hw Hn Hc. unfold scan_word. rewrite skip_blanks_word by done.
  destruct Hw as [Hne Hw]. rewrite span_app by (done || by left).
  by destruct w.
Qed.

Lemma scan_word_blank n c s : c_isspace c = true → scan_word n (c :: s) = scan_word n s.
Proof. intros Hc. unfold scan_word. cbn. by rewrite Hc. Qed.

Lemma scan_number_blank c s : c_isspace c = true → scan_number (c :: s) = scan_number s.
Proof. intros Hc. unfold scan_number. cbn. by rewrite Hc. Qed.

Lemma digit_not_space c : is_digit c = true → c_isspace c = false.
Proof.
  unfold is_digit, c_isspace. intros Hd. apply andb_prop in Hd as [H1 H2].
  apply N.leb_le in H1, H2.
  destruct (N.eqb_spec (Ascii.N_of_ascii c) 32); [lia|].
  destruct (N.leb_spec (Ascii.N_of_ascii c) 13); [lia|].
  by rewrite andb_false_r.
Qed.

Lemma space_not_digit c : c_isspace c = true → is_digit c = false.
Proof.
  intros Hc. destruct (is_digit c) eqn:E; [|done]. by rewrite digit_not_space in Hc.
Qed.

Lemma digits_word s : digits_of s → word_of s.
Proof.
  intros [Hne Hs]. split; [done|]. eapply Forall_impl; [exact Hs|].
  intros c. apply digit_not_space.
Qed.

Lemma decimal_nonneg s : digits_of s → 0 <= decimal s.
Proof.
  intros [_ Hs]. unfold decimal.
  enough (∀ a, 0 <= a → 0 <= foldl (λ a c, 10 * a + digit_value c) a s) as H by by apply H.
  induction Hs as [|c s Hc Hs IH]; intros a Ha; cbn; [done|]. apply IH.
  unfold digit_value. unfold is_digit in Hc. apply andb_prop in Hc as [H1 _].
  apply N.leb_le in H1. lia.
Qed.

Lemma scan_digits s c r :
  digits_of s → c_isspace c = true →
  span (λ d, negb (is_digit d)) (length (s ++ c :: r)) (s ++ c :: r) = (s, c :: r).
Proof.
  intros [Hne Hs] Hc. apply span_app.
  - eapply Forall_impl; [exact Hs|]. intros d Hd. cbn. by rewrite Hd.
  - rewrite length_app. lia.
  - left. by rewrite space_not_digit.
Qed.

Lemma scan_number_app s c r :
  digits_of s → c_isspace c = true →
  scan_number (s ++ c :: r) = Some (decimal s, c :: r).
Proof.
  intros Hs Hc. unfold scan_number. rewrite skip_blanks_word by by apply digits_word.
  pose proof (scan_digits s c r Hs Hc) as Hspan. destruct Hs as [Hne Hs].
  assert (scan_sign (s ++ c :: r) = (false, s ++ c :: r)) as ->; [|by rewrite Hspan; destruct s].
  destruct Hs as [|d s Hd Hs]; [done|]. cbn.
  destruct (Ascii.eqb_spec d "-"%char) as [->|]; [done|].
  by destruct (Ascii.eqb_spec d "+"%char) as [->|].
Qed.

Lemma scan_number_neg s c r :
  digits_of s → c_isspace c = true →
  scan_number (MINUS :: s ++ c :: r) = Some (- decimal s, c :: r).
Proof.
  intros Hs Hc. unfold scan_number. 
  change (scan_sign (skip_blanks (MINUS :: s ++ c :: r))) with (true, s ++ c :: r). cbn iota.
  rewrite (scan_digits s c r Hs Hc). destruct Hs as [Hne _]. by destruct s.
Qed.

Lemma scan_priority l r :
  digits_of (sl_priority l) →
  scan_number ((if sl_negative l then [MINUS] else []) ++ sl_priority l ++ NEWLINE :: r)
  = Some (priority_value l, NEWLINE :: r).
Proof.
  intros Hd. unfold priority_value. destruct (sl_negative l).
  - by apply scan_number_neg.
  - by apply scan_number_app.
Qed.

Lemma priority_range l : line_ok l → - 2 ^ 31 <= priority_value l < 2 ^ 31.
Proof.
  intros (_ & _ & _ & _ & _ & _ & _ & _ & Hd & Hlt).
  pose proof (decimal_nonneg _ Hd). unfold priority_value. case_match; lia.
Qed.

(** *** Fields between blanks *)

(** Blanks before a field, or none; a newline counts. *)
Definition spaces (b : text) : Prop := Forall (λ c, c_isspace c = true) b.

Lemma blanks_spaces b : blanks b → spaces b.
Proof. intros [_ Hb]. eapply Forall_impl; [exact Hb|]. by intros c [->| ->]. Qed.

Lemma blanks_cons b : blanks b → ∃ c b', b = c :: b' ∧ c_isspace c = true.
Proof.
  intros Hb. pose proof (blanks_spaces b Hb) as Hs. destruct Hb as [Hne _].
  destruct Hs as [|c b' Hc _]; [done|]. by exists c, b'.
Qed.

Lemma scan_word_blanks n b s : spaces b → scan_word n (b ++ s) = scan_word n s.
Proof. induction 1 as [|c b Hc _ IH]; [done|]. cbn [app]. by rewrite scan_word_blank. Qed.

Lemma scan_number_blanks b s : spaces b → scan_number (b ++ s) = scan_number s.
Proof. induction 1 as [|c b Hc _ IH]; [done|]. cbn [app]. by rewrite scan_number_blank. Qed.

Lemma scan_word_all_blank n b : spaces b → scan_word n b = None.
Proof.
  intros Hb. rewrite <- (app_nil_r b), scan_word_blanks by done.
  unfold scan_word. by destruct n.
Qed.

(** A field with what is before it, up to the blanks that end it. *)
Lemma scan_word_field n b w b' s :
  spaces b → word_of w → (length w <= n)%nat → blanks b' →
  scan_word n (b ++ w ++ b' ++ s) = Some (w, b' ++ s).
Proof.
  intros Hb Hw Hn (c & b'' & -> & Hc)%blanks_cons.
  rewrite scan_word_blanks by done. by apply scan_word_app.
Qed.

Lemma scan_number_field b ds b' s :
  spaces b → digits_of ds → blanks b' →
  scan_number (b ++ ds ++ b' ++ s) = Some (decimal ds, b' ++ s).
Proof.
  intros Hb Hd (c & b'' & -> & Hc)%blanks_cons.
  rewrite scan_number_blanks by done. by apply scan_number_app.
Qed.

Lemma scan_priority_field b l r :
  spaces b → digits_of (sl_priority l) →
  scan_number (b ++ (if sl_negative l then [MINUS] else []) ++ sl_priority l ++ NEWLINE :: r)
  = Some (priority_value l, NEWLINE :: r).
Proof. intros Hb Hd. rewrite scan_number_blanks by done. by apply scan_priority. Qed.

Lemma lines_text_length ls s : lines_text ls s → (length ls <= length s)%nat.
Proof.
  induction 1 as [|l ls s r Hl _ IH]; [done|]. rewrite length_app.
  destruct Hl. rewrite !length_app. cbn. lia.
Qed.

(** ** An example *)

(** A file with the kernel's own columns: the path padded to 40 characters, one
    tab after the type of a partition and two after that of a file, two tabs
    after the sizes below 10000000 and one after the larger. *)
Definition tabs (n : nat) : text := replicate n TAB.
Definition chars : string → text := String.list_ascii_of_string.

Definition sample_header : text :=
  chars "Filename" ++ tabs 4 ++ chars "Type" ++ tabs 2 ++ chars "Size" ++ tabs 2 ++
  chars "Used" ++ tabs 2 ++ chars "Priority".

Definition zram_line : swap_line :=
  SwapLine (chars "/dev/block/zram0") (chars "partition") (chars "12582908") (chars "1024")
    false (chars "100").

Definition file_line : swap_line :=
  SwapLine (chars "/data/system/axion_ram_plus/swapfile") (chars "file") (chars "2097148")
    (chars "0") true (chars "2").

Definition zram_text : text :=
  chars "/dev/block/zram0                        partition" ++ tabs 1 ++ chars "12582908" ++
  tabs 1 ++ chars "1024" ++ tabs 2 ++ chars "100" ++ [NEWLINE].

Definition file_text : text :=
  chars "/data/system/axion_ram_plus/swapfile    file" ++ tabs 2 ++ chars "2097148" ++
  tabs 2 ++ chars "0" ++ tabs 2 ++ chars "-2" ++ [NEWLINE].

Definition sample_swaps (active : bool) : text :=
  sample_header ++ NEWLINE :: zram_text ++ (if active then file_text else []).

Definition sample_lines (active : bool) : list swap_line :=
  zram_line :: if active then [file_line] else [].

Ltac check_line :=
  unfold line_ok, word_of, digits_of;
  split_and!; (done || (repeat constructor; done) || (vm_compute; lia) || (vm_compute; done)).

Lemma sample_lines_ok active : Forall line_ok (sample_lines active).
Proof.
  constructor; [check_line|]. destruct active; constructor; [check_line|constructor].
Qed.

Ltac check_blanks := split; [done|repeat constructor; (by left) || by right].

Lemma zram_line_text : line_text zram_line zram_text.
Proof.
  apply (LineText zram_line (replicate 24 SPACE) (tabs 1) (tabs 1) (tabs 2)); check_blanks.
Qed.

Lemma file_line_text : line_text file_line file_text.
Proof.
  apply (LineText file_line (replicate 4 SPACE) (tabs 2) (tabs 2) (tabs 2)); check_blanks.
Qed.

Lemma sample_swaps_text active : swaps_text (sample_lines active) (sample_swaps active).
Proof.
  apply SwapsText; [repeat constructor|vm_compute; lia|].
  apply lines_cons; [exact zram_line_text|]. destruct active; [|constructor].
  rewrite <- (app_nil_r file_text). apply lines_cons; [exact file_line_text|constructor].
Qed.
