(* ===== verification/Lmkd.v ===== *)
(** * RAM Plus hooks of lmkd (config/ramplus/lmkd/ram_plus_lmkd_hooks.cpp)

    The hooks find the size of the RAM Plus swap file in [/proc/swaps] and add
    the part of the free swap that is on disk to lmkd's estimate.  A signed
    overflow, undefined in C++, is [Oops] (or [None] in the pure hook). *)

From S2P Require Import Prelude KMonad KString ProcSwaps.

#[local] Open Scope Z_scope.

Definition kSwapPath : text :=
  String.list_ascii_of_string "/data/system/axion_ram_plus/swapfile".

(** The static value of the size before the first update. *)
Definition gRamPlusSwapKb_init : Z := 0.

(** [fgets(line, 512, swaps)]: the rest of the file; [None] at its end. *)
Definition fgets_rest (s : text) : option text :=
  match s with
  | [] => None
  | _ =>
      let '(w, r) := span (Ascii.eqb NEWLINE) 511 s in
      Some (if (length w =? 511)%nat then r else drop 1 r)
  end.

(** One conversion of [fscanf] on the stream. *)
Definition convert {A} (f : text → option (A * text)) : KM text (option A) := λ s,
  match f s with
  | Some (a, r) => Done (Some a, r)
  | None => Done (None, s)
  end.

(** A numeric conversion stores a [w]-bit signed integer; a number that does
    not fit is undefined behaviour. *)
Definition convert_signed (w : Z) : KM text (option Z) :=
  v ← convert scan_number;
  match v with
  | None => mret None
  | Some x =>
      assertk ((- 2 ^ (w - 1) <=? x) && (x <? 2 ^ (w - 1))) ;; mret (Some x)
  end.

(** The [fscanf] of five fields: the path and the size when all succeed. *)
Definition fscanf_line : KM text (option (text * Z)) :=
  path ← convert (scan_word 255);
  match path with
  | None => mret None
  | Some path =>
      type ← convert (scan_word 31);
      match type with
      | None => mret None
      | Some _ =>
          size_kb ← convert_signed 64;
          match size_kb with
          | None => mret None
          | Some size_kb =>
              used_kb ← convert_signed 64;
              match used_kb with
              | None => mret None
              | Some _ =>
                  priority ← convert_signed 32;
                  match priority with
                  | None => mret None
                  | Some _ => mret (Some (path, size_kb))
                  end
              end
          end
      end
  end.

(** The [while] loop. *)
Fixpoint read_lines (fuel : nat) : KM text Z :=
  match fuel with
  | O => out_of_fuel
  | S f =>
      fields ← fscanf_line;
      match fields with
      | None => mret 0
      | Some (path, size_kb) =>
          if bool_decide (path = kSwapPath) then mret (Z.max 0 size_kb) else read_lines f
      end
  end.

(** [swaps] is the file, [None] when it cannot be opened. *)
Definition ReadRamPlusSwapKb (swaps : option text) : outcome Z :=
  match swaps with
  | None => Done 0
  | Some contents =>
      match fgets_rest contents with
      | None => Done 0
      | Some rest =>
          match read_lines (S (length rest)) rest with
          | Done (kb, _) => Done kb
          | Oops => Oops
          | OutOfFuel => OutOfFuel
          end
      end
  end.

(** The hook stores the size in [gRamPlusSwapKb]: the new value and the
    result. *)
Definition lmkd_update_props_hook (swaps : option text) (gRamPlusSwapKb : Z)
    : outcome (bool * Z) :=
  match ReadRamPlusSwapKb swaps with
  | Done kb => Done (true, kb)
  | Oops => Oops
  | OutOfFuel => OutOfFuel
  end.

Definition lmkd_init_hook : bool := true.

Definition lmkd_free_memory_before_kill_hook : Z := 0.

Definition lmkd_no_kill_candidates_hook : unit := tt.

Definition int64 (x : Z) : option Z :=
  if (- 2 ^ 63 <=? x) && (x <? 2 ^ 63) then Some x else None.

Definition lmkd_adjust_free_swap_hook (gRamPlusSwapKb free_swap easy_available
    compression_ratio compression_ratio_div adjusted_free_swap : Z) : option Z :=
  let disk_total := Z.max 0 gRamPlusSwapKb in
  if (disk_total =? 0) || (compression_ratio <=? 0) || (compression_ratio_div <=? 0)
  then Some adjusted_free_swap
  else
    let disk_free := Z.min free_swap disk_total in
    rest ← int64 (free_swap - disk_total);
    let zram_free := Z.max 0 rest in
    compressed ← int64 (easy_available * compression_ratio);
    int64 (disk_free + Z.min zram_free (Z.quot compressed compression_ratio_div)).

(** ** Proofs *)

Lemma convert_run {A} (f : text → option (A * text)) s a r :
  f s = Some (a, r) → convert f s = Done (Some a, r).
Proof. unfold convert. by intros ->. Qed.

Lemma convert_signed_run w s x r :
  scan_number s = Some (x, r) → - 2 ^ (w - 1) <= x < 2 ^ (w - 1) →
  convert_signed w s = Done (Some x, r).
Proof.
  intros Hs Hx. unfold convert_signed. krun (convert_run scan_number s x r Hs).
  destruct (Z.leb_spec (- 2 ^ (w - 1)) x), (Z.ltb_spec x (2 ^ (w - 1))); try lia.
  done.
Qed.

(** One line is read as its fields; [fscanf] stops at the newline. *)
Lemma fscanf_line_run l t r b :
  line_ok l → line_text l t → spaces b →
  fscanf_line (b ++ t ++ r)
  = Done (Some (sl_path l, decimal (sl_size l)), NEWLINE :: r).
Proof.
  intros Hl Ht Hb. pose proof (priority_range l Hl) as Hprio.
  destruct Hl as (Hp & Hpl & Hty & Htl & Hs & Hsl & Hu & Hul & Hd & _).
  pose proof (decimal_nonneg _ Hs). pose proof (decimal_nonneg _ Hu).
  destruct Ht as [b1 b2 b3 b4 H1 H2 H3 H4]. unfold fscanf_line. rewrite <- !app_assoc. cbn [app].
  krun (convert_run (scan_word 255) _ _ _ (scan_word_field 255 b _ b1 _ Hb Hp Hpl H1)).
  krun (convert_run (scan_word 31) _ _ _
    (scan_word_field 31 b1 _ b2 _ (blanks_spaces _ H1) Hty Htl H2)).
  krun (convert_signed_run 64 _ _ _ (scan_number_field b2 _ b3 _ (blanks_spaces _ H2) Hs H3)
    ltac:(change (64 - 1) with 63; lia)).
  krun (convert_signed_run 64 _ _ _ (scan_number_field b3 _ b4 _ (blanks_spaces _ H3) Hu H4)
    ltac:(change (64 - 1) with 63; lia)).
  by krun (convert_signed_run 32 _ _ _ (scan_priority_field b4 l r (blanks_spaces _ H4) Hd)
    ltac:(change (32 - 1) with 31; lia)).
Qed.

(** The size of the first line of the RAM Plus swap file, 0 without one. *)
Definition ram_plus_kb (ls : list swap_line) : Z :=
  from_option (decimal ∘ sl_size) 0
    (snd <$> list_find (λ l, sl_path l = kSwapPath) ls).

Lemma read_lines_run ls t b fuel :
  Forall line_ok ls → lines_text ls t → spaces b → (length ls < fuel)%nat →
  ∃ r, read_lines fuel (b ++ t) = Done (ram_plus_kb ls, r).
Proof.
  intros Hls Ht. revert b fuel Hls.
  induction Ht as [|l ls s t Hs Ht IH]; intros b fuel Hls Hb Hf;
    (destruct fuel as [|fuel]; [lia|]); cbn [read_lines].
  - eexists. unfold fscanf_line. rewrite app_nil_r.
    assert (convert (scan_word 255) b = Done (None, b)) as E
      by (unfold convert; by rewrite scan_word_all_blank).
    krun E. reflexivity.
  - inversion_clear Hls as [|? ? Hl Hls'].
    rewrite (bind_done _ _ _ _ _ (fscanf_line_run l s t b Hl Hs Hb)). cbv beta iota.
    unfold ram_plus_kb. cbn [list_find].
    destruct (decide (sl_path l = kSwapPath)) as [E|Hne].
    + rewrite bool_decide_true by done. eexists. cbn.
      destruct Hl as (_ & _ & _ & _ & Hsz & _).
      rewrite Z.max_r by by apply decimal_nonneg. reflexivity.
    + rewrite bool_decide_false by done.
      destruct (IH [NEWLINE] fuel) as (r & IHr); [done|by constructor|cbn in Hf; lia|].
      exists r. change (NEWLINE :: t) with ([NEWLINE] ++ t).
      rewrite IHr. unfold ram_plus_kb. by destruct (list_find _ ls) as [[i l']|].
Qed.

Lemma read_swaps ls t :
  Forall line_ok ls → swaps_text ls t → ReadRamPlusSwapKb (Some t) = Done (ram_plus_kb ls).
Proof.
  intros Hls [header body Hh Hlen Hb]. unfold ReadRamPlusSwapKb.
  assert (fgets_rest (header ++ NEWLINE :: body) = Some body) as ->.
  { unfold fgets_rest. rewrite span_app; [|done|lia|by left].
    destruct (Nat.eqb_spec (length header) 511); [lia|]. by destruct header. }
  destruct (read_lines_run ls body [] (S (length body)) Hls Hb) as (r & Hr);
    [constructor|pose proof (lines_text_length ls body Hb); lia|].
  cbn [app] in Hr. by rewrite Hr.
Qed.

(** C27: On a [/proc/swaps] of a header line (that fits the 512-byte buffer) and
    one line per swap area, in any order and with any spaces and tabs between
    the fields (so also with the columns of the kernel), whose paths, types and
    numbers fit the buffers and types of the program, the hook stores exactly
    the size of the RAM Plus swap file, and 0 when it is not in use; no number
    overflows and the loop ends. *)
Theorem lmkd_reads_ram_plus ls t g :
  Forall line_ok ls → swaps_text ls t →
  lmkd_update_props_hook (Some t) g = Done (true, ram_plus_kb ls).
Proof. intros. unfold lmkd_update_props_hook. by rewrite (read_swaps ls). Qed.

Lemma int64_some x : - 2 ^ 63 <= x < 2 ^ 63 → int64 x = Some x.
Proof.
  intros Hx. unfold int64.
  destruct (Z.leb_spec (- 2 ^ 63) x), (Z.ltb_spec x (2 ^ 63)); done || lia.
Qed.

Lemma int64_cases x : in_s 64 x ∧ int64 x = Some x ∨ ¬ in_s 64 x ∧ int64 x = None.
Proof.
  unfold in_s, int64. change (64 - 1) with 63.
  destruct (Z.leb_spec (- 2 ^ 63) x), (Z.ltb_spec x (2 ^ 63)); cbn [andb];
    (left; split; [lia|done]) || (right; split; [lia|done]).
Qed.

(** C26: [lmkd_adjust_free_swap_hook] on all 64-bit values (the free swap not
    negative).  Without RAM Plus, or with a ratio that is not positive, lmkd's
    own estimate is kept.  Otherwise the one operation that can overflow is the
    product of available memory and ratio, and it does exactly when it leaves
    64 bits; when it fits, the estimate is the free swap on disk in full and
    the rest, which is compressed in memory, as far as the easily available
    memory holds it at the ratio: never more than the free swap, and not less
    than the part on disk while the available memory is not negative. *)
Theorem lmkd_adjust_free_swap_correct g free easy ratio div adjusted :
  in_s 64 g → 0 <= free < 2 ^ 63 → in_s 64 easy → in_s 64 ratio → in_s 64 div →
  let hook := lmkd_adjust_free_swap_hook g free easy ratio div adjusted in
  (g <= 0 ∨ ratio <= 0 ∨ div <= 0 → hook = Some adjusted) ∧
  (0 < g → 0 < ratio → 0 < div →
   (hook = None ↔ ¬ in_s 64 (easy * ratio)) ∧
   ∀ r, hook = Some r →
     r = Z.min free g + Z.min (free - Z.min free g) (Z.quot (easy * ratio) div) ∧
     r <= free ∧ (0 <= easy → Z.min free g <= r)).
Proof.
  intros Hg Hf He Hr Hd hook. subst hook. unfold lmkd_adjust_free_swap_hook. split.
  { intros Hor. destruct (Z.leb_spec ratio 0), (Z.leb_spec div 0), (Z.eqb_spec (Z.max 0 g) 0);
      done || lia. }
  intros Hg0 Hr0 Hd0. rewrite Z.max_r by lia.
  destruct (Z.leb_spec ratio 0), (Z.leb_spec div 0), (Z.eqb_spec g 0); try lia. cbn [orb].
  unfold in_s in Hg, He. change (64 - 1) with 63 in *.
  pow2_norm. rewrite (int64_some (free - g)) by (pow2_norm; lia). cbn [mbind option_bind].
  destruct (int64_cases (easy * ratio)) as [[Hp ->]|[Hp ->]]; cbn [mbind option_bind]; [|done].
  assert (- 2 ^ 63 <= Z.quot (easy * ratio) div < 2 ^ 63 ∧
          (0 <= easy → 0 <= Z.quot (easy * ratio) div)) as [Hq Hq0].
  { unfold in_s in Hp. change (64 - 1) with 63 in Hp. split.
    - pose proof (Z.quot_le_mono (- 2 ^ 63) (easy * ratio) div Hd0 ltac:(lia)).
      pose proof (Z.quot_le_mono (easy * ratio) (2 ^ 63 - 1) div Hd0 ltac:(lia)).
      assert (Z.quot (2 ^ 63 - 1) div <= 2 ^ 63 - 1) by (apply Z.quot_le_upper_bound; nia).
      assert (- 2 ^ 63 <= Z.quot (- 2 ^ 63) div).
      { rewrite Z.quot_opp_l by lia.
        assert (Z.quot (2 ^ 63) div <= 2 ^ 63) by (apply Z.quot_le_upper_bound; nia). lia. }
      lia.
    - intros. apply Z.quot_pos; nia. }
  set (q := Z.quot _ _) in *. clearbody q.
  pow2_norm. rewrite int64_some by (pow2_norm; lia). split; [by split|]. intros r [= <-].
  split_and!; lia.
Qed.

(** ** Instances *)

Lemma lmkd_reads_ram_plus_witness :
  lmkd_update_props_hook (Some (sample_swaps true)) 0 = Done (true, 2097148).
Proof.
  refine (eq_trans (lmkd_reads_ram_plus (sample_lines true) (sample_swaps true) 0
    (sample_lines_ok true) (sample_swaps_text true)) _).
  vm_compute. reflexivity.
Defined.

Lemma lmkd_adjust_free_swap_correct_witness :
  lmkd_adjust_free_swap_hook 2097148 3000000 500000 3 1 0 ≠ None ∧
  lmkd_adjust_free_swap_hook 2097148 3000000 (2 ^ 62) 3 1 0 = None.
Proof.
  assert (∀ x, - 9223372036854775808 <= x < 9223372036854775808 → in_s 64 x) as Hin by done.
  split.
  - intros E.
    apply (lmkd_adjust_free_swap_correct 2097148 3000000 500000 3 1 0) in E;
      [|apply Hin; lia|pow2_norm; lia|apply Hin; lia..|lia|lia|lia].
    apply E, Hin. lia.
  - apply (lmkd_adjust_free_swap_correct 2097148 3000000 (2 ^ 62) 3 1 0);
      [apply Hin; lia|pow2_norm; lia|apply Hin; pow2_norm; lia|apply Hin; lia|apply Hin; lia|
       lia|lia|lia|].
    intros [_ Hlt]. vm_compute in Hlt. congruence.
Defined.
