(* ===== verification/RamPlus.v ===== *)
(** * The RAM Plus setup service (config/ramplus/ax_ram_plus_setup.cpp)

    The service that creates, formats and activates the swap file, as a program
    over the state the system keeps for it: the properties, whether the file
    exists and whether the kernel swaps on it.  Every system call is logged with
    its answer; the answers are those of [RamEnv] and may depend on everything
    that happened before.  Closing the file descriptor and the log messages are
    left out. *)

From S2P Require Import Prelude KMonad KString ProcSwaps Hooks.

#[local] Open Scope Z_scope.

(** ** Constants *)

Definition kDataPath : string := "/data".
Definition kRamPlusPath : string := "/data/system/axion_ram_plus".
Definition kSwapPath : string := "/data/system/axion_ram_plus/swapfile".
Definition kMkswapPath : string := "/system/bin/mkswap".
Definition kRequestedSizeProp : string := "persist.sys.ax_rp_size_mb".
Definition kSupportedProp : string := "persist.sys.ax_rp_supp".
Definition kActiveSizeProp : string := "persist.sys.ax_rp_active_kb".
Definition kStatusProp : string := "persist.sys.ax_rp_status".
Definition kEncryptedProp : string := "ro.crypto.metadata.enabled".
Definition kBytesPerMib : Z := 1048576.
Definition kKilobytesPerMib : Z := 1024.
Definition kSwapSizeToleranceKb : Z := 1024.
Definition kStatBlockSize : Z := 512.
Definition kWriteChunkBytes : Z := 4 * kBytesPerMib.
Definition kDefaultReserveMib : Z := 4096.
Definition kZramPollInterval : Z := 250.                (* ms *)
Definition kZramPollAttempts : nat := 60.

(** File modes: 0700 and 0600. *)
Definition mode_dir : Z := 7 * 8 ^ 2.
Definition mode_file : Z := 6 * 8 ^ 2.

Definition ENOENT : Z := 2.
Definition EINTR : Z := 4.
Definition EINVAL : Z := 22.

Record SwapEntry := MkSwapEntry {
  se_path : string;
  se_size_kb : Z;
  se_priority : Z
}.

Inductive PrepareResult :=
  | kOk | kInsufficientSpace | kFileError | kAllocationError.

(** ** The system *)

Inductive open_flag := O_RDWR | O_CREAT | O_CLOEXEC | O_NOFOLLOW.

Inductive call :=
  | CSetProp (key value : string)
  | CReadSwaps | CSleep (ms : Z)
  | CLstat (path : string) | CMkdir (path : string) (mode : Z)
  | CChmod (path : string) (mode : Z)
  | CStatvfs (path : string)
  | COpen (path : string) (flags : list open_flag) (mode : Z)
  | CFstat | CFchmod (mode : Z) | CFtruncate (size : Z)
  | CWrite (offset size : Z) | CFsync
  | CFork (argv : list string)             (* the child runs the program *)
  | CWaitpid
  | CSwapoff (path : string) | CSwapon (path : string) (flags : Z) | CUnlink (path : string).

Record rp := RP {
  rp_props : gmap string string;
  rp_swap_on : bool;              (* the kernel swaps on the file *)
  rp_file : bool;                 (* the file exists *)
  rp_log : list (call * Z)        (* calls with their answers, oldest first *)
}.

(** The answer 0 is success, others are the value of [errno].  The other
    fields are what successful calls return. *)
Class RamEnv := {
  answer : rp → call → Z;
  proc_swaps : rp → text;
  lstat_is_dir : rp → bool;
  statvfs_data : rp → Z * Z;           (* f_bavail, f_frsize *)
  fstat_data : rp → bool * Z * Z;      (* regular file, st_size, st_blocks *)
  mkswap_exited_0 : rp → bool;
  (* android-base *)
  parse_bool : string → option bool;
  parse_uint32 : string → option Z
}.

(** What a successful call changes; calls on other paths than the swap file's
    do not concern it. *)
Definition call_effect (c : call) (s : rp) : rp :=
  match c with
  | CSetProp k v => RP (<[k := v]> (rp_props s)) (rp_swap_on s) (rp_file s) (rp_log s)
  | COpen path _ _ =>
      if String.eqb path kSwapPath
      then RP (rp_props s) (rp_swap_on s) true (rp_log s) else s
  | CUnlink path =>
      if String.eqb path kSwapPath
      then RP (rp_props s) (rp_swap_on s) false (rp_log s) else s
  | CSwapoff path =>
      if String.eqb path kSwapPath
      then RP (rp_props s) false (rp_file s) (rp_log s) else s
  | CSwapon path _ =>
      if String.eqb path kSwapPath
      then RP (rp_props s) true (rp_file s) (rp_log s) else s
  | _ => s
  end.

Definition log_call (c : call) (r : Z) (s : rp) : rp :=
  RP (rp_props s) (rp_swap_on s) (rp_file s) (rp_log s ++ [(c, r)]).

(** The flags of [open] in [PrepareSwapFile]. *)
Definition swap_open_flags : list open_flag := [O_RDWR; O_CREAT; O_CLOEXEC; O_NOFOLLOW].

(** ** The service *)

Section service.
Context `{RamEnv}.

Definition syscall (c : call) : KM rp Z := λ s,
  let r := answer s c in
  Done (r, log_call c r (if r =? 0 then call_effect c s else s)).

Definition SetProperty (key value : string) : KM rp bool :=
  r ← syscall (CSetProp key value); mret (r =? 0).

Definition GetBoolProperty (key : string) (default : bool) : KM rp bool :=
  gets (λ s, match rp_props s !! key with
             | Some v => from_option id default (parse_bool v)
             | None => default
             end).

Definition GetProperty (key default : string) : KM rp string :=
  gets (λ s, from_option id default (rp_props s !! key)).

Definition IsAllowedSize (size_mib : Z) : bool :=
  (size_mib =? 0) || (size_mib =? 2048) || (size_mib =? 4096) || (size_mib =? 6144) ||
  (size_mib =? 8192).

Definition PublishStatus (active_kb : Z) (status : string) : KM rp bool :=
  size_set ← SetProperty kActiveSizeProp (fmt_int active_kb);
  status_set ← SetProperty kStatusProp status;
  mret (size_set && status_set).

(** [stream >> uint64_t] and [stream >> int]. *)
Definition stream_uint64 (s : text) : option (Z * text) :=
  '(v, r) ← scan_number s;
  if (- 2 ^ 64 <? v) && (v <? 2 ^ 64) then Some (u64 v, r) else None.

Definition stream_int (s : text) : option (Z * text) :=
  '(v, r) ← scan_number s;
  if (- 2 ^ 31 <=? v) && (v <? 2 ^ 31) then Some (v, r) else None.

Definition stream_entry (s : text) : option (SwapEntry * text) :=
  '(path, s) ← scan_word (length s) s;
  '(_, s) ← scan_word (length s) s;
  '(size_kb, s) ← stream_uint64 s;
  '(_, s) ← stream_uint64 s;
  '(priority, s) ← stream_int s;
  Some (MkSwapEntry (String.string_of_list_ascii path) size_kb priority, s).

Fixpoint stream_entries (fuel : nat) (s : text) : option (list SwapEntry) :=
  match fuel with
  | O => None
  | S f =>
      match stream_entry s with
      | None => Some []
      | Some (e, r) => (cons e) <$> stream_entries f r
      end
  end.

(** [std::getline] drops the first line. *)
Definition drop_line (s : text) : text := drop 1 (snd (span (Ascii.eqb NEWLINE) (length s) s)).

Definition ReadSwapEntries : KM rp (option (list SwapEntry)) :=
  contents ← gets proc_swaps;
  r ← syscall CReadSwaps;
  if negb (r =? 0) then mret None
  else
    let stream := drop_line contents in
    match stream_entries (S (length stream)) stream with
    | Some entries => mret (Some entries)
    | None => out_of_fuel
    end.

Definition is_zram (e : SwapEntry) : bool :=
  String.prefix "/dev/block/zram" (se_path e) || String.prefix "/dev/zram" (se_path e).

Definition FindLowestZramPriority (entries : list SwapEntry) : option Z :=
  foldl (λ priority e,
           if negb (is_zram e) then priority
           else match priority with
                | Some p => Some (Z.min p (se_priority e))
                | None => Some (se_priority e)
                end) None entries.

(** The [for] loop over the attempts left. *)
Fixpoint WaitForZramPriority (attempts : nat) : KM rp (option Z) :=
  match attempts with
  | O => mret None
  | S n =>
      entries ← ReadSwapEntries;
      match from_option FindLowestZramPriority None entries with
      | Some priority => mret (Some priority)
      | None => _ ← syscall (CSleep kZramPollInterval); WaitForZramPriority n
      end
  end.

(** TEMP_FAILURE_RETRY: a call is made again while a signal interrupts it. *)
Fixpoint temp_failure_retry (c : call) (fuel : nat) : KM rp Z :=
  match fuel with
  | O => out_of_fuel
  | S f => r ← syscall c; if r =? EINTR then temp_failure_retry c f else mret r
  end.

Definition EnsureDataDirectory : KM rp bool :=
  is_dir ← gets lstat_is_dir;
  r ← syscall (CLstat kRamPlusPath);
  ok ←
    (if r =? 0 then mret is_dir
     else if r =? ENOENT then r ← syscall (CMkdir kRamPlusPath mode_dir); mret (r =? 0)
     else mret false);
  if negb (ok : bool) then mret false
  else r ← syscall (CChmod kRamPlusPath mode_dir); mret (r =? 0).

Definition HasAllocationSpace (current_bytes requested_bytes : Z) : KM rp (option bool) :=
  if requested_bytes <=? current_bytes then mret (Some true)
  else
    fs ← gets statvfs_data;
    r ← syscall (CStatvfs kDataPath);
    if negb (r =? 0) then mret None
    else
      let available_bytes := u64 (fst fs * snd fs) in
      let required_bytes :=
        u64 (u64 (requested_bytes - current_bytes) + u64 (kDefaultReserveMib * kBytesPerMib)) in
      mret (Some (required_bytes <=? available_bytes)).

Fixpoint WriteZeroes (fuel : nat) (offset end_ : Z) : KM rp bool :=
  match fuel with
  | O => out_of_fuel
  | S f =>
      if offset <? end_ then
        let size := Z.min kWriteChunkBytes (end_ - offset) in
        r ← syscall (CWrite offset size);
        if negb (r =? 0) then mret false else WriteZeroes f (u64 (offset + size)) end_
      else mret true
  end.

(** One iteration per chunk, and one to leave the loop. *)
Definition write_fuel (start end_ : Z) : nat :=
  S (S (Z.to_nat ((end_ - start) / kWriteChunkBytes))).

Definition open_swap_call : call := COpen kSwapPath swap_open_flags mode_file.

Definition PrepareSwapFile (retry_fuel : nat) (requested_bytes : Z) : KM rp PrepareResult :=
  r ← temp_failure_retry open_swap_call retry_fuel;
  if negb (r =? 0) then mret kFileError
  else
    st ← gets fstat_data;
    r ← syscall CFstat;
    if negb (r =? 0) then mret kFileError
    else
      let '(is_reg, st_size, st_blocks) := st in
      if negb is_reg then mret kFileError
      else
        r ← syscall (CFchmod mode_file);
        if negb (r =? 0) then mret kFileError
        else
          let allocated_bytes := if 0 <? st_blocks then u64 (st_blocks * kStatBlockSize) else 0 in
          let current_bytes := if 0 <? st_size then st_size else 0 in
          has_space ← HasAllocationSpace (Z.min allocated_bytes requested_bytes) requested_bytes;
          match has_space with
          | None => mret kFileError
          | Some false => mret kInsufficientSpace
          | Some true =>
              r ← syscall (CFtruncate requested_bytes);
              if negb (r =? 0) then mret kAllocationError
              else
                let preserved_bytes := Z.min current_bytes requested_bytes in
                let write_offset :=
                  if allocated_bytes <? preserved_bytes then 0 else preserved_bytes in
                ok ← WriteZeroes (write_fuel write_offset requested_bytes)
                       write_offset requested_bytes;
                if negb ok then mret kAllocationError
                else
                  r ← syscall CFsync;
                  if negb (r =? 0) then mret kFileError else mret kOk
          end.

(** The [do] loop around [waitpid] repeats on the same condition. *)
Definition wait_child (fuel : nat) : KM rp Z := temp_failure_retry CWaitpid fuel.

Definition RunMkswap (retry_fuel : nat) : KM rp bool :=
  r ← syscall (CFork [kMkswapPath; kSwapPath]);
  if negb (r =? 0) then mret false
  else
    r ← wait_child retry_fuel;
    if negb (r =? 0) then mret false else gets mkswap_exited_0.

Definition FindRamPlusSwap : KM rp (option SwapEntry) :=
  entries ← ReadSwapEntries;
  mret (entries ← entries;
        snd <$> list_find (λ e, se_path e = kSwapPath) entries).

Definition DisableSwap : KM rp bool :=
  r ← syscall (CSwapoff kSwapPath);
  mret ((r =? 0) || (r =? EINVAL) || (r =? ENOENT)).

Definition RemoveSwapFile : KM rp bool :=
  r ← syscall (CUnlink kSwapPath);
  mret ((r =? 0) || (r =? ENOENT)).

Definition Fail (status : string) : KM rp Z :=
  _ ← PublishStatus 0 status; mret 1.

Definition FailPreparedSwap (status : string) : KM rp Z :=
  removed ← RemoveSwapFile;
  if (removed : bool) then Fail status else Fail "file_error".

Definition FailActiveSwap (active_kb : Z) (status : string) : KM rp Z :=
  disabled ← DisableSwap;
  if negb disabled then _ ← PublishStatus active_kb "swapoff_failed"; mret 1
  else FailPreparedSwap status.

(** [main] after the swap file has been activated. *)
Definition verify_swap (requested_mib zram_priority : Z) : KM rp Z :=
  swap ← FindRamPlusSwap;
  let requested_kb := u64 (requested_mib * kKilobytesPerMib) in
  match swap with
  | None => FailActiveSwap requested_kb "verification_failed"
  | Some e =>
      if (requested_kb <? se_size_kb e) ||
         (kSwapSizeToleranceKb <? u64 (requested_kb - se_size_kb e))
      then FailActiveSwap (se_size_kb e) "verification_failed"
      else if zram_priority <=? se_priority e
      then FailActiveSwap (se_size_kb e) "priority_error"
      else
        ok ← PublishStatus (se_size_kb e) "active";
        if negb ok then FailActiveSwap (se_size_kb e) "activation_failed" else mret 0
  end.

Definition main (retry_fuel : nat) : KM rp Z :=
  supported ← GetBoolProperty kSupportedProp false;
  if negb supported then Fail "unsupported"
  else
    prop ← GetProperty kRequestedSizeProp "";
    match parse_uint32 prop with
    | None => Fail "invalid_size"
    | Some requested_mib =>
        if negb (IsAllowedSize requested_mib) then Fail "invalid_size"
        else if requested_mib =? 0 then
          disabled ← DisableSwap;
          if negb disabled then Fail "swapoff_failed"
          else
            removed ← RemoveSwapFile;
            if negb removed then Fail "file_error"
            else ok ← PublishStatus 0 "disabled"; mret (if ok : bool then 0 else 1)
        else
          encrypted ← GetBoolProperty kEncryptedProp false;
          if negb encrypted then Fail "encryption_required"
          else
            zram_priority ← WaitForZramPriority kZramPollAttempts;
            match zram_priority with
            | None => Fail "zram_not_ready"
            | Some zram_priority =>
                disabled ← DisableSwap;
                if negb disabled then Fail "swapoff_failed"
                else
                  dir ← EnsureDataDirectory;
                  if negb dir then Fail "file_error"
                  else
                    prepared ← PrepareSwapFile retry_fuel (u64 (requested_mib * kBytesPerMib));
                    match prepared with
                    | kInsufficientSpace => FailPreparedSwap "insufficient_space"
                    | kFileError => FailPreparedSwap "file_error"
                    | kAllocationError => FailPreparedSwap "allocation_failed"
                    | kOk =>
                        formatted ← RunMkswap retry_fuel;
                        if negb formatted then FailPreparedSwap "format_failed"
                        else
                          r ← syscall (CSwapon kSwapPath 0);
                          if negb (r =? 0) then FailPreparedSwap "activation_failed"
                          else verify_swap requested_mib zram_priority
                    end
            end
    end.
End service.

(** ** What the service relies on *)

Class RamEnvLaws `{RamEnv} (eintr_limit : nat) : Prop := {
  (* swapoff(2): EINVAL and ENOENT mean that the file is not in use *)
  swapoff_unused s : answer s (CSwapoff kSwapPath) = EINVAL ∨ answer s (CSwapoff kSwapPath) = ENOENT →
    rp_swap_on s = false;
  unlink_absent s : answer s (CUnlink kSwapPath) = ENOENT → rp_file s = false;
  (* signals interrupt waitpid, and the open of the swap file, at most
     [eintr_limit] times in a row *)
  interrupted_returns s l c :
    c = CWaitpid ∨ c = open_swap_call →
    rp_log s = l ++ replicate eintr_limit (c, EINTR) → answer s c ≠ EINTR
}.

(** ** Streams *)

Lemma span_length stop n s w r :
  span stop n s = (w, r) → (length w + length r = length s)%nat.
Proof.
  revert s w r. induction n as [|n IH]; intros s w r; cbn; [by intros [= <- <-]|].
  destruct s as [|c s]; [by intros [= <- <-]|].
  destruct (stop c); [by intros [= <- <-]|].
  destruct (span stop n s) as [w' r'] eqn:E. intros [= <- <-].
  apply IH in E. cbn. lia.
Qed.

Lemma skip_blanks_length s : (length (skip_blanks s) <= length s)%nat.
Proof. induction s as [|c s IH]; cbn; [done|]. destruct (c_isspace c); cbn; lia. Qed.

Lemma scan_word_length n s w r : scan_word n s = Some (w, r) → (length r < length s)%nat.
Proof.
  unfold scan_word. destruct (span _ n (skip_blanks s)) as [w' r'] eqn:E.
  apply span_length in E. pose proof (skip_blanks_length s).
  destruct w'; [done|]. intros [= <- <-]. cbn in E. lia.
Qed.

Lemma scan_number_length s v r : scan_number s = Some (v, r) → (length r <= length s)%nat.
Proof.
  unfold scan_number. pose proof (skip_blanks_length s).
  destruct (scan_sign (skip_blanks s)) as [neg t] eqn:Es.
  assert (length t <= length s)%nat.
  { unfold scan_sign in Es. destruct (skip_blanks s); [injection Es as Es1 Es2; subst; cbn; lia|].
    repeat case_match; injection Es as Es1 Es2; subst; cbn in *; lia. }
  destruct (span _ (length t) t) as [w r'] eqn:E. apply span_length in E.
  destruct w; [done|]. intros [= <- <-]. lia.
Qed.

Lemma stream_uint64_length s v r : stream_uint64 s = Some (v, r) → (length r <= length s)%nat.
Proof.
  unfold stream_uint64. destruct (scan_number s) as [[x t]|] eqn:E; [|done].
  cbn. case_match; [|done]. intros [= <- <-]. by eapply scan_number_length.
Qed.

Lemma stream_int_length s v r : stream_int s = Some (v, r) → (length r <= length s)%nat.
Proof.
  unfold stream_int. destruct (scan_number s) as [[x t]|] eqn:E; [|done].
  cbn. case_match; [|done]. intros [= <- <-]. by eapply scan_number_length.
Qed.

Lemma stream_entry_length s e r : stream_entry s = Some (e, r) → (length r < length s)%nat.
Proof.
  unfold stream_entry.
  destruct (scan_word _ s) as [[p s1]|] eqn:E1; [|done]. cbn.
  destruct (scan_word _ s1) as [[t s2]|] eqn:E2; [|done]. cbn.
  destruct (stream_uint64 s2) as [[v s3]|] eqn:E3; [|done]. cbn.
  destruct (stream_uint64 s3) as [[u s4]|] eqn:E4; [|done]. cbn.
  destruct (stream_int s4) as [[q s5]|] eqn:E5; [|done]. cbn. intros [= <- <-].
  apply scan_word_length in E1, E2. apply stream_uint64_length in E3, E4.
  apply stream_int_length in E5. lia.
Qed.

(** The loop over the stream ends. *)
Lemma stream_entries_total fuel s :
  (length s < fuel)%nat → is_Some (stream_entries fuel s).
Proof.
  revert s. induction fuel as [|fuel IH]; intros s Hf; [lia|]. cbn.
  destruct (stream_entry s) as [[e r]|] eqn:E; [|by eexists].
  apply stream_entry_length in E. destruct (IH r) as [es ->]; [lia|]. by eexists.
Qed.

Lemma stream_entry_size s e r : stream_entry s = Some (e, r) → in_u 64 (se_size_kb e).
Proof.
  unfold stream_entry.
  destruct (scan_word _ s) as [[p s1]|]; [|done]. cbn.
  destruct (scan_word _ s1) as [[t s2]|]; [|done]. cbn.
  destruct (stream_uint64 s2) as [[v s3]|] eqn:E3; [|done]. cbn.
  destruct (stream_uint64 s3) as [[u s4]|]; [|done]. cbn.
  destruct (stream_int s4) as [[q s5]|]; [|done]. cbn. intros [= <- <-].
  unfold stream_uint64 in E3. destruct (scan_number s2) as [[x y]|]; [|done]. cbn in E3.
  case_match; [|done]. injection E3 as <- _. by apply wrapu_range.
Qed.

Lemma stream_entries_size fuel s es e :
  stream_entries fuel s = Some es → e ∈ es → in_u 64 (se_size_kb e).
Proof.
  revert s es. induction fuel as [|fuel IH]; intros s es; cbn; [done|].
  destruct (stream_entry s) as [[e1 r]|] eqn:E.
  - destruct (stream_entries fuel r) as [es'|] eqn:E'; [|done]. cbn. intros [= <-] Hin.
    apply elem_of_cons in Hin as [->|Hin]; [by eapply stream_entry_size|by eapply IH].
  - intros [= <-] Hin. by apply elem_of_nil in Hin.
Qed.

(** ** Steps that leave the file, the swap and the properties alone *)

Definition same_core (s s' : rp) : Prop :=
  rp_swap_on s' = rp_swap_on s ∧ rp_file s' = rp_file s ∧ rp_props s' = rp_props s.

Lemma same_core_refl s : same_core s s.
Proof. done. Qed.

Lemma same_core_trans s1 s2 s3 : same_core s1 s2 → same_core s2 s3 → same_core s1 s3.
Proof. unfold same_core. intros (? & ? & ?) (? & ? & ?). by split_and!; congruence. Qed.

Section quiet.
Context `{RamEnv}.

Definition quiet {A} (m : KM rp A) : Prop := ∀ s, wp m (λ _ s', same_core s s') s.

Definition quiet_call (c : call) : bool :=
  match c with
  | CSetProp _ _ | COpen _ _ _ | CUnlink _ | CSwapoff _ | CSwapon _ _ => false
  | _ => true
  end.

Lemma wp_syscall c (Q : Z → rp → Prop) s :
  Q (answer s c) (log_call c (answer s c)
                    (if answer s c =? 0 then call_effect c s else s)) →
  wp (syscall c) Q s.
Proof. done. Qed.

Lemma quiet_ret {A} (a : A) : quiet (mret a).
Proof. intros s. apply same_core_refl. Qed.

Lemma quiet_gets {A} (f : rp → A) : quiet (gets f).
Proof. intros s. apply same_core_refl. Qed.

Lemma quiet_bind {A B} (m : KM rp A) (f : A → KM rp B) :
  quiet m → (∀ a, quiet (f a)) → quiet (m ≫= f).
Proof.
  intros Hm Hf s. apply wp_bind. eapply wp_mono; [apply Hm|].
  intros a s1 H1. cbn. eapply wp_mono; [apply Hf|].
  intros b s2 H2. exact (same_core_trans _ _ _ H1 H2).
Qed.

Lemma quiet_syscall c : quiet_call c = true → quiet (syscall c).
Proof.
  intros Hc s. apply wp_syscall. destruct (_ =? 0); destruct c; done.
Qed.
End quiet.

Ltac quiet_step :=
  first [ apply quiet_ret | apply quiet_gets
        | apply quiet_syscall; reflexivity
        | apply quiet_bind; [|intros ?] ].

Section quiet_functions.
Context `{RamEnv}.

Lemma read_entries_quiet : quiet ReadSwapEntries.
Proof.
  unfold ReadSwapEntries. do 2 (quiet_step; [quiet_step|]).
  case_match; [quiet_step|]. cbv zeta.
  match goal with |- context [stream_entries (S ?n) ?s] =>
    destruct (stream_entries_total (S n) s) as [es ->]; [lia|] end.
  quiet_step.
Qed.

Lemma wait_zram_quiet n : quiet (WaitForZramPriority n).
Proof.
  induction n as [|n IH]; cbn [WaitForZramPriority]; [quiet_step|].
  apply quiet_bind; [apply read_entries_quiet|]. intros es.
  case_match; [quiet_step|]. by quiet_step; [quiet_step|].
Qed.

Lemma ensure_dir_quiet : quiet EnsureDataDirectory.
Proof.
  unfold EnsureDataDirectory. repeat (quiet_step || case_match).
Qed.

Lemma allocation_space_quiet c r : quiet (HasAllocationSpace c r).
Proof. unfold HasAllocationSpace. repeat (quiet_step || case_match). Qed.

Lemma find_swap_quiet : quiet FindRamPlusSwap.
Proof.
  unfold FindRamPlusSwap. apply quiet_bind; [apply read_entries_quiet|].
  intros. apply quiet_ret.
Qed.
End quiet_functions.

(** ** Every function only appends to the log *)

Definition earlier (s s' : rp) : Prop := rp_log s `prefix_of` rp_log s'.

Lemma earlier_refl s : earlier s s.
Proof. unfold earlier. done. Qed.

Lemma earlier_trans s1 s2 s3 : earlier s1 s2 → earlier s2 s3 → earlier s1 s3.
Proof. unfold earlier. by intros; etrans. Qed.

Section grows.
Context `{RamEnv}.

Definition grows {A} (m : KM rp A) : Prop := ∀ s a s', m s = Done (a, s') → earlier s s'.

Lemma grows_ret {A} (a : A) : grows (mret a).
Proof. intros s b s' [= _ <-]. apply earlier_refl. Qed.

Lemma grows_gets {A} (f : rp → A) : grows (gets f).
Proof. intros s b s' [= _ <-]. apply earlier_refl. Qed.

Lemma grows_out_of_fuel {A} : grows (@out_of_fuel rp A).
Proof. by intros s b s'. Qed.

Lemma grows_bind {A B} (m : KM rp A) (f : A → KM rp B) :
  grows m → (∀ a, grows (f a)) → grows (m ≫= f).
Proof.
  intros Hm Hf s b s' E. unfold mbind, km_bind in E.
  destruct (m s) as [[a s1]| |] eqn:E1; try done.
  eapply earlier_trans; [by eapply Hm|by eapply Hf].
Qed.

Lemma rp_log_effect c s : rp_log (call_effect c s) = rp_log s.
Proof. destruct c; cbn [call_effect]; try case_match; done. Qed.

Lemma grows_syscall c : grows (syscall c).
Proof.
  intros s a s' [= _ <-]. unfold earlier. cbn [log_call rp_log].
  replace (rp_log (if answer s c =? 0 then call_effect c s else s)) with (rp_log s)
    by (destruct (_ =? 0); [by rewrite rp_log_effect|done]).
  by apply prefix_app_r.
Qed.

Lemma wp_grows {A} (m : KM rp A) Q s :
  grows m → wp m Q s → wp m (λ a s', earlier s s' ∧ Q a s') s.
Proof.
  intros Hm Hq. apply wp_result in Hq as (a & s' & E & Hq). unfold wp. rewrite E.
  split; [by eapply Hm|done].
Qed.
End grows.

Ltac grows_step :=
  first [ apply grows_ret | apply grows_gets | apply grows_out_of_fuel
        | apply grows_syscall | apply grows_bind; [|intros ?] | case_match ].

Section grows_functions.
Context `{RamEnv}.

Lemma grows_read_entries : grows ReadSwapEntries.
Proof. unfold ReadSwapEntries. cbv zeta. repeat grows_step. Qed.

Lemma grows_wait_zram n : grows (WaitForZramPriority n).
Proof.
  induction n as [|n IH]; cbn [WaitForZramPriority]; [grows_step|].
  apply grows_bind; [apply grows_read_entries|intros ?]. repeat (exact IH || grows_step).
Qed.

Lemma grows_write_zeroes fuel a b : grows (WriteZeroes fuel a b).
Proof.
  revert a. induction fuel as [|fuel IH]; intros a; cbn [WriteZeroes]; [grows_step|].
  cbv zeta. repeat (apply IH || grows_step).
Qed.

Lemma grows_retry c fuel : grows (temp_failure_retry c fuel).
Proof. induction fuel; cbn [temp_failure_retry]; repeat (done || grows_step). Qed.

Lemma grows_prepare fuel n : grows (PrepareSwapFile fuel n).
Proof.
  unfold PrepareSwapFile, HasAllocationSpace. cbv zeta.
  repeat (apply grows_write_zeroes || apply grows_retry || grows_step).
Qed.

Lemma grows_wait_child fuel : grows (wait_child fuel).
Proof. apply grows_retry. Qed.

Lemma grows_run_mkswap fuel : grows (RunMkswap fuel).
Proof. unfold RunMkswap. repeat (apply grows_wait_child || grows_step). Qed.

Lemma grows_ensure_dir : grows EnsureDataDirectory.
Proof. unfold EnsureDataDirectory. repeat grows_step. Qed.

Lemma grows_disable_swap : grows DisableSwap.
Proof. unfold DisableSwap. repeat grows_step. Qed.
End grows_functions.

(** ** Allocating the file *)

(** [l] are chunks of at most 4 MiB that follow each other from [a] to [b]. *)
Inductive tiles : Z → Z → list (Z * Z) → Prop :=
  | tiles_nil a : tiles a a []
  | tiles_cons a n b l :
      0 < n <= kWriteChunkBytes → tiles (a + n) b l → tiles a b ((a, n) :: l).

(** The write of a chunk with its answer. *)
Definition written (r : Z) (chunk : Z * Z) : call * Z := (CWrite (fst chunk) (snd chunk), r).

(** ** Interrupted calls *)

Section retry.
Context `{RamEnv} (eintr_limit : nat) `{!RamEnvLaws eintr_limit}.

(** After some interruptions, which change nothing, the call is answered. *)
Lemma retry_run c fuel s :
  c = CWaitpid ∨ c = open_swap_call → (eintr_limit < fuel)%nat →
  wp (temp_failure_retry c fuel)
     (λ r s', ∃ s0, same_core s s0 ∧
        s' = log_call c r (if r =? 0 then call_effect c s0 else s0)) s.
Proof.
  intros Hc Hf.
  enough (∀ k fuel s l, rp_log s = l ++ replicate k (c, EINTR) →
            (k <= eintr_limit)%nat → (eintr_limit - k < fuel)%nat →
            wp (temp_failure_retry c fuel) (λ r s', ∃ s0, same_core s s0 ∧
              s' = log_call c r (if r =? 0 then call_effect c s0 else s0)) s) as Hgen.
  { apply (Hgen 0%nat fuel s (rp_log s)); [by rewrite app_nil_r|lia|lia]. }
  clear fuel Hf s. intros k fuel. revert k.
  induction fuel as [|fuel IH]; intros k s l Hl Hk Hf; [lia|]. cbn [temp_failure_retry].
  apply wp_bind, wp_syscall.
  destruct (Z.eqb_spec (answer s c) EINTR) as [E|]; [|apply wp_ret; by exists s].
  destruct (decide (k = eintr_limit)) as [->|]; [by apply (interrupted_returns _ _ c) in Hl|].
  rewrite E. change (EINTR =? 0) with false. cbv iota.
  eapply wp_mono; [apply (IH (S k) _ l)|]; [|lia|lia|].
  - cbn [log_call rp_log]. rewrite Hl, <- app_assoc. f_equal. by rewrite <- replicate_S_end.
  - intros r s2 (s0 & Hs0 & E2). exists s0. split; [exact Hs0|exact E2].
Qed.
End retry.

Section allocate.
Context `{RamEnv}.

(** What a run of [WriteZeroes] from [start] has done. *)
Definition zeroed (start end_ : Z) (s : rp) (ok : bool) (s' : rp) : Prop :=
  same_core s s' ∧ ∃ mid l,
    tiles start mid l ∧
    if ok then mid = end_ ∧ rp_log s' = rp_log s ++ (written 0 <$> l)
    else ∃ n r, mid + n <= end_ ∧ r ≠ 0 ∧
           rp_log s' = rp_log s ++ (written 0 <$> l) ++ [written r (mid, n)].

Lemma write_zeroes_run fuel start end_ s :
  0 <= start <= end_ → end_ < 2 ^ 63 →
  (end_ - start + kWriteChunkBytes - 1) / kWriteChunkBytes < Z.of_nat fuel →
  wp (WriteZeroes fuel start end_) (zeroed start end_ s) s.
Proof.
  unfold kWriteChunkBytes, kBytesPerMib.
  revert start s. induction fuel as [|fuel IH]; intros start s Hs He Hf.
  { pose proof (Z.div_pos (end_ - start + 4 * 1048576 - 1) (4 * 1048576)
      ltac:(lia) ltac:(lia)). lia. }
  cbn [WriteZeroes]. unfold kWriteChunkBytes, kBytesPerMib.
  destruct (Z.ltb_spec start end_) as [Hlt|Hge].
  2:{ apply wp_ret. split; [done|]. exists start, []. split; [constructor|].
      split; [lia|by rewrite app_nil_r]. }
  set (n := Z.min (4 * 1048576) (end_ - start)).
  apply wp_bind, wp_syscall. set (r := answer s _).
  assert (0 < n <= 4 * 1048576) as Hn by lia.
  destruct (Z.eqb_spec r 0) as [E|Hr]; cbn [negb call_effect].
  - rewrite (wrapu_small 64) by (unfold in_u; change (2 ^ 64) with (2 * 2 ^ 63); lia).
    eapply wp_mono.
    { apply IH; [lia|lia|]. 
      destruct (Z.le_gt_cases (4 * 1048576) (end_ - start)).
      - assert (n = 4 * 1048576) as -> by lia.
        replace (end_ - start + 4 * 1048576 - 1)
          with (end_ - (start + 4 * 1048576) + 4 * 1048576 - 1 + 1 * (4 * 1048576))
          in Hf by lia.
        rewrite Z.div_add in Hf by lia. lia.
      - replace (end_ - (start + n) + 4 * 1048576 - 1) with (4 * 1048576 - 1) by lia.
        rewrite Z.div_small by lia.
        replace (end_ - start + 4 * 1048576 - 1)
          with (end_ - start - 1 + 1 * (4 * 1048576)) in Hf by lia.
        rewrite Z.div_add in Hf by lia.
        rewrite (Z.div_small (end_ - start - 1)) in Hf by lia. lia. }
    intros ok s' (Hsame & mid & l & Ht & Hok). split.
    { exact (same_core_trans _ _ _ (conj eq_refl (conj eq_refl eq_refl)) Hsame). }
    exists mid, ((start, n) :: l). split; [by constructor|].
    cbn [log_call rp_log] in Hok. rewrite E in Hok.
    destruct ok.
    + destruct Hok as [-> ->]. split; [done|]. by rewrite <- app_assoc.
    + destruct Hok as (m & q & Hm & Hq & ->). exists m, q. split_and!; [done..|].
      by rewrite <- app_assoc.
  - apply wp_ret. split; [done|]. exists start, []. split; [constructor|].
    exists n, r. split_and!; [lia|done|done].
Qed.

Lemma write_zeroes_total start end_ s :
  0 <= start <= end_ → end_ < 2 ^ 63 →
  wp (WriteZeroes (write_fuel start end_) start end_) (zeroed start end_ s) s.
Proof.
  intros Hs He. apply write_zeroes_run; [done|done|].
  unfold write_fuel, kWriteChunkBytes, kBytesPerMib.
  pose proof (Z.div_pos (end_ - start) (4 * 1048576) ltac:(lia) ltac:(lia)).
  assert ((end_ - start + 4 * 1048576 - 1) / (4 * 1048576)
          <= (end_ - start) / (4 * 1048576) + 1).
  { rewrite <- Z.div_add with (b := 1) by lia. apply Z.div_le_mono; lia. }
  lia.
Qed.

(** The sizes the kernel reports for a file fit their types. *)
Definition stat_ok : Prop :=
  ∀ s, let '(_, size, blocks) := fstat_data s in
       size < 2 ^ 63 ∧ blocks * kStatBlockSize < 2 ^ 64.

Definition only_file (s s' : rp) : Prop :=
  rp_swap_on s' = rp_swap_on s ∧ rp_props s' = rp_props s ∧
  (rp_file s' = rp_file s ∨ rp_file s' = true).

Lemma only_file_core s s1 s2 : only_file s s1 → same_core s1 s2 → only_file s s2.
Proof. unfold only_file, same_core. intros (?&?&?) (?&E&?). rewrite E. by split_and!; congruence. Qed.

(** On success the requested bytes are a prefix the file had allocated (at least
    as many bytes in blocks), followed by zeroes written up to the end after the
    file had got its size. *)
Definition prepared (requested : Z) (s : rp) (res : PrepareResult) (s' : rp) : Prop :=
  only_file s s' ∧
  (res = kOk →
   rp_file s' = true ∧
   ∃ s1 size blocks l pre,
     fstat_data s1 = (true, size, blocks) ∧
     (let keep := Z.min (Z.max 0 size) requested in
      ∃ start, (start = 0 ∨ (start = keep ∧ keep <= blocks * kStatBlockSize)) ∧
        tiles start requested l) ∧
     rp_log s' = pre ++ (CFtruncate requested, 0) :: (written 0 <$> l) ++ [(CFsync, 0)]).

Context (eintr_limit : nat) `{!RamEnvLaws eintr_limit}.

Lemma open_swap_run fuel s :
  (eintr_limit < fuel)%nat →
  wp (temp_failure_retry open_swap_call fuel)
     (λ r s1, only_file s s1 ∧ (r = 0 → rp_file s1 = true)) s.
Proof.
  intros Hf. eapply wp_mono; [apply (retry_run eintr_limit); [by right|done]|].
  intros r s1 (s0 & (E1 & E2 & E3) & ->).
  split; [|by intros ->]. destruct (r =? 0); cbn; split_and!; auto.
Qed.

Lemma prepare_swap_file_run fuel requested s :
  (eintr_limit < fuel)%nat → stat_ok → 0 <= requested < 2 ^ 63 →
  wp (PrepareSwapFile fuel requested) (prepared requested s) s.
Proof.
  intros Hfuel Hstat Hreq. unfold PrepareSwapFile.
  apply wp_bind. eapply wp_mono; [by apply open_swap_run|]. intros r s1 (H1 & Hfile).
  destruct (Z.eqb_spec r 0) as [E|]; cbn [negb]; [|by apply wp_ret].
  specialize (Hfile E). clear r E.
  apply wp_bind, wp_gets, wp_bind, wp_syscall.
  set (s2 := log_call CFstat _ _).
  assert (same_core s1 s2) as H2 by (subst s2; by destruct (_ =? 0)). clearbody s2.
  destruct (_ =? 0); cbn [negb]; [|apply wp_ret; split; [by eapply only_file_core|done]].
  pose proof (Hstat s1) as Hst.
  destruct (fstat_data s1) as [[is_reg size] blocks] eqn:Hfs. destruct Hst as [Hsz Hbl].
  destruct is_reg; cbn [negb]; [|apply wp_ret; split; [by eapply only_file_core|done]].
  apply wp_bind, wp_syscall. set (s3 := log_call (CFchmod mode_file) _ _).
  assert (same_core s1 s3) as H3
    by (eapply same_core_trans; [exact H2|subst s3; by destruct (_ =? 0)]).
  clearbody s3.
  destruct (_ =? 0); cbn [negb]; [|apply wp_ret; split; [by eapply only_file_core|done]].
  set (allocated := if 0 <? blocks then _ else 0).
  assert (allocated <= Z.max 0 (blocks * kStatBlockSize)) as Halloc.
  { subst allocated. unfold kStatBlockSize in *. destruct (Z.ltb_spec 0 blocks); [|lia].
    rewrite wrapu_small by (unfold in_u; lia). lia. }
  clearbody allocated. cbv zeta.
  replace (if 0 <? size then size else 0) with (Z.max 0 size)
    by (destruct (Z.ltb_spec 0 size); lia).
  apply wp_bind. eapply wp_mono; [apply allocation_space_quiet|].
  intros space s4 H4. cbv beta in H4. pose proof (same_core_trans _ _ _ H3 H4) as H5.
  destruct space as [[|]|]; [|apply wp_ret; split; [by eapply only_file_core|done]..].
  apply wp_bind, wp_syscall. set (r := answer s4 _). cbn [call_effect].
  replace (if r =? 0 then s4 else s4) with s4 by (by destruct (r =? 0)).
  destruct (Z.eqb_spec r 0) as [E|]; cbn [negb];
    [|apply wp_ret; split; [by eapply only_file_core|done]].
  rewrite E. set (keep := Z.min (Z.max 0 size) requested).
  set (start := if allocated <? keep then 0 else keep).
  assert (start = 0 ∨ (start = keep ∧ keep <= blocks * kStatBlockSize)) as Hstart.
  { subst start. destruct (Z.ltb_spec allocated keep); [by left|].
    destruct (Z.eq_dec keep 0); [by left|]. right. split; [done|]. lia. }
  apply wp_bind. eapply wp_mono; [apply write_zeroes_total; lia|].
  intros ok s6 (H6 & mid & l & Ht & Hok).
  pose proof (same_core_trans _ _ _ H5 H6) as H7.
  destruct ok; cbn [negb]; [|apply wp_ret; split; [by eapply only_file_core|done]].
  destruct Hok as [-> Hlog].
  apply wp_bind, wp_syscall. set (q := answer s6 _). cbn [call_effect].
  replace (if q =? 0 then s6 else s6) with s6 by (by destruct (q =? 0)).
  assert (only_file s (log_call CFsync q s6)) as H8 by (eapply only_file_core; [exact H1|exact H7]).
  destruct (Z.eqb_spec q 0) as [E7|]; cbn [negb]; apply wp_ret; (split; [exact H8|]); [|done].
  intros _. split.
  { destruct H7 as (_ & Hf & _). cbn. by rewrite Hf. }
  exists s1, size, blocks, l, (rp_log s4). split; [done|]. split; [by exists start|].
  cbn. rewrite Hlog, E7. cbn. by rewrite <- !app_assoc.
Qed.
End allocate.

(** ** Outcomes of the service *)

(** The last two calls published this size and status. *)
Definition reports (s : rp) (kb : Z) (status : string) : Prop :=
  ∃ l r1 r2, rp_log s = l ++ [(CSetProp kActiveSizeProp (fmt_int kb), r1);
                              (CSetProp kStatusProp status, r2)].

(** The properties hold this size and status. *)
Definition shows (s : rp) (kb : Z) (status : string) : Prop :=
  rp_props s !! kActiveSizeProp = Some (fmt_int kb) ∧
  rp_props s !! kStatusProp = Some status.

Section outcome.
Context `{RamEnv}.

(** The entries of /proc/swaps in a state. *)
Definition swaps_of (s : rp) : option (list SwapEntry) :=
  let stream := drop_line (proc_swaps s) in
  stream_entries (S (length stream)) stream.

Lemma swaps_size_range s es e : swaps_of s = Some es → e ∈ es → in_u 64 (se_size_kb e).
Proof. apply stream_entries_size. Qed.

(** The size asked for by the property. *)
Definition request (s : rp) : option Z :=
  parse_uint32 (from_option id "" (rp_props s !! kRequestedSizeProp)).

(** In [s], between [s0] and [s'], [/proc/swaps] was read with these entries. *)
Definition read_in (s0 s s' : rp) (es : list SwapEntry) : Prop :=
  earlier s0 s ∧ swaps_of s = Some es ∧ (rp_log s ++ [(CReadSwaps, 0)]) `prefix_of` rp_log s'.

(** How a run from [s0] that ends in [s'] can have gone, with the exit
    code. *)
Inductive main_outcome (s0 : rp) : Z → rp → Prop :=
  (* the swap file is in use, of the requested size up to 1 MiB and of a lower
     priority than the zram devices, and its size is published *)
  | out_active requested e es zram zs s1 s2 s' :
      request s0 = Some requested → IsAllowedSize requested = true → requested ≠ 0 →
      (* the zram devices were read in [s2], the active file in [s1], which was
         followed only by the two calls that publish it *)
      read_in s0 s2 s1 zs → FindLowestZramPriority zs = Some zram →
      rp_swap_on s1 = true → swaps_of s1 = Some es → e ∈ es → se_path e = kSwapPath →
      rp_log s' = rp_log s1 ++ [(CReadSwaps, 0);
        (CSetProp kActiveSizeProp (fmt_int (se_size_kb e)), 0);
        (CSetProp kStatusProp "active", 0)] →
      se_priority e < zram →
      requested * 1024 - 1024 <= se_size_kb e <= requested * 1024 →
      rp_swap_on s' = true → shows s' (se_size_kb e) "active" →
      main_outcome s0 0 s'
  (* on request nothing is in use and the file is gone *)
  | out_disabled s' :
      request s0 = Some 0 → rp_swap_on s' = false → rp_file s' = false → shows s' 0 "disabled" →
      main_outcome s0 0 s'
  (* refused: swap and file are as before the run *)
  | out_refused status s' :
      status ∈ ["unsupported"; "invalid_size"; "encryption_required";
                "zram_not_ready"; "swapoff_failed"] →
      rp_swap_on s' = rp_swap_on s0 → rp_file s' = rp_file s0 →
      reports s' 0 status → main_outcome s0 1 s'
  (* failed: nothing is in use, and the file is gone unless it could not be
     removed *)
  | out_failed status s' :
      rp_swap_on s' = false → (status = "file_error" ∨ rp_file s' = false) →
      status ∈ ["file_error"; "insufficient_space"; "allocation_failed"; "format_failed";
                "activation_failed"; "verification_failed"; "priority_error"; "disabled"] →
      reports s' 0 status → main_outcome s0 1 s'
  (* failed, and the swap could not be disabled again: its size is reported *)
  | out_stuck kb s' :
      rp_swap_on s' = true → reports s' kb "swapoff_failed" → main_outcome s0 1 s'.

Lemma read_in_later s0 s s1 s2 es : read_in s0 s s1 es → earlier s1 s2 → read_in s0 s s2 es.
Proof. intros (? & ? & ?) ?. split_and!; [done..|by etrans]. Qed.

Definition same_disk (s s' : rp) : Prop :=
  rp_swap_on s' = rp_swap_on s ∧ rp_file s' = rp_file s.

Lemma publish_run kb status s :
  wp (PublishStatus kb status)
     (λ ok s', same_disk s s' ∧ reports s' kb status ∧
        (ok = true → shows s' kb status ∧
           rp_log s' = rp_log s ++ [(CSetProp kActiveSizeProp (fmt_int kb), 0);
                                    (CSetProp kStatusProp status, 0)])) s.
Proof.
  unfold PublishStatus, SetProperty.
  apply wp_bind, wp_bind, wp_syscall. set (r1 := answer s _). set (s1 := log_call _ r1 _).
  apply wp_ret, wp_bind, wp_bind, wp_syscall. set (r2 := answer s1 _).
  apply wp_ret, wp_ret. split; [|split].
  - subst s1. by destruct (r1 =? 0), (r2 =? 0).
  - exists (rp_log s), r1, r2. subst s1.
    destruct (r1 =? 0), (r2 =? 0); cbn; by rewrite <- app_assoc.
  - intros [H1 H2]%andb_prop. subst s1. rewrite H1, H2.
    apply Z.eqb_eq in H1 as ->. apply Z.eqb_eq in H2 as ->.
    split; [split|]; cbn [log_call call_effect rp_props rp_log].
    + rewrite lookup_insert_ne by done. by rewrite lookup_insert_eq.
    + by rewrite lookup_insert_eq.
    + by rewrite <- app_assoc.
Qed.

Lemma read_entries_run s :
  wp ReadSwapEntries (λ es s', same_core s s' ∧
    (∀ l, es = Some l → swaps_of s = Some l ∧ rp_log s' = rp_log s ++ [(CReadSwaps, 0)])) s.
Proof.
  unfold ReadSwapEntries. apply wp_bind, wp_gets, wp_bind, wp_syscall.
  set (r := answer s CReadSwaps). destruct (Z.eqb_spec r 0) as [->|]; cbn [negb].
  2:{ by apply wp_ret. }
  cbv zeta. fold (swaps_of s). unfold swaps_of.
  destruct (stream_entries_total (S (length (drop_line (proc_swaps s))))
              (drop_line (proc_swaps s))) as [es ->]; [lia|].
  apply wp_ret. split; [done|]. by intros l [= <-].
Qed.

Lemma wait_zram_run n s :
  wp (WaitForZramPriority n)
     (λ p s', same_core s s' ∧
        ∀ z, p = Some z → ∃ s2 zs, read_in s s2 s' zs ∧ FindLowestZramPriority zs = Some z) s.
Proof.
  revert s. induction n as [|n IH]; intros s; cbn [WaitForZramPriority].
  { by apply wp_ret. }
  apply wp_bind. eapply wp_mono; [apply wp_grows; [apply grows_read_entries|apply read_entries_run]|].
  intros es s1 (Hge & H1 & Hes).
  destruct (from_option FindLowestZramPriority None es) as [z|] eqn:E.
  - apply wp_ret. split; [done|]. intros z' [= <-].
    destruct es as [es|]; [|done]. exists s, es. split; [|done].
    destruct (Hes es eq_refl) as (? & Hlog). split; [apply earlier_refl|].
    split; [done|by rewrite <- Hlog].
  - apply wp_bind, wp_syscall.
    replace (if answer s1 (CSleep kZramPollInterval) =? 0 then call_effect (CSleep kZramPollInterval) s1 else s1) with s1
      by (by destruct (_ =? 0)).
    eapply wp_mono; [apply IH|]. intros p s3 (H3 & Hp).
    split; [exact (same_core_trans _ _ _ H1 H3)|].
    intros z Hz. destruct (Hp z Hz) as (s2 & zs & (Hs2 & Hread) & Hlow).
    exists s2, zs. split; [|done]. split; [|done]. eapply earlier_trans; [exact Hge|].
    eapply earlier_trans; [|exact Hs2]. by apply prefix_app_r.
Qed.

Lemma find_swap_run s :
  wp FindRamPlusSwap
     (λ o s', same_core s s' ∧
        ∀ e, o = Some e → rp_log s' = rp_log s ++ [(CReadSwaps, 0)] ∧
          ∃ es, swaps_of s = Some es ∧ e ∈ es ∧ se_path e = kSwapPath) s.
Proof.
  unfold FindRamPlusSwap. apply wp_bind. eapply wp_mono; [apply read_entries_run|].
  intros es s1 (H1 & Hes). apply wp_ret. split; [done|].
  intros e He. destruct es as [es|]; [|done]. cbn in He.
  destruct (list_find _ es) as [[i e']|] eqn:E; [|done]. injection He as <-.
  apply list_find_Some in E as (Hi & Hp & _). destruct (Hes es eq_refl) as (? & ?).
  split; [done|]. exists es. split_and!; [done|by eapply list_elem_of_lookup_2|done].
Qed.
End outcome.

Section main_facts.
Context `{RamEnv} (eintr_limit : nat) `{!RamEnvLaws eintr_limit}.

Lemma wait_child_quiet fuel : (eintr_limit < fuel)%nat → quiet (wait_child fuel).
Proof.
  intros Hf s. eapply wp_mono; [apply (retry_run eintr_limit); [by left|done]|].
  intros r s1 (s0 & H0 & ->). by destruct (r =? 0).
Qed.

Lemma run_mkswap_quiet fuel : (eintr_limit < fuel)%nat → quiet (RunMkswap fuel).
Proof.
  intros Hf. unfold RunMkswap. apply quiet_bind; [by apply quiet_syscall|].
  intros r. case_match; [apply quiet_ret|].
  apply quiet_bind; [by apply wait_child_quiet|]. intros q.
  case_match; [apply quiet_ret|apply quiet_gets].
Qed.

Lemma disable_swap_run s :
  wp DisableSwap (λ ok s', rp_file s' = rp_file s ∧ rp_props s' = rp_props s ∧
    if ok then rp_swap_on s' = false else rp_swap_on s' = rp_swap_on s) s.
Proof.
  unfold DisableSwap. apply wp_bind, wp_syscall, wp_ret.
  destruct (Z.eqb_spec (answer s (CSwapoff kSwapPath)) 0); [done|]. cbn [orb].
  destruct (Z.eqb_spec (answer s (CSwapoff kSwapPath)) EINVAL) as [E|];
    [cbn; split_and!; [done|done|apply swapoff_unused; by left]|].
  destruct (Z.eqb_spec (answer s (CSwapoff kSwapPath)) ENOENT) as [E|]; cbn; split_and!; try done.
  apply swapoff_unused. by right.
Qed.

Lemma remove_file_run s :
  wp RemoveSwapFile (λ ok s', rp_swap_on s' = rp_swap_on s ∧
    (ok = true → rp_file s' = false)) s.
Proof.
  unfold RemoveSwapFile. apply wp_bind, wp_syscall, wp_ret.
  destruct (Z.eqb_spec (answer s (CUnlink kSwapPath)) 0); [done|]. cbn [orb].
  destruct (Z.eqb_spec (answer s (CUnlink kSwapPath)) ENOENT); cbn; split; try done.
  intros _. by apply unlink_absent.
Qed.

Lemma fail_run status s :
  wp (Fail status) (λ ret s', ret = 1 ∧ same_disk s s' ∧ reports s' 0 status) s.
Proof.
  unfold Fail. apply wp_bind. eapply wp_mono; [apply publish_run|].
  intros ok s' (H1 & H2 & _). by apply wp_ret.
Qed.

Definition failures : list string :=
  ["file_error"; "insufficient_space"; "allocation_failed"; "format_failed";
   "activation_failed"; "verification_failed"; "priority_error"; "disabled"].

Ltac in_list := repeat first [apply list_elem_of_here | apply list_elem_of_further].

Lemma fail_prepared_run s0 status s :
  rp_swap_on s = false → status ∈ failures →
  wp (FailPreparedSwap status) (main_outcome s0) s.
Proof.
  intros Hoff Hst. unfold FailPreparedSwap. apply wp_bind.
  eapply wp_mono; [apply remove_file_run|]. intros removed s1 (Hon & Hfile).
  destruct removed; (eapply wp_mono; [apply fail_run|]); intros ret s2 (-> & (E1 & E2) & Hr).
  - apply (out_failed s0 status); [congruence| |done|done]. right. rewrite E2. by apply Hfile.
  - apply (out_failed s0 "file_error"); [congruence|by left|by left|done].
Qed.

Lemma fail_active_run s0 kb status s :
  rp_swap_on s = true → status ∈ failures →
  wp (FailActiveSwap kb status) (main_outcome s0) s.
Proof.
  intros Hon Hst. unfold FailActiveSwap. apply wp_bind.
  eapply wp_mono; [apply disable_swap_run|]. intros ok s1 (_ & _ & Hok). cbv beta in *.
  destruct ok; cbn [negb]; [by apply fail_prepared_run|].
  apply wp_bind. eapply wp_mono; [apply publish_run|].
  intros ok2 s2 ((E & _) & Hr & _). apply wp_ret.
  apply (out_stuck s0 kb); [congruence|done].
Qed.

Lemma allowed_range m : IsAllowedSize m = true → 0 <= m <= 8192.
Proof.
  unfold IsAllowedSize. intros Hm.
  repeat (apply orb_prop in Hm as [Hm|Hm]; [|apply Z.eqb_eq in Hm; lia]).
  apply Z.eqb_eq in Hm. lia.
Qed.

Lemma verify_run s0 requested zram zs s2 s :
  request s0 = Some requested → IsAllowedSize requested = true → requested ≠ 0 →
  rp_swap_on s = true → read_in s0 s2 s zs → FindLowestZramPriority zs = Some zram →
  wp (verify_swap requested zram) (main_outcome s0) s.
Proof.
  intros Hreq Hallow Hne Hon Hzs Hz. pose proof (allowed_range _ Hallow) as Hrange.
  unfold verify_swap. apply wp_bind. eapply wp_mono; [apply find_swap_run|].
  intros o s1 ((Eon & _) & Hentry). cbv beta in *.
  assert (rp_swap_on s1 = true) as Hon1 by congruence.
  unfold kKilobytesPerMib, kSwapSizeToleranceKb.
  rewrite (wrapu_small 64 (requested * 1024)) by (unfold in_u; pow2_norm; lia).
  destruct o as [e|]; [|apply fail_active_run; [done|in_list]].
  destruct (Hentry e eq_refl) as (Hlog & es & Hes & Hin & Hpath).
  destruct (Z.ltb_spec (requested * 1024) (se_size_kb e)); cbn [orb];
    [apply fail_active_run; [done|in_list]|].
  destruct (Z.ltb_spec 1024 (u64 (requested * 1024 - se_size_kb e))) as [|Htol];
    [apply fail_active_run; [done|in_list]|].
  destruct (Z.leb_spec zram (se_priority e));
    [apply fail_active_run; [done|in_list]|].
  apply wp_bind. eapply wp_mono; [apply publish_run|].
  intros ok s3 ((E3 & _) & _ & Hshow). cbv beta in *.
  destruct ok; cbn [negb]; [|apply fail_active_run; [congruence|in_list]].
  destruct (Hshow eq_refl) as (Hsh & Hlog3).
  apply wp_ret. apply (out_active s0 requested e es zram zs s s2); try done.
  - by rewrite Hlog3, Hlog, <- app_assoc.
  - pose proof (swaps_size_range s es e Hes Hin).
    unfold in_u in *. rewrite wrapu_small in Htol by (unfold in_u; pow2_norm; lia). lia.
  - congruence.
Qed.

Lemma prepare_and_activate s0 requested zram zs s2 retry_fuel s :
  (eintr_limit < retry_fuel)%nat → stat_ok → request s0 = Some requested →
  IsAllowedSize requested = true → requested ≠ 0 → rp_swap_on s = false →
  read_in s0 s2 s zs → FindLowestZramPriority zs = Some zram →
  wp (prepared ← PrepareSwapFile retry_fuel (u64 (requested * kBytesPerMib));
      match prepared with
      | kInsufficientSpace => FailPreparedSwap "insufficient_space"
      | kFileError => FailPreparedSwap "file_error"
      | kAllocationError => FailPreparedSwap "allocation_failed"
      | kOk =>
          formatted ← RunMkswap retry_fuel;
          if negb formatted then FailPreparedSwap "format_failed"
          else
            r ← syscall (CSwapon kSwapPath 0);
            if negb (r =? 0) then FailPreparedSwap "activation_failed"
            else verify_swap requested zram
      end) (main_outcome s0) s.
Proof.
  intros Hf Hstat Hreq Hallow Hne Hoff Hzs Hz. pose proof (allowed_range _ Hallow) as Hrange.
  apply wp_bind. unfold kBytesPerMib.
  rewrite (wrapu_small 64 (requested * 1048576)) by (unfold in_u; pow2_norm; lia).
  eapply wp_mono; [apply wp_grows; [apply grows_prepare|];
                   apply (prepare_swap_file_run eintr_limit); [done|done|pow2_norm; lia]|].
  intros res s1 (G1 & (Eon & _) & _). cbv beta in *.
  destruct res; try (apply fail_prepared_run; [congruence|in_list]).
  apply wp_bind. eapply wp_mono; [apply wp_grows; [apply grows_run_mkswap|by apply run_mkswap_quiet]|].
  intros ok s3 (G3 & E3 & _). cbv beta in *.
  destruct ok; cbn [negb]; [|apply fail_prepared_run; [congruence|in_list]].
  apply wp_bind, wp_syscall. set (r := answer s3 (CSwapon kSwapPath 0)).
  destruct (Z.eqb_spec r 0); cbn [negb].
  - apply (verify_run s0 requested zram zs s2); try done.
    eapply read_in_later; [exact Hzs|]. eapply earlier_trans; [exact G1|].
    eapply earlier_trans; [exact G3|]. by apply prefix_app_r.
  - apply fail_prepared_run; [|in_list]. cbn. congruence.
Qed.

Lemma refused_run s0 status s :
  status ∈ ["unsupported"; "invalid_size"; "encryption_required"; "zram_not_ready";
            "swapoff_failed"] →
  same_disk s0 s → wp (Fail status) (main_outcome s0) s.
Proof.
  intros Hst (H1 & H2). eapply wp_mono; [apply fail_run|].
  intros ret s1 (-> & (E1 & E2) & Hr). apply (out_refused s0 status); [done|congruence..|done].
Qed.

Lemma main_run retry_fuel s :
  (eintr_limit < retry_fuel)%nat → stat_ok → wp (main retry_fuel) (main_outcome s) s.
Proof.
  intros Hf Hstat. unfold main.
  apply wp_bind, wp_gets. destruct (match _ with Some _ => _ | None => _ end); cbn [negb];
    [|apply refused_run; [in_list|done]].
  apply wp_bind, wp_gets. fold (request s). destruct (request s) as [requested|] eqn:Hreq;
    [|apply refused_run; [in_list|done]].
  destruct (IsAllowedSize requested) eqn:Hallow; cbn [negb];
    [|apply refused_run; [in_list|done]].
  destruct (Z.eqb_spec requested 0) as [->|Hne].
  { apply wp_bind. eapply wp_mono; [apply disable_swap_run|].
    intros ok s1 (Efile & _ & Hok). cbv beta in *.
    destruct ok; cbn [negb]; [|apply refused_run; [in_list|done]].
    apply wp_bind. eapply wp_mono; [apply remove_file_run|].
    intros removed s2 (Eon & Hrem). cbv beta in *.
    destruct removed; cbn [negb].
    - apply wp_bind. eapply wp_mono; [apply publish_run|].
      intros ok s3 ((E1 & E2) & Hr & Hshow). cbv beta in *. apply wp_ret.
      assert (rp_file s3 = false) by (rewrite E2; by apply Hrem).
      destruct ok.
      + apply out_disabled; [done|congruence|done|by apply Hshow].
      + apply (out_failed s "disabled"); [congruence|by right|in_list|done].
    - eapply wp_mono; [apply fail_run|]. intros ret s3 (-> & (E1 & E2) & Hr).
      apply (out_failed s "file_error"); [congruence|by left|in_list|done]. }
  apply wp_bind, wp_gets. destruct (match _ with Some _ => _ | None => _ end); cbn [negb];
    [|apply refused_run; [in_list|done]].
  apply wp_bind. eapply wp_mono; [apply wait_zram_run|].
  intros zp s1 ((E1 & E1' & _) & Hz). cbv beta in *.
  destruct zp as [zram|]; [|apply refused_run; [in_list|done]].
  destruct (Hz zram eq_refl) as (s2 & zs & Hzs & Hlow).
  apply wp_bind. eapply wp_mono; [apply wp_grows; [apply grows_disable_swap|apply disable_swap_run]|].
  intros ok s3 (G3 & E3 & _ & Hok). cbv beta in *.
  destruct ok; cbn [negb]; [|apply refused_run; [in_list|]].
  2:{ split; congruence. }
  apply wp_bind. eapply wp_mono; [apply wp_grows; [apply grows_ensure_dir|apply ensure_dir_quiet]|].
  intros dir s4 (G4 & E4 & _). cbv beta in *.
  destruct dir; cbn [negb].
  - apply (prepare_and_activate s requested zram zs s2); try done; [congruence|].
    eapply read_in_later; [exact Hzs|by eapply earlier_trans].
  - eapply wp_mono; [apply fail_run|]. intros ret s5 (-> & (E5 & _) & Hr).
    apply (out_failed s "file_error"); [congruence|by left|in_list|done].
Qed.

(** C4: The setup service always ends, and only in one of five ways: the swap file
    is active with the size that was asked for (up to 1 MiB), a lower priority
    than zram and its size published; it was disabled and removed on request;
    the run was refused and changed neither swap nor file; it failed and left
    nothing in use, with the file removed unless that failed; or it failed and
    could not disable the swap again, which it reports with the active size. *)
Theorem main_correct retry_fuel s :
  (eintr_limit < retry_fuel)%nat → stat_ok →
  ∃ ret s', main retry_fuel s = Done (ret, s') ∧ main_outcome s ret s'.
Proof. intros Hf Hstat. by apply wp_result, main_run. Qed.
End main_facts.

(** ** Properties of the parts *)

(** *** Blocks and chunks *)

Lemma tiles_cover a b l x : tiles a b l → a <= x < b → ∃ o n, (o, n) ∈ l ∧ o <= x < o + n.
Proof.
  intros Ht. induction Ht as [a|a n b l Hn _ IH]; intros Hx; [lia|].
  destruct (Z.lt_ge_cases x (a + n)) as [|Hge].
  - exists a, n. split; [apply list_elem_of_here|lia].
  - destruct IH as (o & m & Hin & ?); [lia|]. exists o, m. split; [by right|done].
Qed.

(** A set of [m] block numbers below [m] holds every one of them. *)
Lemma full_prefix (B : gset Z) m b :
  (∀ x, x ∈ B → 0 <= x < m) → m <= Z.of_nat (size B) → 0 <= b < m → b ∈ B.
Proof.
  intros Hin Hm Hb. destruct (decide (b ∈ B)) as [|Hno]; [done|exfalso].
  assert ({[b]} ∪ B ⊆@{gset Z} list_to_set (seqZ 0 m)) as Hsub.
  { intros x Hx. rewrite elem_of_list_to_set, elem_of_seqZ.
    apply elem_of_union in Hx as [->%elem_of_singleton|Hx]; [lia|]. specialize (Hin x Hx). lia. }
  apply subseteq_size in Hsub.
  rewrite size_union, size_singleton, size_list_to_set, length_seqZ in Hsub
    by (apply NoDup_seqZ || set_solver). lia.
Qed.

(** Offset [x] of a file that had the blocks [B] when it was opened lies in one
    of them or in a chunk written since. *)
Definition backed (B : gset Z) (chunks : list (Z * Z)) (x : Z) : Prop :=
  x / kStatBlockSize ∈ B ∨ ∃ o n, (o, n) ∈ chunks ∧ o <= x < o + n.

Lemma prefix_backed (B : gset Z) keep start requested chunks x :
  (start = 0 ∨ start = keep ∧ keep <= Z.of_nat (size B) * kStatBlockSize) →
  (∀ b, b ∈ B → 0 <= b ∧ b * kStatBlockSize < keep) →
  tiles start requested chunks → 0 <= x < requested → backed B chunks x.
Proof.
  unfold backed, kStatBlockSize. intros Hs HB Ht Hx.
  destruct (Z.lt_ge_cases x start) as [Hlt|Hge];
    [left|right; eapply tiles_cover; [exact Ht|lia]].
  destruct Hs as [->|[-> Hs]]; [lia|].
  apply (full_prefix B ((keep + 511) / 512)).
  - intros b Hb. specialize (HB b Hb). split; [lia|].
    apply Z.lt_le_trans with (b + 1); [lia|]. apply Z.div_le_lower_bound; lia.
  - apply Z.lt_succ_r, Z.div_lt_upper_bound; lia.
  - split; [apply Z.div_pos; lia|]. apply Z.lt_le_trans with (x / 512 + 1); [lia|].
    apply Z.div_le_lower_bound; [lia|]. pose proof (Z.mul_div_le x 512). lia.
Qed.

Section parts.
Context `{RamEnv}.

(** C19: A swap file that is prepared has the requested size, and zeroes are
    written, in chunks of at most 4 MiB that follow each other without gap,
    from a point on to the end and then synced; before that point lie only
    bytes that the file had already, and for which it had at least as many
    bytes of blocks.  So when the blocks counted in [st_blocks] all lie in the
    part that is kept, no hole is left: every byte lies in one of these blocks
    or was written.  ([holes_survive] shows that this needs the blocks to lie
    there.) *)
Theorem prepare_swap_file_no_holes eintr_limit `{!RamEnvLaws eintr_limit} fuel requested s :
  (eintr_limit < fuel)%nat → stat_ok → 0 <= requested < 2 ^ 63 →
  ∃ res s', PrepareSwapFile fuel requested s = Done (res, s') ∧
    rp_swap_on s' = rp_swap_on s ∧
    (res = kOk →
     rp_file s' = true ∧
     ∃ s1 st_size st_blocks start chunks before,
       fstat_data s1 = (true, st_size, st_blocks) ∧
       (start = 0 ∨ (start = Z.min (Z.max 0 st_size) requested ∧
                     start <= st_blocks * kStatBlockSize)) ∧
       tiles start requested chunks ∧
       rp_log s' = before ++ (CFtruncate requested, 0) ::
                   (written 0 <$> chunks) ++ [(CFsync, 0)] ∧
       ∀ B : gset Z, Z.of_nat (size B) = st_blocks →
         (∀ b, b ∈ B → 0 <= b ∧ b * kStatBlockSize < Z.min (Z.max 0 st_size) requested) →
         ∀ x, 0 <= x < requested → backed B chunks x).
Proof.
  intros Hf Hstat Hreq.
  destruct (wp_result _ _ _ (prepare_swap_file_run eintr_limit fuel requested s Hf Hstat Hreq))
    as (res & s' & E & (Eon & _) & Hok).
  exists res, s'. split; [done|]. split; [done|]. intros Hres.
  destruct (Hok Hres) as (Hfile & s1 & st_size & st_blocks & l & pre & Hfs &
    (start & Hs & Ht) & Hlog).
  split; [done|]. exists s1, st_size, st_blocks, start, l, pre. split_and!; try done.
  - destruct Hs as [?|[-> ?]]; [by left|by right].
  - intros B HB Hin x Hx. eapply prefix_backed; [|exact Hin|exact Ht|exact Hx].
    destruct Hs as [?|[-> ?]]; [by left|right]. by rewrite HB.
Qed.

(** C18: The number of blocks says nothing of where they are.  A file at least as
    large as requested, with as many bytes of blocks as requested anywhere in
    it (beyond the requested size, or in its last part), is kept without a
    write: when no call fails the calls are exactly these five and the file
    counts as prepared, whatever hole it has. *)
Theorem holes_survive fuel requested st_size (B : gset Z) s x :
  (∀ s' c, answer s' c = 0) →
  (∀ s', fstat_data s' = (true, st_size, Z.of_nat (size B))) →
  0 <= x < requested → requested <= st_size → st_size < 2 ^ 63 →
  requested <= Z.of_nat (size B) * kStatBlockSize < 2 ^ 64 →
  x / kStatBlockSize ∉ B →
  ∃ s', PrepareSwapFile (S fuel) requested s = Done (kOk, s') ∧
    rp_log s' = rp_log s ++ [(open_swap_call, 0); (CFstat, 0); (CFchmod mode_file, 0);
                             (CFtruncate requested, 0); (CFsync, 0)] ∧
    ¬ backed B [] x.
Proof.
  intros Hans Hst Hx Hsz Hlt [Hbl Hbl'] Hhole. unfold kStatBlockSize in *.
  assert (∀ c (f : Z → KM rp PrepareResult) s0,
    (r ← syscall c; f r) s0 = f 0 (log_call c 0 (call_effect c s0))) as Hcall.
  { intros c f s0. unfold mbind, km_bind, syscall. by rewrite Hans. }
  unfold PrepareSwapFile. erewrite bind_done.
  2:{ cbn [temp_failure_retry]. unfold mbind, km_bind, syscall. rewrite Hans.
      change (0 =? EINTR) with false. reflexivity. }
  change (0 =? 0) with true. cbv iota. cbn [negb]. rewrite bind_gets, Hcall, Hst.
  change (0 =? 0) with true. cbn [negb]. rewrite Hcall. change (0 =? 0) with true. cbn [negb].
  cbv zeta. unfold kStatBlockSize.
  destruct (Z.ltb_spec 0 (Z.of_nat (size B))); [|lia]. destruct (Z.ltb_spec 0 st_size); [|lia].
  rewrite wrapu_small by (unfold in_u; lia).
  rewrite (Z.min_r (_ * _) requested) by lia. unfold HasAllocationSpace.
  rewrite Z.leb_refl, bind_ret, Hcall. change (0 =? 0) with true. cbn [negb].
  rewrite (Z.min_r st_size) by lia.
  destruct (Z.ltb_spec (Z.of_nat (size B) * 512) requested); [lia|].
  unfold write_fuel. cbn [WriteZeroes]. rewrite Z.ltb_irrefl, bind_ret. cbn [negb].
  rewrite Hcall. change (0 =? 0) with true. cbn [negb].
  eexists. split; [reflexivity|]. split.
  - cbn. by rewrite <- !app_assoc.
  - intros [?|(o & n & Hin & _)]; [done|by apply elem_of_nil in Hin].
Qed.

(** [WriteZeroes] writes the range from [start] to [end_] exactly once, in
    order and in chunks of at most 4 MiB, and stops at the first write that
    fails; the loop ends whatever the sizes. *)
Theorem write_zeroes_correct start end_ s :
  0 <= start <= end_ → end_ < 2 ^ 63 →
  ∃ ok s' mid chunks,
    WriteZeroes (write_fuel start end_) start end_ s = Done (ok, s') ∧
    tiles start mid chunks ∧
    if ok then mid = end_ ∧ rp_log s' = rp_log s ++ (written 0 <$> chunks)
    else ∃ n r, mid + n <= end_ ∧ r ≠ 0 ∧
           rp_log s' = rp_log s ++ (written 0 <$> chunks) ++ [written r (mid, n)].
Proof.
  intros Hs He.
  destruct (wp_result _ _ _ (write_zeroes_total start end_ s Hs He))
    as (ok & s' & E & _ & mid & l & Ht & Hok).
  by exists ok, s', mid, l.
Qed.

(** C20: [HasAllocationSpace], whatever the file system answers.  When the file
    already has the requested bytes there is room, and the file system is not
    asked (nor the reserve kept); when it cannot be asked the answer is unknown.
    Otherwise there is room exactly when the missing bytes and the reserve of
    4 GiB, whose sum does not wrap, are at most the available bytes as the code
    computes them modulo 2^64: so room is never claimed without that much
    available, and it is claimed whenever that much is available and fits. *)
Theorem has_allocation_space_correct current requested s :
  0 <= current < 2 ^ 63 → 0 <= requested < 2 ^ 63 →
  0 <= fst (statvfs_data s) → 0 <= snd (statvfs_data s) →
  let need := requested - current + 4294967296 in
  let available := fst (statvfs_data s) * snd (statvfs_data s) in
  if decide (requested <= current)
  then HasAllocationSpace current requested s = Done (Some true, s)
  else
    let r := answer s (CStatvfs kDataPath) in
    let s' := log_call (CStatvfs kDataPath) r s in
    if decide (r = 0)
    then ∃ room, HasAllocationSpace current requested s = Done (Some room, s') ∧
      room = bool_decide (need <= available mod 2 ^ 64) ∧
      (room = true → need <= available) ∧
      (need <= available < 2 ^ 64 → room = true)
    else HasAllocationSpace current requested s = Done (None, s').
Proof.
  intros Hc Hr Hf Hb. cbv zeta. unfold HasAllocationSpace.
  destruct (Z.leb_spec requested current); case_decide; try lia; [done|].
  kred. unfold syscall. erewrite bind_done by reflexivity. cbn [call_effect].
  replace (if answer s (CStatvfs kDataPath) =? 0 then s else s) with s by (by destruct (_ =? 0)).
  destruct (Z.eqb_spec (answer s (CStatvfs kDataPath)) 0); case_decide; try done; cbn [negb].
  unfold kDefaultReserveMib, kBytesPerMib. change (4096 * 1048576) with 4294967296.
  rewrite (wrapu_small 64 4294967296) by done.
  rewrite (wrapu_small 64 (requested - current)) by (unfold in_u; pow2_norm; lia).
  rewrite (wrapu_small 64 (_ + _)) by (unfold in_u; pow2_norm; lia).
  set (a := fst _ * _). assert (0 <= a) by (unfold a; nia). clearbody a.
  assert (u64 a = a mod 2 ^ 64) as -> by done.
  pose proof (Z.mod_le a (2 ^ 64) ltac:(lia) ltac:(lia)).
  eexists. split; [reflexivity|].
  destruct (Z.leb_spec (requested - current + 4294967296) (a mod 2 ^ 64)) as [|Hno].
  - rewrite bool_decide_eq_true_2 by done. split_and!; [done|lia|done].
  - rewrite bool_decide_eq_false_2 by lia. split_and!; [done|done|].
    intros Ha. rewrite Z.mod_small in Hno by lia. lia.
Qed.

(** The loop's invariant: [acc] is the minimum of what was seen before. *)
Lemma lowest_zram_app es e :
  FindLowestZramPriority (es ++ [e]) =
    if is_zram e then
      Some (match FindLowestZramPriority es with
            | Some p => Z.min p (se_priority e)
            | None => se_priority e
            end)
    else FindLowestZramPriority es.
Proof.
  unfold FindLowestZramPriority. rewrite foldl_app. cbn [foldl].
  destruct (is_zram e); cbn [negb]; [|done]. by case_match.
Qed.

Lemma elem_snoc (x e : SwapEntry) es : x ∈ es ++ [e] ↔ x ∈ es ∨ x = e.
Proof. by rewrite elem_of_app, list_elem_of_singleton. Qed.

(** The lowest priority of the zram devices, if there is one. *)
Theorem find_lowest_zram_correct es :
  match FindLowestZramPriority es with
  | None => ∀ e, e ∈ es → is_zram e = false
  | Some p => (∃ e, e ∈ es ∧ is_zram e = true ∧ se_priority e = p) ∧
              ∀ e, e ∈ es → is_zram e = true → p <= se_priority e
  end.
Proof.
  induction es as [|e es IH] using rev_ind.
  { cbn. intros e He. by apply elem_of_nil in He. }
  rewrite lowest_zram_app. destruct (is_zram e) eqn:Ez.
  - destruct (FindLowestZramPriority es) as [p|]; setoid_rewrite elem_snoc.
    + destruct IH as [(e' & Hin & Hz & Hp) Hle]. split.
      * destruct (Z.min_spec p (se_priority e)) as [[_ ->]|[_ ->]];
          [by exists e'; auto|by exists e; auto].
      * intros x [Hx| ->] Hzx; [specialize (Hle x Hx Hzx); lia|lia].
    + split; [by exists e; auto|]. intros x [Hx| ->] Hzx; [|lia].
      by rewrite (IH x Hx) in Hzx.
  - destruct (FindLowestZramPriority es) as [p|]; setoid_rewrite elem_snoc.
    + destruct IH as [(e' & Hin & Hz & Hp) Hle]. split; [by exists e'; auto|].
      intros x [Hx| ->] Hzx; [by apply Hle|congruence].
    + intros x [Hx| ->]; auto.
Qed.

Lemma set_property_run k v s :
  answer s (CSetProp k v) = 0 →
  SetProperty k v s = Done (true, log_call (CSetProp k v) 0 (call_effect (CSetProp k v) s)).
Proof. intros Ha. unfold SetProperty, syscall, mbind, km_bind. by rewrite Ha. Qed.

(** C30: A disable request whose [swapoff] fails publishes a size of 0 although the
    kernel still swaps on the file. *)
Theorem swapoff_failure_reports_zero retry_fuel s :
  rp_swap_on s = true →
  GetBoolProperty kSupportedProp false s = Done (true, s) →
  (∃ prop, GetProperty kRequestedSizeProp "" s = Done (prop, s) ∧ parse_uint32 prop = Some 0) →
  answer s (CSwapoff kSwapPath) ∉ [0; EINVAL; ENOENT] →
  (∀ s' k v, answer s' (CSetProp k v) = 0) →
  ∃ s', main retry_fuel s = Done (1, s') ∧ rp_swap_on s' = true ∧ shows s' 0 "swapoff_failed".
Proof.
  intros Hon Hsup (prop & Hprop & Hparse) Hoff Hset. unfold main.
  rewrite (bind_done _ _ _ _ _ Hsup). cbn [negb].
  rewrite (bind_done _ _ _ _ _ Hprop), Hparse. cbn.
  unfold DisableSwap, syscall. kred.
  repeat rewrite not_elem_of_cons in Hoff. destruct Hoff as (H1 & H2 & H3 & _).
  erewrite bind_done by reflexivity.
  destruct (Z.eqb_spec (answer s (CSwapoff kSwapPath)) 0); [done|].
  destruct (Z.eqb_spec (answer s (CSwapoff kSwapPath)) EINVAL); [done|].
  destruct (Z.eqb_spec (answer s (CSwapoff kSwapPath)) ENOENT); [done|]. cbn [orb]. kred. cbn [negb].
  unfold Fail, PublishStatus. krun (set_property_run kActiveSizeProp (fmt_int 0) _ (Hset _ _ _)).
  krun (set_property_run kStatusProp "swapoff_failed" _ (Hset _ _ _)).
  eexists. split; [reflexivity|]. split; [exact Hon|].
  split; cbn [log_call call_effect rp_props].
  - rewrite lookup_insert_ne by done. by rewrite lookup_insert_eq.
  - by rewrite lookup_insert_eq.
Qed.
End parts.
