(* ===== verification/RamPlusFlow.v ===== *)
(** * RAM Plus: the two programs together, and concrete runs

    The setup service and the lmkd hooks read the same file with different
    libraries; they find the same size.  The rest are concrete systems on which
    the theorems about the service are run. *)

From S2P Require Import Prelude KMonad KString ProcSwaps Hooks RamPlus.
From S2P Require Lmkd.

#[local] Open Scope Z_scope.

(** ** The same file *)

Definition entry_of (l : swap_line) : SwapEntry :=
  MkSwapEntry (String.string_of_list_ascii (sl_path l)) (decimal (sl_size l))
    (priority_value l).

Lemma stream_uint64_run ds c r :
  digits_of ds → c_isspace c = true → decimal ds < 2 ^ 63 →
  stream_uint64 (ds ++ c :: r) = Some (decimal ds, c :: r).
Proof.
  intros Hd Hc Hlt. unfold stream_uint64. rewrite (scan_number_app ds c r Hd Hc). cbn.
  pose proof (decimal_nonneg _ Hd).
  destruct (Z.ltb_spec (- 2 ^ 64) (decimal ds)); [|pow2_norm; lia].
  destruct (Z.ltb_spec (decimal ds) (2 ^ 64)); [|pow2_norm; lia].
  cbn [andb]. rewrite wrapu_small; [done|]. unfold in_u. pow2_norm. lia.
Qed.

Lemma stream_uint64_blank c s : c_isspace c = true → stream_uint64 (c :: s) = stream_uint64 s.
Proof. intros Hc. unfold stream_uint64. by rewrite scan_number_blank. Qed.

Lemma stream_uint64_field b ds b' s :
  spaces b → digits_of ds → blanks b' → decimal ds < 2 ^ 63 →
  stream_uint64 (b ++ ds ++ b' ++ s) = Some (decimal ds, b' ++ s).
Proof.
  intros Hb Hd (c & b'' & -> & Hc)%blanks_cons Hlt. cbn [app].
  rewrite <- (stream_uint64_run ds c (b'' ++ s) Hd Hc Hlt).
  unfold stream_uint64. by rewrite scan_number_blanks.
Qed.

Lemma scan_word_long b w b' s n :
  spaces b → word_of w → blanks b' → n = length (b ++ w ++ b' ++ s) →
  scan_word n (b ++ w ++ b' ++ s) = Some (w, b' ++ s).
Proof.
  intros Hb Hw Hb' ->. apply scan_word_field; [done|done| |done]. rewrite !length_app. lia.
Qed.

Lemma stream_entry_run l t r b :
  line_ok l → line_text l t → spaces b →
  stream_entry (b ++ t ++ r) = Some (entry_of l, NEWLINE :: r).
Proof.
  intros Hl Ht Hb. pose proof (priority_range l Hl) as Hprio.
  destruct Hl as (Hp & _ & Hty & _ & Hs & Hsl & Hu & Hul & Hd & _).
  destruct Ht as [b1 b2 b3 b4 H1 H2 H3 H4]. unfold stream_entry. rewrite <- !app_assoc. cbn [app].
  rewrite (scan_word_long b _ b1) by done. cbn [mbind option_bind].
  rewrite (scan_word_long b1 _ b2) by (done || by apply blanks_spaces). cbn [mbind option_bind].
  rewrite (stream_uint64_field b2 _ b3) by (done || by apply blanks_spaces).
  cbn [mbind option_bind].
  rewrite (stream_uint64_field b3 _ b4) by (done || by apply blanks_spaces).
  cbn [mbind option_bind]. unfold stream_int.
  rewrite scan_priority_field by (done || by apply blanks_spaces). cbn [mbind option_bind].
  destruct (Z.leb_spec (- 2 ^ 31) (priority_value l)); [|lia].
  destruct (Z.ltb_spec (priority_value l) (2 ^ 31)); [|lia]. done.
Qed.

Lemma stream_entries_run ls t b fuel :
  Forall line_ok ls → lines_text ls t → spaces b → (length ls < fuel)%nat →
  stream_entries fuel (b ++ t) = Some (entry_of <$> ls).
Proof.
  intros Hls Ht. revert b fuel Hls.
  induction Ht as [|l ls s t Hs Ht IH]; intros b fuel Hls Hb Hf;
    (destruct fuel as [|fuel]; [lia|]); cbn [stream_entries].
  - unfold stream_entry. rewrite app_nil_r. by rewrite scan_word_all_blank.
  - inversion_clear Hls as [|? ? Hl Hls'].
    rewrite (stream_entry_run l s t b Hl Hs Hb).
    change (NEWLINE :: t) with ([NEWLINE] ++ t).
    rewrite IH; [done|done|by constructor|cbn in Hf; lia].
Qed.

Lemma drop_line_header header r :
  Forall (λ c, Ascii.eqb NEWLINE c = false) header →
  drop_line (header ++ NEWLINE :: r) = r.
Proof.
  intros Hh. unfold drop_line. rewrite span_app; [done|done| |by left].
  rewrite length_app. lia.
Qed.

Lemma swap_path_text l :
  se_path (entry_of l) = RamPlus.kSwapPath ↔ sl_path l = Lmkd.kSwapPath.
Proof.
  cbn. unfold RamPlus.kSwapPath, Lmkd.kSwapPath. split.
  - intros E. apply (f_equal String.list_ascii_of_string) in E.
    by rewrite String.list_ascii_of_string_of_list_ascii in E.
  - intros ->. reflexivity.
Qed.

Lemma find_entry ls :
  snd <$> list_find (λ e, se_path e = RamPlus.kSwapPath) (entry_of <$> ls)
  = entry_of <$> (snd <$> list_find (λ l, sl_path l = Lmkd.kSwapPath) ls).
Proof.
  induction ls as [|l ls IH]; [done|]. rewrite fmap_cons. cbn [list_find].
  pose proof (swap_path_text l).
  destruct (decide (se_path (entry_of l) = RamPlus.kSwapPath)),
    (decide (sl_path l = Lmkd.kSwapPath)); try tauto.
  destruct (list_find _ ls) as [[]|], (list_find _ (entry_of <$> ls)) as [[]|]; done.
Qed.

(** C22: The service and lmkd agree: on a [/proc/swaps] of a header line and one
    line per swap area, with any spaces and tabs between the fields (so also
    with the columns of the kernel), the size of the RAM Plus swap that the
    service finds with a C++ stream, and publishes, is the one that lmkd's hook
    finds with [fscanf], and 0 when the service finds none. *)
Theorem service_lmkd_agree `{RamEnv} ls s g :
  Forall line_ok ls → swaps_text ls (proc_swaps s) → answer s CReadSwaps = 0 →
  ∃ found s',
    FindRamPlusSwap s = Done (found, s') ∧
    found = entry_of <$> (snd <$> list_find (λ l, sl_path l = Lmkd.kSwapPath) ls) ∧
    Lmkd.lmkd_update_props_hook (Some (proc_swaps s)) g
    = Done (true, from_option se_size_kb 0 found).
Proof.
  intros Hls Hfile Hans.
  exists (snd <$> list_find (λ e, se_path e = RamPlus.kSwapPath) (entry_of <$> ls)),
    (log_call CReadSwaps 0 s).
  split; [|split; [apply find_entry|]].
  - unfold FindRamPlusSwap, ReadSwapEntries. kred.
    destruct Hfile as [header body Hh Hlen Hb].
    unfold syscall at 1. erewrite bind_done by reflexivity. rewrite Hans. cbn [Z.eqb negb].
    rewrite drop_line_header by done. pose proof (lines_text_length ls body Hb).
    pose proof (stream_entries_run ls body [] (S (length body)) Hls Hb) as Hrun.
    cbn [app] in Hrun. rewrite Hrun; [done|constructor|lia].
  - rewrite find_entry. unfold Lmkd.lmkd_update_props_hook.
    rewrite (Lmkd.read_swaps ls) by done. unfold Lmkd.ram_plus_kb.
    by destruct (list_find _ ls) as [[i l]|].
Qed.

(** ** Concrete systems *)

(** A system on which every call succeeds but those [refuse] gives an errno
    for; the file starts empty and 8 GiB of blocks are available. *)
Definition sample_ram (refuse : call → Z) : RamEnv := {|
  answer _ c := refuse c;
  proc_swaps s := sample_swaps (rp_swap_on s);
  lstat_is_dir _ := true;
  statvfs_data _ := (2097152, 4096);
  fstat_data _ := (true, 0, 0);
  mkswap_exited_0 _ := true;
  parse_bool v := if String.eqb v "true" then Some true
                  else if String.eqb v "false" then Some false else None;
  parse_uint32 v :=
    match scan_number (String.list_ascii_of_string v) with
    | Some (n, []) => if (0 <=? n) && (n <? 2 ^ 32) then Some n else None
    | _ => None
    end
|}.

Definition all_succeed : RamEnv := sample_ram (λ _, 0).

(** [swapoff] fails with EBUSY. *)
Definition busy : RamEnv := sample_ram (λ c, match c with CSwapoff _ => 16 | _ => 0 end).

Lemma all_succeed_laws : @RamEnvLaws all_succeed 0.
Proof. split; cbn; [by intros s [?|?]|done|by intros]. Qed.

Definition ram_props (size : string) : gmap string string :=
  <["persist.sys.ax_rp_supp" := "true"]>
    (<["persist.sys.ax_rp_size_mb" := size]>
      (<["ro.crypto.metadata.enabled" := "true"]> ∅)).

Definition ram_state (size : string) (on : bool) : rp := RP (ram_props size) on on [].

Lemma stat_ok_sample refuse : @stat_ok (sample_ram refuse).
Proof. intros s. cbn. unfold kStatBlockSize. pow2_norm. lia. Qed.

Lemma main_correct_witness :
  ∃ ret s', @main all_succeed 1 (ram_state "2048" false) = Done (ret, s') ∧
    @main_outcome all_succeed (ram_state "2048" false) ret s'.
Proof.
  apply (@main_correct all_succeed 0 all_succeed_laws 1 (ram_state "2048" false)).
  - lia.
  - apply stat_ok_sample.
Defined.

(** On this system the outcome is an active swap. *)
Lemma main_activates :
  match @main all_succeed 1 (ram_state "2048" false) with
  | Done (ret, s') => ret = 0 ∧ rp_swap_on s' = true ∧ shows s' 2097148 "active"
  | _ => False
  end.
Proof. vm_compute. done. Qed.

Lemma prepare_swap_file_no_holes_witness :
  ∃ res s', @PrepareSwapFile all_succeed 1 2147483648 (ram_state "2048" false) = Done (res, s') ∧
    rp_swap_on s' = false.
Proof.
  destruct (@prepare_swap_file_no_holes all_succeed 0 all_succeed_laws 1 2147483648
              (ram_state "2048" false))
    as (res & s' & E & Hon & _); [lia|apply stat_ok_sample|pow2_norm; lia|].
  exists res, s'. split; [exact E|exact Hon].
Defined.

(** The file was 8 GiB large with blocks in its second half only, and 4 GiB are
    requested: nothing of the hole is written. *)
Definition upper_half : gset Z := list_to_set (seqZ 8388608 8388608).

Lemma upper_half_size : Z.of_nat (size upper_half) = 8388608.
Proof.
  unfold upper_half. rewrite size_list_to_set by apply NoDup_seqZ.
  rewrite length_seqZ. lia.
Qed.

Lemma upper_half_hole x : 0 <= x < 4294967296 → x / 512 ∉ upper_half.
Proof.
  unfold upper_half. rewrite elem_of_list_to_set, elem_of_seqZ. intros Hx [Hle _].
  assert (x / 512 < 8388608) by (apply Z.div_lt_upper_bound; lia). lia.
Qed.

Definition sparse_ram : RamEnv := {|
  answer _ _ := 0;
  proc_swaps := @proc_swaps all_succeed;
  lstat_is_dir _ := true;
  statvfs_data _ := (2097152, 4096);
  fstat_data _ := (true, 8589934592, Z.of_nat (size upper_half));
  mkswap_exited_0 _ := true;
  parse_bool := @parse_bool all_succeed;
  parse_uint32 := @parse_uint32 all_succeed
|}.

Lemma holes_survive_witness :
  ∃ s', @PrepareSwapFile sparse_ram 1 4294967296 (ram_state "4096" false) = Done (kOk, s') ∧
    rp_log s' = [(open_swap_call, 0); (CFstat, 0); (CFchmod mode_file, 0);
                 (CFtruncate 4294967296, 0); (CFsync, 0)] ∧
    ¬ backed upper_half [] 0.
Proof.
  apply (@holes_survive sparse_ram 0 4294967296 8589934592 upper_half (ram_state "4096" false) 0).
  - intros s c. reflexivity.
  - intros s. reflexivity.
  - lia.
  - lia.
  - lia.
  - rewrite upper_half_size. unfold kStatBlockSize. lia.
  - apply (upper_half_hole 0). lia.
Defined.

Lemma write_zeroes_correct_witness :
  ∃ ok s' mid chunks,
    @WriteZeroes all_succeed (write_fuel 100 10000000) 100 10000000 (ram_state "2048" false)
    = Done (ok, s') ∧ tiles 100 mid chunks.
Proof.
  destruct (@write_zeroes_correct all_succeed 100 10000000 (ram_state "2048" false))
    as (ok & s' & mid & chunks & E & Ht & _); [lia|pow2_norm; lia|].
  exists ok, s', mid, chunks. split; [exact E|exact Ht].
Defined.

Lemma has_allocation_space_correct_witness :
  ∃ s', @HasAllocationSpace all_succeed 0 8589934592 (ram_state "8192" false)
        = Done (Some false, s').
Proof.
  assert (0 <= fst (@statvfs_data all_succeed (ram_state "8192" false))) as H1 by (cbn; lia).
  assert (0 <= snd (@statvfs_data all_succeed (ram_state "8192" false))) as H2 by (cbn; lia).
  pose proof (@has_allocation_space_correct all_succeed 0 8589934592 (ram_state "8192" false)
    ltac:(pow2_norm; lia) ltac:(pow2_norm; lia) H1 H2) as H.
  rewrite decide_False in H by lia. rewrite decide_True in H by reflexivity.
  destruct H as (room & E & Hroom & _).
  assert (room = false) as -> by (rewrite Hroom; reflexivity). eexists. exact E.
Defined.

Lemma swapoff_failure_reports_zero_witness :
  ∃ s', @main busy 1 (ram_state "0" true) = Done (1, s') ∧ rp_swap_on s' = true ∧
        shows s' 0 "swapoff_failed".
Proof.
  apply (@swapoff_failure_reports_zero busy 1 (ram_state "0" true)).
  - reflexivity.
  - vm_compute. reflexivity.
  - exists "0". split; vm_compute; reflexivity.
  - apply (bool_decide_unpack (16 ∉ [0; EINVAL; ENOENT])). vm_compute. done.
  - intros. reflexivity.
Defined.

Lemma service_lmkd_agree_witness :
  ∃ found s',
    @FindRamPlusSwap all_succeed (ram_state "2048" true) = Done (found, s') ∧
    found = Some (entry_of file_line) ∧
    Lmkd.lmkd_update_props_hook (Some (@proc_swaps all_succeed (ram_state "2048" true))) 0
    = Done (true, from_option se_size_kb 0 found).
Proof.
  apply (@service_lmkd_agree all_succeed (sample_lines true) (ram_state "2048" true) 0).
  - exact (sample_lines_ok true).
  - exact (sample_swaps_text true).
  - reflexivity.
Defined.
