(* ===== verification/RamPlusProtocol.v ===== *)
(** * The protocol of the RAM Plus setup service

    The order of the system calls of ax_ram_plus_setup.cpp as an automaton: the
    swap file is resized, written, formatted and removed only while the kernel
    does not swap on it, each step of the preparation follows the one before,
    and only a formatted file is activated and only an active one announced.
    The arguments of the calls are part of the protocol.  Every run of [main] is
    accepted by the automaton. *)

From S2P Require Import Prelude KMonad KString ProcSwaps Hooks RamPlus RamPlusFlow.

#[local] Open Scope Z_scope.

(** ** The automaton *)

Inductive phase :=
  | Unknown                                    (* an earlier run may have left a swap *)
  | Off                                        (* the kernel does not swap on the file *)
  | Zeroing (next : option Z)                  (* resized, written up to [next] *)
  | Synced
  | Formatting
  | Formatted
  | On.                                        (* the kernel swaps on the file *)

Definition is_off (p : phase) : bool :=
  match p with Unknown | On => false | _ => true end.

Definition is_nofollow (f : open_flag) : bool :=
  match f with O_NOFOLLOW => true | _ => false end.

Definition is_on (p : phase) : bool :=
  match p with On => true | _ => false end.

(** [b] must hold; the phase after a call is [p]. *)
Definition need (b : bool) (p : phase) : option phase := if b then Some p else None.

(** The arguments a call may have: the service works on its own directory and
    file only, gives them no permissions for others, never follows a symbolic
    link at the file's name, formats the file with mkswap, activates it without
    flags, and sets its own two properties. *)
Definition confined (c : call) : bool :=
  match c with
  | CSetProp key _ => String.eqb key kActiveSizeProp || String.eqb key kStatusProp
  | CSleep ms => ms =? kZramPollInterval
  | CLstat path => String.eqb path kRamPlusPath
  | CMkdir path mode | CChmod path mode =>
      String.eqb path kRamPlusPath && (mode &. 0x3f =? 0)
  | CStatvfs path => String.eqb path kDataPath
  | COpen path flags mode =>
      String.eqb path kSwapPath && existsb is_nofollow flags && (mode &. 0x3f =? 0)
  | CFchmod mode => mode &. 0x3f =? 0
  | CFork argv => bool_decide (argv = [kMkswapPath; kSwapPath])
  | CSwapoff path | CUnlink path => String.eqb path kSwapPath
  | CSwapon path flags => String.eqb path kSwapPath && (flags =? 0)
  | _ => true
  end.

(** A call with its answer in a run for a file of [size] bytes; [None] is a
    violation of the protocol. *)
Definition step (size : Z) (p : phase) (x : call * Z) : option phase :=
  let '(c, r) := x in
  if negb (confined c) then None else
  match c with
  | CSwapoff _ => Some (if (r =? 0) || (r =? EINVAL) || (r =? ENOENT) then Off else p)
  | CFtruncate n => need (is_off p && (n =? size)) (if r =? 0 then Zeroing None else Off)
  | CWrite offset n =>
      match p with
      | Zeroing next =>
          need (bool_decide (from_option id offset next = offset) &&
                (0 <? n) && (n <=? kWriteChunkBytes) && (offset + n <=? size))
            (if r =? 0 then Zeroing (Some (offset + n)) else Off)
      | _ => None
      end
  | CFsync =>
      match p with
      | Zeroing next =>
          need (from_option id size next =? size) (if r =? 0 then Synced else Off)
      | _ => None
      end
  | CFork _ => match p with Synced => Some (if r =? 0 then Formatting else Off) | _ => None end
  | CWaitpid =>
      match p with
      | Formatting =>
          Some (if r =? EINTR then Formatting else if r =? 0 then Formatted else Off)
      | _ => None
      end
  | CSwapon _ _ => match p with Formatted => Some (if r =? 0 then On else Off) | _ => None end
  | CUnlink _ => need (is_off p) Off
  | CSetProp key value =>
      if String.eqb key kStatusProp then
        if String.eqb value "active" then need (is_on p) p
        else if String.eqb value "disabled" then need (is_off p) p
        else Some p
      else Some p
  | _ => Some p
  end.

Fixpoint accepts (size : Z) (p : phase) (l : list (call * Z)) : option phase :=
  match l with
  | [] => Some p
  | x :: l => p' ← step size p x; accepts size p' l
  end.

(** The phase is right about the kernel. *)
Definition phase_ok (p : phase) (s : rp) : Prop :=
  (is_off p = true → rp_swap_on s = false) ∧ (is_on p = true → rp_swap_on s = true).

(** ** Programs that keep the protocol *)

Lemma accepts_app size p l1 l2 :
  accepts size p (l1 ++ l2) = p' ← accepts size p l1; accepts size p' l2.
Proof.
  revert p. induction l1 as [|x l1 IH]; intros p; cbn; [done|].
  destruct (step size p x) as [p'|]; cbn; [apply IH|done].
Qed.

Section guarded.
Context `{RamEnv} {eintr_limit : nat} `{!RamEnvLaws eintr_limit} (size : Z).

(** Runs of [m] in phase [p] make only accepted calls and end in a phase that
    satisfies [Q] together with the result. *)
Definition guarded {A} (p : phase) (m : KM rp A) (Q : A → phase → Prop) : Prop :=
  ∀ s a s', phase_ok p s → m s = Done (a, s') →
  ∃ l p', rp_log s' = rp_log s ++ l ∧ accepts size p l = Some p' ∧ phase_ok p' s' ∧ Q a p'.

Lemma guarded_ret {A} p (a : A) (Q : A → phase → Prop) : Q a p → guarded p (mret a) Q.
Proof.
  intros Hq s b s' Hp [= <- <-]. exists [], p. by rewrite app_nil_r.
Qed.

Lemma guarded_gets {A} p (f : rp → A) (Q : A → phase → Prop) :
  (∀ a, Q a p) → guarded p (gets f) Q.
Proof.
  intros Hq s b s' Hp [= <- <-]. exists [], p. by rewrite app_nil_r.
Qed.

Lemma guarded_out_of_fuel {A} p (Q : A → phase → Prop) : guarded p out_of_fuel Q.
Proof. done. Qed.

Lemma guarded_mono {A} p (m : KM rp A) (Q R : A → phase → Prop) :
  guarded p m Q → (∀ a p', Q a p' → R a p') → guarded p m R.
Proof.
  intros Hm Hqr s a s' Hp E. destruct (Hm s a s' Hp E) as (l & p' & ? & ? & ? & ?).
  exists l, p'. eauto.
Qed.

Lemma guarded_bind {A B} p (m : KM rp A) (f : A → KM rp B) R Q :
  guarded p m R → (∀ a p', R a p' → guarded p' (f a) Q) → guarded p (m ≫= f) Q.
Proof.
  intros Hm Hf s b s' Hp E. unfold mbind, km_bind in E.
  destruct (m s) as [[a s1]| |] eqn:E1; try done.
  destruct (Hm s a s1 Hp E1) as (l1 & p1 & Hl1 & Ha1 & Hp1 & Hr).
  destruct (Hf a p1 Hr s1 b s' Hp1 E) as (l2 & p2 & Hl2 & Ha2 & Hp2 & Hq).
  exists (l1 ++ l2), p2. rewrite accepts_app, Ha1, Hl2, Hl1, app_assoc. done.
Qed.

(** A call that concerns the use of a file concerns the swap file. *)
Lemma confined_path c :
  confined c = true →
  match c with
  | COpen path _ _ | CSwapoff path | CSwapon path _ | CUnlink path => String.eqb path kSwapPath = true
  | _ => True
  end.
Proof. destruct c; cbn [confined]; rewrite ?andb_true_iff; intuition. Qed.

(** What the automaton concludes from an answer is true of the kernel. *)
Lemma step_sound p c s p' :
  step size p (c, answer s c) = Some p' → phase_ok p s →
  phase_ok p' (log_call c (answer s c) (if answer s c =? 0 then call_effect c s else s)).
Proof.
  unfold phase_ok. intros Hstep [Hoff Hon]. unfold step in Hstep.
  destruct (confined c) eqn:Hc; cbn [negb] in Hstep; [|done].
  pose proof (confined_path c Hc) as Hpath.
  destruct c; cbn [call_effect]; try rewrite Hpath; unfold need in Hstep;
    repeat (case_match; try done); simplify_eq; cbn in *; split; try done; auto.
  all: intros _; first
    [ apply Hoff; by destruct (is_off p)
    | apply String.eqb_eq in Hpath; subst; apply swapoff_unused;
      rewrite !orb_true_iff, !Z.eqb_eq in *; intuition lia ].
Qed.

Lemma guarded_syscall p c (Q : Z → phase → Prop) :
  (∀ r, ∃ p', step size p (c, r) = Some p' ∧ Q r p') → guarded p (syscall c) Q.
Proof.
  intros Hq s r s' Hp [= <- <-]. destruct (Hq (answer s c)) as (p' & Hs & Hr).
  exists [(c, answer s c)], p'. split_and!; [|by cbn [accepts]; rewrite Hs|by eapply step_sound|done].
  cbn. destruct (_ =? 0); [by rewrite rp_log_effect|done].
Qed.

(** The rule of consequence for a program followed by a pure result. *)
Lemma guarded_call {A} p c (f : Z → KM rp A) Q :
  (∀ r, ∃ p', step size p (c, r) = Some p' ∧ guarded p' (f r) Q) →
  guarded p (syscall c ≫= f) Q.
Proof.
  intros Hf. apply (guarded_bind _ _ _ (λ r p', guarded p' (f r) Q)); [|done].
  by apply guarded_syscall.
Qed.

(** *** Calls the protocol does not mind *)

Definition neutral {A} (m : KM rp A) : Prop := ∀ p, guarded p m (λ _ p', p' = p).

Definition neutral_call (c : call) : bool :=
  confined c &&
  match c with
  | CReadSwaps | CSleep _ | CLstat _ | CMkdir _ _ | CChmod _ _ | CStatvfs _ | COpen _ _ _
  | CFstat | CFchmod _ => true
  | CSetProp key value =>
      negb (String.eqb key kStatusProp && (String.eqb value "active" || String.eqb value "disabled"))
  | _ => false
  end.

Lemma neutral_step c p r : neutral_call c = true → step size p (c, r) = Some p.
Proof.
  unfold neutral_call, step. intros [-> Hc]%andb_prop. cbn [negb].
  destruct c; try done. repeat (case_match; try done).
Qed.

Lemma neutral_syscall c : neutral_call c = true → neutral (syscall c).
Proof. intros Hc p. apply guarded_syscall. intros r. exists p. by rewrite neutral_step. Qed.

Lemma neutral_bind {A B} (m : KM rp A) (f : A → KM rp B) :
  neutral m → (∀ a, neutral (f a)) → neutral (m ≫= f).
Proof.
  intros Hm Hf p. eapply guarded_bind; [apply Hm|]. intros a p' ->. apply Hf.
Qed.

Lemma neutral_ret {A} (a : A) : neutral (mret a).
Proof. intros p. by apply guarded_ret. Qed.

Lemma neutral_gets {A} (f : rp → A) : neutral (gets f).
Proof. intros p. by apply guarded_gets. Qed.

Lemma neutral_out_of_fuel {A} : neutral (@out_of_fuel rp A).
Proof. intros p. apply guarded_out_of_fuel. Qed.

Lemma guarded_neutral {A B} p (m : KM rp A) (f : A → KM rp B) Q :
  neutral m → (∀ a, guarded p (f a) Q) → guarded p (m ≫= f) Q.
Proof. intros Hm Hf. eapply guarded_bind; [apply Hm|]. by intros a p' ->. Qed.
End guarded.

Ltac neutral_step :=
  first [ apply neutral_ret | apply neutral_gets | apply neutral_out_of_fuel
        | apply neutral_syscall; reflexivity | apply neutral_bind; [|intros ?] | case_match ].

(** ** The functions of the service *)

Section functions.
Context `{RamEnv} {eintr_limit : nat} `{!RamEnvLaws eintr_limit} (size : Z).

Lemma neutral_read_entries : neutral size ReadSwapEntries.
Proof. unfold ReadSwapEntries. cbv zeta. repeat neutral_step. Qed.

Lemma neutral_wait_zram n : neutral size (WaitForZramPriority n).
Proof.
  induction n as [|n IH]; cbn [WaitForZramPriority]; [neutral_step|].
  apply neutral_bind; [apply neutral_read_entries|intros ?]. repeat (exact IH || neutral_step).
Qed.

Lemma neutral_ensure_dir : neutral size EnsureDataDirectory.
Proof. unfold EnsureDataDirectory. repeat neutral_step. Qed.

Lemma neutral_open fuel : neutral size (temp_failure_retry open_swap_call fuel).
Proof. induction fuel; cbn [temp_failure_retry]; repeat (done || neutral_step). Qed.

Lemma neutral_space a b : neutral size (HasAllocationSpace a b).
Proof. unfold HasAllocationSpace. repeat neutral_step. Qed.

Lemma neutral_find_swap : neutral size FindRamPlusSwap.
Proof.
  unfold FindRamPlusSwap. apply neutral_bind; [apply neutral_read_entries|].
  intros ?. neutral_step.
Qed.

(** A status other than the two the protocol guards. *)
Definition plain (status : string) : bool :=
  negb (String.eqb status "active" || String.eqb status "disabled").

Lemma neutral_publish kb status : plain status = true → neutral size (PublishStatus kb status).
Proof.
  intros Hp. unfold PublishStatus, SetProperty.
  apply neutral_bind; [by repeat neutral_step|intros ?].
  apply neutral_bind; [|intros ?; neutral_step].
  apply neutral_bind; [|intros ?; neutral_step]. by apply neutral_syscall.
Qed.

Lemma neutral_fail status : plain status = true → neutral size (Fail status).
Proof.
  intros Hp. unfold Fail. apply neutral_bind; [by apply neutral_publish|].
  intros ?. neutral_step.
Qed.

(** A guarded status is published in the phase it needs, by both answers. *)
Lemma guarded_publish p kb status :
  (∀ r, step size p (CSetProp kStatusProp status, r) = Some p) →
  guarded size p (PublishStatus kb status) (λ _ p', p' = p).
Proof.
  intros Hs. unfold PublishStatus, SetProperty.
  eapply guarded_neutral; [by repeat neutral_step|intros a].
  eapply guarded_bind; [|intros b p' Hp'; apply guarded_ret; exact Hp'].
  apply guarded_call. intros r. exists p. split; [done|]. by apply guarded_ret.
Qed.

Lemma disable_swap_guarded p :
  guarded size p DisableSwap (λ ok p', p' = if ok then Off else p).
Proof.
  unfold DisableSwap. apply guarded_call. intros r. eexists. split; [reflexivity|].
  by apply guarded_ret.
Qed.

Lemma remove_file_guarded p : is_off p = true → guarded size p RemoveSwapFile (λ _ p', p' = Off).
Proof.
  intros Hp. unfold RemoveSwapFile. apply guarded_call. intros r. cbn. rewrite Hp.
  eexists. split; [reflexivity|]. by apply guarded_ret.
Qed.

(** How a failing run ends. *)
Definition failed (ret : Z) (p : phase) : Prop := ret = 1.

Lemma fail_guarded p status : plain status = true → guarded size p (Fail status) failed.
Proof.
  intros Hs. unfold Fail. eapply guarded_neutral; [by apply neutral_publish|].
  intros ?. by apply guarded_ret.
Qed.

Lemma fail_prepared_guarded p status :
  is_off p = true → plain status = true → guarded size p (FailPreparedSwap status) failed.
Proof.
  intros Hp Hs. unfold FailPreparedSwap. eapply guarded_bind; [by apply remove_file_guarded|].
  intros removed p' _. destruct removed; by apply fail_guarded.
Qed.

Lemma fail_active_guarded p kb status :
  plain status = true → guarded size p (FailActiveSwap kb status) failed.
Proof.
  intros Hs. unfold FailActiveSwap. eapply guarded_bind; [apply disable_swap_guarded|].
  intros [] p' ->; cbn [negb]; [by apply fail_prepared_guarded|].
  eapply guarded_neutral; [by apply neutral_publish|]. intros ?. by apply guarded_ret.
Qed.

Lemma write_zeroes_guarded fuel offset end_ next :
  0 <= offset <= end_ → end_ < 2 ^ 63 → from_option id offset next = offset →
  guarded end_ (Zeroing next) (WriteZeroes fuel offset end_)
    (λ ok p', if ok then ∃ n, p' = Zeroing n ∧ from_option id end_ n = end_
              else p' = Off).
Proof.
  revert offset next. induction fuel as [|fuel IH]; intros offset next Ho He Hn;
    cbn [WriteZeroes]; [apply guarded_out_of_fuel|].
  destruct (Z.ltb_spec offset end_) as [Hlt|Hge].
  2:{ apply guarded_ret. exists next. split; [done|].
      destruct next; cbn in *; [lia|done]. }
  cbv zeta. set (n := Z.min kWriteChunkBytes (end_ - offset)).
  assert (0 < n <= kWriteChunkBytes ∧ offset + n <= end_) as (Hn1 & Hn2).
  { unfold n, kWriteChunkBytes, kBytesPerMib. lia. }
  apply guarded_call. intros r. cbn [step].
  rewrite (bool_decide_eq_true_2 _ Hn).
  rewrite (proj2 (Z.ltb_lt 0 n)), (proj2 (Z.leb_le n _)), (proj2 (Z.leb_le _ end_)) by lia.
  cbn [andb need]. eexists. split; [reflexivity|].
  destruct (Z.eqb_spec r 0); cbn [negb]; [|by apply guarded_ret].
  rewrite (wrapu_small 64) by (unfold in_u; change (2 ^ 64) with (2 * 2 ^ 63); lia).
  apply IH; [lia|done|done].
Qed.

Lemma wait_child_guarded fuel :
  guarded size Formatting (wait_child fuel)
    (λ r p', p' = if r =? 0 then Formatted else Off).
Proof.
  unfold wait_child. induction fuel as [|fuel IH]; cbn [temp_failure_retry];
    [apply guarded_out_of_fuel|].
  apply guarded_call. intros r. cbn [step]. eexists. split; [reflexivity|].
  destruct (r =? EINTR); [exact IH|by apply guarded_ret].
Qed.

Lemma run_mkswap_guarded fuel :
  guarded size Synced (RunMkswap fuel)
    (λ ok p', is_off p' = true ∧ (ok = true → p' = Formatted)).
Proof.
  unfold RunMkswap. apply guarded_call. intros r. cbn [step]. eexists. split; [reflexivity|].
  destruct (r =? 0); cbn [negb]; [|by apply guarded_ret].
  eapply guarded_bind; [apply wait_child_guarded|]. intros q p' ->.
  destruct (q =? 0); cbn [negb]; [by apply guarded_gets|by apply guarded_ret].
Qed.

(** After the file has its size: the rest of [PrepareSwapFile]. *)
Lemma allocate_guarded offset :
  0 <= offset <= size → size < 2 ^ 63 →
  guarded size (Zeroing None)
    (ok ← WriteZeroes (write_fuel offset size) offset size;
     if negb ok then mret kAllocationError
     else r ← syscall CFsync; if negb (r =? 0) then mret kFileError else mret kOk)
    (λ res p', is_off p' = true ∧ (res = kOk → p' = Synced)).
Proof.
  intros Ho Hs. eapply guarded_bind; [by apply write_zeroes_guarded|].
  intros [] p'; cbn [negb]; [|intros ->; by apply guarded_ret].
  intros (n & -> & Hn). apply guarded_call. intros r. cbn [step]. rewrite Hn, Z.eqb_refl.
  eexists. split; [reflexivity|]. destruct (r =? 0); cbn [negb]; by apply guarded_ret.
Qed.

Lemma prepare_guarded fuel p :
  is_off p = true → 0 <= size < 2 ^ 63 →
  guarded size p (PrepareSwapFile fuel size)
    (λ res p', is_off p' = true ∧ (res = kOk → p' = Synced)).
Proof.
  intros Hp Hs. unfold PrepareSwapFile.
  eapply guarded_neutral; [apply neutral_open|intros r1]. case_match; [by apply guarded_ret|].
  eapply guarded_neutral; [apply neutral_gets|intros [[is_reg st_size] st_blocks]].
  eapply guarded_neutral; [by apply neutral_syscall|intros r2]. case_match; [by apply guarded_ret|].
  case_match; [by apply guarded_ret|].
  eapply guarded_neutral; [by apply neutral_syscall|intros r3]. case_match; [by apply guarded_ret|].
  cbv zeta. eapply guarded_neutral; [apply neutral_space|].
  intros [[]|]; try by apply guarded_ret.
  apply guarded_call. intros r4. cbn [step]. rewrite Hp, Z.eqb_refl. cbn [andb need].
  eexists. split; [reflexivity|]. destruct (r4 =? 0); cbn [negb]; [|by apply guarded_ret].
  apply allocate_guarded; [|lia]. repeat case_match; lia.
Qed.

(** How a run of [main] ends. *)
Definition ended (ret : Z) (p : phase) : Prop := ret = 0 → p = On ∨ p = Off.

Lemma guarded_failed p m : guarded size p m failed → guarded size p m ended.
Proof. intros Hm. eapply guarded_mono; [exact Hm|]. by intros a p' ->. Qed.

Lemma verify_guarded requested zram : guarded size On (verify_swap requested zram) ended.
Proof.
  unfold verify_swap. cbv zeta. eapply guarded_neutral; [apply neutral_find_swap|intros [e|]];
    [|by apply guarded_failed, fail_active_guarded].
  case_match; [by apply guarded_failed, fail_active_guarded|].
  case_match; [by apply guarded_failed, fail_active_guarded|].
  eapply guarded_bind; [by apply guarded_publish|]. intros ok p' ->.
  destruct ok; cbn [negb]; [|by apply guarded_failed, fail_active_guarded].
  apply guarded_ret. by left.
Qed.

Lemma disable_guarded p :
  guarded size p
    (disabled ← DisableSwap;
     if negb disabled then Fail "swapoff_failed"
     else
       removed ← RemoveSwapFile;
       if negb removed then Fail "file_error"
       else ok ← PublishStatus 0 "disabled"; mret (if ok : bool then 0 else 1)) ended.
Proof.
  eapply guarded_bind; [apply disable_swap_guarded|]. intros [] p' ->; cbn [negb];
    [|by apply guarded_failed, fail_guarded].
  eapply guarded_bind; [by apply remove_file_guarded|]. intros [] p' ->; cbn [negb];
    [|by apply guarded_failed, fail_guarded].
  eapply guarded_bind; [by apply guarded_publish|]. intros ok p' ->.
  apply guarded_ret. by right.
Qed.

Lemma activate_guarded requested zram retry_fuel :
  size = requested * kBytesPerMib → 0 <= size < 2 ^ 63 →
  guarded size Off
    (prepared ← PrepareSwapFile retry_fuel (u64 (requested * kBytesPerMib));
     match prepared with
     | kInsufficientSpace => FailPreparedSwap "insufficient_space"
     | kFileError => FailPreparedSwap "file_error"
     | kAllocationError => FailPreparedSwap "allocation_failed"
     | kOk =>
         formatted ← RunMkswap retry_fuel;
         if negb formatted then FailPreparedSwap "format_failed"
         else
           r ← syscall (CSwapon kSwapPath 0);
           if negb (r =? 0) then FailPreparedSwap "activation_failed"
           else verify_swap requested zram
     end) ended.
Proof.
  intros <- Hs. rewrite (wrapu_small 64)
    by (unfold in_u; change (2 ^ 64) with (2 * 2 ^ 63); lia).
  eapply guarded_bind; [by apply prepare_guarded|]. intros res p1 (Hoff & Hok).
  destruct res; try by apply guarded_failed, fail_prepared_guarded.
  rewrite (Hok eq_refl).
  eapply guarded_bind; [apply run_mkswap_guarded|]. intros [] p2 (Hoff2 & Hfmt); cbn [negb];
    [|by apply guarded_failed, fail_prepared_guarded].
  rewrite (Hfmt eq_refl). apply guarded_call. intros r. cbn [step].
  eexists. split; [reflexivity|]. destruct (r =? 0); cbn [negb]; [apply verify_guarded|].
  by apply guarded_failed, fail_prepared_guarded.
Qed.
End functions.

(** ** The service keeps the protocol *)

Section protocol.
Context `{RamEnv} {eintr_limit : nat} `{!RamEnvLaws eintr_limit}.

(** The size of the file a run is asked for, in bytes. *)
Definition requested_bytes (s : rp) : Z := from_option id 0 (request s) * kBytesPerMib.

Lemma gets_bind {A B} (f : rp → A) (k : A → KM rp B) s : (gets f ≫= k) s = k (f s) s.
Proof. done. Qed.

Lemma main_guarded retry_fuel s a s' :
  main retry_fuel s = Done (a, s') →
  ∃ l p, rp_log s' = rp_log s ++ l ∧ accepts (requested_bytes s) Unknown l = Some p ∧
         phase_ok p s' ∧ ended a p.
Proof.
  intros E. set (size := requested_bytes s) in *.
  assert (phase_ok Unknown s) as Hs by (split; done).
  assert (∀ m, guarded size Unknown m ended → m s = Done (a, s') →
            ∃ l p, rp_log s' = rp_log s ++ l ∧ accepts size Unknown l = Some p ∧
                   phase_ok p s' ∧ ended a p) as Hrun by (intros m Hm Em; by eapply Hm).
  unfold main, GetBoolProperty, GetProperty in E. rewrite gets_bind in E.
  destruct (match _ with Some _ => _ | None => _ end) in E; cbn [negb] in E;
    [|refine (Hrun _ _ E); by apply guarded_failed, fail_guarded].
  rewrite gets_bind in E. fold (request s) in E. unfold requested_bytes in size.
  destruct (request s) as [requested|];
    [|refine (Hrun _ _ E); by apply guarded_failed, fail_guarded].
  destruct (IsAllowedSize requested) eqn:Hallow; cbn [negb] in E;
    [|refine (Hrun _ _ E); by apply guarded_failed, fail_guarded].
  destruct (requested =? 0); [refine (Hrun _ _ E); apply disable_guarded|].
  rewrite gets_bind in E.
  destruct (match _ with Some _ => _ | None => _ end) in E; cbn [negb] in E;
    [|refine (Hrun _ _ E); by apply guarded_failed, fail_guarded].
  refine (Hrun _ _ E).
  eapply guarded_neutral; [apply neutral_wait_zram|intros [zram|]];
    [|by apply guarded_failed, fail_guarded].
  eapply guarded_bind; [apply disable_swap_guarded|]. intros [] p' ->; cbn [negb];
    [|by apply guarded_failed, fail_guarded].
  eapply guarded_neutral; [apply neutral_ensure_dir|intros []]; cbn [negb];
    [|by apply guarded_failed, fail_guarded].
  pose proof (allowed_range _ Hallow).
  apply activate_guarded; [done|]. subst size. cbn. unfold kBytesPerMib. pow2_norm. lia.
Qed.

(** Calls that change the swap file or have the kernel swap on it. *)
Definition touches (c : call) : bool :=
  match c with
  | CFtruncate _ | CWrite _ _ | CFsync | CFork _ | CSwapon _ _ | CUnlink _ => true
  | _ => false
  end.

Lemma touches_off size p c r p' : touches c = true → step size p (c, r) = Some p' → is_off p = true.
Proof.
  unfold step. destruct (confined c); cbn [negb]; [|done].
  destruct p, c; cbn; unfold need; try done.
Qed.

Lemma accepts_touch size p l1 c r l2 p' :
  accepts size p (l1 ++ (c, r) :: l2) = Some p' → touches c = true →
  ∃ p1, accepts size p l1 = Some p1 ∧ is_off p1 = true.
Proof.
  rewrite accepts_app. intros E Hc. destruct (accepts size p l1) as [p1|]; [|done].
  exists p1. split; [done|]. cbn [mbind option_bind accepts] in E.
  destruct (step size p1 (c, r)) as [p2|] eqn:Es; [|done]. by eapply touches_off.
Qed.

(** C5: Every run of the setup service keeps the protocol: it ends; its calls are
    accepted by the automaton for the requested size, so that the swap file is
    resized to that size, filled without gap, synced, formatted and activated
    in this order, and announced only when active; every call is confined to
    the paths, modes and properties of the service; the file is changed,
    activated or removed only while the kernel does not swap on it; the last
    phase is right about the kernel, and with exit code 0 the swap is either on
    or off for certain. *)
Theorem main_keeps_protocol retry_fuel s :
  (eintr_limit < retry_fuel)%nat → stat_ok →
  ∃ ret s' l p, main retry_fuel s = Done (ret, s') ∧ rp_log s' = rp_log s ++ l ∧
    accepts (requested_bytes s) Unknown l = Some p ∧
    (∀ l1 c r l2, l = l1 ++ (c, r) :: l2 → touches c = true →
       ∃ p1, accepts (requested_bytes s) Unknown l1 = Some p1 ∧ is_off p1 = true) ∧
    (is_off p = true → rp_swap_on s' = false) ∧ (is_on p = true → rp_swap_on s' = true) ∧
    (ret = 0 → p = On ∨ p = Off).
Proof.
  intros Hf Hstat.
  destruct (wp_result _ _ _ (main_run eintr_limit retry_fuel s Hf Hstat)) as (ret & s' & E & _).
  destruct (main_guarded _ _ _ _ E) as (l & p & Hl & Ha & [Hoff Hon] & Hend).
  exists ret, s', l, p. split_and!; try done.
  intros l1 c r l2 -> Hc. by eapply accepts_touch.
Qed.
End protocol.

Lemma main_keeps_protocol_witness :
  ∃ ret s' l p, @main all_succeed 1 (ram_state "2048" false) = Done (ret, s') ∧
    rp_log s' = l ∧ accepts 2147483648 Unknown l = Some p.
Proof.
  destruct (@main_keeps_protocol all_succeed 0 all_succeed_laws 1 (ram_state "2048" false))
    as (ret & s' & l & p & E & Hl & Ha & _); [lia|apply stat_ok_sample|].
  exists ret, s', l, p. split_and!; [exact E|exact Hl|exact Ha].
Defined.

(** The automaton rejects a run that formats a file that was not synced, and
    one that changes or removes a file that may be in use. *)
Lemma protocol_rejects :
  accepts 4096 Unknown [(CSwapoff kSwapPath, 0); (CFtruncate 4096, 0); (CFork [kMkswapPath; kSwapPath], 0)] = None ∧
  accepts 4096 Unknown [(CUnlink kSwapPath, 0)] = None ∧
  accepts 4096 On [(CFtruncate 4096, 0)] = None ∧
  accepts 4096 Off [(CUnlink kDataPath, 0)] = None ∧ accepts 4096 Off [(CFchmod 438, 0)] = None.
Proof. done. Qed.
