(* ===== verification/Dragonite.v ===== *)
(** * The AxDragonite driver (ax_dragonite.h, ax_dragonite_main.c)

    Setting and resetting the CPU affinity of the threads of a process, boosting
    its nice value, and pinning the kswapd kernel threads.

    The kernel the driver runs on is strict: [get_task_struct] and reads of a
    task need an RCU read-side section, [set_cpus_allowed_ptr] and
    [kmalloc_array(..., GFP_KERNEL)] may sleep and fault inside one, a task may
    be used outside one only while the driver holds a reference to it, and a
    reference or an allocation can be returned only once.  A run that does not
    fault obeys all of these rules. *)

From stdpp Require Export gmultiset.
From S2P Require Import Prelude KMonad Kernel SampleWorld.

(** ** Constants *)

Definition AX_COMM_LEN : nat := 16.
Definition AXD_MAX_THREAD_GROUP_TASKS : nat := 512.
Definition AXD_MAX_KSWAPD_TASKS : nat := 32.
Definition AXD_NICE_BOOST : Z := -20.
Definition AXD_NICE_NORMAL : Z := 0.
Definition AXD_KSWAPD_COMM_PREFIX : string := "kswapd".
Definition AXD_KSWAPD_COMM_LEN : nat := 6.
Definition AXD_MATCH_ALL_COMM : string := "*".
Definition AXD_INVALID_PID : Z := 0.

(** errno.h *)
Definition ENOENT : Z := 2.
Definition ESRCH : Z := 3.
Definition ENOMEM : Z := 12.
Definition EFAULT : Z := 14.
Definition EINVAL : Z := 22.

(** A [struct cpumask]: the bitmap as a number. *)
Abbreviation cpumask := Z (only parsing).

(** ** State *)

Record axd_stats := AxdStats {
  affinity_set_count : Z;
  boost_set_count : Z;
  reset_count : Z;
  kswapd_pin_count : Z
}.

(** The calls that change the scheduling of a task, with the kernel's answer. *)
Inductive effect :=
  | SetCpus (t : tid) (mask : cpumask) (ret : Z)
  | SetNice (t : tid) (nice : Z).

Record dstate := DState {
  d_world : world;
  d_refs : gmultiset tid;     (* references the driver holds *)
  d_allocs : nat;             (* live allocations of the driver *)
  d_log : list effect;        (* calls made so far, oldest first *)
  g_axd_stats : axd_stats;
  g_current_target_pid : Z;
  g_proc_lock : bool          (* the mutex is held *)
}.

Class DragoniteEnv := {
  linux_5_0 : bool;           (* LINUX_VERSION_CODE >= KERNEL_VERSION(5, 0, 0) *)
  core_find_task_by_vpid : gmap tid task → Z → task_ptr;
  find_vpid : gmap tid task → Z → option positive;       (* a [struct pid] *)
  pid_task : gmap tid task → option positive → task_ptr; (* with PIDTYPE_PID *)
  (* the group leaders, in the order of the task list *)
  for_each_process : gmap tid task → list tid;
  (* the answer may depend on everything that happened before *)
  set_cpus_allowed_ptr : list effect → tid → cpumask → Z;
  kmalloc : Z → bool;
  cpumask_empty : cpumask → bool;
  cpumask_intersects : cpumask → cpumask → bool;
  cpu_online_mask : cpumask;
  cpu_possible_mask : cpumask
}.

(** The wrapper of the header, which also stands for the kernel's function on
    kernels that lack it. *)
Definition axd_find_task_by_vpid `{DragoniteEnv} (m : gmap tid task) (nr : Z) : task_ptr :=
  if linux_5_0 then core_find_task_by_vpid m nr else pid_task m (find_vpid m nr).

Definition find_task_by_vpid `{DragoniteEnv} (m : gmap tid task) (nr : Z) : task_ptr :=
  if linux_5_0 then core_find_task_by_vpid m nr else axd_find_task_by_vpid m nr.

(** ** Kernel calls *)

Definition on_world (f : world → world) (s : dstate) : dstate :=
  DState (f (d_world s)) (d_refs s) (d_allocs s) (d_log s)
    (g_axd_stats s) (g_current_target_pid s) (g_proc_lock s).

Definition on_stats (f : axd_stats → axd_stats) (s : dstate) : dstate :=
  DState (d_world s) (d_refs s) (d_allocs s) (d_log s)
    (f (g_axd_stats s)) (g_current_target_pid s) (g_proc_lock s).

Definition with_refs (r : gmultiset tid) (s : dstate) : dstate :=
  DState (d_world s) r (d_allocs s) (d_log s)
    (g_axd_stats s) (g_current_target_pid s) (g_proc_lock s).

Definition with_allocs (n : nat) (s : dstate) : dstate :=
  DState (d_world s) (d_refs s) n (d_log s)
    (g_axd_stats s) (g_current_target_pid s) (g_proc_lock s).

Definition with_log (l : list effect) (s : dstate) : dstate :=
  DState (d_world s) (d_refs s) (d_allocs s) l
    (g_axd_stats s) (g_current_target_pid s) (g_proc_lock s).

Definition set_rcu (n : nat) (w : world) : world := World (w_tasks w) (w_groups w) n.

Definition d_rcu (s : dstate) : nat := w_rcu (d_world s).

Definition k_rcu_lock : KM dstate unit :=
  modify (λ s, on_world (set_rcu (S (d_rcu s))) s).

Definition k_rcu_unlock : KM dstate unit :=
  d ← gets d_rcu;
  match d with O => oops | S n => modify (on_world (set_rcu n)) end.

Definition may_sleep : KM dstate unit :=
  d ← gets d_rcu; assertk (d =? 0)%nat.

(** Reading a task found under RCU. *)
Definition k_read_task (t : tid) : KM dstate task :=
  d ← gets d_rcu; assertk (negb (d =? 0)%nat) ;;
  w ← gets d_world; deref (w_tasks w !! t).

Definition get_task_struct (t : tid) : KM dstate unit :=
  _ ← k_read_task t; modify (λ s, with_refs ({[+ t +]} ⊎ d_refs s) s).

Definition put_task_struct (t : tid) : KM dstate unit :=
  r ← gets d_refs; assertk (bool_decide (t ∈ r)) ;;
  modify (λ s, with_refs (d_refs s ∖ {[+ t +]}) s).

Definition kfree : KM dstate unit :=
  n ← gets d_allocs;
  match n with O => oops | S n => modify (with_allocs n) end.

(** [atomic64_inc] *)
Definition inc64 (x : Z) : Z := s64 (x + 1).

Definition inc_affinity (st : axd_stats) : axd_stats :=
  AxdStats (inc64 (affinity_set_count st)) (boost_set_count st) (reset_count st)
    (kswapd_pin_count st).
Definition inc_boost (st : axd_stats) : axd_stats :=
  AxdStats (affinity_set_count st) (inc64 (boost_set_count st)) (reset_count st)
    (kswapd_pin_count st).
Definition inc_reset (st : axd_stats) : axd_stats :=
  AxdStats (affinity_set_count st) (boost_set_count st) (inc64 (reset_count st))
    (kswapd_pin_count st).
Definition inc_kswapd (st : axd_stats) : axd_stats :=
  AxdStats (affinity_set_count st) (boost_set_count st) (reset_count st)
    (inc64 (kswapd_pin_count st)).

(** strncmp of the C library on strings without their terminating NUL. *)
Fixpoint strncmp (a b : string) (n : nat) : Z :=
  match n with
  | O => 0
  | S n =>
      match a, b with
      | EmptyString, EmptyString => 0
      | EmptyString, String d _ => - Z.of_N (Ascii.N_of_ascii d)
      | String c _, EmptyString => Z.of_N (Ascii.N_of_ascii c)
      | String c a, String d b =>
          if Ascii.eqb c d then strncmp a b n
          else Z.of_N (Ascii.N_of_ascii c) - Z.of_N (Ascii.N_of_ascii d)
      end
  end.

(** ** Definitions *)

Section dragonite.
Context `{KernelHeaders} `{DragoniteEnv}.

Definition kmalloc_k (size : Z) : KM dstate bool :=
  may_sleep ;;
  if kmalloc size
  then (modify (λ s, with_allocs (S (d_allocs s)) s) ;; mret true)
  else mret false.

(** [set_cpus_allowed_ptr] on a task the driver holds. *)
Definition set_cpus_k (t : tid) (mask : cpumask) : KM dstate Z :=
  may_sleep ;;
  r ← gets d_refs; assertk (bool_decide (t ∈ r)) ;;
  w ← gets d_world; _ ← deref (w_tasks w !! t);
  log ← gets d_log;
  let ret := set_cpus_allowed_ptr log t mask in
  modify (with_log (log ++ [SetCpus t mask ret])) ;; mret ret.

Definition set_user_nice_k (t : tid) (nice : Z) : KM dstate unit :=
  _ ← k_read_task t;
  modify (λ s, with_log (d_log s ++ [SetNice t nice]) s).

Definition axd_comm_matches (task_comm comm_name : string) : bool :=
  if String.eqb comm_name AXD_MATCH_ALL_COMM then true
  else strncmp task_comm comm_name AX_COMM_LEN =? 0.

(** The loops that collect tasks under RCU: skip those [p] rejects, stop when
    [limit] are collected, take a reference to each other one and store it
    in an array of [size] entries ([acc] is its part in use). *)
Fixpoint collect_tasks (p : task → bool) (limit size : nat) (l : list tid)
    (acc : list tid) : KM dstate (list tid) :=
  match l with
  | [] => mret acc
  | t :: l' =>
      tk ← k_read_task t;
      if negb (p tk) then collect_tasks p limit size l' acc
      else if (limit <=? length acc)%nat then mret acc
      else
        get_task_struct t ;;
        assertk (length acc <? size)%nat ;;
        collect_tasks p limit size l' (acc ++ [t])
  end.

(** The loops that set the mask of the collected tasks and drop the
    references; the result counts the successes. *)
Fixpoint apply_mask (mask : cpumask) (l : list tid) (n : Z) : KM dstate Z :=
  match l with
  | [] => mret n
  | t :: l' =>
      ret ← set_cpus_k t mask;
      put_task_struct t ;;
      apply_mask mask l' (if ret =? 0 then n + 1 else n)
  end.

(** [task], its signal structure and [PF_EXITING] as the three functions
    check them; [None] when the process cannot be used. *)
Definition find_live_task (pid : Z) : KM dstate (option (tid * list tid)) :=
  w ← gets d_world;
  match find_task_by_vpid (w_tasks w) pid with
  | None => mret None
  | Some t =>
      tk ← k_read_task t;
      match t_signal tk with
      | None => mret None
      | Some threads =>
          if negb ((t_flags tk &. PF_EXITING) =? 0) then mret None
          else mret (Some (t, threads))
      end
  end.

Definition axd_set_affinity (pid : Z) (comm_name : option string)
    (mask : option cpumask) : KM dstate Z :=
  match comm_name, mask with
  | Some comm, Some m =>
      if (pid <=? AXD_INVALID_PID) || cpumask_empty m
         || negb (cpumask_intersects m cpu_online_mask)
      then mret (- EINVAL)
      else
        threads ← kmalloc_k (Z.of_nat AXD_MAX_THREAD_GROUP_TASKS * 8);
        if negb threads then mret (- ENOMEM)
        else
          k_rcu_lock ;;
          found ← find_live_task pid;
          match found with
          | None => k_rcu_unlock ;; kfree ;; mret (- ESRCH)
          | Some (t, group) =>
              get_task_struct t ;;
              ts ← collect_tasks (λ tk, axd_comm_matches (t_comm tk) comm)
                     AXD_MAX_THREAD_GROUP_TASKS AXD_MAX_THREAD_GROUP_TASKS group [];
              k_rcu_unlock ;;
              matched ← apply_mask m ts 0;
              kfree ;; put_task_struct t ;;
              _ ← (if 0 <? matched
                   then modify (on_stats inc_affinity)
                   else mret tt);
              mret (if 0 <? matched then 0
                    else if (0 <? length ts)%nat then - EINVAL else - ENOENT)
          end
  | _, _ => mret (- EINVAL)
  end.

Definition axd_reset_affinity (pid : Z) : KM dstate Z :=
  if pid <=? AXD_INVALID_PID then mret (- EINVAL)
  else
    threads ← kmalloc_k (Z.of_nat AXD_MAX_THREAD_GROUP_TASKS * 8);
    if negb threads then mret (- ENOMEM)
    else
      k_rcu_lock ;;
      found ← find_live_task pid;
      match found with
      | None => k_rcu_unlock ;; kfree ;; mret (- ESRCH)
      | Some (t, group) =>
          get_task_struct t ;;
          ts ← collect_tasks (λ _, true) AXD_MAX_THREAD_GROUP_TASKS AXD_MAX_THREAD_GROUP_TASKS group [];
          k_rcu_unlock ;;
          n ← apply_mask cpu_possible_mask ts 0;
          kfree ;; put_task_struct t ;;
          _ ← (if 0 <? n
               then modify (on_stats inc_reset)
               else mret tt);
          mret (if 0 <? n then 0 else - ESRCH)
      end.

Fixpoint set_nice_all (nice : Z) (l : list tid) : KM dstate unit :=
  match l with
  | [] => mret tt
  | t :: l' => set_user_nice_k t nice ;; set_nice_all nice l'
  end.

Definition axd_set_boost (pid boost_level : Z) : KM dstate Z :=
  if pid <=? AXD_INVALID_PID then mret (- EINVAL)
  else
    let target_nice := if 0 <? boost_level then AXD_NICE_BOOST else AXD_NICE_NORMAL in
    k_rcu_lock ;;
    found ← find_live_task pid;
    match found with
    | None => k_rcu_unlock ;; mret (- ESRCH)
    | Some (_, group) =>
        set_nice_all target_nice group ;;
        k_rcu_unlock ;;
        modify (on_stats inc_boost) ;;
        mret 0
    end.

Definition is_kswapd (tk : task) : bool :=
  strncmp (t_comm tk) AXD_KSWAPD_COMM_PREFIX AXD_KSWAPD_COMM_LEN =? 0.

Definition axd_pin_kswapd (mask : option cpumask) : KM dstate Z :=
  match mask with
  | None => mret (- EINVAL)
  | Some m =>
      if cpumask_empty m || negb (cpumask_intersects m cpu_online_mask)
      then mret (- EINVAL)
      else
        k_rcu_lock ;;
        w ← gets d_world;
        ts ← collect_tasks is_kswapd AXD_MAX_KSWAPD_TASKS AXD_MAX_KSWAPD_TASKS
               (for_each_process (w_tasks w)) [];
        k_rcu_unlock ;;
        pinned ← apply_mask m ts 0;
        _ ← (if 0 <? pinned
             then modify (on_stats inc_kswapd)
             else mret tt);
        mret (if 0 <? pinned then 0 else - ESRCH)
  end.
End dragonite.

(** ** Specification *)

(** A C string holds no NUL. *)
Fixpoint no_nul (s : string) : bool :=
  match s with
  | EmptyString => true
  | String c s => negb (Ascii.eqb c Ascii.zero) && no_nul s
  end.

Section spec.
Context `{KernelHeaders} `{DragoniteEnv}.

(** The process the operations act on, with its threads. *)
Definition usable (w : world) (pid : Z) : option (tid * list tid) :=
  t ← find_task_by_vpid (w_tasks w) pid;
  tk ← w_tasks w !! t;
  threads ← t_signal tk;
  if decide (t_flags tk &. PF_EXITING = 0) then Some (t, threads) else None.

(** The first [limit] tasks of [l] that satisfy [p]. *)
Definition selected (w : world) (p : task → bool) (limit : nat) (l : list tid)
    : list tid :=
  take limit (filter (λ t, from_option p false (w_tasks w !! t) = true) l).

(** The kernel's answers to setting the mask of [ts] in order. *)
Fixpoint answers (m : cpumask) (log : list effect) (ts : list tid) : list Z :=
  match ts with
  | [] => []
  | t :: ts' =>
      let r := set_cpus_allowed_ptr log t m in
      r :: answers m (log ++ [SetCpus t m r]) ts'
  end.

Definition calls (m : cpumask) (ts : list tid) (rets : list Z) : list effect :=
  zip_with (λ t r, SetCpus t m r) ts rets.

(** The tasks the kernel reports exist: a process found by pid is a task and
    so are its threads, and so is each process of the task list; a task's
    name fits its 16-byte field. *)
Record dragonite_ok (w : world) : Prop := {
  dk_find pid t : find_task_by_vpid (w_tasks w) pid = Some t → is_Some (w_tasks w !! t);
  dk_threads t p threads x : w_tasks w !! t = Some p → t_signal p = Some threads →
    x ∈ threads → is_Some (w_tasks w !! x);
  dk_procs t : t ∈ for_each_process (w_tasks w) → is_Some (w_tasks w !! t);
  dk_comm t p : w_tasks w !! t = Some p →
    (String.length (t_comm p) < AX_COMM_LEN)%nat ∧ no_nul (t_comm p) = true
}.

(** The state after setting the mask of [ts]. *)
Definition applied (m : cpumask) (ts : list tid) (s : dstate) : dstate :=
  with_log (d_log s ++ calls m ts (answers m (d_log s) ts)) s.

(** Some call succeeded. *)
Definition some_success (m : cpumask) (ts : list tid) (s : dstate) : bool :=
  bool_decide (0 ∈ answers m (d_log s) ts).

Definition usable_mask (m : cpumask) : bool :=
  negb (cpumask_empty m) && cpumask_intersects m cpu_online_mask.

Definition name_selects (comm : string) (tk : task) : bool :=
  bool_decide (comm = "*" ∨ t_comm tk = comm).

(** The operations on a well-formed kernel: the result and the state. *)
Definition set_affinity_spec (pid : Z) (comm : string) (m : cpumask) (s : dstate)
    : Z * dstate :=
    if negb (0 <? pid) || negb (usable_mask m) then (- EINVAL, s)
    else if negb (kmalloc 4096) then (- ENOMEM, s)
    else
      match usable (d_world s) pid with
      | None => (- ESRCH, s)
      | Some (_, group) =>
          let ts := selected (d_world s) (name_selects comm) 512 group in
          if some_success m ts s
          then (0, on_stats inc_affinity (applied m ts s))
          else (if decide (ts = []) then - ENOENT else - EINVAL, applied m ts s)
      end.

Definition reset_affinity_spec (pid : Z) (s : dstate) : Z * dstate :=
    if negb (0 <? pid) then (- EINVAL, s)
    else if negb (kmalloc 4096) then (- ENOMEM, s)
    else
      match usable (d_world s) pid with
      | None => (- ESRCH, s)
      | Some (_, group) =>
          let ts := take 512 group in
          if some_success cpu_possible_mask ts s
          then (0, on_stats inc_reset (applied cpu_possible_mask ts s))
          else (- ESRCH, applied cpu_possible_mask ts s)
      end.

Definition set_boost_spec (pid level : Z) (s : dstate) : Z * dstate :=
    if negb (0 <? pid) then (- EINVAL, s)
    else
      match usable (d_world s) pid with
      | None => (- ESRCH, s)
      | Some (_, group) =>
          let nice := if 0 <? level then -20 else 0 in
          (0, on_stats inc_boost
                     (with_log (d_log s ++ ((λ t, SetNice t nice) <$> group)) s))
      end.

Definition pin_kswapd_spec (m : cpumask) (s : dstate) : Z * dstate :=
    if negb (usable_mask m) then (- EINVAL, s)
    else
      let ts := selected (d_world s) (λ tk, String.prefix "kswapd" (t_comm tk)) 32
                  (for_each_process (w_tasks (d_world s))) in
      if some_success m ts s
      then (0, on_stats inc_kswapd (applied m ts s))
      else (- ESRCH, applied m ts s).
End spec.

(** ** Runs *)

Definition d_tasks (s : dstate) : gmap tid task := w_tasks (d_world s).

(** States are compared by their fields. *)
Lemma done_ext {A} (a a' : A) s s' :
  a = a' → d_world s = d_world s' → d_refs s = d_refs s' →
  d_allocs s = d_allocs s' → d_log s = d_log s' →
  g_axd_stats s = g_axd_stats s' →
  g_current_target_pid s = g_current_target_pid s' →
  g_proc_lock s = g_proc_lock s' →
  Done (a, s) = Done (a', s').
Proof. destruct s, s'; cbn. by intros -> -> -> -> -> -> -> ->. Qed.

Lemma set_rcu_same w : set_rcu (w_rcu w) w = w.
Proof. by destruct w. Qed.

Ltac dfields :=
  cbn [d_world d_refs d_allocs d_log g_axd_stats g_current_target_pid g_proc_lock
       on_world on_stats with_refs with_allocs with_log set_rcu
       w_tasks w_groups w_rcu].
Ltac dstate_eq :=
  apply done_ext; dfields; try (done || multiset_solver).

Lemma k_rcu_unlock_run s n :
  d_rcu s = S n → k_rcu_unlock s = Done (tt, on_world (set_rcu n) s).
Proof. intros Hd. unfold k_rcu_unlock. kred. by rewrite Hd. Qed.

Lemma may_sleep_run s : d_rcu s = 0%nat → may_sleep s = Done (tt, s).
Proof. intros Hd. unfold may_sleep. kred. by rewrite Hd. Qed.

Lemma k_read_task_run s t p :
  (0 < d_rcu s)%nat → d_tasks s !! t = Some p → k_read_task t s = Done (p, s).
Proof.
  intros Hd Hp. unfold k_read_task. kred.
  destruct (Nat.eqb_spec (d_rcu s) 0) as [|_]; [lia|]. cbn.
  erewrite (bind_done (assertk true)) by done. kred.
  unfold d_tasks in Hp. by rewrite Hp.
Qed.

Lemma get_task_struct_run s t :
  (0 < d_rcu s)%nat → is_Some (d_tasks s !! t) →
  get_task_struct t s = Done (tt, with_refs ({[+ t +]} ⊎ d_refs s) s).
Proof.
  intros Hd [p Hp]. unfold get_task_struct. by krun (k_read_task_run s t p Hd Hp).
Qed.

Lemma put_task_struct_run s t R :
  d_refs s = {[+ t +]} ⊎ R → put_task_struct t s = Done (tt, with_refs R s).
Proof.
  intros HR. unfold put_task_struct. kred. rewrite HR.
  rewrite bool_decide_true by multiset_solver.
  erewrite (bind_done (assertk true)) by done. unfold modify. rewrite HR.
  repeat f_equal. multiset_solver.
Qed.

Lemma kfree_run s n : d_allocs s = S n → kfree s = Done (tt, with_allocs n s).
Proof. intros Hd. unfold kfree. kred. by rewrite Hd. Qed.

Section runs.
Context `{KernelHeaders} `{DragoniteEnv}.

Lemma kmalloc_run s n :
  d_rcu s = 0%nat →
  kmalloc_k n s
  = Done (kmalloc n, if kmalloc n then with_allocs (S (d_allocs s)) s else s).
Proof.
  intros Hd. unfold kmalloc_k. krun (may_sleep_run s Hd).
  by destruct (kmalloc n).
Qed.

Lemma set_cpus_run s t m :
  d_rcu s = 0%nat → t ∈ d_refs s → is_Some (d_tasks s !! t) →
  let r := set_cpus_allowed_ptr (d_log s) t m in
  set_cpus_k t m s = Done (r, with_log (d_log s ++ [SetCpus t m r]) s).
Proof.
  intros Hd Ht [p Hp]. unfold set_cpus_k. krun (may_sleep_run s Hd).
  rewrite bool_decide_true by done.
  erewrite (bind_done (assertk true)) by done. kred.
  unfold d_tasks in Hp. rewrite Hp. by kred.
Qed.

Lemma find_live_task_run s pid :
  dragonite_ok (d_world s) → (0 < d_rcu s)%nat →
  find_live_task pid s = Done (usable (d_world s) pid, s).
Proof.
  intros Hok Hd. unfold find_live_task, usable. kred.
  destruct (find_task_by_vpid _ pid) as [t|] eqn:Ht; [|done].
  destruct (dk_find _ Hok _ _ Ht) as [p Hp]. cbn.
  krun (k_read_task_run s t p Hd Hp). rewrite Hp. cbn.
  destruct (t_signal p) as [g|]; [|done]. cbn.
  case_decide as Hx; destruct (Z.eqb_spec (t_flags p &. PF_EXITING) 0); done.
Qed.

Lemma usable_threads w pid t g :
  dragonite_ok w → usable w pid = Some (t, g) →
  is_Some (w_tasks w !! t) ∧ ∀ x, x ∈ g → is_Some (w_tasks w !! x).
Proof.
  intros Hok. unfold usable.
  destruct (find_task_by_vpid _ pid) as [t'|] eqn:Ht; [|done]. cbn.
  destruct (w_tasks w !! t') as [p|] eqn:Hp; [|done]. cbn.
  destruct (t_signal p) as [g'|] eqn:Hg; [|done]. cbn.
  case_decide; [|done]. intros [= <- <-]. split; [by eauto|].
  intros x Hx. by eapply dk_threads.
Qed.

(** [dragonite_ok] does not depend on the RCU nesting. *)
Lemma dragonite_ok_rcu w n : dragonite_ok w → dragonite_ok (set_rcu n w).
Proof. intros [H1 H2 H3 H4]. by split. Qed.

Lemma collect_run p limit l acc s :
  (0 < d_rcu s)%nat → (∀ x, x ∈ l → is_Some (d_tasks s !! x)) →
  let ts := selected (d_world s) p (limit - length acc) l in
  collect_tasks p limit limit l acc s
  = Done (acc ++ ts, with_refs (list_to_set_disj ts ⊎ d_refs s) s).
Proof.
  revert acc s. induction l as [|t l IH]; intros acc s Hd Hl ts.
  { subst ts. unfold selected. rewrite filter_nil, take_nil, app_nil_r.
    dstate_eq. }
  destruct (Hl t) as [tk Htk]; [by left|]. cbn [collect_tasks].
  krun (k_read_task_run s t tk Hd Htk).
  subst ts. unfold selected in *. rewrite filter_cons.
  unfold d_tasks in Htk. rewrite Htk. cbn [from_option].
  destruct (p tk); cbn [negb]; [rewrite decide_True by done|rewrite decide_False by done].
  - destruct (Nat.leb_spec limit (length acc)) as [Hge|Hlt].
    + replace (limit - length acc)%nat with 0%nat by lia. rewrite take_0, app_nil_r.
      dstate_eq.
    + krun (get_task_struct_run s t Hd (Hl t (list_elem_of_here _ _))).
      rewrite (proj2 (Nat.ltb_lt (length acc) limit) Hlt).
      erewrite (bind_done (assertk true)) by done.
      rewrite IH; [|done|intros x Hx; apply Hl; by right].
      replace (limit - length acc)%nat with (S (limit - S (length acc))) by lia.
      rewrite length_app, Nat.add_comm. cbn [length Nat.add take app list_to_set_disj].
      rewrite <- app_assoc. dstate_eq.
  - apply IH; [done|]. intros x Hx. apply Hl. by right.
Qed.

Definition successes (rets : list Z) : Z := Z.of_nat (length (filter (λ r, r = 0) rets)).

Lemma apply_mask_run m ts n s R :
  d_rcu s = 0%nat → d_refs s = list_to_set_disj ts ⊎ R →
  (∀ x, x ∈ ts → is_Some (d_tasks s !! x)) →
  let rets := answers m (d_log s) ts in
  apply_mask m ts n s
  = Done (n + successes rets,
          with_log (d_log s ++ calls m ts rets) (with_refs R s)).
Proof.
  revert n s. induction ts as [|t ts IH]; intros n s Hd HR Hts rets.
  { subst rets. unfold successes, calls. cbn [answers zip_with].
    rewrite app_nil_r. dstate_eq. }
  cbn [apply_mask]. rewrite list_to_set_disj_cons in HR.
  assert (t ∈ d_refs s) as Ht by (rewrite HR; multiset_solver).
  krun (set_cpus_run s t m Hd Ht (Hts t (list_elem_of_here _ _))). set (r := set_cpus_allowed_ptr _ _ _).
  rewrite (bind_done _ _ _ _ _ (put_task_struct_run (with_log _ s) t
    (list_to_set_disj ts ⊎ R)
    (eq_trans HR (eq_sym (assoc_L _ _ _ _))))).
  rewrite IH by (done || (intros x Hx; apply Hts; by right)). subst rets. cbn [answers]. fold r. dfields.
  unfold successes, calls. cbn [zip_with]. rewrite filter_cons, <- app_assoc.
  dstate_eq.
  destruct (Z.eqb_spec r 0); [rewrite decide_True by done|rewrite decide_False by done];
    cbn [length]; lia.
Qed.
End runs.

(** ** Names *)

Lemma ascii_pos c : Ascii.eqb c Ascii.zero = false → 0 < Z.of_N (Ascii.N_of_ascii c).
Proof.
  intros Hc. apply Ascii.eqb_neq in Hc.
  destruct (Ascii.N_of_ascii c) eqn:E; [|lia]. destruct Hc.
  rewrite <- (Ascii.ascii_N_embedding c), E. done.
Qed.

Lemma ascii_diff c d :
  Ascii.eqb c d = false → Z.of_N (Ascii.N_of_ascii c) - Z.of_N (Ascii.N_of_ascii d) ≠ 0.
Proof.
  intros Hc E. apply Ascii.eqb_neq in Hc. destruct Hc.
  rewrite <- (Ascii.ascii_N_embedding c), <- (Ascii.ascii_N_embedding d).
  f_equal. lia.
Qed.

Lemma strncmp_zero a b n :
  no_nul a = true → no_nul b = true → (String.length a < n)%nat →
  strncmp a b n = 0 ↔ a = b.
Proof.
  revert a b. induction n as [|n IH]; intros a b Ha Hb Hl; [lia|].
  destruct a as [|c a], b as [|d b]; cbn in *.
  - done.
  - apply andb_prop in Hb as [Hd _]. apply negb_true_iff, ascii_pos in Hd.
    split; [lia|done].
  - apply andb_prop in Ha as [Hd _]. apply negb_true_iff, ascii_pos in Hd.
    split; [lia|done].
  - apply andb_prop in Ha as [_ Ha]. apply andb_prop in Hb as [_ Hb].
    destruct (Ascii.eqb c d) eqn:E.
    + apply Ascii.eqb_eq in E as ->. rewrite (IH a b) by (done || lia). split; [by intros ->|by intros [= ->]].
    + split; [intros Hz; by apply ascii_diff in E|].
      intros [= <- _]. by rewrite Ascii.eqb_refl in E.
Qed.

Lemma strncmp_prefix pre s :
  strncmp s pre (String.length pre) = 0 →
  no_nul pre = true → String.prefix pre s = true.
Proof.
  revert s. induction pre as [|c pre IH]; intros s; [by destruct s|].
  destruct s as [|d s]; cbn.
  - intros Hz Hn. apply andb_prop in Hn as [Hc _].
    apply negb_true_iff, ascii_pos in Hc. lia.
  - intros Hz Hn. apply andb_prop in Hn as [_ Hn].
    destruct (Ascii.eqb d c) eqn:E; [|by apply ascii_diff in E].
    apply Ascii.eqb_eq in E as ->. destruct (Ascii.ascii_dec c c); [|done].
    by apply IH.
Qed.

Lemma prefix_strncmp pre s :
  String.prefix pre s = true → strncmp s pre (String.length pre) = 0.
Proof.
  revert s. induction pre as [|c pre IH]; intros s; [by destruct s|].
  destruct s as [|d s]; cbn; [done|].
  destruct (Ascii.ascii_dec c d) as [->|]; [|done].
  rewrite Ascii.eqb_refl. apply IH.
Qed.

(** ** Correctness *)

Section correctness.
Context `{KernelHeaders} `{DragoniteEnv}.

Lemma selected_ext w p q limit l :
  (∀ t tk, w_tasks w !! t = Some tk → p tk = q tk) →
  selected w p limit l = selected w q limit l.
Proof.
  intros Hpq. unfold selected. f_equal. apply list_filter_iff.
  intros t. destruct (w_tasks w !! t) as [tk|] eqn:Ht; [|done]. cbn.
  by rewrite (Hpq t tk).
Qed.

Lemma comm_matches_spec w t tk comm :
  dragonite_ok w → w_tasks w !! t = Some tk → no_nul comm = true →
  axd_comm_matches (t_comm tk) comm = name_selects comm tk.
Proof.
  intros Hok Ht Hc. destruct (dk_comm _ Hok _ _ Ht) as [Hl Hn].
  unfold axd_comm_matches, name_selects.
  destruct (String.eqb_spec comm AXD_MATCH_ALL_COMM) as [->|Hne].
  { rewrite bool_decide_true; [done|by left]. }
  pose proof (strncmp_zero (t_comm tk) comm AX_COMM_LEN Hn Hc Hl) as Hz.
  destruct (Z.eqb_spec (strncmp (t_comm tk) comm AX_COMM_LEN) 0).
  - rewrite bool_decide_true; [done|]. right. by apply Hz.
  - rewrite bool_decide_false; [done|]. intros [?|E]; [done|]. by apply Hz in E.
Qed.

Lemma is_kswapd_spec tk : is_kswapd tk = String.prefix "kswapd" (t_comm tk).
Proof.
  unfold is_kswapd. change AXD_KSWAPD_COMM_LEN with (String.length "kswapd").
  destruct (Z.eqb_spec (strncmp (t_comm tk) AXD_KSWAPD_COMM_PREFIX
                          (String.length "kswapd")) 0) as [Hz|Hz].
  - symmetry. by apply strncmp_prefix.
  - destruct (String.prefix "kswapd" (t_comm tk)) eqn:E; [|done].
    by apply prefix_strncmp in E.
Qed.

Lemma successes_pos rets : (0 <? successes rets) = bool_decide (0 ∈ rets).
Proof.
  unfold successes. induction rets as [|r rets IH]; [done|].
  rewrite filter_cons. destruct (decide (r = 0)) as [->|Hr].
  - rewrite bool_decide_true by left. apply Z.ltb_lt. cbn [length]. lia.
  - rewrite IH. apply bool_decide_ext. rewrite elem_of_cons.
    split; [by right|intros [?|?]; [by subst|done]].
Qed.

(** Collecting under RCU and then setting the masks leaves no trace but the
    calls made. *)
Lemma collect_apply_run {A} p limit l m s (k : list tid → Z → KM dstate A) :
  d_rcu s = 0%nat → (∀ x, x ∈ l → is_Some (d_tasks s !! x)) →
  let ts := selected (d_world s) p limit l in
  (ts' ← collect_tasks p limit limit l [];
   k_rcu_unlock ;; n ← apply_mask m ts' 0; k ts' n)
    (on_world (set_rcu 1) s)
  = k ts (successes (answers m (d_log s) ts)) (applied m ts s).
Proof.
  intros Hd Hl ts.
  krun (collect_run p limit l [] (on_world (set_rcu 1) s) (Nat.lt_0_1) Hl).
  cbn [length app]. rewrite Nat.sub_0_r.
  change (selected _ p limit l) with ts.
  erewrite bind_done by by apply (k_rcu_unlock_run _ 0). kred.
  erewrite bind_done.
  2:{ apply (apply_mask_run m ts 0 _ (d_refs s)); [done|done|].
      intros x Hx. apply Hl. unfold ts, selected in Hx.
      apply elem_of_take in Hx as (i & Hx & _). apply list_elem_of_lookup_2 in Hx.
      by apply list_elem_of_filter in Hx as [_ Hx]. }
  kred. rewrite Z.add_0_l. f_equal.
  unfold applied, d_rcu in *. destruct s as [[? ? r] ? ? ? ? ? ?]. cbn in *. by subst.
Qed.

Lemma k_rcu_lock_run s :
  d_rcu s = 0%nat → k_rcu_lock s = Done (tt, on_world (set_rcu 1) s).
Proof. intros Hd. unfold k_rcu_lock, modify. by rewrite Hd. Qed.

(** With the array allocated and inside the RCU section. *)
Definition inside (s : dstate) : dstate :=
  on_world (set_rcu 1) (with_allocs (S (d_allocs s)) s).

Lemma no_process_run r s :
  d_rcu s = 0%nat →
  (k_rcu_unlock ;; kfree ;; mret r) (inside s) = @Done (Z * dstate) (r, s).
Proof.
  intros Hd. erewrite bind_done by by apply (k_rcu_unlock_run _ 0).
  kred. erewrite bind_done by by apply (kfree_run _ (d_allocs s)). kred.
  unfold mret, km_ret, d_rcu in *. destruct s as [[? ? r'] ? ? ? ? ? ?].
  cbn in *. by subst.
Qed.

Lemma process_run {A} p limit m pid t g s (k : list tid → Z → KM dstate A) :
  dragonite_ok (d_world s) → d_rcu s = 0%nat →
  usable (d_world s) pid = Some (t, g) →
  let ts := selected (d_world s) p limit g in
  (get_task_struct t ;;
   ts' ← collect_tasks p limit limit g [];
   k_rcu_unlock ;; n ← apply_mask m ts' 0;
   kfree ;; put_task_struct t ;; k ts' n) (inside s)
  = k ts (successes (answers m (d_log s) ts)) (applied m ts s).
Proof.
  intros Hok Hd Hu ts. destruct (usable_threads _ _ _ _ Hok Hu) as [Ht Hg].
  krun (get_task_struct_run (inside s) t (Nat.lt_0_1) Ht).
  change (with_refs ({[+ t +]} ⊎ d_refs (inside s)) (inside s))
    with (on_world (set_rcu 1)
      (with_refs ({[+ t +]} ⊎ d_refs s) (with_allocs (S (d_allocs s)) s))).
  etransitivity.
  { apply (collect_apply_run p limit g m
      (with_refs ({[+ t +]} ⊎ d_refs s) (with_allocs (S (d_allocs s)) s))
      (λ ts' n, kfree ;; put_task_struct t ;; k ts' n)); done. }
  change (selected _ p limit g) with ts. cbv beta.
  erewrite bind_done by by apply (kfree_run _ (d_allocs s)). kred.
  erewrite bind_done.
  2:{ apply (put_task_struct_run _ t (d_refs s)). done. }
  kred. f_equal.
Qed.

Lemma selected_all w limit l :
  (∀ x, x ∈ l → is_Some (w_tasks w !! x)) →
  selected w (λ _, true) limit l = take limit l.
Proof.
  intros Hl. unfold selected. f_equal. induction l as [|x l IH]; [done|].
  destruct (Hl x (list_elem_of_here _ _)) as [p Hp].
  rewrite filter_cons_True by (by rewrite Hp). f_equal.
  apply IH. intros y Hy. apply Hl. by right.
Qed.

Lemma set_nice_run nice l s :
  (0 < d_rcu s)%nat → (∀ x, x ∈ l → is_Some (d_tasks s !! x)) →
  set_nice_all nice l s
  = Done (tt, with_log (d_log s ++ ((λ t, SetNice t nice) <$> l)) s).
Proof.
  revert s. induction l as [|t l IH]; intros s Hd Hl.
  { cbn. rewrite app_nil_r. by destruct s. }
  cbn [set_nice_all]. unfold set_user_nice_k.
  destruct (Hl t (list_elem_of_here _ _)) as [p Hp].
  krun (k_read_task_run s t p Hd Hp).
  rewrite IH; [|done|intros x Hx; apply Hl; by right].
  dstate_eq. by rewrite <- app_assoc.
Qed.

Lemma set_rcu_twice s : d_rcu s = 0%nat → set_rcu 0 (set_rcu 1 (d_world s)) = d_world s.
Proof. unfold d_rcu. destruct (d_world s). cbn. by intros ->. Qed.

Lemma count_stat_run (b : bool) f r0 r1 s :
  (_ ← (if b then modify (on_stats f) else mret tt); mret (if b then r0 else r1)) s
  = @Done (Z * dstate) (if b then (r0, on_stats f s) else (r1, s)).
Proof. by destruct b. Qed.

Lemma axd_set_affinity_run pid comm m s :
  dragonite_ok (d_world s) → d_rcu s = 0%nat → no_nul comm = true →
  axd_set_affinity pid (Some comm) (Some m) s = Done (set_affinity_spec pid comm m s).
Proof.
  intros Hok Hd Hc. unfold axd_set_affinity, set_affinity_spec, usable_mask, AXD_INVALID_PID.
  rewrite negb_andb, negb_involutive, orb_assoc.
  replace (negb (0 <? pid)) with (pid <=? 0) by lia.
  destruct (_ || _); [done|].
  krun (kmalloc_run s 4096 Hd). destruct (kmalloc 4096); [cbn [negb]|done].
  krun (k_rcu_lock_run (with_allocs (S (d_allocs s)) s) Hd). fold (inside s).
  krun (find_live_task_run (inside s) pid (dragonite_ok_rcu _ _ Hok) Nat.lt_0_1).
  change (usable (d_world (inside s)) pid) with (usable (d_world s) pid).
  destruct (usable (d_world s) pid) as [[t g]|] eqn:Hu; [|by apply no_process_run].
  rewrite (process_run _ _ m pid t g s _ Hok Hd Hu), count_stat_run.
  rewrite (selected_ext _ _ (name_selects comm)).
  2:{ intros x tk Hx. by apply (comm_matches_spec (d_world s) x). }
  cbn zeta. change AXD_MAX_THREAD_GROUP_TASKS with 512%nat.
  rewrite successes_pos. unfold some_success. case_bool_decide; [done|].
  by destruct (selected _ _ _ _).
Qed.

Lemma axd_reset_affinity_run pid s :
  dragonite_ok (d_world s) → d_rcu s = 0%nat →
  axd_reset_affinity pid s = Done (reset_affinity_spec pid s).
Proof.
  intros Hok Hd. unfold axd_reset_affinity, AXD_INVALID_PID, reset_affinity_spec.
  replace (negb (0 <? pid)) with (pid <=? 0) by lia.
  destruct (pid <=? 0); [done|].
  krun (kmalloc_run s 4096 Hd). destruct (kmalloc 4096); [cbn [negb]|done].
  krun (k_rcu_lock_run (with_allocs (S (d_allocs s)) s) Hd). fold (inside s).
  krun (find_live_task_run (inside s) pid (dragonite_ok_rcu _ _ Hok) Nat.lt_0_1).
  change (usable (d_world (inside s)) pid) with (usable (d_world s) pid).
  destruct (usable (d_world s) pid) as [[t g]|] eqn:Hu; [|by apply no_process_run].
  rewrite (process_run _ _ _ pid t g s _ Hok Hd Hu), count_stat_run.
  rewrite selected_all by (by eapply usable_threads).
  cbn zeta. change AXD_MAX_THREAD_GROUP_TASKS with 512%nat.
  rewrite successes_pos. unfold some_success. by case_bool_decide.
Qed.

Lemma axd_set_boost_run pid level s :
  dragonite_ok (d_world s) → d_rcu s = 0%nat →
  axd_set_boost pid level s = Done (set_boost_spec pid level s).
Proof.
  intros Hok Hd. unfold axd_set_boost, AXD_INVALID_PID, set_boost_spec.
  replace (negb (0 <? pid)) with (pid <=? 0) by lia.
  destruct (pid <=? 0); [done|]. cbn zeta.
  krun (k_rcu_lock_run s Hd).
  krun (find_live_task_run (on_world (set_rcu 1) s) pid
          (dragonite_ok_rcu _ _ Hok) Nat.lt_0_1).
  change (usable (d_world (on_world _ s)) pid) with (usable (d_world s) pid).
  destruct (usable (d_world s) pid) as [[t g]|] eqn:Hu.
  - rewrite (bind_done _ _ _ _ _ (set_nice_run _ g (on_world (set_rcu 1) s)
      Nat.lt_0_1 (proj2 (usable_threads _ _ _ _ Hok Hu)))).
    erewrite bind_done by by apply (k_rcu_unlock_run _ 0). kred.
    apply done_ext; try done. dfields. by apply set_rcu_twice.
  - erewrite bind_done by by apply (k_rcu_unlock_run _ 0).
    apply done_ext; try done. dfields. by apply set_rcu_twice.
Qed.

Lemma axd_pin_kswapd_run m s :
  dragonite_ok (d_world s) → d_rcu s = 0%nat →
  axd_pin_kswapd (Some m) s = Done (pin_kswapd_spec m s).
Proof.
  intros Hok Hd. unfold axd_pin_kswapd, pin_kswapd_spec, usable_mask.
  rewrite negb_andb, negb_involutive. destruct (_ || _); [done|].
  krun (k_rcu_lock_run s Hd).
  change (w_tasks (d_world (on_world _ s))) with (w_tasks (d_world s)).
  rewrite (collect_apply_run _ _ _ m s) by (done || apply (dk_procs _ Hok)).
  rewrite count_stat_run.
  rewrite (selected_ext _ _ (λ tk, String.prefix "kswapd" (t_comm tk)))
    by (intros; apply is_kswapd_spec).
  cbn zeta. change AXD_MAX_KSWAPD_TASKS with 32%nat.
  rewrite successes_pos. unfold some_success. by case_bool_decide.
Qed.

(** C16: Setting the affinity of the threads of a process by name is exact: an
    invalid request changes nothing; otherwise the mask is set, in order and
    once each, for the first 512 threads whose name is the one given (or for
    all with the name [*]), the result is 0 exactly when the kernel accepted
    one of the calls, and every reference, the array and the RCU section are
    given back on every path. *)
Theorem axd_set_affinity_correct pid comm m s :
  dragonite_ok (d_world s) → d_rcu s = 0%nat → no_nul comm = true →
  axd_set_affinity pid (Some comm) (Some m) s =
    if negb (0 <? pid) || negb (usable_mask m) then Done (- EINVAL, s)
    else if negb (kmalloc 4096) then Done (- ENOMEM, s)
    else
      match usable (d_world s) pid with
      | None => Done (- ESRCH, s)
      | Some (_, group) =>
          let ts := selected (d_world s) (name_selects comm) 512 group in
          if some_success m ts s
          then Done (0, on_stats inc_affinity (applied m ts s))
          else Done (if decide (ts = []) then - ENOENT else - EINVAL, applied m ts s)
      end.
Proof.
  intros. rewrite axd_set_affinity_run by done. unfold set_affinity_spec.
  by repeat case_match.
Qed.

(** Resetting gives every thread of the process, up to 512, the mask of all
    possible CPUs; it reports -ESRCH when no process was found and also when
    the kernel refused every call. *)
Theorem axd_reset_affinity_correct pid s :
  dragonite_ok (d_world s) → d_rcu s = 0%nat →
  axd_reset_affinity pid s =
    if negb (0 <? pid) then Done (- EINVAL, s)
    else if negb (kmalloc 4096) then Done (- ENOMEM, s)
    else
      match usable (d_world s) pid with
      | None => Done (- ESRCH, s)
      | Some (_, group) =>
          let ts := take 512 group in
          if some_success cpu_possible_mask ts s
          then Done (0, on_stats inc_reset (applied cpu_possible_mask ts s))
          else Done (- ESRCH, applied cpu_possible_mask ts s)
      end.
Proof.
  intros. rewrite axd_reset_affinity_run by done. unfold reset_affinity_spec.
  by repeat case_match.
Qed.

(** Boosting sets the nice value of every thread of the process, without a
    limit on their number and inside one RCU section: -20 for a positive
    level and 0 otherwise. *)
Theorem axd_set_boost_correct pid level s :
  dragonite_ok (d_world s) → d_rcu s = 0%nat →
  axd_set_boost pid level s =
    if negb (0 <? pid) then Done (- EINVAL, s)
    else
      match usable (d_world s) pid with
      | None => Done (- ESRCH, s)
      | Some (_, group) =>
          let nice := if 0 <? level then -20 else 0 in
          Done (0, on_stats inc_boost
                     (with_log (d_log s ++ ((λ t, SetNice t nice) <$> group)) s))
      end.
Proof.
  intros. rewrite axd_set_boost_run by done. unfold set_boost_spec.
  by repeat case_match.
Qed.

(** Pinning kswapd sets the mask of the first 32 processes whose name starts
    with [kswapd]. *)
Theorem axd_pin_kswapd_correct m s :
  dragonite_ok (d_world s) → d_rcu s = 0%nat →
  axd_pin_kswapd (Some m) s =
    if negb (usable_mask m) then Done (- EINVAL, s)
    else
      let ts := selected (d_world s) (λ tk, String.prefix "kswapd" (t_comm tk)) 32
                  (for_each_process (w_tasks (d_world s))) in
      if some_success m ts s
      then Done (0, on_stats inc_kswapd (applied m ts s))
      else Done (- ESRCH, applied m ts s).
Proof.
  intros. rewrite axd_pin_kswapd_run by done. unfold pin_kswapd_spec.
  by repeat case_match.
Qed.
End correctness.

(** ** A concrete kernel *)

(** Process numbers are task numbers, the CPUs are 0 to 7, the kernel refuses
    to move task 7. *)
Definition sample_dragonite_env : DragoniteEnv := {|
  linux_5_0 := false;
  core_find_task_by_vpid _ _ := None;
  find_vpid m pid :=
    if (0 <? pid) && is_someb (m !! Z.to_pos pid) then Some (Z.to_pos pid) else None;
  pid_task _ p := p;
  for_each_process m :=
    filter (λ t, is_someb (m !! t) = true) [1; 2; 3; 4; 5; 6]%positive;
  set_cpus_allowed_ptr _ t _ := if bool_decide (t = 7%positive) then - EINVAL else 0;
  kmalloc n := n <=? 8192;
  cpumask_empty m := m =? 0;
  cpumask_intersects m n := negb (m &. n =? 0);
  cpu_online_mask := 255;
  cpu_possible_mask := 255
|}.

#[local] Existing Instance sample_dragonite_env.
#[local] Existing Instance linux_headers.

Definition sample_dstate : dstate :=
  DState (sample_world 0) ∅ 0 [] (AxdStats 0 0 0 0) 0 false.

Definition task_namedb (w : world) (tp : tid * task) : bool :=
  let p := snd tp in
  forallb (λ x, is_someb (w_tasks w !! x)) (from_option id [] (t_signal p)) &&
  (String.length (t_comm p) <? AX_COMM_LEN)%nat && no_nul (t_comm p).

Lemma sample_dragonite_ok n : dragonite_ok (sample_world n).
Proof.
  assert (∀ t p, w_tasks (sample_world n) !! t = Some p →
          task_namedb (sample_world n) (t, p) = true) as Ht.
  { intros t p. apply forallb_lookup. vm_compute. reflexivity. }
  split.
  - intros pid t. unfold find_task_by_vpid, axd_find_task_by_vpid.
    cbn [linux_5_0 find_vpid pid_task sample_dragonite_env].
    destruct (_ && _) eqn:E; [|done]. intros [= <-].
    apply andb_prop in E as [_ E]. by apply is_someb_true.
  - intros t p threads x Hp Hs Hx. specialize (Ht t p Hp).
    unfold task_namedb in Ht. cbn in Ht. rewrite Hs in Ht.
    apply andb_prop in Ht as [Ht _]. apply andb_prop in Ht as [Ht _].
    apply is_someb_true. 
    exact (forallb_elem (λ y, is_someb (w_tasks (sample_world n) !! y)) threads x Ht Hx).
  - intros t Hin. apply list_elem_of_filter in Hin as [Hin _]. by apply is_someb_true.
  - intros t p Hp. specialize (Ht t p Hp). unfold task_namedb in Ht. cbn [snd] in Ht.
    apply andb_prop in Ht as [Ht Hn]. apply andb_prop in Ht as [_ Hl].
    split; [by apply Nat.ltb_lt|done].
Qed.

(** Both threads of the group of task 4 are tried, one of the calls is
    refused, and the write succeeds. *)
Lemma axd_set_affinity_correct_witness :
  axd_set_affinity 4 (Some "*") (Some 15) sample_dstate
  = Done (0, on_stats inc_affinity
      (with_log [SetCpus 4 15 0; SetCpus 7 15 (-22)] sample_dstate)).
Proof.
  refine (eq_trans (axd_set_affinity_correct 4 "*" 15 sample_dstate
    (sample_dragonite_ok 0) eq_refl eq_refl) _).
  vm_compute. reflexivity.
Defined.

Lemma axd_reset_affinity_correct_witness :
  axd_reset_affinity 5 sample_dstate
  = Done (0, on_stats inc_reset (with_log [SetCpus 5 255 0] sample_dstate)).
Proof.
  refine (eq_trans (axd_reset_affinity_correct 5 sample_dstate
    (sample_dragonite_ok 0) eq_refl) _).
  vm_compute. reflexivity.
Defined.

Lemma axd_set_boost_correct_witness :
  axd_set_boost 7 1 sample_dstate
  = Done (0, on_stats inc_boost
      (with_log [SetNice 4 (-20); SetNice 7 (-20)] sample_dstate)).
Proof.
  refine (eq_trans (axd_set_boost_correct 7 1 sample_dstate
    (sample_dragonite_ok 0) eq_refl) _).
  vm_compute. reflexivity.
Defined.

Lemma axd_pin_kswapd_correct_witness :
  axd_pin_kswapd (Some 240) sample_dstate
  = Done (0, on_stats inc_kswapd (with_log [SetCpus 6 240 0] sample_dstate)).
Proof.
  refine (eq_trans (axd_pin_kswapd_correct 240 sample_dstate
    (sample_dragonite_ok 0) eq_refl) _).
  vm_compute. reflexivity.
Defined.
