(* ===== verification/DragoniteProc.v ===== *)
(** * The proc files of AxDragonite (ax_dragonite_proc.c)

    The write and show handlers, with the buffers they parse in place, the
    mutex around the target pid, and the creation and removal of the files.
    Each write handler is proved equal to its specification on values: what is
    read from the user, trimmed and split, and passed to the driver. *)

From S2P Require Import Prelude KMonad Kernel SampleWorld FileOps Hooks KString SampleStrings Dragonite.

#[local] Open Scope Z_scope.

(** ** Constants *)

Definition AXD_MAX_KBUF_PID : nat := 32.
Definition AXD_MAX_KBUF_AFFINITY : nat := 256.
Definition AXD_MAX_KBUF_BOOST : nat := 64.
Definition AXD_MAX_KBUF_KSWAPD : nat := 32.
Definition AXD_RADIX_DEC : Z := 10.
Definition AXD_RADIX_HEX : Z := 16.
Definition AXD_DEFAULT_BOOST_LEVEL : Z := 1.
Definition newline : string := String "010"%char EmptyString.
Definition AXD_VERSION : string := "1.0.0".

(** ** Kernel calls *)

Definition set_lock (b : bool) (s : dstate) : dstate :=
  DState (d_world s) (d_refs s) (d_allocs s) (d_log s) (g_axd_stats s)
    (g_current_target_pid s) b.

Definition set_target (pid : Z) (s : dstate) : dstate :=
  DState (d_world s) (d_refs s) (d_allocs s) (d_log s) (g_axd_stats s)
    pid (g_proc_lock s).

(** Taking the mutex twice is a deadlock. *)
Definition mutex_lock : KM dstate unit :=
  may_sleep ;;
  held ← gets g_proc_lock; assertk (negb held) ;; modify (set_lock true).

Definition mutex_unlock : KM dstate unit :=
  held ← gets g_proc_lock; assertk held ;; modify (set_lock false).

(** ** The handlers *)

Section handlers.
Context `{KernelHeaders} `{DragoniteEnv} `{KString}.

(** [copy_from_user] into an array; [None] when it fails. *)
Definition copy_into (b : buffer) (ubuf : Z) (count : nat)
    : KM dstate (option buffer) :=
  may_sleep ;;
  match copy_from_user ubuf count with
  | None => mret None
  | Some bytes => b' ← buf_fill b bytes; mret (Some b')
  end.

Definition nta_pid_write (ubuf : Z) (count : nat) : KM dstate Z :=
  if (AXD_MAX_KBUF_PID <=? count)%nat then mret (- EINVAL)
  else
    copied ← copy_into (buf_new AXD_MAX_KBUF_PID) ubuf count;
    match copied with
    | None => mret (- EFAULT)
    | Some kbuf =>
        kbuf ← buf_store kbuf count NUL;
        '(kbuf, p) ← strim_at kbuf 0;
        str ← buf_str kbuf p;
        match kstrtoint str AXD_RADIX_DEC with
        | inl ret => mret ret
        | inr pid =>
            mutex_lock ;; modify (set_target pid) ;; mutex_unlock ;;
            mret (Z.of_nat count)
        end
    end.

Definition nta_pid_show : KM dstate string :=
  mutex_lock ;;
  pid ← gets g_current_target_pid;
  mutex_unlock ;;
  mret (fmt_int pid +:+ newline).

Definition nta_affinity_write (ubuf : Z) (count : nat) : KM dstate Z :=
  if (AXD_MAX_KBUF_AFFINITY <? count)%nat then mret (- EINVAL)
  else
    ok ← kmalloc_k (Z.of_nat count + 1);
    if negb ok then mret (- ENOMEM)
    else
      copied ← copy_into (buf_new (count + 1)) ubuf count;
      match copied with
      | None => kfree ;; mret (- EFAULT)
      | Some kbuf =>
          kbuf ← buf_store kbuf count NUL;
          '(kbuf, token1) ← strim_at kbuf 0;
          token2 ← strchr_at kbuf token1 SPACE;
          match token2 with
          | None => kfree ;; mret (- EINVAL)
          | Some token2 =>
              kbuf ← buf_store kbuf token2 NUL;
              '(kbuf, token2) ← strim_at kbuf (token2 + 1);
              token3 ← strchr_at kbuf token2 SPACE;
              parsed ←
                match token3 with
                | None => mret None
                | Some token3 =>
                    str ← buf_str kbuf token1;
                    mret match kstrtoint str AXD_RADIX_DEC with
                         | inl _ => None
                         | inr parsed_pid =>
                             if 0 <? parsed_pid then Some (token3, parsed_pid) else None
                         end
                end;
              '(kbuf, pid, comm_str, mask_str) ←
                match parsed with
                | Some (token3, parsed_pid) =>
                    kbuf ← buf_store kbuf token3 NUL;
                    '(kbuf, token3) ← strim_at kbuf (token3 + 1);
                    mret (kbuf, parsed_pid, token2, token3)
                | None =>
                    mutex_lock ;;
                    pid ← gets g_current_target_pid;
                    mutex_unlock ;;
                    mret (kbuf, pid, token1, token2)
                end;
              mask ← buf_str kbuf mask_str;
              let parsed_mask :=
                match kstrtoul mask 0 with
                | inr mask_val => inr mask_val
                | inl _ => kstrtoul mask AXD_RADIX_HEX
                end in
              match parsed_mask with
              | inl ret => kfree ;; mret ret
              | inr mask_val =>
                  if mask_val =? 0 then kfree ;; mret (- EINVAL)
                  else
                    comm ← buf_str kbuf comm_str;
                    ret ← axd_set_affinity pid (Some (String.string_of_list_ascii comm))
                            (Some mask_val);
                    kfree ;;
                    mret (if (ret <? 0) && negb (ret =? - ENOENT) then ret
                          else Z.of_nat count)
              end
          end
      end.

Definition nta_reset_write (ubuf : Z) (count : nat) : KM dstate Z :=
  if (AXD_MAX_KBUF_PID <=? count)%nat then mret (- EINVAL)
  else
    pid ←
      (if (0 <? count)%nat then
         copied ← copy_into (buf_new AXD_MAX_KBUF_PID) ubuf count;
         match copied with
         | None => mret 0
         | Some kbuf =>
             kbuf ← buf_store kbuf count NUL;
             '(kbuf, p) ← strim_at kbuf 0;
             str ← buf_str kbuf p;
             mret match kstrtoint str AXD_RADIX_DEC with inl _ => 0 | inr pid => pid end
         end
       else mret 0);
    pid ←
      (if pid <=? 1 then
         mutex_lock ;; pid ← gets g_current_target_pid; mutex_unlock ;; mret pid
       else mret pid);
    ret ← axd_reset_affinity pid;
    mret (if negb (ret =? 0) then ret else Z.of_nat count).

Definition dragonite_boost_write (ubuf : Z) (count : nat) : KM dstate Z :=
  if (AXD_MAX_KBUF_BOOST <=? count)%nat then mret (- EINVAL)
  else
    copied ← copy_into (buf_new AXD_MAX_KBUF_BOOST) ubuf count;
    match copied with
    | None => mret (- EFAULT)
    | Some kbuf =>
        kbuf ← buf_store kbuf count NUL;
        '(kbuf, p) ← strim_at kbuf 0;
        str ← buf_str kbuf p;
        match sscanf_dd str with
        | None => mret (- EINVAL)
        | Some (pid, level) =>
            ret ← axd_set_boost pid (from_option id AXD_DEFAULT_BOOST_LEVEL level);
            mret (if negb (ret =? 0) then ret else Z.of_nat count)
        end
    end.

Definition dragonite_kswapd_write (ubuf : Z) (count : nat) : KM dstate Z :=
  if (AXD_MAX_KBUF_KSWAPD <=? count)%nat then mret (- EINVAL)
  else
    copied ← copy_into (buf_new AXD_MAX_KBUF_KSWAPD) ubuf count;
    match copied with
    | None => mret (- EFAULT)
    | Some kbuf =>
        kbuf ← buf_store kbuf count NUL;
        '(kbuf, p) ← strim_at kbuf 0;
        str ← buf_str kbuf p;
        parsed_mask ←
          match kstrtoul str 0 with
          | inr mask_val => mret (inr mask_val)
          | inl _ =>
              '(kbuf, p) ← strim_at kbuf 0;
              str ← buf_str kbuf p;
              mret (kstrtoul str AXD_RADIX_HEX)
          end;
        match parsed_mask with
        | inl ret => mret ret
        | inr mask_val =>
            if mask_val =? 0 then mret (- EINVAL)
            else
              ret ← axd_pin_kswapd (Some mask_val);
              mret (if negb (ret =? 0) && negb (ret =? - ESRCH) then ret
                    else Z.of_nat count)
        end
    end.

(** [seq_printf] appends to the file read; the target pid is read without
    the mutex. *)
Definition dragonite_stats_show : KM dstate string :=
  pid ← gets g_current_target_pid;
  st ← gets g_axd_stats;
  mret ("ax_dragonite version: " +:+ AXD_VERSION +:+ newline +:+
        "target_pid: " +:+ fmt_int pid +:+ newline +:+
        "affinity_sets: " +:+ fmt_int (affinity_set_count st) +:+ newline +:+
        "boost_sets: " +:+ fmt_int (boost_set_count st) +:+ newline +:+
        "affinity_resets: " +:+ fmt_int (reset_count st) +:+ newline +:+
        "kswapd_pins: " +:+ fmt_int (kswapd_pin_count st) +:+ newline).

(** The files of the two proc directories that can be written. *)
Inductive proc_file := FilePid | FileAffinity | FileReset | FileBoost | FileKswapd.

Definition proc_write (f : proc_file) : Z → nat → KM dstate Z :=
  match f with
  | FilePid => nta_pid_write
  | FileAffinity => nta_affinity_write
  | FileReset => nta_reset_write
  | FileBoost => dragonite_boost_write
  | FileKswapd => dragonite_kswapd_write
  end.

(** Writes one after the other, with their results. *)
Fixpoint proc_writes (ws : list (proc_file * Z * nat)) : KM dstate (list Z) :=
  match ws with
  | [] => mret []
  | (f, ubuf, count) :: ws' =>
      ret ← proc_write f ubuf count;
      rets ← proc_writes ws';
      mret (ret :: rets)
  end.
End handlers.

(** ** Creating and removing the files *)

Definition AXD_PROC_NTA_DIR : string := "ax_named_thread_affinity".
Definition AXD_PROC_DRAGONITE_DIR : string := "ax_dragonite".
Definition AXD_PROC_PID : string := "pid".
Definition AXD_PROC_NTA : string := "named_thread_affinity".
Definition AXD_PROC_RESET : string := "reset".
Definition AXD_PROC_BOOST : string := "boost".
Definition AXD_PROC_KSWAPD_PIN : string := "kswapd_pin".
Definition AXD_PROC_STATS : string := "stats".

(** What the kernel answers: whether a directory or a file is created; and
    whether it has [struct proc_ops] (Linux 5.6, or [AXD_HAS_PROC_OPS]). *)
Class ProcFs := {
  proc_mkdir : string → bool;
  proc_create_in : string → string → bool;
  axd_has_proc_ops : bool
}.

(** A directory ([None]) or a file in it. *)
Record proc_entry := ProcEntry {
  pe_dir : string;
  pe_file : option (proc_node proc_file)
}.

Record axd_module := AxdModule {
  am_tree : list proc_entry;      (* kernel: the entries that exist *)
  am_stats : axd_stats;
  ax_nta_dir : bool;              (* module: the pointer is not NULL *)
  ax_dragonite_dir : bool
}.

Section load.
Context `{ProcFs}.

Definition with_tree (f : list proc_entry → list proc_entry) (m : axd_module) : axd_module :=
  AxdModule (f (am_tree m)) (am_stats m) (ax_nta_dir m) (ax_dragonite_dir m).

Definition do_mkdir (dir : string) (m : axd_module) : axd_module :=
  if proc_mkdir dir then with_tree (λ l, l ++ [ProcEntry dir None]) m else m.

(** The result of [proc_create] is not looked at. *)
Definition do_create (name : string) (mode : Z) (dir : string) (ops : proc_ops proc_file)
    (m : axd_module) : axd_module :=
  if proc_create_in dir name
  then with_tree (λ l, l ++ [ProcEntry dir (Some (ProcNode name mode ops))]) m else m.

(** *** Operation tables *)

Definition axd_struct : ops_struct :=
  if axd_has_proc_ops then StructProcOps else StructFileOperations.

(** Only [struct file_operations] has an owner. *)
Definition axd_owner : bool := negb axd_has_proc_ops.

Definition AXD_PROC_OPS_RW (open : seq_show) (read : bool) (write : proc_file)
    (lseek : lseek_fn) (release : bool) : proc_ops proc_file :=
  ProcOps axd_struct axd_owner (Some open) read (Some write) (Some lseek) release.

Definition AXD_PROC_OPS_RO (open : seq_show) (read : bool) (lseek : lseek_fn)
    (release : bool) : proc_ops proc_file :=
  ProcOps axd_struct axd_owner (Some open) read None (Some lseek) release.

Definition AXD_PROC_OPS_WO (write : proc_file) (lseek : lseek_fn) : proc_ops proc_file :=
  ProcOps axd_struct axd_owner None false (Some write) (Some lseek) false.

(** The open functions give the show functions to [single_open]. *)
Definition nta_pid_open : seq_show := ShowPid.
Definition dragonite_stats_open : seq_show := ShowStats.

Definition nta_pid_ops := AXD_PROC_OPS_RW nta_pid_open seq_read FilePid SeqLseek single_release.
Definition nta_affinity_ops := AXD_PROC_OPS_WO FileAffinity NoopLlseek.
Definition nta_reset_ops := AXD_PROC_OPS_WO FileReset NoopLlseek.
Definition dragonite_boost_ops := AXD_PROC_OPS_WO FileBoost NoopLlseek.
Definition dragonite_kswapd_ops := AXD_PROC_OPS_WO FileKswapd NoopLlseek.
Definition dragonite_stats_ops := AXD_PROC_OPS_RO dragonite_stats_open seq_read SeqLseek single_release.

Definition remove_proc_subtree (dir : string) (m : axd_module) : axd_module :=
  with_tree (filter (λ e, pe_dir e ≠ dir)) m.

(** Modes in octal: 0666 is 438, 0222 is 146, 0444 is 292. *)
Definition axd_proc_init (m : axd_module) : Z * axd_module :=
  let m := do_mkdir AXD_PROC_NTA_DIR m in
  let m := AxdModule (am_tree m) (am_stats m) (proc_mkdir AXD_PROC_NTA_DIR)
             (ax_dragonite_dir m) in
  let m :=
    if ax_nta_dir m then
      let m := do_create AXD_PROC_PID 438 AXD_PROC_NTA_DIR nta_pid_ops m in
      let m := do_create AXD_PROC_NTA 146 AXD_PROC_NTA_DIR nta_affinity_ops m in
      do_create AXD_PROC_RESET 146 AXD_PROC_NTA_DIR nta_reset_ops m
    else m in
  let m := do_mkdir AXD_PROC_DRAGONITE_DIR m in
  let m := AxdModule (am_tree m) (am_stats m) (ax_nta_dir m)
             (proc_mkdir AXD_PROC_DRAGONITE_DIR) in
  let m :=
    if ax_dragonite_dir m then
      let m := do_create AXD_PROC_BOOST 146 AXD_PROC_DRAGONITE_DIR dragonite_boost_ops m in
      let m := do_create AXD_PROC_KSWAPD_PIN 146 AXD_PROC_DRAGONITE_DIR dragonite_kswapd_ops m in
      do_create AXD_PROC_STATS 292 AXD_PROC_DRAGONITE_DIR dragonite_stats_ops m
    else m in
  (0, m).

Definition axd_proc_exit (m : axd_module) : axd_module :=
  let m := if ax_nta_dir m then remove_proc_subtree AXD_PROC_NTA_DIR m else m in
  if ax_dragonite_dir m then remove_proc_subtree AXD_PROC_DRAGONITE_DIR m else m.

Definition axd_init (m : axd_module) : Z * axd_module :=
  let m := AxdModule (am_tree m) (AxdStats 0 0 0 0) (ax_nta_dir m) (ax_dragonite_dir m) in
  let '(ret, m) := axd_proc_init m in
  if negb (ret =? 0) then (ret, m) else (0, m).

Definition axd_exit (m : axd_module) : axd_module := axd_proc_exit m.
End load.

(** ** Specification on values *)

Section spec.
Context `{KernelHeaders} `{DragoniteEnv} `{KString}.

(** What a handler that accepts fewer than [n] bytes gets from the user. *)
Inductive request := Rejected | Faulted | Request (s : text).

Definition read_request (n : nat) (ubuf : Z) (count : nat) : request :=
  if (n <=? count)%nat then Rejected
  else match copy_from_user ubuf count with
       | None => Faulted
       | Some bytes => Request (trim (c_prefix bytes))
       end.

(** A string cut at its first space. *)
Definition split_space (s : text) : option (text * text) :=
  i ← find_char SPACE s; Some (take i s, drop (S i) s).

(** Decimal, octal or hexadecimal with a prefix, or else hexadecimal. *)
Definition mask_number (s : text) : Z + Z :=
  match kstrtoul s 0 with inr v => inr v | inl _ => kstrtoul s 16 end.

Definition read_mask (s : text) : Z + Z :=
  match mask_number s with
  | inl e => inl e
  | inr v => if decide (v = 0) then inl (- EINVAL) else inr v
  end.

(** [pid comm mask], or [comm mask] for the target process. *)
Definition affinity_request (target : Z) (s : text) : Z + (Z * text * Z) :=
  match split_space s with
  | None => inl (- EINVAL)
  | Some (first, rest) =>
      let rest := trim rest in
      let '(pid, comm, mask) :=
        match split_space rest, kstrtoint first 10 with
        | Some (second, third), inr pid =>
            if decide (0 < pid) then (pid, second, trim third) else (target, first, rest)
        | _, _ => (target, first, rest)
        end in
      match read_mask mask with
      | inl e => inl e
      | inr m => inr (pid, comm, m)
      end
  end.

(** Between two calls of the driver. *)
Record idle (s : dstate) : Prop := {
  idle_rcu : d_rcu s = 0%nat;
  idle_lock : g_proc_lock s = false;
  idle_ok : dragonite_ok (d_world s)
}.

(** The result of an operation as that of the write that asked for it. *)
Definition reply (f : Z → Z) (r : outcome (Z * dstate)) : outcome (Z * dstate) :=
  match r with Done (ret, s) => Done (f ret, s) | _ => r end.

Definition affinity_reply (count : nat) (ret : Z) : Z :=
  if decide (ret < 0 ∧ ret ≠ - ENOENT) then ret else Z.of_nat count.

(** The handlers on values. *)
Definition nta_pid_write_spec (ubuf : Z) (count : nat) (s : dstate)
    : outcome (Z * dstate) :=
  match read_request 32 ubuf count with
  | Rejected => Done (- EINVAL, s)
  | Faulted => Done (- EFAULT, s)
  | Request str =>
      match kstrtoint str 10 with
      | inl e => Done (e, s)
      | inr pid => Done (Z.of_nat count, set_target pid s)
      end
  end.

Definition dragonite_boost_write_spec (ubuf : Z) (count : nat) (s : dstate)
    : outcome (Z * dstate) :=
  match read_request 64 ubuf count with
  | Rejected => Done (- EINVAL, s)
  | Faulted => Done (- EFAULT, s)
  | Request str =>
      match sscanf_dd str with
      | None => Done (- EINVAL, s)
      | Some (pid, level) =>
          reply (λ ret, if decide (ret = 0) then Z.of_nat count else ret)
            (axd_set_boost pid (default 1 level) s)
      end
  end.

Definition dragonite_kswapd_write_spec (ubuf : Z) (count : nat) (s : dstate)
    : outcome (Z * dstate) :=
  match read_request 32 ubuf count with
  | Rejected => Done (- EINVAL, s)
  | Faulted => Done (- EFAULT, s)
  | Request str =>
      match read_mask str with
      | inl e => Done (e, s)
      | inr mask =>
          reply (λ ret, if decide (ret = 0 ∨ ret = - ESRCH) then Z.of_nat count else ret)
            (axd_pin_kswapd (Some mask) s)
      end
  end.

Definition nta_reset_write_spec (ubuf : Z) (count : nat) (s : dstate)
    : outcome (Z * dstate) :=
  if decide (32 ≤ count)%nat then Done (- EINVAL, s)
  else
    let target :=
      match (if decide (count = 0%nat) then Faulted else read_request 32 ubuf count) with
      | Request str =>
          match kstrtoint str 10 with
          | inr pid => if decide (1 < pid) then pid else g_current_target_pid s
          | inl _ => g_current_target_pid s
          end
      | _ => g_current_target_pid s
      end in
    reply (λ ret, if decide (ret = 0) then Z.of_nat count else ret)
      (axd_reset_affinity target s).

Definition nta_affinity_write_spec (ubuf : Z) (count : nat) (s : dstate)
    : outcome (Z * dstate) :=
  if decide (256 < count)%nat then Done (- EINVAL, s)
  else if negb (kmalloc (Z.of_nat count + 1)) then Done (- ENOMEM, s)
  else
    match read_request (count + 1) ubuf count with
    | Request str =>
        match affinity_request (g_current_target_pid s) str with
        | inl e => Done (e, s)
        | inr (pid, comm, mask) =>
            reply (affinity_reply count)
              (axd_set_affinity pid (Some (String.string_of_list_ascii comm))
                 (Some mask) s)
        end
    | _ => Done (- EFAULT, s)
    end.
End spec.

(** ** Runs *)

Section runs.
Context `{KernelHeaders} `{DragoniteEnv} `{KStringLaws}.

Lemma mutex_lock_run s :
  d_rcu s = 0%nat → g_proc_lock s = false →
  mutex_lock s = Done (tt, set_lock true s).
Proof.
  intros Hr Hl. unfold mutex_lock. krun (may_sleep_run s Hr).
  rewrite Hl. by erewrite (bind_done (assertk _)).
Qed.

Lemma mutex_unlock_run s :
  g_proc_lock s = true → mutex_unlock s = Done (tt, set_lock false s).
Proof.
  intros Hl. unfold mutex_unlock. kred. rewrite Hl.
  by erewrite (bind_done (assertk _)).
Qed.

Lemma set_lock_same s : g_proc_lock s = false → set_lock false (set_lock true s) = s.
Proof. destruct s; cbn. by intros ->. Qed.

(** Reading the target pid under the mutex. *)
Lemma target_run {A} (k : Z → KM dstate A) s :
  d_rcu s = 0%nat → g_proc_lock s = false →
  (mutex_lock ;; pid ← gets g_current_target_pid; mutex_unlock ;; k pid) s
  = k (g_current_target_pid s) s.
Proof.
  intros Hr Hl. krun (mutex_lock_run s Hr Hl).
  krun (mutex_unlock_run (set_lock true s) eq_refl).
  by rewrite set_lock_same.
Qed.

Lemma set_target_run pid (r : Z) s :
  d_rcu s = 0%nat → g_proc_lock s = false →
  (mutex_lock ;; modify (set_target pid) ;; mutex_unlock ;; mret r) s
  = Done (r, set_target pid s).
Proof.
  intros Hr Hl. krun (mutex_lock_run s Hr Hl).
  krun (mutex_unlock_run (set_target pid (set_lock true s)) eq_refl).
  unfold mret, km_ret, set_target, set_lock. cbn. by rewrite Hl.
Qed.

Lemma copy_fault_run b ubuf count s :
  d_rcu s = 0%nat → copy_from_user ubuf count = None →
  copy_into b ubuf count s = Done (None, s).
Proof. intros Hr Hc. unfold copy_into. krun (may_sleep_run s Hr). by rewrite Hc. Qed.

(** The copy, the terminating NUL and the trimmed string. *)
Lemma copy_run n ubuf count bytes s :
  d_rcu s = 0%nat → copy_from_user ubuf count = Some bytes → (count < n)%nat →
  ∃ b0 b, copy_into (buf_new n) ubuf count s = Done (Some b0, s) ∧
    buf_store b0 count NUL s = Done (b, s) ∧ holds b 0 (c_prefix bytes).
Proof.
  intros Hr Hc Hn. pose proof (copy_length _ _ _ Hc) as <-.
  destruct (fill_terminated n bytes Hn) as (b & Hb & Hlen & Hh).
  eexists _, b. split_and!; [| |done].
  - unfold copy_into. krun (may_sleep_run s Hr). rewrite Hc.
    erewrite bind_done; [done|]. apply buf_fill_run.
    unfold buf_new. rewrite length_replicate. lia.
  - rewrite buf_store_run; [by rewrite Hb|].
    rewrite <- Hlen, <- Hb, length_insert in Hn. done.
Qed.

Lemma fetch_run n ubuf count bytes s :
  d_rcu s = 0%nat → copy_from_user ubuf count = Some bytes → (count < n)%nat →
  ∃ b0 b b' p, copy_into (buf_new n) ubuf count s = Done (Some b0, s) ∧
    buf_store b0 count NUL s = Done (b, s) ∧
    strim_at b 0 s = Done ((b', p), s) ∧
    buf_str b' p s = Done (trim (c_prefix bytes), s) ∧
    (* trimming again from the start of the buffer changes nothing *)
    ∃ b2 p2, strim_at b' 0 s = Done ((b2, p2), s) ∧
      buf_str b2 p2 s = Done (trim (c_prefix bytes), s).
Proof.
  intros Hr Hc Hn. destruct (copy_run n ubuf count bytes s Hr Hc Hn)
    as (b0 & b & E1 & E2 & Hb).
  destruct (strim_at_run b 0 _ s Hb) as (b' & p & E3 & Hp & _ & _ & _ & Hlead).
  destruct (strim_at_run b' 0 _ s Hlead) as (b2 & p2 & E4 & Hp2 & _).
  exists b0, b, b', p. split_and!; [done..| |].
  { rewrite <- trimmed_trim. by apply buf_str_run. }
  exists b2, p2. split; [done|].
  rewrite trimmed_trim, trim_idempotent in Hp2 by apply strim_left.
  rewrite <- trimmed_trim. by apply buf_str_run.
Qed.
End runs.

(** ** What the operations leave alone *)

(** Everything but the calls made and the statistics. *)
Definition same_kernel (s s' : dstate) : Prop :=
  d_world s' = d_world s ∧ d_refs s' = d_refs s ∧ d_allocs s' = d_allocs s ∧
  g_current_target_pid s' = g_current_target_pid s ∧ g_proc_lock s' = g_proc_lock s.

Section frame.
Context `{KernelHeaders} `{DragoniteEnv} `{KString}.

Ltac by_spec := repeat case_match; by repeat split.

Lemma set_affinity_same pid comm m s : same_kernel s (snd (set_affinity_spec pid comm m s)).
Proof. unfold set_affinity_spec. by_spec. Qed.

Lemma reset_affinity_same pid s : same_kernel s (snd (reset_affinity_spec pid s)).
Proof. unfold reset_affinity_spec. by_spec. Qed.

Lemma set_boost_same pid l s : same_kernel s (snd (set_boost_spec pid l s)).
Proof. unfold set_boost_spec. by_spec. Qed.

Lemma pin_kswapd_same m s : same_kernel s (snd (pin_kswapd_spec m s)).
Proof. unfold pin_kswapd_spec. by_spec. Qed.

Lemma set_affinity_allocs pid comm m n s :
  set_affinity_spec pid comm m (with_allocs n s)
  = (fst (set_affinity_spec pid comm m s), with_allocs n (snd (set_affinity_spec pid comm m s))).
Proof.
  unfold set_affinity_spec, some_success, applied. dfields.
  repeat case_match; try done.
Qed.

Lemma with_allocs_back n s s' :
  same_kernel s s' → n = d_allocs s → with_allocs n s' = s'.
Proof. intros (_ & _ & Ha & _) ->. rewrite <- Ha. by destruct s'. Qed.

Lemma no_nul_text t : NUL ∉ t → no_nul (String.string_of_list_ascii t) = true.
Proof.
  induction t as [|c t IH]; cbn; [done|]. intros Hn%not_elem_of_cons.
  destruct Hn as [Hc Ht]. destruct (Ascii.eqb_spec c Ascii.zero); [by subst|].
  by apply IH.
Qed.

Lemma holds_no_nul b off s : holds b off s → NUL ∉ s.
Proof.
  intros [Hs _] [i Hi]%list_elem_of_lookup. by destruct (Hs _ _ Hi).
Qed.
End frame.

(** ** The handlers *)

Section handlers_correct.
Context `{KernelHeaders} `{DragoniteEnv} `{KStringLaws}.

(** Runs the part of a handler up to the trimmed string. *)
Ltac fetch Hr :=
  unfold read_request;
  match goal with
  | |- context [(?n <=? ?count)%nat] =>
      destruct (Nat.leb_spec n count) as [|Hn]; [done|];
      match goal with
      | |- context [copy_from_user ?u count] =>
          let bytes := fresh "bytes" in
          destruct (copy_from_user u count) as [bytes|] eqn:Hcopy;
          [ destruct (fetch_run n u count bytes _ Hr Hcopy Hn)
              as (b0 & b & b' & p & E1 & E2 & E3 & E4 & b2 & p2 & E5 & E6);
            krun E1; krun E2; krun E3; krun E4
          | krun (copy_fault_run (buf_new n) u count _ Hr Hcopy); try done ]
      end
  end.

(** Runs an operation of the driver on both sides. *)
Ltac operate E :=
  let R := fresh "R" in
  pose proof E as R;
  match type of R with
  | _ = Done ?p => let ret := fresh "ret" in let s' := fresh "s'" in
                   destruct p as [ret s'];
                   rewrite (bind_done _ _ _ _ _ R); rewrite R
  end.

Lemma nta_pid_write_run ubuf count s :
  idle s → nta_pid_write ubuf count s = nta_pid_write_spec ubuf count s.
Proof.
  intros [Hr Hl _]. unfold nta_pid_write, nta_pid_write_spec, AXD_MAX_KBUF_PID, AXD_RADIX_DEC. fetch Hr.
  destruct (kstrtoint _ 10); [done|]. by rewrite set_target_run.
Qed.

Lemma dragonite_boost_write_run ubuf count s :
  idle s → dragonite_boost_write ubuf count s = dragonite_boost_write_spec ubuf count s.
Proof.
  intros [Hr Hl Hok]. unfold dragonite_boost_write, dragonite_boost_write_spec, AXD_MAX_KBUF_BOOST. fetch Hr.
  destruct (sscanf_dd _) as [[pid level]|]; [|done].
  operate (axd_set_boost_run pid (default 1 level) s Hok Hr).
  cbn. destruct (Z.eqb_spec ret 0); by case_decide.
Qed.

Lemma dragonite_kswapd_write_run ubuf count s :
  idle s → dragonite_kswapd_write ubuf count s = dragonite_kswapd_write_spec ubuf count s.
Proof.
  intros [Hr Hl Hok]. unfold dragonite_kswapd_write, dragonite_kswapd_write_spec, AXD_MAX_KBUF_KSWAPD. fetch Hr.
  match goal with |- (?m ≫= ?f) s = _ =>
    assert (m s = Done (mask_number (trim (c_prefix bytes)), s)) as E7
  end.
  { unfold mask_number. destruct (kstrtoul _ 0); [|done]. krun E5. by krun E6. }
  krun E7. unfold read_mask.
  destruct (mask_number _) as [e|v]; [done|].
  destruct (Z.eqb_spec v 0); case_decide; try done.
  operate (axd_pin_kswapd_run v s Hok Hr).
  cbn. destruct (Z.eqb_spec ret 0), (Z.eqb_spec ret (- ESRCH)); case_decide; (done || tauto).
Qed.

Lemma nta_reset_write_run ubuf count s :
  idle s → nta_reset_write ubuf count s = nta_reset_write_spec ubuf count s.
Proof.
  intros [Hr Hl Hok]. unfold nta_reset_write, nta_reset_write_spec, AXD_MAX_KBUF_PID, read_request.
  destruct (Nat.leb_spec 32 count) as [|Hn]; case_decide; try lia; [done|].
  match goal with |- (?m ≫= ?f) s = _ =>
    assert (m s = Done (match (if decide (count = 0%nat) then None
                               else copy_from_user ubuf count) with
                        | Some bytes =>
                            match kstrtoint (trim (c_prefix bytes)) 10 with
                            | inl _ => 0 | inr pid => pid end
                        | None => 0 end, s)) as E0
  end.
  { destruct (Nat.ltb_spec 0 count); case_decide; try lia; [|done].
    destruct (copy_from_user ubuf count) as [bytes|] eqn:Hcopy.
    - destruct (fetch_run 32 ubuf count bytes s Hr Hcopy Hn)
        as (b0 & b & b' & p & E1 & E2 & E3 & E4 & _).
      krun E1. krun E2. krun E3. by krun E4.
    - by krun (copy_fault_run (buf_new 32) ubuf count s Hr Hcopy). }
  krun E0. set (pid := match _ with Some _ => _ | None => 0 end).
  set (target := match _ with Rejected => _ | Faulted => _ | Request _ => _ end).
  assert (target = if pid <=? 1 then g_current_target_pid s else pid) as Htarget.
  { subst target pid. destruct (decide (count = 0%nat)); [done|].
    destruct (copy_from_user ubuf count) as [bytes|]; [|done].
    destruct (kstrtoint _ 10) as [e|z]; [done|].
    destruct (Z.leb_spec z 1); case_decide; (done || lia). }
  match goal with |- (?m ≫= ?f) s = _ => assert (m s = Done (target, s)) as Et end.
  { rewrite Htarget. destruct (pid <=? 1); [by rewrite target_run|done]. }
  krun Et. clear E0 Et Htarget pid. clearbody target.
  operate (axd_reset_affinity_run target s Hok Hr).
  cbn. destruct (Z.eqb_spec ret 0); by case_decide.
Qed.

Lemma kfree_back s : kfree (with_allocs (S (d_allocs s)) s) = Done (tt, s).
Proof.
  erewrite kfree_run by done. by destruct s.
Qed.

(** The handler from the point where the tokens are known. *)
Lemma affinity_tail_run b comm_str mask_str comm mask pid count s :
  idle s → holds b comm_str comm → holds b mask_str mask →
  (mask ← buf_str b mask_str;
   let parsed_mask :=
     match kstrtoul mask 0 with
     | inr mask_val => inr mask_val
     | inl _ => kstrtoul mask AXD_RADIX_HEX
     end in
   match parsed_mask with
   | inl ret => kfree ;; mret ret
   | inr mask_val =>
       if mask_val =? 0 then kfree ;; mret (- EINVAL)
       else
         comm ← buf_str b comm_str;
         ret ← axd_set_affinity pid (Some (String.string_of_list_ascii comm))
                 (Some mask_val);
         kfree ;;
         mret (if (ret <? 0) && negb (ret =? - ENOENT) then ret else Z.of_nat count)
   end) (with_allocs (S (d_allocs s)) s)
  = match read_mask mask with
    | inl e => Done (e, s)
    | inr m =>
        reply (affinity_reply count)
          (axd_set_affinity pid (Some (String.string_of_list_ascii comm)) (Some m) s)
    end.
Proof.
  intros [Hr Hl Hok] Hc Hm. krun (buf_str_run b _ mask (with_allocs (S (d_allocs s)) s) Hm).
  unfold read_mask, AXD_RADIX_HEX. fold (mask_number mask).
  destruct (mask_number mask) as [e|v]; [by krun (kfree_back s)|].
  destruct (Z.eqb_spec v 0); case_decide; try done; [by krun (kfree_back s)|].
  krun (buf_str_run b _ comm (with_allocs (S (d_allocs s)) s) Hc).
  pose proof (no_nul_text _ (holds_no_nul _ _ _ Hc)) as Hnul.
  set (str := String.string_of_list_ascii comm) in *.
  erewrite bind_done.
  2:{ rewrite axd_set_affinity_run by done. by rewrite set_affinity_allocs. }
  rewrite axd_set_affinity_run by done.
  pose proof (set_affinity_same pid str v s) as Hsame.
  destruct (set_affinity_spec pid str v s) as [ret s']. cbn [fst snd] in *.
  rewrite <- (with_allocs_back (d_allocs s) s s') at 2 by done.
  erewrite bind_done.
  2:{ by apply (kfree_run _ (d_allocs s)). }
  cbn. unfold affinity_reply. apply done_ext; try done.
  destruct (Z.ltb_spec ret 0), (Z.eqb_spec ret (- ENOENT)); cbn; case_decide; (done || lia).
Qed.

Lemma nta_affinity_write_run ubuf count s :
  idle s → nta_affinity_write ubuf count s = nta_affinity_write_spec ubuf count s.
Proof.
  intros Hidle. pose proof (idle_rcu _ Hidle) as Hr.
  unfold nta_affinity_write, nta_affinity_write_spec, AXD_MAX_KBUF_AFFINITY, AXD_RADIX_DEC, read_request.
  destruct (Nat.ltb_spec 256 count) as [|Hn]; case_decide; try lia; [done|].
  krun (kmalloc_run s (Z.of_nat count + 1) Hr).
  destruct (kmalloc _); [cbn [negb]|done].
  destruct (Nat.leb_spec (count + 1) count) as [|Hlt]; [lia|].
  set (s1 := with_allocs (S (d_allocs s)) s).
  assert (kfree s1 = Done (tt, s)) as Hfree by apply kfree_back.
  destruct (copy_from_user ubuf count) as [bytes|] eqn:Hcopy.
  2:{ krun (copy_fault_run (buf_new (count + 1)) ubuf count s1 Hr Hcopy).
      by krun Hfree. }
  destruct (copy_run (count + 1) ubuf count bytes s1 Hr Hcopy Hlt)
    as (b0 & b & E1 & E2 & Hb). krun E1. krun E2.
  destruct (strim_at_run b 0 _ s1 Hb) as (b1 & p1 & E3 & K1 & _). krun E3.
  rewrite trimmed_trim in K1. set (t := trim (c_prefix bytes)) in *.
  krun (strchr_at_run b1 p1 t SPACE s1 K1).
  unfold affinity_request, split_space.
  destruct (find_char SPACE t) as [i|] eqn:Hi;
    cbn [fmap option_fmap option_map mbind option_bind]; [|by krun Hfree].
  destruct (holds_split b1 p1 t SPACE i K1 Hi) as (Hst & K2 & K3).
  krun (buf_store_run b1 _ NUL s1 Hst).
  destruct (strim_at_run _ _ _ s1 K3) as (b3 & p2 & E4 & K4 & _ & _ & Hframe & _).
  krun E4. apply Hframe in K2; [|rewrite length_take; lia]. clear Hframe K3.
  rewrite trimmed_trim in K4. set (rest := trim (drop (S i) t)) in *.
  krun (strchr_at_run b3 p2 rest SPACE s1 K4).
  assert ((mutex_lock ;; pid ← gets g_current_target_pid; mutex_unlock ;;
           mret (b3, pid, p1, p2)) s1
          = Done ((b3, g_current_target_pid s, p1, p2), s1)) as Htarget
    by (rewrite target_run; [done|done|apply (idle_lock _ Hidle)]).
  pose proof (affinity_tail_run b3 p1 p2 _ _ (g_current_target_pid s) count s
                Hidle K2 K4) as Htail.
  destruct (find_char SPACE rest) as [j|] eqn:Hj;
    cbn [fmap option_fmap option_map mbind option_bind].
  2:{ rewrite bind_ret. cbv iota beta. rewrite (bind_done _ _ _ _ _ Htarget).
      etransitivity; [exact Htail|]. by destruct (read_mask rest). }
  krun (buf_str_run b3 p1 (take i t) s1 K2).
  destruct (kstrtoint (take i t) 10) as [e|pid];
    [|destruct (Z.ltb_spec 0 pid); case_decide; try lia].
  - rewrite (bind_done _ _ _ _ _ Htarget). etransitivity; [exact Htail|]. by destruct (read_mask rest).
  - clear Htarget Htail.
    destruct (holds_split b3 p2 rest SPACE j K4 Hj) as (Hst3 & K5 & K6).
    krun (buf_store_run b3 _ NUL s1 Hst3).
    destruct (strim_at_run _ _ _ s1 K6) as (b5 & p3 & E5 & K7 & _ & _ & Hframe & _).
    krun E5. apply Hframe in K5; [|rewrite length_take; lia].
    rewrite trimmed_trim in K7.
    etransitivity; [exact (affinity_tail_run b5 p2 p3 _ _ pid count s Hidle K5 K7)|].
    by destruct (read_mask _).
  - rewrite (bind_done _ _ _ _ _ Htarget). etransitivity; [exact Htail|]. by destruct (read_mask rest).
Qed.

(** The target pid is set exactly when the bytes written are the decimal
    number of a pid, and a failed write leaves it alone. *)
Theorem nta_pid_write_correct ubuf count s :
  idle s →
  nta_pid_write ubuf count s =
    match read_request 32 ubuf count with
    | Rejected => Done (- EINVAL, s)
    | Faulted => Done (- EFAULT, s)
    | Request str =>
        match kstrtoint str 10 with
        | inl e => Done (e, s)
        | inr pid => Done (Z.of_nat count, set_target pid s)
        end
    end.
Proof. exact (nta_pid_write_run ubuf count s). Qed.

(** The boost handler: an absent level means a boost. *)
Theorem dragonite_boost_write_correct ubuf count s :
  idle s →
  dragonite_boost_write ubuf count s =
    match read_request 64 ubuf count with
    | Rejected => Done (- EINVAL, s)
    | Faulted => Done (- EFAULT, s)
    | Request str =>
        match sscanf_dd str with
        | None => Done (- EINVAL, s)
        | Some (pid, level) =>
            reply (λ ret, if decide (ret = 0) then Z.of_nat count else ret)
              (axd_set_boost pid (default 1 level) s)
        end
    end.
Proof. exact (dragonite_boost_write_run ubuf count s). Qed.

(** Pinning kswapd with a mask in any notation; that no kswapd could be moved
    is not an error of the write. *)
Theorem dragonite_kswapd_write_correct ubuf count s :
  idle s →
  dragonite_kswapd_write ubuf count s =
    match read_request 32 ubuf count with
    | Rejected => Done (- EINVAL, s)
    | Faulted => Done (- EFAULT, s)
    | Request str =>
        match read_mask str with
        | inl e => Done (e, s)
        | inr mask =>
            reply (λ ret, if decide (ret = 0 ∨ ret = - ESRCH) then Z.of_nat count else ret)
              (axd_pin_kswapd (Some mask) s)
        end
    end.
Proof. exact (dragonite_kswapd_write_run ubuf count s). Qed.

(** The reset handler: a number greater than 1 names the process; anything
    else, bytes that are no number, an empty write and a faulting buffer
    among them, means the target process. *)
Theorem nta_reset_write_correct ubuf count s :
  idle s →
  nta_reset_write ubuf count s =
    if decide (32 ≤ count)%nat then Done (- EINVAL, s)
    else
      let target :=
        match (if decide (count = 0%nat) then Faulted else read_request 32 ubuf count) with
        | Request str =>
            match kstrtoint str 10 with
            | inr pid => if decide (1 < pid) then pid else g_current_target_pid s
            | inl _ => g_current_target_pid s
            end
        | _ => g_current_target_pid s
        end in
      reply (λ ret, if decide (ret = 0) then Z.of_nat count else ret)
        (axd_reset_affinity target s).
Proof. exact (nta_reset_write_run ubuf count s). Qed.

(** C13: Writing [pid comm mask], or [comm mask] for the target process, asks the
    driver for exactly that, whatever blanks surround the three words; a
    write that names no thread succeeds, every other error is reported, and
    the buffer is freed on every path. *)
Theorem nta_affinity_write_correct ubuf count s :
  idle s →
  nta_affinity_write ubuf count s =
    if decide (256 < count)%nat then Done (- EINVAL, s)
    else if negb (kmalloc (Z.of_nat count + 1)) then Done (- ENOMEM, s)
    else
      match read_request (count + 1) ubuf count with
      | Request str =>
          match affinity_request (g_current_target_pid s) str with
          | inl e => Done (e, s)
          | inr (pid, comm, mask) =>
              reply (affinity_reply count)
                (axd_set_affinity pid (Some (String.string_of_list_ascii comm))
                   (Some mask) s)
          end
      | _ => Done (- EFAULT, s)
      end.
Proof. exact (nta_affinity_write_run ubuf count s). Qed.

(** *** Any write *)

(** A write ends, with the count or an error, between two calls again. *)
Definition settled (count : nat) (s : dstate) (r : outcome (Z * dstate)) : Prop :=
  ∃ ret s', r = Done (ret, s') ∧ (ret = Z.of_nat count ∨ ret < 0) ∧
    d_world s' = d_world s ∧ d_refs s' = d_refs s ∧ d_allocs s' = d_allocs s ∧
    g_proc_lock s' = g_proc_lock s.

Lemma settled_here count s ret :
  ret = Z.of_nat count ∨ ret < 0 → settled count s (Done (ret, s)).
Proof. intros Hr. by exists ret, s. Qed.

Lemma settled_reply count s f (p : Z * dstate) r :
  r = Done p → same_kernel s (snd p) → (f (fst p) = Z.of_nat count ∨ f (fst p) < 0) →
  settled count s (reply f r).
Proof.
  intros -> (? & ? & ? & _ & ?) Hf. destruct p as [ret s'].
  exists (f ret), s'. by split_and!.
Qed.

Lemma read_mask_error str e : read_mask str = inl e → e < 0.
Proof.
  unfold read_mask, mask_number. destruct (kstrtoul str 0) as [?|v] eqn:?.
  - destruct (kstrtoul str 16) as [e'|v] eqn:?.
    + intros [= <-]. by eapply kstrtoul_error.
    + case_decide; [by intros [= <-]|done].
  - case_decide; [by intros [= <-]|done].
Qed.

Lemma affinity_request_error target str e : affinity_request target str = inl e → e < 0.
Proof.
  unfold affinity_request. destruct (split_space str) as [[a b]|]; [|by intros [= <-]].
  destruct (match split_space _ with Some _ => _ | None => _ end) as [[pid c] m].
  destruct (read_mask m) eqn:E; [|done]. intros [= <-]. by apply read_mask_error in E.
Qed.

Lemma boost_range pid l s : fst (set_boost_spec pid l s) = 0 ∨ fst (set_boost_spec pid l s) < 0.
Proof. unfold set_boost_spec. repeat case_match; cbn; (by left) || (by right). Qed.

Lemma reset_range pid s :
  fst (reset_affinity_spec pid s) = 0 ∨ fst (reset_affinity_spec pid s) < 0.
Proof. unfold reset_affinity_spec. repeat case_match; cbn; (by left) || (by right). Qed.

Lemma kswapd_range m s : fst (pin_kswapd_spec m s) = 0 ∨ fst (pin_kswapd_spec m s) < 0.
Proof. unfold pin_kswapd_spec. repeat case_match; cbn; (by left) || (by right). Qed.

Lemma read_request_no_nul n ubuf count str :
  read_request n ubuf count = Request str → NUL ∉ str.
Proof.
  unfold read_request. destruct (n <=? count)%nat; [done|].
  destruct (copy_from_user _ _) as [bytes|]; [|done]. intros [= <-] Hin.
  by apply (c_prefix_no_nul bytes), elem_trim.
Qed.

Lemma request_no_nul target str pid comm m :
  NUL ∉ str → affinity_request target str = inr (pid, comm, m) → NUL ∉ comm.
Proof.
  intros Hn. unfold affinity_request, split_space.
  destruct (find_char SPACE str) as [i|]; [|done]. cbn [mbind option_bind].
  assert (∀ j, NUL ∉ take j (trim (drop (S i) str))) as Hrest.
  { intros j Hin. apply elem_of_take in Hin as (k & Hin & _).
    apply list_elem_of_lookup_2, elem_trim, list_elem_of_lookup_1 in Hin as [l Hl].
    rewrite lookup_drop in Hl. by apply list_elem_of_lookup_2 in Hl. }
  assert (NUL ∉ take i str) as Hfirst.
  { intros Hin. apply elem_of_take in Hin as (k & Hin & _).
    by apply list_elem_of_lookup_2 in Hin. }
  destruct (find_char SPACE (trim _)) as [j|]; cbn [mbind option_bind];
    [destruct (kstrtoint _ 10); [|case_decide]|];
    destruct (read_mask _); intros [= <- <- <-]; auto.
Qed.

Lemma proc_write_settled f ubuf count s :
  idle s → settled count s (proc_write f ubuf count s).
Proof.
  intros Hidle. pose proof Hidle as [Hr Hl Hok]. destruct f; cbn [proc_write].
  - rewrite nta_pid_write_run by done. unfold nta_pid_write_spec.
    destruct (read_request _ _ _) as [| |str]; [apply settled_here; by right..|].
    destruct (kstrtoint str 10) eqn:E.
    + apply settled_here. right. by eapply kstrtoint_error.
    + eexists _, _. split; [done|]. split; [by left|]. by split_and!.
  - rewrite nta_affinity_write_run by done. unfold nta_affinity_write_spec.
    case_decide; [apply settled_here; by right|].
    destruct (kmalloc _); [|apply settled_here; by right]. cbn [negb].
    destruct (read_request _ _ _) as [| |str] eqn:Hreq; [apply settled_here; by right..|].
    apply read_request_no_nul in Hreq.
    destruct (affinity_request _ str) as [e|[[pid comm] m]] eqn:E.
    + apply settled_here. right. by eapply affinity_request_error.
    + apply request_no_nul, no_nul_text in E; [|done].
      eapply settled_reply; [by apply axd_set_affinity_run|apply set_affinity_same|].
      unfold affinity_reply. case_decide; [right; lia|by left].
  - rewrite nta_reset_write_run by done. unfold nta_reset_write_spec.
    case_decide; [apply settled_here; by right|]. cbn zeta.
    eapply settled_reply; [by apply axd_reset_affinity_run|apply reset_affinity_same|].
    case_decide; [by left|]. edestruct reset_range; [done|by right].
  - rewrite dragonite_boost_write_run by done. unfold dragonite_boost_write_spec.
    destruct (read_request _ _ _) as [| |str]; [apply settled_here; by right..|].
    destruct (sscanf_dd str) as [[pid level]|]; [|apply settled_here; by right].
    eapply settled_reply; [by apply axd_set_boost_run|apply set_boost_same|].
    case_decide; [by left|]. edestruct boost_range; [done|by right].
  - rewrite dragonite_kswapd_write_run by done. unfold dragonite_kswapd_write_spec.
    destruct (read_request _ _ _) as [| |str]; [apply settled_here; by right..|].
    destruct (read_mask str) as [e|m] eqn:E.
    { apply settled_here. right. by eapply read_mask_error. }
    eapply settled_reply; [by apply axd_pin_kswapd_run|apply pin_kswapd_same|].
    case_decide as Hd; [by left|]. edestruct kswapd_range; [|by right].
    destruct Hd. by left.
Qed.

(** C8: Whatever is written to the proc files, in whatever order and whether or
    not the writes are well formed, each write ends with the number of bytes
    or an error, no buffer is overrun and no lock or task is misused, and at
    the end the driver holds no more references and memory than before. *)
Theorem proc_writes_safe ws s :
  idle s →
  ∃ rets s', proc_writes ws s = Done (rets, s') ∧
    Forall2 (λ w ret, ret = Z.of_nat (snd w) ∨ ret < 0) ws rets ∧ idle s' ∧
    d_world s' = d_world s ∧ d_refs s' = d_refs s ∧ d_allocs s' = d_allocs s.
Proof.
  revert s. induction ws as [|[[f ubuf] count] ws IH]; intros s Hidle.
  { exists [], s. by split_and!. }
  destruct (proc_write_settled f ubuf count s Hidle)
    as (ret & s1 & E & Hret & Hw & Hrefs & Ha & Hl).
  assert (idle s1) as Hidle1.
  { destruct Hidle. split; unfold d_rcu in *; by rewrite ?Hw, ?Hl. }
  destruct (IH s1 Hidle1) as (rets & s' & E' & Hrets & Hi & Hw' & Hr' & Ha').
  exists (ret :: rets), s'. cbn [proc_writes]. krun E. krun E'.
  split_and!; [done|by constructor|done|congruence..].
Qed.

(** ** The formats *)

(** A word: not empty, no blank in it. *)
Definition word (s : text) : Prop :=
  s ≠ [] ∧ Forall (λ c, isspace c = false) s.

Lemma word_tight s : word s → tight s.
Proof.
  intros [_ Hs]. rewrite list.Forall_forall in Hs. split; intros c Hc; apply Hs.
  - destruct s; [done|]. injection Hc as ->. by left.
  - by apply last_Some_elem_of.
Qed.

Lemma word_space s r : word s → find_char SPACE (s ++ SPACE :: r) = Some (length s).
Proof.
  intros [_ Hs]. induction Hs as [|c s Hc Hs IH]; cbn -[Ascii.eqb SPACE].
  { by rewrite Ascii.eqb_refl. }
  destruct (Ascii.eqb_spec SPACE c) as [<-|]; [by rewrite isspace_space in Hc|].
  by rewrite IH.
Qed.

Lemma word_no_space s : word s → find_char SPACE s = None.
Proof.
  intros [_ Hs]. induction Hs as [|c s Hc Hs IH]; cbn -[Ascii.eqb SPACE]; [done|].
  destruct (Ascii.eqb_spec SPACE c) as [<-|]; [by rewrite isspace_space in Hc|].
  by rewrite IH.
Qed.

Lemma split_words s r : word s → split_space (s ++ SPACE :: r) = Some (s, r).
Proof.
  intros Hs. unfold split_space. rewrite word_space by done. cbn [mbind option_bind].
  rewrite take_app_length. do 2 f_equal.
  rewrite cons_middle, app_assoc.
  replace (S (length s)) with (length (s ++ [SPACE])) by (rewrite length_app; cbn; lia).
  apply drop_app_length.
Qed.

(** A string that starts and ends with words is tight. *)
Lemma tight_app a r b : word a → word b → tight (a ++ r ++ b).
Proof.
  intros Ha Hb. pose proof (word_tight a Ha) as [Hh _].
  pose proof (word_tight b Hb) as [_ Hl]. destruct Ha as [Ha _], Hb as [Hb _]. split.
  - destruct a; [done|]. intros d [= <-]. by apply Hh.
  - rewrite app_assoc, last_app. destruct (list.last b) eqn:E; [by auto|].
    by apply last_None in E.
Qed.

Lemma trim_word a s b : blank a → blank b → word s → trim (a ++ s ++ b) = s.
Proof. intros. apply trim_around; [done..|by apply word_tight]. Qed.

(** Three words with a positive number first name a process, its threads and
    a mask, with any blanks around them. *)
Lemma affinity_request_pid target b0 p b1 c b2 m b3 pid mask :
  blank b0 → blank b1 → blank b2 → blank b3 → word p → word c → word m →
  kstrtoint p 10 = inr pid → 0 < pid → read_mask m = inr mask →
  affinity_request target
    (trim (b0 ++ (p ++ SPACE :: b1 ++ c ++ SPACE :: b2 ++ m) ++ b3))
  = inr (pid, c, mask).
Proof.
  intros H0' H1' H2' H3' Hp Hc Hm Hpid Hpos Hmask.
  replace (p ++ SPACE :: b1 ++ c ++ SPACE :: b2 ++ m)
    with (p ++ (SPACE :: b1 ++ c ++ SPACE :: b2) ++ m)
    by (cbn; by rewrite <- !app_assoc).
  rewrite trim_around by (done || by apply tight_app).
  replace (p ++ (SPACE :: b1 ++ c ++ SPACE :: b2) ++ m)
    with (p ++ SPACE :: (b1 ++ (c ++ (SPACE :: b2) ++ m) ++ []))
    by (rewrite app_nil_r; cbn; by rewrite <- !app_assoc).
  unfold affinity_request. rewrite split_words by done.
  rewrite trim_around by (done || apply List.Forall_nil || by apply tight_app).
  cbn [app]. rewrite split_words by done. rewrite Hpid, decide_True by done.
  rewrite <- (app_nil_r m), trim_word by (done || apply List.Forall_nil). by rewrite Hmask.
Qed.

(** Two words name threads of the target process and a mask. *)
Lemma affinity_request_target target b0 c b1 m b2 mask :
  blank b0 → blank b1 → blank b2 → word c → word m → read_mask m = inr mask →
  affinity_request target (trim (b0 ++ (c ++ SPACE :: b1 ++ m) ++ b2))
  = inr (target, c, mask).
Proof.
  intros H0' H1' H2' Hc Hm Hmask.
  rewrite trim_around; [|done..|exact (tight_app c (SPACE :: b1) m Hc Hm)].
  unfold affinity_request. rewrite split_words by done.
  rewrite <- (app_nil_r m), trim_word by (done || apply List.Forall_nil).
  unfold split_space at 1. rewrite word_no_space by done. cbn [mbind option_bind].
  by rewrite Hmask.
Qed.

(** The texts a user writes to the affinity file, with the process, the name and
    the mask they ask for: [pid name mask], or [name mask] for the target
    process, with any blanks around the words. *)
Inductive affinity_text (target : Z) : text → Z → text → Z → Prop :=
  | text_of_pid b0 p b1 c b2 m b3 pid mask :
      blank b0 → blank b1 → blank b2 → blank b3 → word p → word c → word m →
      kstrtoint p 10 = inr pid → 0 < pid → read_mask m = inr mask →
      affinity_text target (b0 ++ (p ++ SPACE :: b1 ++ c ++ SPACE :: b2 ++ m) ++ b3) pid c mask
  | text_of_target b0 c b1 m b2 mask :
      blank b0 → blank b1 → blank b2 → word c → word m → read_mask m = inr mask →
      affinity_text target (b0 ++ (c ++ SPACE :: b1 ++ m) ++ b2) target c mask.

(** C33: Writing such a text (at most 256 bytes, the buffer allocated and the
    bytes copied) to the affinity file makes exactly the driver call it asks
    for, and answers with the byte count, or with the error of the driver
    unless that is ENOENT; the state is the one the driver leaves. *)
Theorem affinity_write_format ubuf count bytes s t pid c mask :
  idle s → (count <= 256)%nat → kmalloc (Z.of_nat count + 1) = true →
  copy_from_user ubuf count = Some bytes → c_prefix bytes = t →
  affinity_text (g_current_target_pid s) t pid c mask →
  ∃ ret s',
    axd_set_affinity pid (Some (String.string_of_list_ascii c)) (Some mask) s = Done (ret, s') ∧
    nta_affinity_write ubuf count s
    = Done (if decide (ret < 0 ∧ ret ≠ - ENOENT) then ret else Z.of_nat count, s').
Proof.
  intros Hidle Hcount Hmem Hcopy Ht Htext.
  assert (affinity_request (g_current_target_pid s) (trim t) = inr (pid, c, mask)) as Hreq.
  { destruct Htext; [by apply affinity_request_pid|by apply affinity_request_target]. }
  assert (read_request (count + 1) ubuf count = Request (trim t)) as Hread.
  { unfold read_request. rewrite Hcopy, Ht. by destruct (Nat.leb_spec (count + 1) count); [lia|]. }
  pose proof (request_no_nul _ _ _ _ _ (read_request_no_nul _ _ _ _ Hread) Hreq) as Hnul.
  apply no_nul_text in Hnul.
  pose proof (axd_set_affinity_run pid _ mask s (idle_ok _ Hidle) (idle_rcu _ Hidle) Hnul) as Hrun.
  destruct (set_affinity_spec _ _ _ s) as [ret s']. exists ret, s'. split; [exact Hrun|].
  rewrite nta_affinity_write_run by done. unfold nta_affinity_write_spec.
  destruct (decide (256 < count)%nat); [lia|]. rewrite Hmem, Hread, Hreq, Hrun. done.
Qed.

(** A pid written is the one shown. *)
Theorem pid_write_show ubuf count str pid s :
  idle s → read_request 32 ubuf count = Request str → kstrtoint str 10 = inr pid →
  (_ ← nta_pid_write ubuf count; nta_pid_show) s
  = Done (fmt_int pid +:+ newline, set_target pid s).
Proof.
  intros Hidle Hreq Hpid. pose proof Hidle as [Hr Hl _].
  erewrite bind_done.
  2:{ rewrite nta_pid_write_run by done. unfold nta_pid_write_spec.
      by rewrite Hreq, Hpid. }
  unfold nta_pid_show. by rewrite target_run.
Qed.
End handlers_correct.

(** ** Loading *)

Section load_correct.
Context `{ProcFs}.

(** A directory with the files the kernel agreed to create in it. *)
Definition created (dir : string) (files : list (proc_node proc_file)) : list proc_entry :=
  if proc_mkdir dir
  then ProcEntry dir None ::
       ((λ f, ProcEntry dir (Some f)) <$> filter (λ f, proc_create_in dir (node_name f) = true) files)
  else [].

Lemma create_three dir n1 m1 o1 n2 m2 o2 n3 m3 o3 m :
  do_create n3 m3 dir o3 (do_create n2 m2 dir o2 (do_create n1 m1 dir o1 m))
  = with_tree (λ l, l ++ ((λ f, ProcEntry dir (Some f)) <$>
      filter (λ f, proc_create_in dir (node_name f) = true)
        [ProcNode n1 m1 o1; ProcNode n2 m2 o2; ProcNode n3 m3 o3])) m.
Proof.
  unfold do_create. rewrite !filter_cons, filter_nil. cbn [node_name]. destruct m as [l st n d].
  destruct (proc_create_in dir n1), (proc_create_in dir n2), (proc_create_in dir n3);
    cbn; unfold with_tree; cbn; by rewrite <- ?app_assoc, ?app_nil_r.
Qed.

Lemma axd_proc_init_run m :
  axd_proc_init m =
    (0, AxdModule
          (am_tree m ++
           created AXD_PROC_NTA_DIR
             [ProcNode "pid" 438 nta_pid_ops; ProcNode "named_thread_affinity" 146 nta_affinity_ops; ProcNode "reset" 146 nta_reset_ops] ++
           created AXD_PROC_DRAGONITE_DIR
             [ProcNode "boost" 146 dragonite_boost_ops; ProcNode "kswapd_pin" 146 dragonite_kswapd_ops; ProcNode "stats" 292 dragonite_stats_ops])
          (am_stats m) (proc_mkdir AXD_PROC_NTA_DIR) (proc_mkdir AXD_PROC_DRAGONITE_DIR)).
Proof.
  unfold axd_proc_init. rewrite !create_three.
  unfold do_mkdir, created, with_tree. destruct m as [l st n d].
  destruct (proc_mkdir AXD_PROC_NTA_DIR), (proc_mkdir AXD_PROC_DRAGONITE_DIR);
    cbn [am_tree am_stats ax_nta_dir ax_dragonite_dir];
    rewrite ?app_nil_r, <- ?app_assoc; done.
Qed.

Lemma filter_foreign dir l :
  Forall (λ e, pe_dir e ≠ dir) l → filter (λ e, pe_dir e ≠ dir) l = l.
Proof.
  induction 1 as [|e l He Hl IH]; [done|]. by rewrite filter_cons_True, IH.
Qed.

Lemma filter_created dir dir' files :
  filter (λ e, pe_dir e ≠ dir) (created dir' files)
  = if decide (dir = dir') then [] else created dir' files.
Proof.
  case_decide as Hdir.
  - subst. unfold created. destruct (proc_mkdir dir'); [|done].
    rewrite filter_cons_False by (cbn; tauto).
    induction (filter _ files) as [|f fs IH]; [done|]. cbn.
    by rewrite decide_False by tauto.
  - apply filter_foreign. unfold created. destruct (proc_mkdir dir'); [|constructor].
    constructor; [by apply not_eq_sym|]. apply list.Forall_forall.
    intros e He. apply list_elem_of_fmap in He as (f & -> & _). by apply not_eq_sym.
Qed.

Lemma created_none dir files : proc_mkdir dir = false → created dir files = [].
Proof. unfold created. by intros ->. Qed.

(** C38: Loading never fails and starts the counters at zero; it creates the two
    directories and their files with their modes, as far as the kernel
    agrees, a file only in a directory that was created; unloading leaves
    exactly the entries that were there before. *)
Theorem axd_load_unload m :
  Forall (λ e, pe_dir e ≠ AXD_PROC_NTA_DIR) (am_tree m) →
  Forall (λ e, pe_dir e ≠ AXD_PROC_DRAGONITE_DIR) (am_tree m) →
  let '(ret, m1) := axd_init m in
  ret = 0 ∧ am_stats m1 = AxdStats 0 0 0 0 ∧
  am_tree m1 =
    am_tree m ++
    created AXD_PROC_NTA_DIR
      [ProcNode "pid" 438 nta_pid_ops; ProcNode "named_thread_affinity" 146 nta_affinity_ops; ProcNode "reset" 146 nta_reset_ops] ++
    created AXD_PROC_DRAGONITE_DIR
      [ProcNode "boost" 146 dragonite_boost_ops; ProcNode "kswapd_pin" 146 dragonite_kswapd_ops; ProcNode "stats" 292 dragonite_stats_ops] ∧
  am_tree (axd_exit m1) = am_tree m.
Proof.
  intros Hn%filter_foreign Hd%filter_foreign. unfold axd_init.
  rewrite axd_proc_init_run. cbn [am_tree am_stats negb Z.eqb].
  split_and!; [done..|]. unfold axd_exit, axd_proc_exit, remove_proc_subtree, with_tree.
  cbn [ax_nta_dir ax_dragonite_dir am_tree].
  destruct (proc_mkdir AXD_PROC_NTA_DIR) eqn:En,
           (proc_mkdir AXD_PROC_DRAGONITE_DIR) eqn:Ed;
    cbn [am_tree ax_nta_dir ax_dragonite_dir];
    rewrite ?(created_none _ _ En), ?(created_none _ _ Ed), ?app_nil_r, ?app_nil_l;
    repeat first [ rewrite list.filter_app | rewrite filter_created | rewrite Hn
                 | rewrite Hd | rewrite decide_True by done
                 | rewrite decide_False by done | rewrite filter_nil ];
    by rewrite ?app_nil_r.
Qed.
End load_correct.

(** ** Concrete writes *)

#[local] Existing Instance linux_headers.
#[local] Existing Instance sample_dragonite_env.
#[local] Existing Instance sample_kstring.

Lemma sample_idle : idle sample_dstate.
Proof. split; [done|done|apply sample_dragonite_ok]. Qed.

Lemma nta_pid_write_correct_witness :
  nta_pid_write 2 2 sample_dstate = Done (2, set_target 4 sample_dstate).
Proof.
  refine (eq_trans (nta_pid_write_correct 2 2 sample_dstate sample_idle) _).
  vm_compute. reflexivity.
Defined.

(** [ 4 app 0xf  ]: one thread of process 4 has this name. *)
Lemma nta_affinity_write_correct_witness :
  nta_affinity_write 1 12 sample_dstate
  = Done (12, on_stats inc_affinity (with_log [SetCpus 4 15 0] sample_dstate)).
Proof.
  refine (eq_trans (nta_affinity_write_correct 1 12 sample_dstate sample_idle) _).
  vm_compute. reflexivity.
Defined.

(** An empty write resets the target process. *)
Lemma nta_reset_write_correct_witness :
  nta_reset_write 0 0 (set_target 3 sample_dstate)
  = Done (0, on_stats inc_reset (with_log [SetCpus 3 255 0] (set_target 3 sample_dstate))).
Proof.
  refine (eq_trans (nta_reset_write_correct 0 0 (set_target 3 sample_dstate) _) _).
  - split; [done|done|apply (sample_dragonite_ok 0)].
  - vm_compute. reflexivity.
Defined.

Lemma dragonite_boost_write_correct_witness :
  dragonite_boost_write 4 3 sample_dstate
  = Done (3, on_stats inc_boost (with_log [SetNice 5 0] sample_dstate)).
Proof.
  refine (eq_trans (dragonite_boost_write_correct 4 3 sample_dstate sample_idle) _).
  vm_compute. reflexivity.
Defined.

Lemma dragonite_kswapd_write_correct_witness :
  dragonite_kswapd_write 5 2 sample_dstate
  = Done (2, on_stats inc_kswapd (with_log [SetCpus 6 240 0] sample_dstate)).
Proof.
  refine (eq_trans (dragonite_kswapd_write_correct 5 2 sample_dstate sample_idle) _).
  vm_compute. reflexivity.
Defined.

Lemma proc_writes_safe_witness :
  ∃ rets s', proc_writes [(FilePid, 2, 2%nat); (FileAffinity, 3, 6%nat);
                          (FileReset, 9, 7%nat); (FileKswapd, 9, 99%nat)] sample_dstate
             = Done (rets, s') ∧ idle s'.
Proof.
  destruct (proc_writes_safe [(FilePid, 2, 2%nat); (FileAffinity, 3, 6%nat);
              (FileReset, 9, 7%nat); (FileKswapd, 9, 99%nat)] sample_dstate sample_idle)
    as (rets & s' & E & _ & Hi & _).
  by exists rets, s'.
Defined.

Lemma sample_blank n : blank (replicate n SPACE).
Proof. apply Forall_replicate. reflexivity. Qed.

Ltac solve_word := split; [done|repeat constructor].

Lemma affinity_write_format_witness :
  ∃ ret s', axd_set_affinity 4 (Some "app") (Some 15) sample_dstate = Done (ret, s') ∧
    nta_affinity_write 1 12 sample_dstate
    = Done (if decide (ret < 0 ∧ ret ≠ - ENOENT) then ret else 12, s').
Proof.
  apply (affinity_write_format 1 12 (chars " 4 app 0xf  ") sample_dstate
    (chars " 4 app 0xf  ") 4 (chars "app") 15).
  - exact sample_idle.
  - lia.
  - reflexivity.
  - reflexivity.
  - reflexivity.
  - apply (text_of_pid 0 (chars " ") (chars "4") [] (chars "app") [] (chars "0xf") (chars "  ") 4 15);
      [apply (sample_blank 1)|apply (sample_blank 0)|apply (sample_blank 0)|apply (sample_blank 2)
      |solve_word|solve_word|solve_word|done|done|done].
Defined.

Lemma pid_write_show_witness :
  (_ ← nta_pid_write 2 2; nta_pid_show) sample_dstate
  = Done ("4" +:+ newline, set_target 4 sample_dstate).
Proof.
  refine (eq_trans (pid_write_show 2 2 (chars "4") 4 sample_dstate sample_idle _ _) _);
    vm_compute; reflexivity.
Defined.

#[local] Instance sample_procfs : ProcFs :=
  {| proc_mkdir d := String.eqb d AXD_PROC_NTA_DIR; proc_create_in _ f := negb (String.eqb f "reset");
     axd_has_proc_ops := true |}.

Lemma axd_load_unload_witness :
  am_tree (snd (axd_init (AxdModule [ProcEntry "fs" None] (AxdStats 0 0 0 0) false false)))
  = [ProcEntry "fs" None; ProcEntry AXD_PROC_NTA_DIR None;
     ProcEntry AXD_PROC_NTA_DIR (Some (ProcNode "pid" 438 nta_pid_ops));
     ProcEntry AXD_PROC_NTA_DIR (Some (ProcNode "named_thread_affinity" 146 nta_affinity_ops))].
Proof.
  pose proof (axd_load_unload (AxdModule [ProcEntry "fs" None] (AxdStats 0 0 0 0) false false)
    ltac:(constructor; [intros E; vm_compute in E; discriminate|constructor])
    ltac:(constructor; [intros E; vm_compute in E; discriminate|constructor])) as H.
  destruct (axd_init _) as [ret m1]. destruct H as (_ & _ & E & _).
  cbn [snd]. rewrite E.
  vm_compute. reflexivity.
Defined.
