(* ===== verification/Decimal.v ===== *)
(** * Printed numbers

    What [%d], [%u], [%ld] and [%lld] print ([fmt_int]): a minus for negative
    numbers and decimal digits, which read back as the number. *)

From S2P Require Import Prelude KMonad Kernel FileOps Hooks KString ProcSwaps.

#[local] Open Scope Z_scope.

Definition ascii_list (s : string) : text := String.list_ascii_of_string s.

Lemma ascii_list_app a b : ascii_list (a +:+ b) = ascii_list a ++ ascii_list b.
Proof.
  unfold ascii_list. induction a as [|c a IH]; [done|].
  exact (f_equal (cons c) IH).
Qed.

#[export] Instance ascii_list_inj : Inj (=) (=) ascii_list.
Proof.
  intros a b E. rewrite <- (String.string_of_list_ascii_of_string a).
  rewrite <- (String.string_of_list_ascii_of_string b). by f_equal.
Qed.

Lemma ascii_list_length s : length (ascii_list s) = String.length s.
Proof. unfold ascii_list. induction s as [|c s IH]; [done|]. exact (f_equal S IH). Qed.

(** ** Natural numbers *)

Lemma decimal_snoc ds c : decimal (ds ++ [c]) = 10 * decimal ds + digit_value c.
Proof. unfold decimal. by rewrite foldl_app. Qed.

Lemma pretty_char x :
  (x < 10)%N → is_digit (pretty_N_char x) = true ∧ digit_value (pretty_N_char x) = Z.of_N x.
Proof.
  intros Hx. assert (x ∈ [0; 1; 2; 3; 4; 5; 6; 7; 8; 9]%N) as Hin.
  { rewrite !elem_of_cons. lia. }
  repeat (apply elem_of_cons in Hin as [->|Hin]; [done|]). by apply elem_of_nil in Hin.
Qed.

Lemma pretty_go x : ∀ s, ∃ ds,
  ascii_list (pretty_N_go x s) = ds ++ ascii_list s ∧ Forall (λ c, is_digit c = true) ds ∧
  decimal ds = Z.of_N x ∧ (x = 0%N → ds = []) ∧ (x ≠ 0%N → ds ≠ []) ∧
  ∀ k : nat, Z.of_N x < 10 ^ Z.of_nat k → (length ds ≤ k)%nat.
Proof.
  induction (N.lt_wf_0 x) as [x _ IH]. intros s. destruct (decide (x = 0%N)) as [->|Hx].
  { exists []. split_and!; [done|constructor|done..|]. cbn. lia. }
  rewrite pretty_N_go_step by lia.
  assert (x = 10 * (x / 10) + x mod 10)%N as Ex by (apply N.div_mod'; lia).
  assert (x mod 10 < 10)%N as Hm by (by apply N.mod_lt).
  destruct (IH (x / 10)%N ltac:(apply N.div_lt; lia) (String (pretty_N_char (x mod 10)) s))
    as (ds & E & Hds & Hv & _ & _ & Hl).
  destruct (pretty_char (x mod 10) Hm) as [Hd Hdv].
  exists (ds ++ [pretty_N_char (x mod 10)]). split_and!.
  - rewrite E, <- app_assoc. done.
  - apply Forall_app. split; [done|]. by constructor.
  - rewrite decimal_snoc, Hv, Hdv. lia.
  - done.
  - intros _. by destruct ds.
  - intros k Hk. rewrite length_app. cbn [length]. destruct k as [|k].
    { cbn in Hk. lia. }
    assert (length ds ≤ k)%nat; [|lia]. apply Hl. rewrite Nat2Z.inj_succ, Z.pow_succ_r in Hk by lia.
    clear - Ex Hk. revert Ex. generalize (x / 10)%N (x mod 10)%N. intros q r Ex. lia.
Qed.

Lemma pretty_digits (n : N) :
  digits_of (ascii_list (pretty n)) ∧ decimal (ascii_list (pretty n)) = Z.of_N n ∧
  ∀ k : nat, Z.of_N n < 10 ^ Z.of_nat k → (1 ≤ k)%nat → (length (ascii_list (pretty n)) ≤ k)%nat.
Proof.
  unfold pretty, pretty_N. case_decide as Hn.
  { subst. split_and!; [by split; [|repeat constructor]|done|cbn; lia]. }
  destruct (pretty_go n "") as (ds & E & Hds & Hv & _ & Hne & Hl).
  rewrite E, app_nil_r. split_and!; [split; auto|done|]. intros k Hk _. by apply Hl.
Qed.

(** ** Integers *)

(** A minus or none, and digits. *)
Definition signed (neg : bool) (ds : text) : text := if neg then "-"%char :: ds else ds.
Definition signed_value (neg : bool) (ds : text) : Z := if neg then - decimal ds else decimal ds.

Lemma fmt_int_digits x : ∃ neg ds,
  ascii_list (fmt_int x) = signed neg ds ∧ digits_of ds ∧ signed_value neg ds = x ∧
  ∀ k : nat, Z.abs x < 10 ^ Z.of_nat k → (1 ≤ k)%nat → (length (ascii_list (fmt_int x)) ≤ S k)%nat.
Proof.
  unfold fmt_int. destruct (Z.ltb_spec x 0).
  - destruct (pretty_digits (Z.to_N (- x))) as (Hd & Hv & Hl).
    exists true, (ascii_list (pretty (Z.to_N (- x)))).
    split_and!; [by rewrite ascii_list_app|done|cbn; lia|].
    intros k Hk H1. rewrite ascii_list_app, length_app. cbn [length ascii_list].
    specialize (Hl k ltac:(lia) H1). cbn. lia.
  - destruct (pretty_digits (Z.to_N x)) as (Hd & Hv & Hl).
    exists false, (ascii_list (pretty (Z.to_N x))). split_and!; [done|done|cbn; lia|].
    intros k Hk H1. specialize (Hl k ltac:(lia) H1). lia.
Qed.

Lemma minus_not_digit ds : digits_of ("-"%char :: ds) → False.
Proof. intros [_ Hd]. by inversion Hd. Qed.

#[export] Instance fmt_int_inj : Inj (=) (=) fmt_int.
Proof.
  intros x y E. apply (f_equal ascii_list) in E.
  destruct (fmt_int_digits x) as (nx & dx & Ex & Hdx & <- & _).
  destruct (fmt_int_digits y) as (ny & dy & Ey & Hdy & <- & _).
  rewrite Ex, Ey in E. destruct nx, ny; cbn in *; simplify_eq; try done;
    by apply minus_not_digit in Hdx || by apply minus_not_digit in Hdy.
Qed.

(** A printed number has digits and a minus sign, and so no character below
    the minus sign. *)
Lemma fmt_int_chars x c :
  c ∈ ascii_list (fmt_int x) → is_digit c = true ∨ c = "-"%char.
Proof.
  destruct (fmt_int_digits x) as (neg & ds & -> & [_ Hd] & _).
  rewrite list.Forall_forall in Hd.
  destruct neg; cbn; [intros [->|Hc]%elem_of_cons; [by right|]|intros Hc]; left; auto.
Qed.

Lemma fmt_int_above x c : c ∈ ascii_list (fmt_int x) → (45 ≤ Ascii.N_of_ascii c)%N.
Proof.
  intros [Hd| ->]%fmt_int_chars; [|done]. unfold is_digit in Hd.
  apply andb_prop in Hd as [H1 _]. apply N.leb_le in H1. lia.
Qed.

(** ** Lines *)

Definition NL : ascii := "010"%char.

Lemma fmt_int_no_newline x : NL ∉ ascii_list (fmt_int x).
Proof. intros Hc%fmt_int_above. cbn in Hc. lia. Qed.

Lemma line_inj a b x y :
  NL ∉ a → NL ∉ b → a ++ NL :: x = b ++ NL :: y → a = b ∧ x = y.
Proof.
  revert b. induction a as [|c a IH]; intros [|d b] Ha Hb E; cbn in E; simplify_eq.
  - done.
  - exfalso. apply Hb. by left.
  - exfalso. apply Ha. by left.
  - apply not_elem_of_cons in Ha as [_ Ha], Hb as [_ Hb].
    destruct (IH b Ha Hb ltac:(done)) as [-> ->]. done.
Qed.

(** A line with a label and a number. *)
Lemma labelled_inj (label : string) x y (r r' : string) :
  label +:+ fmt_int x +:+ String NL EmptyString +:+ r
  = label +:+ fmt_int y +:+ String NL EmptyString +:+ r' → x = y ∧ r = r'.
Proof.
  intros E. apply (f_equal ascii_list) in E. rewrite !ascii_list_app in E.
  apply app_inv_head in E. cbn [ascii_list String.list_ascii_of_string app] in E.
  apply line_inj in E as [E1 E2]; [|apply fmt_int_no_newline..].
  split; [by apply (inj fmt_int), (inj ascii_list)|by apply (inj ascii_list)].
Qed.
