(* ===== verification/UserFiles.v ===== *)
(** * What user space sees of the kernel modules

    The proc files and sysctl tables of the three modules as one interface: the
    files offer what their modes allow, the tables store values of the right
    width, the texts determine the values printed, and the target pid that is
    read can be written back. *)

From S2P Require Import Prelude KMonad Kernel BoreMath SampleWorld FileOps Hooks BoreModule Latency LatencyModule KString SampleStrings ProcSwaps Decimal Dragonite DragoniteProc.

#[local] Open Scope Z_scope.

(** ** Sysctl *)

(** The variables the tables point to, with their sizes. *)
Definition bore_var_size (v : string) : option Z :=
  if bool_decide (v ∈ ["sched_bore"; "sched_burst_inherit_type"; "sched_burst_smoothness";
                       "sched_burst_penalty_offset"; "sched_burst_penalty_scale";
                       "sched_burst_cache_lifetime"]) then Some 4 else None.

Definition latency_var_size (v : string) : option Z :=
  if String.eqb v "sched_latency_nice_enabled" then Some 4
  else if String.eqb v "sched_latency_max" then Some 8 else None.

(** Stores of a number to a variable.  What is stored is not cut to the size of
    the variable: a row that stored more bytes than its variable has would leave
    a value out of its range. *)
Definition set_bore_var (name : string) (v : Z) (T : tunables) : tunables :=
  let at_ n old := if String.eqb name n then v else old in
  Tunables (at_ "sched_bore" (sched_bore T))
    (at_ "sched_burst_inherit_type" (sched_burst_inherit_type T))
    (at_ "sched_burst_smoothness" (sched_burst_smoothness T))
    (at_ "sched_burst_penalty_offset" (sched_burst_penalty_offset T))
    (at_ "sched_burst_penalty_scale" (sched_burst_penalty_scale T))
    (at_ "sched_burst_cache_lifetime" (sched_burst_cache_lifetime T)).

(** [sched_latency_max] is a [long]: it reads the eight bytes as signed. *)
Definition set_latency_var (name : string) (v : Z) (L : latency_params) : latency_params :=
  LatencyParams
    (if String.eqb name "sched_latency_nice_enabled" then v else sched_latency_nice_enabled L)
    (if String.eqb name "sched_latency_max" then s64 v else sched_latency_max L).

(** [uint] and [long]. *)
Definition tunables_typed (T : tunables) : Prop :=
  in_u 32 (sched_bore T) ∧ in_u 32 (sched_burst_inherit_type T) ∧
  in_u 32 (sched_burst_smoothness T) ∧ in_u 32 (sched_burst_penalty_offset T) ∧
  in_u 32 (sched_burst_penalty_scale T) ∧ in_u 32 (sched_burst_cache_lifetime T).

Definition params_typed (L : latency_params) : Prop :=
  in_u 32 (sched_latency_nice_enabled L) ∧ in_s 64 (sched_latency_max L).

Section sysctl.
Context `{SysctlHandlersLaws}.

Lemma find_entry_some name table e :
  find_entry name table = Some e → e ∈ table ∧ procname e = name.
Proof.
  unfold find_entry. intros Hf. apply List.find_some in Hf as [Hin Hn].
  split; [by apply list_elem_of_In|by apply String.eqb_eq].
Qed.

(** C15: Writes to the sysctl files are well typed.  Every row of the tables of
    both scheduler modules stores exactly as many bytes as its variable has; the
    tables reached through the root table of kernels before 6.4 are the same; and
    a write that is accepted changes the variable of its name alone, to the value
    the handler stores, which the variable holds without loss. *)
Theorem sysctl_writes_typed :
  Forall (entry_typed bore_var_size) bore_table ∧
  Forall (entry_typed latency_var_size) latency_table ∧
  (∀ r, r ∈ bore_root_table → root_procname r = "kernel" ∧ child r = bore_table) ∧
  (∀ r, r ∈ latency_root_table → root_procname r = "kernel" ∧ child r = latency_table) ∧
  (∀ name text T T', tunables_typed T →
     sysctl_write set_bore_var bore_table name text T = Some T' →
     tunables_typed T' ∧ ∃ v, in_u 32 v ∧ T' = set_bore_var name v T) ∧
  (∀ name text L L', params_typed L →
     sysctl_write set_latency_var latency_table name text L = Some L' →
     params_typed L' ∧ ∃ v, in_u 64 v ∧ L' = set_latency_var name v L).
Proof.
  assert (Forall (entry_typed bore_var_size) bore_table) as Hb by (repeat constructor).
  assert (Forall (entry_typed latency_var_size) latency_table) as Hl by (repeat constructor).
  split_and!; [done|done|by intros r ->%list_elem_of_singleton|by intros r ->%list_elem_of_singleton| |].
  - intros name text T T' HT. unfold sysctl_write.
    destruct (find_entry name bore_table) as [e|] eqn:Hf; [|done].
    apply find_entry_some in Hf as [Hin Hn].
    destruct (handler_value _ _ _ text) as [v|] eqn:Hv; [|done]. intros [= <-].
    assert (data e = name ∧ handler_size (proc_handler e) = 4) as [-> Hs].
    { subst name. repeat (apply elem_of_cons in Hin as [->|Hin]; [done|]).
      by apply elem_of_nil in Hin. }
    apply handler_width in Hv. rewrite Hs in Hv. split; [|by exists v].
    destruct HT as (? & ? & ? & ? & ? & ?).
    split_and!; cbn; case_match; done || exact Hv.
  - intros name text L L' HL. unfold sysctl_write.
    destruct (find_entry name latency_table) as [e|] eqn:Hf; [|done].
    apply find_entry_some in Hf as [Hin Hn].
    destruct (handler_value _ _ _ text) as [v|] eqn:Hv; [|done]. intros [= <-].
    apply handler_width in Hv. destruct HL as [Hen Hmax].
    apply elem_of_cons in Hin as [->|Hin]; [|apply elem_of_cons in Hin as [->|Hin];
      [|by apply elem_of_nil in Hin]]; cbn in Hn, Hv; subst name.
    + split; [split; [exact Hv|exact Hmax]|]. exists v. split; [|done].
      eapply in_u_mono; [exact Hv|lia].
    + split; [split; [exact Hen|by apply wraps_range]|]. by exists v.
Qed.
End sysctl.

(** ** Proc files *)

Lemma created_file `{ProcFs} dir files e f :
  e ∈ created dir files → pe_file e = Some f → f ∈ files.
Proof.
  unfold created. destruct (proc_mkdir dir); [|by intros ?%elem_of_nil].
  intros [->|He]%elem_of_cons; [done|]. apply list_elem_of_fmap in He as (g & -> & Hg).
  cbn. intros [= ->]. by apply list_elem_of_filter in Hg as [_ ?].
Qed.

(** C14: Every proc file of the three modules offers what its mode allows, on
    kernels with [struct proc_ops] and before: it is readable by somebody exactly
    when it prints something, and then has the whole [single_open], [seq_read],
    [single_release] protocol; it is writable exactly when a handler takes the
    write; and every file AxDragonite creates is one of these. *)
Theorem proc_files_typed `{ModuleEnv bore_hook} `{ModuleEnv latency_hook} `{ProcFs} m :
  am_tree m = [] →
  node_typed bore_proc_node ∧ node_typed latency_proc_node ∧
  ∀ e f, e ∈ am_tree (snd (axd_init m)) → pe_file e = Some f → node_typed f.
Proof.
  intros Hm. split; [|split].
  - unfold bore_proc_node, bore_proc_fops. destruct linux_5_6; repeat split; by eexists.
  - unfold latency_proc_node, latency_proc_fops. destruct linux_5_6; repeat split; by eexists.
  - intros e f He Hf. unfold axd_init in He. rewrite axd_proc_init_run in He.
    cbn [negb Z.eqb snd am_tree] in He. rewrite Hm in He.
    apply elem_of_app in He as [He|He]; [by apply elem_of_nil in He|].
    apply elem_of_app in He as [He|He]; eapply created_file in He; try exact Hf;
      repeat (apply elem_of_cons in He as [->|He]; [repeat split; by eexists|]);
      by apply elem_of_nil in He.
Qed.

(** ** Reports *)

(** C39: What the proc files print determines what they report: two states of a
    module print the same text only if every value shown is the same. *)
Theorem reports_faithful `{KernelHeaders} `{DragoniteEnv} :
  (∀ s1 s2 t, dragonite_stats_show s1 = Done (t, s1) → dragonite_stats_show s2 = Done (t, s2) →
     g_current_target_pid s1 = g_current_target_pid s2 ∧ g_axd_stats s1 = g_axd_stats s2) ∧
  (∀ s1 s2 t, idle s1 → idle s2 →
     nta_pid_show s1 = Done (t, s1) → nta_pid_show s2 = Done (t, s2) →
     g_current_target_pid s1 = g_current_target_pid s2) ∧
  (∀ m1 m2, bore_proc_show m1 = bore_proc_show m2 →
     ms_active (bm_state m1) = ms_active (bm_state m2) ∧
     (ms_active (bm_state m1) = true → bm_tunables m1 = bm_tunables m2)) ∧
  (∀ m1 m2, latency_proc_show m1 = latency_proc_show m2 →
     ms_active (lm_state m1) = ms_active (lm_state m2) ∧
     (ms_active (lm_state m1) = true → lm_params m1 = lm_params m2)).
Proof.
  split_and!.
  - intros s1 s2 t E1 E2. unfold dragonite_stats_show in *.
    injection E1 as E1. injection E2 as E2. rewrite <- E1 in E2. clear E1 t.
    do 3 apply (inj (String.append _)) in E2.
    repeat apply labelled_inj in E2 as [?Ev E2].
    destruct (g_axd_stats s1), (g_axd_stats s2). cbn in *. by subst.
  - intros s1 s2 t [Hr1 Hl1 _] [Hr2 Hl2 _]. unfold nta_pid_show. rewrite !target_run by done.
    intros [= E1] [= E2]. rewrite <- E1 in E2. by apply (labelled_inj "" _ _ "" "") in E2 as [-> _].
  - intros m1 m2. unfold bore_proc_show.
    destruct (ms_active (bm_state m1)), (ms_active (bm_state m2)); cbn [negb]; try done.
    intros E. split; [done|]. intros _.
    apply (inj (cons _)) in E. injection E as E1 E2 E3 E4 E5 E6.
    destruct (bm_tunables m1), (bm_tunables m2). cbn in *.
    f_equal; apply (inj fmt_int); assumption.
  - intros m1 m2. unfold latency_proc_show.
    destruct (ms_active (lm_state m1)), (ms_active (lm_state m2)); cbn [negb]; try done.
    intros E. split; [done|]. intros _. injection E as E1 E2.
    apply (inj (String.append "")), (f_equal ascii_list) in E2. rewrite !ascii_list_app in E2.
    apply app_inv_tail, (inj ascii_list) in E2.
    destruct (lm_params m1), (lm_params m2). cbn in *.
    f_equal; apply (inj fmt_int); assumption.
Qed.

(** ** Reading the target and writing it back *)

(** [kstrtoint] in base 10 reads a decimal number that an [int] can hold; a
    newline is a blank, digits and the minus sign are not. *)
Class KStringDecimal `{KString} : Prop := {
  kstrtoint_decimal neg ds :
    digits_of ds → in_s 32 (signed_value neg ds) →
    kstrtoint (signed neg ds) 10 = inr (signed_value neg ds);
  isspace_newline : isspace NL = true;
  isspace_number c : is_digit c = true ∨ c = "-"%char → isspace c = false
}.

Section roundtrip.
Context `{KernelHeaders} `{DragoniteEnv} `{KStringLaws} `{!KStringDecimal}.

(** The text of a number with its newline is read as the number. *)
Lemma read_back_pid x :
  in_s 32 x →
  let text := ascii_list (fmt_int x +:+ newline) in
  (length text ≤ 12)%nat ∧ trim (c_prefix text) = ascii_list (fmt_int x) ∧
  kstrtoint (ascii_list (fmt_int x)) 10 = inr x.
Proof.
  intros Hx text. destruct (fmt_int_digits x) as (neg & ds & E & Hds & Hv & Hlen).
  assert (∀ c, c ∈ ascii_list (fmt_int x) → isspace c = false ∧ c ≠ NUL) as Hc.
  { intros c Hc. split; [by eapply isspace_number, fmt_int_chars|].
    apply fmt_int_above in Hc. by intros ->. }
  assert (text = ascii_list (fmt_int x) ++ [NL]) as Et by (subst text; by rewrite ascii_list_app).
  split_and!.
  - rewrite Et, length_app. cbn [length].
    assert (length (ascii_list (fmt_int x)) ≤ S 10)%nat; [|lia].
    apply Hlen; [|lia]. unfold in_s in Hx. pow2_norm. lia.
  - assert (c_prefix text = text) as ->.
    { rewrite Et. clear - Hc. induction (ascii_list (fmt_int x)) as [|c s IH]; [done|].
      cbn. destruct (Ascii.eqb_spec c NUL) as [->|]; [by destruct (Hc NUL ltac:(left))|].
      f_equal. apply IH. intros d Hd. apply Hc. by right. }
    rewrite Et. apply (trim_around []); [constructor|by repeat constructor; apply isspace_newline|].
    split; intros c Hh.
    + apply Hc. destruct (ascii_list (fmt_int x)); [done|]. injection Hh as ->. by left.
    + apply Hc. by apply last_Some_elem_of.
  - rewrite E. rewrite kstrtoint_decimal; [by rewrite Hv|done|by rewrite Hv].
Qed.

(** C40: The target pid survives a round trip through user space: what a read of
    the pid file returns, written to the file at any later time, makes the same
    process the target again, whatever it was in between; and nothing else
    changes. *)
Theorem pid_file_roundtrip s s' ubuf :
  idle s → idle s' → in_s 32 (g_current_target_pid s) →
  ∃ text, nta_pid_show s = Done (text, s) ∧
    (copy_from_user ubuf (String.length text) = Some (ascii_list text) →
     nta_pid_write ubuf (String.length text) s'
     = Done (Z.of_nat (String.length text), set_target (g_current_target_pid s) s')).
Proof.
  intros [Hr Hl _] Hidle Hx. set (x := g_current_target_pid s) in *.
  exists (fmt_int x +:+ newline). split; [unfold nta_pid_show; by rewrite target_run|].
  intros Hcopy. destruct (read_back_pid x Hx) as (Hlen & Htrim & Hk).
  rewrite nta_pid_write_run by done. unfold nta_pid_write_spec, read_request.
  set (n := String.length _) in *.
  assert (n = length (ascii_list (fmt_int x +:+ newline))) as En.
  { symmetry. apply ascii_list_length. }
  destruct (Nat.leb_spec 32 n); [lia|]. rewrite Hcopy, Htrim, Hk. done.
Qed.
End roundtrip.

(** ** Instances *)

#[local] Existing Instance linux_headers.
#[local] Existing Instance sample_dragonite_env.
#[local] Existing Instance sample_kstring.

Lemma sample_digit c : is_digit c = true → digit 10 c = Some (digit_value c).
Proof.
  unfold is_digit, digit, digit_value. intros Hd. apply andb_prop in Hd as [H1 H2].
  apply N.leb_le in H1, H2. set (n := Ascii.N_of_ascii c) in *. clearbody n.
  destruct (Z.leb_spec 48 (Z.of_N n)), (Z.leb_spec (Z.of_N n) 57); try lia. cbn [andb].
  by destruct (Z.ltb_spec (Z.of_N n - 48) 10); [|lia].
Qed.

Lemma sample_digits ds : Forall (λ c, is_digit c = true) ds → ∀ acc,
  digits 10 acc ds = Some (foldl (λ a c, 10 * a + digit_value c) acc ds).
Proof.
  induction 1 as [|c ds Hc _ IH]; intros acc; cbn [digits foldl]; [done|].
  rewrite sample_digit by done. apply IH.
Qed.

Lemma sample_number lo hi ds :
  digits_of ds → lo <= decimal ds < hi → number 10 lo hi ds = inr (decimal ds).
Proof.
  intros [Hne Hd] Hr. unfold number. rewrite sample_digits by done. fold (decimal ds).
  destruct ds as [|c ds]; [done|].
  destruct (Z.leb_spec lo (decimal (c :: ds))), (Z.ltb_spec (decimal (c :: ds)) hi); (done || lia).
Qed.

#[export] Instance sample_kstring_decimal : KStringDecimal.
Proof.
  split; [|done|].
  - intros neg ds Hds Hr. cbn [kstrtoint sample_kstring]. unfold in_s in Hr. pow2_norm.
    pose proof (decimal_nonneg ds Hds) as Hn. destruct neg; cbn [signed signed_value] in *.
    + cbn. rewrite (sample_number 0) by (done || lia). done.
    + assert (∀ lo hi, number_signed 10 lo hi ds = number 10 lo hi ds) as ->.
      { intros lo hi. destruct Hds as [Hne Hd]. destruct Hd as [|c ds Hc Hd]; [done|].
        unfold number_signed, number_prefixed. cbn [Z.eqb].
        repeat case_match; simplify_eq; try done.
        all: inversion Hd; subst; try done. }
      apply sample_number; [done|]. lia.
  - intros c [Hc| ->]; [|done]. cbn. unfold is_digit in Hc. unfold sample_isspace.
    apply andb_prop in Hc as [H1 H2]. apply N.leb_le in H1, H2.
    set (n := Ascii.N_of_ascii c) in *. clearbody n.
    destruct (N.eqb_spec n 32), (N.leb_spec n 13), (N.eqb_spec n 160); lia || by destruct (9 <=? n)%N.
Qed.

(** The target 4 is read, reset to another process and restored. *)
Lemma pid_file_roundtrip_witness :
  nta_pid_write 6 2 (set_target 7 sample_dstate) = Done (2, set_target 4 (set_target 7 sample_dstate)).
Proof.
  destruct (pid_file_roundtrip (set_target 4 sample_dstate) (set_target 7 sample_dstate) 6)
    as (text & Hshow & Hwrite).
  - split; [done|done|apply (sample_dragonite_ok 0)].
  - split; [done|done|apply (sample_dragonite_ok 0)].
  - split; vm_compute; congruence.
  - assert ("4" +:+ newline = text) as <-
      by exact (f_equal (λ o : outcome (string * dstate), match o with Done (t, _) => t | _ => "" end) Hshow).
    exact (Hwrite eq_refl).
Defined.

#[local] Instance every_file : ProcFs :=
  {| proc_mkdir _ := true; proc_create_in _ _ := true; axd_has_proc_ops := false |}.

Lemma proc_files_typed_witness :
  length (am_tree (snd (axd_init (AxdModule [] (AxdStats 0 0 0 0) false false)))) = 8%nat ∧
  node_typed (ProcNode AXD_PROC_PID 438 nta_pid_ops).
Proof.
  split; [vm_compute; reflexivity|].
  destruct (@proc_files_typed (sample_env (λ _, true)) (sample_env (λ _, true)) every_file
    (AxdModule [] (AxdStats 0 0 0 0) false false) eq_refl) as (_ & _ & Hf).
  apply (Hf (ProcEntry AXD_PROC_NTA_DIR (Some (ProcNode AXD_PROC_PID 438 nta_pid_ops)))).
  - cbn. right. left.
  - reflexivity.
Defined.

(** A handler that knows one number. *)
#[local] Instance sample_handlers : SysctlHandlers :=
  {| handler_value _ _ _ text := if String.eqb text "-1" then Some (2 ^ 32 - 1) else None |}.

#[local] Instance sample_handlers_laws : SysctlHandlersLaws.
Proof.
  split. intros h lo hi s v. cbn. destruct (String.eqb s "-1"); [|done]. intros [= <-].
  destruct h; split; vm_compute; congruence.
Qed.

Lemma sysctl_writes_typed_witness :
  ∃ T', sysctl_write set_bore_var bore_table "sched_burst_smoothness" "-1" default_tunables
        = Some T' ∧ tunables_typed T' ∧ sched_burst_smoothness T' = 4294967295.
Proof.
  destruct sysctl_writes_typed as (_ & _ & _ & _ & Hw & _).
  destruct (Hw "sched_burst_smoothness" "-1" default_tunables
    (set_bore_var "sched_burst_smoothness" (2 ^ 32 - 1) default_tunables)) as [HT _].
  - repeat split; vm_compute; congruence.
  - reflexivity.
  - eexists. split; [reflexivity|]. split; [exact HT|reflexivity].
Defined.
