(* ===== verification/DragoniteSteps.v ===== *)
(** * AxDragonite, access by access

    The operations of ax_dragonite_main.c and the proc handlers of
    ax_dragonite_proc.c as programs of atomic actions: each read of a field of a
    task, change of a reference count, kernel call, access to the target pid or
    to a counter is one action, so that other tasks can run, exit and be freed
    between any two of them.  A list of tasks is read as a snapshot.  Run
    alone, the programs are the functions of [Dragonite] and [DragoniteProc]. *)

From S2P Require Import Prelude KMonad Kernel KString Hooks Dragonite DragoniteProc Interleave.

#[local] Open Scope Z_scope.

(** ** Accesses *)

Definition d_field {A} (f : task → A) (t : tid) : KM dstate A :=
  tk ← k_read_task t; mret (f tk).

(** [for_each_thread] reads [signal] once more. *)
Definition threads_of (t : tid) : KM dstate (list tid) :=
  tk ← k_read_task t; deref (t_signal tk).

Section steps.
Context `{KernelHeaders} `{DragoniteEnv}.

Definition find_task_step (pid : Z) : KM dstate task_ptr :=
  w ← gets d_world; mret (find_task_by_vpid (w_tasks w) pid).

Definition processes_step : KM dstate (list tid) :=
  w ← gets d_world; mret (for_each_process (w_tasks w)).

(** ** The driver *)

Definition find_live_task_steps (pid : Z) : prog dstate task_ptr :=
  task ← act (find_task_step pid);
  match task with
  | None => mret None
  | Some t =>
      signal ← act (d_field t_signal t);
      match signal with
      | None => mret None
      | Some _ =>
          flags ← act (d_field t_flags t);
          mret (if negb ((flags &. PF_EXITING) =? 0) then None else Some t)
      end
  end.

Fixpoint collect_tasks_steps (p : task → bool) (limit size : nat) (l : list tid)
    (acc : list tid) : prog dstate (list tid) :=
  match l with
  | [] => mret acc
  | t :: l' =>
      wanted ← act (d_field p t);
      if negb wanted then collect_tasks_steps p limit size l' acc
      else if (limit <=? length acc)%nat then mret acc
      else
        _ ← act (get_task_struct t);
        _ ← act (assertk (length acc <? size)%nat);
        collect_tasks_steps p limit size l' (acc ++ [t])
  end.

Fixpoint apply_mask_steps (mask : cpumask) (l : list tid) (n : Z) : prog dstate Z :=
  match l with
  | [] => mret n
  | t :: l' =>
      ret ← act (set_cpus_k t mask);
      _ ← act (put_task_struct t);
      apply_mask_steps mask l' (if ret =? 0 then n + 1 else n)
  end.

Definition axd_set_affinity_steps (pid : Z) (comm_name : option string)
    (mask : option cpumask) : prog dstate Z :=
  match comm_name, mask with
  | Some comm, Some m =>
      if (pid <=? AXD_INVALID_PID) || cpumask_empty m
         || negb (cpumask_intersects m cpu_online_mask)
      then mret (- EINVAL)
      else
        threads ← act (kmalloc_k (Z.of_nat AXD_MAX_THREAD_GROUP_TASKS * 8));
        if negb threads then mret (- ENOMEM)
        else
          _ ← act k_rcu_lock;
          found ← find_live_task_steps pid;
          match found with
          | None => _ ← act k_rcu_unlock; _ ← act kfree; mret (- ESRCH)
          | Some t =>
              _ ← act (get_task_struct t);
              group ← act (threads_of t);
              ts ← collect_tasks_steps (λ tk, axd_comm_matches (t_comm tk) comm)
                     AXD_MAX_THREAD_GROUP_TASKS AXD_MAX_THREAD_GROUP_TASKS group [];
              _ ← act k_rcu_unlock;
              matched ← apply_mask_steps m ts 0;
              _ ← act kfree; _ ← act (put_task_struct t);
              _ ← (if 0 <? matched
                   then act (modify (on_stats inc_affinity))
                   else mret tt);
              mret (if 0 <? matched then 0
                    else if (0 <? length ts)%nat then - EINVAL else - ENOENT)
          end
  | _, _ => mret (- EINVAL)
  end.

Definition axd_reset_affinity_steps (pid : Z) : prog dstate Z :=
  if pid <=? AXD_INVALID_PID then mret (- EINVAL)
  else
    threads ← act (kmalloc_k (Z.of_nat AXD_MAX_THREAD_GROUP_TASKS * 8));
    if negb threads then mret (- ENOMEM)
    else
      _ ← act k_rcu_lock;
      found ← find_live_task_steps pid;
      match found with
      | None => _ ← act k_rcu_unlock; _ ← act kfree; mret (- ESRCH)
      | Some t =>
          _ ← act (get_task_struct t);
          group ← act (threads_of t);
          ts ← collect_tasks_steps (λ _, true)
                 AXD_MAX_THREAD_GROUP_TASKS AXD_MAX_THREAD_GROUP_TASKS group [];
          _ ← act k_rcu_unlock;
          n ← apply_mask_steps cpu_possible_mask ts 0;
          _ ← act kfree; _ ← act (put_task_struct t);
          _ ← (if 0 <? n then act (modify (on_stats inc_reset)) else mret tt);
          mret (if 0 <? n then 0 else - ESRCH)
      end.

Fixpoint set_nice_all_steps (nice : Z) (l : list tid) : prog dstate unit :=
  match l with
  | [] => mret tt
  | t :: l' => _ ← act (set_user_nice_k t nice); set_nice_all_steps nice l'
  end.

Definition axd_set_boost_steps (pid boost_level : Z) : prog dstate Z :=
  if pid <=? AXD_INVALID_PID then mret (- EINVAL)
  else
    let target_nice := if 0 <? boost_level then AXD_NICE_BOOST else AXD_NICE_NORMAL in
    _ ← act k_rcu_lock;
    found ← find_live_task_steps pid;
    match found with
    | None => _ ← act k_rcu_unlock; mret (- ESRCH)
    | Some t =>
        group ← act (threads_of t);
        _ ← set_nice_all_steps target_nice group;
        _ ← act k_rcu_unlock;
        _ ← act (modify (on_stats inc_boost));
        mret 0
    end.

Definition axd_pin_kswapd_steps (mask : option cpumask) : prog dstate Z :=
  match mask with
  | None => mret (- EINVAL)
  | Some m =>
      if cpumask_empty m || negb (cpumask_intersects m cpu_online_mask)
      then mret (- EINVAL)
      else
        _ ← act k_rcu_lock;
        processes ← act processes_step;
        ts ← collect_tasks_steps is_kswapd AXD_MAX_KSWAPD_TASKS AXD_MAX_KSWAPD_TASKS
               processes [];
        _ ← act k_rcu_unlock;
        pinned ← apply_mask_steps m ts 0;
        _ ← (if 0 <? pinned then act (modify (on_stats inc_kswapd)) else mret tt);
        mret (if 0 <? pinned then 0 else - ESRCH)
  end.
End steps.

(** ** The proc handlers

    The buffer of a handler is its own; the target pid is read and written
    under the mutex. *)

Section handlers.
Context `{KernelHeaders} `{DragoniteEnv} `{KString}.

Definition nta_pid_write_steps (ubuf : Z) (count : nat) : prog dstate Z :=
  if (AXD_MAX_KBUF_PID <=? count)%nat then mret (- EINVAL)
  else
    copied ← act (copy_into (buf_new AXD_MAX_KBUF_PID) ubuf count);
    match copied with
    | None => mret (- EFAULT)
    | Some kbuf =>
        kbuf ← act (buf_store kbuf count NUL);
        '(kbuf, p) ← act (strim_at kbuf 0);
        str ← act (buf_str kbuf p);
        match kstrtoint str AXD_RADIX_DEC with
        | inl ret => mret ret
        | inr pid =>
            _ ← act_wait mutex_lock;
            _ ← act (modify (set_target pid));
            _ ← act mutex_unlock;
            mret (Z.of_nat count)
        end
    end.

Definition nta_pid_show_steps : prog dstate string :=
  _ ← act_wait mutex_lock;
  pid ← act (gets g_current_target_pid);
  _ ← act mutex_unlock;
  mret (fmt_int pid +:+ newline).

Definition nta_affinity_write_steps (ubuf : Z) (count : nat) : prog dstate Z :=
  if (AXD_MAX_KBUF_AFFINITY <? count)%nat then mret (- EINVAL)
  else
    ok ← act (kmalloc_k (Z.of_nat count + 1));
    if negb ok then mret (- ENOMEM)
    else
      copied ← act (copy_into (buf_new (count + 1)) ubuf count);
      match copied with
      | None => _ ← act kfree; mret (- EFAULT)
      | Some kbuf =>
          kbuf ← act (buf_store kbuf count NUL);
          '(kbuf, token1) ← act (strim_at kbuf 0);
          token2 ← act (strchr_at kbuf token1 SPACE);
          match token2 with
          | None => _ ← act kfree; mret (- EINVAL)
          | Some token2 =>
              kbuf ← act (buf_store kbuf token2 NUL);
              '(kbuf, token2) ← act (strim_at kbuf (token2 + 1));
              token3 ← act (strchr_at kbuf token2 SPACE);
              parsed ←
                match token3 with
                | None => mret None
                | Some token3 =>
                    str ← act (buf_str kbuf token1);
                    mret match kstrtoint str AXD_RADIX_DEC with
                         | inl _ => None
                         | inr parsed_pid =>
                             if 0 <? parsed_pid then Some (token3, parsed_pid) else None
                         end
                end;
              '(kbuf, pid, comm_str, mask_str) ←
                match parsed with
                | Some (token3, parsed_pid) =>
                    kbuf ← act (buf_store kbuf token3 NUL);
                    '(kbuf, token3) ← act (strim_at kbuf (token3 + 1));
                    mret (kbuf, parsed_pid, token2, token3)
                | None =>
                    _ ← act_wait mutex_lock;
                    pid ← act (gets g_current_target_pid);
                    _ ← act mutex_unlock;
                    mret (kbuf, pid, token1, token2)
                end;
              mask ← act (buf_str kbuf mask_str);
              let parsed_mask :=
                match kstrtoul mask 0 with
                | inr mask_val => inr mask_val
                | inl _ => kstrtoul mask AXD_RADIX_HEX
                end in
              match parsed_mask with
              | inl ret => _ ← act kfree; mret ret
              | inr mask_val =>
                  if mask_val =? 0 then _ ← act kfree; mret (- EINVAL)
                  else
                    comm ← act (buf_str kbuf comm_str);
                    ret ← axd_set_affinity_steps pid
                            (Some (String.string_of_list_ascii comm)) (Some mask_val);
                    _ ← act kfree;
                    mret (if (ret <? 0) && negb (ret =? - ENOENT) then ret
                          else Z.of_nat count)
              end
          end
      end.

Definition nta_reset_write_steps (ubuf : Z) (count : nat) : prog dstate Z :=
  if (AXD_MAX_KBUF_PID <=? count)%nat then mret (- EINVAL)
  else
    pid ←
      (if (0 <? count)%nat then
         copied ← act (copy_into (buf_new AXD_MAX_KBUF_PID) ubuf count);
         match copied with
         | None => mret 0
         | Some kbuf =>
             kbuf ← act (buf_store kbuf count NUL);
             '(kbuf, p) ← act (strim_at kbuf 0);
             str ← act (buf_str kbuf p);
             mret match kstrtoint str AXD_RADIX_DEC with inl _ => 0 | inr pid => pid end
         end
       else mret 0);
    pid ←
      (if pid <=? 1 then
         _ ← act_wait mutex_lock;
         pid ← act (gets g_current_target_pid);
         _ ← act mutex_unlock;
         mret pid
       else mret pid);
    ret ← axd_reset_affinity_steps pid;
    mret (if negb (ret =? 0) then ret else Z.of_nat count).

Definition dragonite_boost_write_steps (ubuf : Z) (count : nat) : prog dstate Z :=
  if (AXD_MAX_KBUF_BOOST <=? count)%nat then mret (- EINVAL)
  else
    copied ← act (copy_into (buf_new AXD_MAX_KBUF_BOOST) ubuf count);
    match copied with
    | None => mret (- EFAULT)
    | Some kbuf =>
        kbuf ← act (buf_store kbuf count NUL);
        '(kbuf, p) ← act (strim_at kbuf 0);
        str ← act (buf_str kbuf p);
        match sscanf_dd str with
        | None => mret (- EINVAL)
        | Some (pid, level) =>
            ret ← axd_set_boost_steps pid (from_option id AXD_DEFAULT_BOOST_LEVEL level);
            mret (if negb (ret =? 0) then ret else Z.of_nat count)
        end
    end.

Definition dragonite_kswapd_write_steps (ubuf : Z) (count : nat) : prog dstate Z :=
  if (AXD_MAX_KBUF_KSWAPD <=? count)%nat then mret (- EINVAL)
  else
    copied ← act (copy_into (buf_new AXD_MAX_KBUF_KSWAPD) ubuf count);
    match copied with
    | None => mret (- EFAULT)
    | Some kbuf =>
        kbuf ← act (buf_store kbuf count NUL);
        '(kbuf, p) ← act (strim_at kbuf 0);
        str ← act (buf_str kbuf p);
        parsed_mask ←
          match kstrtoul str 0 with
          | inr mask_val => mret (inr mask_val)
          | inl _ =>
              '(kbuf, p) ← act (strim_at kbuf 0);
              str ← act (buf_str kbuf p);
              mret (kstrtoul str AXD_RADIX_HEX)
          end;
        match parsed_mask with
        | inl ret => mret ret
        | inr mask_val =>
            if mask_val =? 0 then mret (- EINVAL)
            else
              ret ← axd_pin_kswapd_steps (Some mask_val);
              mret (if negb (ret =? 0) && negb (ret =? - ESRCH) then ret
                    else Z.of_nat count)
        end
    end.

(** The target pid is read without the mutex, each counter on its own. *)
Definition dragonite_stats_show_steps : prog dstate string :=
  pid ← act (gets g_current_target_pid);
  sets ← act (gets (λ s, affinity_set_count (g_axd_stats s)));
  boosts ← act (gets (λ s, boost_set_count (g_axd_stats s)));
  resets ← act (gets (λ s, reset_count (g_axd_stats s)));
  pins ← act (gets (λ s, kswapd_pin_count (g_axd_stats s)));
  mret ("ax_dragonite version: " +:+ AXD_VERSION +:+ newline +:+
        "target_pid: " +:+ fmt_int pid +:+ newline +:+
        "affinity_sets: " +:+ fmt_int sets +:+ newline +:+
        "boost_sets: " +:+ fmt_int boosts +:+ newline +:+
        "affinity_resets: " +:+ fmt_int resets +:+ newline +:+
        "kswapd_pins: " +:+ fmt_int pins +:+ newline).

Definition proc_write_steps (f : proc_file) : Z → nat → prog dstate Z :=
  match f with
  | FilePid => nta_pid_write_steps
  | FileAffinity => nta_affinity_write_steps
  | FileReset => nta_reset_write_steps
  | FileBoost => dragonite_boost_write_steps
  | FileKswapd => dragonite_kswapd_write_steps
  end.
End handlers.

(** ** Run alone, the programs are the functions *)

Section alone.
Context `{KernelHeaders} `{DragoniteEnv} `{KString}.

Lemma implements_d_field {A B} t (f : task → A) (k : A → prog dstate B) (g : task → KM dstate B) :
  (∀ tk, implements_km (k (f tk)) (g tk)) →
  implements_km (act (d_field f t) ≫= k) (k_read_task t ≫= g).
Proof.
  intros Hk s. rewrite run_bind. unfold d_field.
  unfold mbind at 1, km_bind at 1. rewrite implements_act.
  unfold mbind, km_bind. destruct (k_read_task t s) as [[tk s1]| |]; [apply Hk|done..].
Qed.

Lemma implements_gets {A B C} (h : dstate → C) (f : C → A) (k : A → prog dstate B)
    (g : C → KM dstate B) :
  (∀ c, implements_km (k (f c)) (g c)) →
  implements_km (act (c ← gets h; mret (f c)) ≫= k) (gets h ≫= g).
Proof. intros Hk s. rewrite run_bind. apply Hk. Qed.

Lemma collect_tasks_alone p limit size l : ∀ acc,
  implements_km (collect_tasks_steps p limit size l acc) (collect_tasks p limit size l acc).
Proof.
  induction l as [|t l IH]; intros acc; cbn [collect_tasks_steps collect_tasks]; [apply implements_ret|].
  apply implements_d_field. intros tk.
  destruct (p tk); cbn [negb]; [|apply IH]. destruct (_ <=? _)%nat; [apply implements_ret|].
  apply implements_bind; [apply implements_act|intros _].
  apply implements_bind; [apply implements_act|intros _]. apply IH.
Qed.

Lemma apply_mask_alone mask l : ∀ n,
  implements_km (apply_mask_steps mask l n) (apply_mask mask l n).
Proof.
  induction l as [|t l IH]; intros n; cbn [apply_mask_steps apply_mask]; [apply implements_ret|].
  apply implements_bind; [apply implements_act|intros r].
  apply implements_bind; [apply implements_act|intros _]. apply IH.
Qed.

(** Looking for the process changes nothing, and its threads can be read later. *)
Lemma find_live_task_alone pid s :
  (find_live_task pid s = Oops ∧ run (find_live_task_steps pid) s = Oops) ∨
  (find_live_task pid s = Done (None, s) ∧ run (find_live_task_steps pid) s = Done (None, s)) ∨
  ∃ t group,
    find_live_task pid s = Done (Some (t, group), s) ∧
    run (find_live_task_steps pid) s = Done (Some t, s) ∧
    threads_of t s = Done (group, s) ∧ d_rcu s ≠ 0%nat.
Proof.
  unfold find_live_task, find_live_task_steps, find_task_step, threads_of, d_field, k_read_task.
  cbn [run act mbind prog_mbind prog_bind mret prog_mret].
  unfold mbind, km_bind, gets, deref, assertk, mret, km_ret.
  destruct (find_task_by_vpid _ pid) as [t|]; [|right; left; done].
  destruct (Nat.eqb_spec (d_rcu s) 0) as [Hd|Hd]; cbn [negb].
  { left. split; [done|]. cbn. unfold mbind, km_bind. by rewrite Hd. }
  assert ((d_rcu s =? 0)%nat = false) as Hd' by by apply Nat.eqb_neq.
  destruct (w_tasks (d_world s) !! t) as [tk|] eqn:Ht.
  2:{ left. split; [done|]. cbn. unfold mbind, km_bind. rewrite Hd'. cbn. by rewrite Ht. }
  right. cbn. unfold mbind, km_bind. rewrite Hd'. cbn. rewrite Ht.
  destruct (t_signal tk) as [group|] eqn:Hg; [|by left].
  cbn. unfold mbind, km_bind. rewrite Hd'. cbn. rewrite Ht.
  destruct (negb (_ =? 0)); [by left|]. right. exists t, group.
  rewrite Ht. cbn. rewrite ?Hg. done.
Qed.

(** The part of an operation that starts with the process. *)
Lemma implements_found {A} pid (fs : task_ptr → prog dstate A)
    (f : option (tid * list tid) → KM dstate A) :
  implements_km (fs None) (f None) →
  (∀ t group s, threads_of t s = Done (group, s) → d_rcu s ≠ 0%nat →
     run (fs (Some t)) s = f (Some (t, group)) s) →
  implements_km (find_live_task_steps pid ≫= fs) (find_live_task pid ≫= f).
Proof.
  intros Hn Hs s. rewrite run_bind. unfold mbind, km_bind.
  destruct (find_live_task_alone pid s) as [[-> ->]|[[-> ->]|(t & g & -> & -> & Ht & Hd)]];
    [done|apply Hn|by apply Hs].
Qed.

(** Taking a reference to a task does not change its threads. *)
Lemma get_threads_alone {A} t group s (ks : list tid → prog dstate A) (k : KM dstate A) :
  threads_of t s = Done (group, s) → d_rcu s ≠ 0%nat →
  implements_km (ks group) k →
  run (_ ← act (get_task_struct t); group ← act (threads_of t); ks group) s
  = (get_task_struct t ;; k) s.
Proof.
  intros Ht Hd Hk. rewrite run_bind. unfold mbind at 1, km_bind at 1. rewrite implements_act.
  unfold mbind at 2, km_bind at 1. destruct (get_task_struct t s) as [[u s1]| |] eqn:E; [|done..].
  assert (threads_of t s1 = Done (group, s1)) as Ht1.
  { revert E Ht. unfold get_task_struct, threads_of, k_read_task, mbind, km_bind, gets, deref,
      assertk, modify, mret, km_ret.
    destruct (negb _) eqn:Hn; [|done]. destruct (w_tasks (d_world s) !! t) as [tk|] eqn:Htk; [|done].
    intros [= E1]. assert (d_rcu s1 = d_rcu s ∧ d_world s1 = d_world s) as [-> Ew] by (by subst).
    rewrite Hn. cbn. rewrite Ew, Htk.
    by destruct (t_signal tk); [intros [= ->]|]. }
  rewrite run_bind. unfold mbind, km_bind. rewrite implements_act, Ht1. apply Hk.
Qed.

Lemma set_nice_all_alone nice l :
  implements_km (set_nice_all_steps nice l) (set_nice_all nice l).
Proof.
  induction l as [|t l IH]; cbn [set_nice_all_steps set_nice_all]; [apply implements_ret|].
  apply implements_bind; [apply implements_act|intros _; apply IH].
Qed.

#[local] Hint Resolve collect_tasks_alone apply_mask_alone set_nice_all_alone : implements_db.

Lemma axd_set_affinity_alone pid comm mask :
  implements_km (axd_set_affinity_steps pid comm mask) (axd_set_affinity pid comm mask).
Proof.
  unfold axd_set_affinity_steps, axd_set_affinity.
  destruct comm as [comm|], mask as [m|]; try apply implements_ret.
  case_match; [apply implements_ret|]. apply implements_bind; [apply implements_act|intros [|]];
    cbn [negb]; [|apply implements_ret].
  apply implements_bind; [apply implements_act|intros _].
  apply implements_found; [implements_auto|]. intros t group s Ht Hd.
  eapply get_threads_alone; [done..|]. implements_auto.
Qed.

Lemma axd_reset_affinity_alone pid :
  implements_km (axd_reset_affinity_steps pid) (axd_reset_affinity pid).
Proof.
  unfold axd_reset_affinity_steps, axd_reset_affinity.
  case_match; [apply implements_ret|]. apply implements_bind; [apply implements_act|intros [|]];
    cbn [negb]; [|apply implements_ret].
  apply implements_bind; [apply implements_act|intros _].
  apply implements_found; [implements_auto|]. intros t group s Ht Hd.
  eapply get_threads_alone; [done..|]. implements_auto.
Qed.

Lemma axd_set_boost_alone pid level :
  implements_km (axd_set_boost_steps pid level) (axd_set_boost pid level).
Proof.
  unfold axd_set_boost_steps, axd_set_boost. case_match; [apply implements_ret|].
  apply implements_bind; [apply implements_act|intros _].
  apply implements_found; [implements_auto|]. intros t group s Ht _.
  rewrite run_bind. unfold mbind at 1, km_bind at 1. rewrite implements_act, Ht.
  refine ((_ : implements_km _ _) s). implements_auto.
Qed.

Lemma axd_pin_kswapd_alone mask :
  implements_km (axd_pin_kswapd_steps mask) (axd_pin_kswapd mask).
Proof.
  destruct mask as [m|]; [|apply implements_ret]. unfold axd_pin_kswapd_steps, axd_pin_kswapd.
  case_match; [apply implements_ret|].
  apply implements_bind; [apply implements_act|intros _].
  apply implements_gets. intros w. implements_auto.
Qed.

#[local] Hint Resolve axd_set_affinity_alone axd_reset_affinity_alone axd_set_boost_alone
  axd_pin_kswapd_alone : implements_db.

Lemma proc_write_alone f ubuf count :
  implements_km (proc_write_steps f ubuf count) (proc_write f ubuf count).
Proof.
  destruct f; cbn [proc_write_steps proc_write].
  - unfold nta_pid_write_steps, nta_pid_write. implements_auto.
  - unfold nta_affinity_write_steps, nta_affinity_write. implements_auto.
  - unfold nta_reset_write_steps, nta_reset_write. implements_auto.
  - unfold dragonite_boost_write_steps, dragonite_boost_write. implements_auto.
  - unfold dragonite_kswapd_write_steps, dragonite_kswapd_write. implements_auto.
Qed.

(** Access by access, the handlers do what they do as functions: run alone,
    a write to one of the proc files, with the driver operation it asks for, and
    both reads go through the same states to the same result. *)
Lemma dragonite_steps_alone :
  (∀ f ubuf count s, run (proc_write_steps f ubuf count) s = proc_write f ubuf count s) ∧
  (∀ s, run nta_pid_show_steps s = nta_pid_show s) ∧
  (∀ s, run dragonite_stats_show_steps s = dragonite_stats_show s).
Proof.
  split_and!; [exact proc_write_alone| |done]. apply (implements_bind (act_wait mutex_lock));
    [apply implements_wait|intros _; implements_auto].
Qed.
End alone.
