(* ===== verification/DragoniteConcurrent.v ===== *)
(** * Concurrent users of AxDragonite

    Any number of threads write and read the proc files at once, while the tasks
    they ask for run, exit, and are freed as soon as nobody protects them.  RCU
    and the reference counts keep every task the driver touches, the mutex
    never deadlocks, and every thread gives back what it took. *)

From stdpp Require Import gmultiset.
From S2P Require Import Prelude KMonad Kernel SampleWorld KString SampleStrings Hooks Dragonite DragoniteProc Interleave DragoniteSteps.

#[local] Open Scope Z_scope.

(** ** Shared and own state *)

Record kernel_state := KernelState {
  sh_tasks : gmap tid task;
  sh_groups : gmap positive sched_entity;
  sh_log : list effect;
  sh_stats : axd_stats;
  sh_target : Z;
  sh_lock : option nat         (* the thread that holds the mutex *)
}.

(** What a thread holds: its RCU nesting, references and allocations. *)
Record holding := Holding {
  h_rcu : nat;
  h_refs : gmultiset tid;
  h_allocs : nat
}.

#[export] Instance dragonite_sharing : Sharing dstate kernel_state holding := {
  view i sh l :=
    DState (World (sh_tasks sh) (sh_groups sh) (h_rcu l)) (h_refs l) (h_allocs l)
      (sh_log sh) (sh_stats sh) (sh_target sh) (bool_decide (sh_lock sh = Some i));
  shared_of i sh s :=
    KernelState (d_tasks s) (w_groups (d_world s)) (d_log s) (g_axd_stats s)
      (g_current_target_pid s)
      (if g_proc_lock s then Some i
       else if decide (sh_lock sh = Some i) then None else sh_lock sh);
  local_of l s := Holding (d_rcu s) (d_refs s) (d_allocs s);
  owner := sh_lock
}.

Definition is_live (sh : kernel_state) (t : tid) : Prop := is_Some (sh_tasks sh !! t).

(** [t] has a signal structure. *)
Definition has_threads (sh : kernel_state) (t : tid) : Prop :=
  ∃ p group, sh_tasks sh !! t = Some p ∧ t_signal p = Some group.

(** The kernel may not free [t] under this thread. *)
Definition keeps (l : holding) (t : tid) : Prop := (0 < h_rcu l)%nat ∨ t ∈ h_refs l.

Section concurrent.
Context `{KernelHeaders} `{DragoniteEnv} `{KStringLaws}.

(** At every moment the kernel's tables lead to tasks that exist. *)
Record tables_ok (sh : kernel_state) : Prop := {
  tb_find pid t : find_task_by_vpid (sh_tasks sh) pid = Some t → is_live sh t;
  tb_threads t p group x : sh_tasks sh !! t = Some p → t_signal p = Some group →
    x ∈ group → is_live sh x;
  tb_procs t : t ∈ for_each_process (sh_tasks sh) → is_live sh t
}.

(** What a thread relies on: tasks under RCU or with a reference stay, with
    their signal structure; nobody else takes or releases its mutex. *)
Definition axd_rely (i : nat) (l : holding) (sh sh' : kernel_state) : Prop :=
  (tables_ok sh → tables_ok sh') ∧
  (∀ t, keeps l t → is_live sh t → is_live sh' t) ∧
  (∀ t, keeps l t → has_threads sh t → has_threads sh' t) ∧
  (sh_lock sh = Some i ↔ sh_lock sh' = Some i).

(** The rest of the kernel: it does anything to tasks that no thread protects,
    and leaves the module's variables alone. *)
Definition axd_env (ls : list holding) (sh sh' : kernel_state) : Prop :=
  (tables_ok sh → tables_ok sh') ∧
  (∀ l t, l ∈ ls → keeps l t → is_live sh t → is_live sh' t) ∧
  (∀ l t, l ∈ ls → keeps l t → has_threads sh t → has_threads sh' t) ∧
  sh_log sh' = sh_log sh ∧ sh_stats sh' = sh_stats sh ∧
  sh_target sh' = sh_target sh ∧ sh_lock sh' = sh_lock sh.

Lemma axd_rely_refl i l sh : axd_rely i l sh sh.
Proof. done. Qed.

Lemma axd_rely_trans i l sh1 sh2 sh3 :
  axd_rely i l sh1 sh2 → axd_rely i l sh2 sh3 → axd_rely i l sh1 sh3.
Proof.
  intros (? & ? & ? & E) (? & ? & ? & E'). split_and!; eauto. by rewrite E, E'.
Qed.

Lemma axd_env_rely ls sh sh' i l :
  axd_env ls sh sh' → ls !! i = Some l → axd_rely i l sh sh'.
Proof.
  intros (? & Hl & Ht & _ & _ & _ & El) Hi%list_elem_of_lookup_2.
  split_and!; [done|by eauto..|by rewrite El].
Qed.

(** ** A logic for one thread *)

(** Between two actions of thread [i] outside its critical sections: it does not
    hold the mutex, and the tasks it has references to exist. *)
Definition steady (i : nat) (l : holding) (sh : kernel_state) : Prop :=
  tables_ok sh ∧ sh_lock sh ≠ Some i ∧ ∀ t, t ∈ h_refs l → is_live sh t.

Lemma steady_rely i l sh sh' : axd_rely i l sh sh' → steady i l sh → steady i l sh'.
Proof.
  intros (Hok & Hl & _ & Hlock) (? & Hn & Hr). split_and!; [auto|by rewrite <- Hlock|].
  intros t Ht. apply Hl; [by right|auto].
Qed.

(** [p] run by a thread that holds [l] is safe, and ends in a steady state with a
    result and holdings in [P]. *)
Definition runs {A} (i : nat) (l : holding) (sh : kernel_state) (p : prog dstate A)
    (P : A → holding → kernel_state → Prop) : Prop :=
  safe axd_rely i l sh p (λ a l' sh', steady i l' sh' ∧ P a l' sh').

Lemma runs_ret {A} i l sh (a : A) (P : A → holding → kernel_state → Prop) :
  steady i l sh → (∀ sh', axd_rely i l sh sh' → P a l sh') → runs i l sh (mret a) P.
Proof. intros Hs HP sh' Hr. split; [by eapply steady_rely|auto]. Qed.

Lemma runs_bind {A B} i l sh (p : prog dstate A) (f : A → prog dstate B) P Q :
  runs i l sh p P →
  (∀ a l' sh', steady i l' sh' → P a l' sh' → runs i l' sh' (f a) Q) →
  runs i l sh (p ≫= f) Q.
Proof.
  intros Hp Hf. apply (safe_bind axd_rely axd_rely_refl). eapply safe_mono; [exact Hp|].
  intros a l' sh' [Hs HP]. by apply Hf.
Qed.

Lemma runs_mono {A} i l sh (p : prog dstate A) (P Q : A → holding → kernel_state → Prop) :
  runs i l sh p P → (∀ a l' sh', P a l' sh' → Q a l' sh') → runs i l sh p Q.
Proof. intros Hp HPQ. eapply safe_mono; [exact Hp|]. intros a l' sh' [? ?]. auto. Qed.

(** The same tasks, and the same owner of the mutex. *)
Definition same_tasks (sh sh' : kernel_state) : Prop :=
  sh_tasks sh' = sh_tasks sh ∧ sh_lock sh' = sh_lock sh.

Lemma same_tasks_rely i l sh sh' : same_tasks sh sh' → axd_rely i l sh sh'.
Proof.
  intros [Et El]. unfold axd_rely, is_live, has_threads. rewrite Et, El.
  split_and!; [|done..]. intros [? ? ?]. split; unfold is_live in *; rewrite Et; eauto.
Qed.

Lemma shared_of_view i sh sh' l :
  sh_lock sh' = sh_lock sh → shared_of i sh (view i sh' l) = sh'.
Proof.
  intros E. destruct sh'; cbn in *. subst. case_bool_decide as Hl; rewrite ?decide_False by done; by f_equal.
Qed.

Lemma local_of_view i sh l l' : local_of l (view i sh l') = l'.
Proof. by destruct l'. Qed.

(** An action outside critical sections. *)
Lemma runs_act {A} i l sh (m : KM dstate A) (P : A → holding → kernel_state → Prop) :
  steady i l sh →
  (∀ sh', axd_rely i l sh sh' → steady i l sh' →
     ∃ a sh2 l', m (view i sh' l) = Done (a, view i sh2 l') ∧ same_tasks sh' sh2 ∧
       (∀ t, t ∈ h_refs l' → is_live sh' t) ∧
       ∀ sh3, axd_rely i l' sh2 sh3 → P a l' sh3) →
  runs i l sh (act m) P.
Proof.
  intros Hs Hm sh' Hr. split; [done|]. intros _.
  pose proof (steady_rely _ _ _ _ Hr Hs) as Hs'.
  destruct (Hm sh' Hr Hs') as (a & sh2 & l' & E & Hsame & Hl' & HP).
  eapply wp_of_result; [exact E|]. rewrite local_of_view, shared_of_view by apply Hsame.
  split; [split; [intros; by apply same_tasks_rely|left; apply Hsame]|].
  assert (steady i l' sh2) as Hs2.
  { destruct Hs' as (? & ? & _), (same_tasks_rely i l' _ _ Hsame) as (Hok & _).
    destruct Hsame as [Et El]. split_and!; [auto|by rewrite El|].
    unfold is_live. rewrite Et. exact Hl'. }
  intros sh3 Hr3. split; [by eapply steady_rely|by apply HP].
Qed.

(** An action that changes nothing, whatever it finds. *)
Lemma runs_pure {A B} i l sh (m : KM dstate A) a (k : A → prog dstate B) P :
  steady i l sh → (∀ s, m s = Done (a, s)) →
  (∀ sh', steady i l sh' → runs i l sh' (k a) P) →
  runs i l sh (act m ≫= k) P.
Proof.
  intros Hs Hm Hk. eapply (runs_bind _ _ _ _ _ (λ a' l' _, a' = a ∧ l' = l)).
  - apply runs_act; [done|]. intros sh' _ Hs'. exists a, sh', l. split_and!; [apply Hm|done| |done].
    apply Hs'.
  - intros a' l' sh' Hs' [-> ->]. by apply Hk.
Qed.

(** *** Critical sections *)

Definition with_lock (o : option nat) (sh : kernel_state) : kernel_state :=
  KernelState (sh_tasks sh) (sh_groups sh) (sh_log sh) (sh_stats sh) (sh_target sh) o.

Definition locked (i : nat) (l : holding) (sh : kernel_state) : Prop :=
  tables_ok sh ∧ sh_lock sh = Some i ∧ ∀ t, t ∈ h_refs l → is_live sh t.

Lemma locked_rely i l sh sh' : axd_rely i l sh sh' → locked i l sh → locked i l sh'.
Proof.
  intros (Hok & Hl & _ & Hlock) (? & Hn & Hr). split_and!; [auto|by rewrite <- Hlock|].
  intros t Ht. apply Hl; [by right|auto].
Qed.

(** Taking or releasing the mutex does not concern the others. *)
Lemma with_lock_guarantee i sh o :
  (sh_lock sh = None ∧ o = Some i) ∨ (sh_lock sh = Some i ∧ o = None) →
  guarantee axd_rely i sh (with_lock o sh).
Proof.
  intros Ho. split; [|destruct Ho as [[_ ->]|[_ ->]]; cbn; auto].
  intros j l Hj. split_and!; [by intros []|done|done|].
  cbn. destruct Ho as [[-> ->]|[-> ->]]; split; congruence.
Qed.

Lemma mutex_lock_view i sh l :
  h_rcu l = 0%nat → sh_lock sh = None →
  mutex_lock (view i sh l) = Done (tt, view i (with_lock (Some i) sh) l).
Proof.
  intros Hr Hl. rewrite mutex_lock_run; [|done|].
  - unfold set_lock. cbn. by rewrite bool_decide_true.
  - cbn. by rewrite Hl, bool_decide_false.
Qed.

Lemma mutex_unlock_view i sh l :
  sh_lock sh = Some i →
  mutex_unlock (view i sh l) = Done (tt, view i (with_lock None sh) l).
Proof.
  intros Hl. rewrite mutex_unlock_run; [done|]. cbn. by rewrite Hl, bool_decide_true.
Qed.

Lemma shared_of_with_lock i sh l o :
  (sh_lock sh = None ∧ o = Some i) ∨ (sh_lock sh = Some i ∧ o = None) →
  shared_of i sh (view i (with_lock o sh) l) = with_lock o sh.
Proof.
  intros [[E ->]|[E ->]]; cbn; rewrite E; unfold with_lock.
  - by rewrite bool_decide_true.
  - by rewrite bool_decide_false, decide_True.
Qed.

(** What is done under the mutex touches no task. *)
Lemma runs_locked {A B} i l sh (m : KM dstate A) (k : A → prog dstate B) P :
  steady i l sh → h_rcu l = 0%nat →
  (∀ sh', sh_lock sh' = Some i →
     ∃ a sh2, m (view i sh' l) = Done (a, view i sh2 l) ∧ same_tasks sh' sh2) →
  (∀ a sh', steady i l sh' → runs i l sh' (k a) P) →
  runs i l sh (_ ← act_wait mutex_lock; a ← act m; _ ← act mutex_unlock; k a) P.
Proof.
  intros Hs Hrcu Hm Hk. apply safe_act_wait. intros sh1 Hr1.
  pose proof (steady_rely _ _ _ _ Hr1 Hs) as Hs1. split; [apply Hs1|]. intros Hfree. cbn in Hfree.
  eapply wp_of_result; [by apply mutex_lock_view|].
  rewrite shared_of_with_lock, local_of_view by auto. split; [by apply with_lock_guarantee; auto|].
  assert (locked i l (with_lock (Some i) sh1)) as Hk1 by (destruct Hs1 as ([? ? ?] & _ & ?); by split_and!).
  apply safe_act. intros sh2 Hr2. pose proof (locked_rely _ _ _ _ Hr2 Hk1) as Hk2.
  destruct (Hm sh2) as (a & sh3 & E & Hsame); [apply Hk2|].
  eapply wp_of_result; [exact E|]. rewrite shared_of_view, local_of_view by apply Hsame.
  split; [split; [intros; by apply same_tasks_rely|left; apply Hsame]|].
  assert (locked i l sh3) as Hk3 by (eapply locked_rely; [by apply same_tasks_rely|done]).
  apply safe_act. intros sh4 Hr4. destruct (locked_rely _ _ _ _ Hr4 Hk3) as (Hok4 & Hl4 & Href4).
  eapply wp_of_result; [by apply mutex_unlock_view|].
  rewrite shared_of_with_lock, local_of_view by auto. split; [by apply with_lock_guarantee; auto|].
  apply Hk. destruct Hok4. by split_and!.
Qed.

(** ** The driver *)

Lemma rely_live i l sh sh' t : axd_rely i l sh sh' → keeps l t → is_live sh t → is_live sh' t.
Proof. intros (_ & Hl & _). apply Hl. Qed.

Lemma rely_threads i l sh sh' t :
  axd_rely i l sh sh' → keeps l t → has_threads sh t → has_threads sh' t.
Proof. intros (_ & _ & Ht & _). apply Ht. Qed.

Lemma threads_live sh t : has_threads sh t → is_live sh t.
Proof. intros (p & ? & Hp & _). by exists p. Qed.

Lemma steady_refs i l sh t : steady i l sh → t ∈ h_refs l → is_live sh t.
Proof. intros (_ & _ & Hr). apply Hr. Qed.

Lemma k_read_task_view i sh l t p :
  (0 < h_rcu l)%nat → sh_tasks sh !! t = Some p →
  k_read_task t (view i sh l) = Done (p, view i sh l).
Proof. intros Hr Hp. by apply (k_read_task_run (view i sh l)). Qed.

(** Reading a field of a task under RCU. *)
Lemma runs_field {A} i l sh t (f : task → A) (P : A → kernel_state → Prop) :
  steady i l sh → (0 < h_rcu l)%nat → is_live sh t →
  (∀ sh' p, sh_tasks sh' !! t = Some p → steady i l sh' → axd_rely i l sh sh' →
     ∀ sh2, axd_rely i l sh' sh2 → P (f p) sh2) →
  runs i l sh (act (d_field f t)) (λ a l' sh', l' = l ∧ P a sh').
Proof.
  intros Hs Hrcu Hal HP. apply runs_act; [done|]. intros sh' Hr Hs'.
  destruct (rely_live _ _ _ _ _ Hr (or_introl Hrcu) Hal) as [p Hp].
  exists (f p), sh', l. split_and!; [|done|apply Hs'|].
  - unfold d_field. by krun (k_read_task_view i sh' l t p Hrcu Hp).
  - intros sh3 Hr3. split; [done|]. by eapply HP.
Qed.

Lemma find_live_task_runs i l sh pid :
  steady i l sh → (0 < h_rcu l)%nat →
  runs i l sh (find_live_task_steps pid)
    (λ r l' sh', l' = l ∧ match r with None => True | Some t => has_threads sh' t end).
Proof.
  intros Hs Hrcu. unfold find_live_task_steps.
  eapply (runs_bind _ _ _ _ _ (λ r l' sh', l' = l ∧ match r with None => True | Some t => is_live sh' t end)).
  { apply runs_act; [done|]. intros sh' _ Hs'.
    exists (find_task_by_vpid (sh_tasks sh') pid), sh', l. split_and!; [done|done|apply Hs'|].
    intros sh3 Hr3. split; [done|]. destruct (find_task_by_vpid _ pid) as [t|] eqn:E; [|done].
    eapply rely_live; [exact Hr3|by left|]. by eapply tb_find; [apply Hs'|]. }
  intros [t|] l1 sh1 Hs1 [-> Ht]; [|by apply runs_ret].
  eapply (runs_bind _ _ _ _ _ (λ r l' sh', l' = l ∧ match r with None => True | Some _ => has_threads sh' t end)).
  { apply runs_field; [done..|]. intros sh' p Hp Hs' _ sh2 Hr2.
    destruct (t_signal p) as [g|] eqn:E; [|done].
    eapply rely_threads; [exact Hr2|by left|]. by exists p, g. }
  intros [g|] l1 sh2 Hs2 [-> Hg]; [|by apply runs_ret].
  eapply (runs_bind _ _ _ _ _ (λ _ l' sh', l' = l ∧ has_threads sh' t)).
  { apply runs_field; [done..|by apply threads_live|]. intros sh' p Hp Hs' Hr' sh3 Hr3.
    eapply rely_threads; [exact Hr3|by left|]. by eapply rely_threads; [exact Hr'|by left|]. }
  intros flags l1 sh3 Hs3 [-> Hg3]. apply runs_ret; [done|]. intros sh' Hr.
  split; [done|]. destruct (negb _); [done|]. eapply rely_threads; [exact Hr|by left|done].
Qed.

Definition add_refs (ts : list tid) (l : holding) : holding :=
  Holding (h_rcu l) (list_to_set_disj ts ⊎ h_refs l) (h_allocs l).

Lemma add_refs_nil l : add_refs [] l = l.
Proof.
  destruct l. unfold add_refs. by rewrite list_to_set_disj_nil, (left_id_L ∅ (⊎)).
Qed.

Lemma add_refs_one t l : add_refs [t] l = Holding (h_rcu l) ({[+ t +]} ⊎ h_refs l) (h_allocs l).
Proof.
  unfold add_refs. by rewrite list_to_set_disj_cons, list_to_set_disj_nil, (right_id_L ∅ (⊎)).
Qed.

Lemma elem_add_refs x t l : x ∈ h_refs (add_refs [t] l) ↔ x = t ∨ x ∈ h_refs l.
Proof.
  rewrite add_refs_one. cbn [h_refs].
  by rewrite gmultiset_elem_of_disj_union, gmultiset_elem_of_singleton.
Qed.

Lemma add_refs_cons t ts l : add_refs ts (add_refs [t] l) = add_refs (t :: ts) l.
Proof.
  rewrite add_refs_one. unfold add_refs. cbn [h_rcu h_refs h_allocs].
  rewrite list_to_set_disj_cons. f_equal. multiset_solver.
Qed.

(** Taking a reference to a task found under RCU. *)
Lemma get_task_runs i l sh t (P : kernel_state → Prop) :
  steady i l sh → (0 < h_rcu l)%nat → is_live sh t →
  (∀ sh', axd_rely i l sh sh' → P sh') →
  runs i l sh (act (get_task_struct t)) (λ _ l' sh', l' = add_refs [t] l ∧ P sh').
Proof.
  intros Hs Hrcu Hal HP. apply runs_act; [done|]. intros sh' Hr Hs'.
  pose proof (rely_live _ _ _ _ _ Hr (or_introl Hrcu) Hal) as Hal'.
  exists tt, sh', (add_refs [t] l). split_and!; [|done| |].
  - destruct Hal' as [p Hp]. unfold get_task_struct. krun (k_read_task_view i sh' l t p Hrcu Hp).
    by rewrite add_refs_one.
  - intros x [->|Hx']%elem_add_refs; [done|by eapply steady_refs].
  - intros sh3 Hr3. split; [done|]. apply HP. eapply axd_rely_trans; [exact Hr|].
    destruct Hr3 as (? & Hk & Hk' & ?). split_and!; [done| | |done];
      intros x Hx; [apply Hk|apply Hk']; (destruct Hx as [?|?]; [by left|right; apply elem_add_refs; by right]).
Qed.

Lemma threads_runs i l sh t :
  steady i l sh → (0 < h_rcu l)%nat → has_threads sh t →
  runs i l sh (act (threads_of t)) (λ g l' sh', l' = l ∧ ∀ x, x ∈ g → is_live sh' x).
Proof.
  intros Hs Hrcu Ht. apply runs_act; [done|]. intros sh' Hr Hs'.
  destruct (rely_threads _ _ _ _ _ Hr (or_introl Hrcu) Ht) as (p & g & Hp & Hg).
  exists g, sh', l. split_and!; [|done|apply Hs'|].
  - unfold threads_of. krun (k_read_task_view i sh' l t p Hrcu Hp). by rewrite Hg.
  - intros sh3 Hr3. split; [done|]. intros x Hx. eapply rely_live; [exact Hr3|by left|].
    eapply tb_threads; [apply Hs'|exact Hp|exact Hg|exact Hx].
Qed.

Lemma collect_runs_rg i p limit xs : ∀ l sh acc,
  steady i l sh → (0 < h_rcu l)%nat → (∀ x, x ∈ xs → is_live sh x) →
  runs i l sh (collect_tasks_steps p limit limit xs acc)
    (λ r l' _, ∃ ts, r = acc ++ ts ∧ l' = add_refs ts l).
Proof.
  induction xs as [|x xs IH]; intros l sh acc Hs Hrcu Hxs; cbn [collect_tasks_steps].
  { apply runs_ret; [done|]. intros sh' _. exists []. by rewrite app_nil_r, add_refs_nil. }
  eapply (runs_bind _ _ _ _ _ (λ _ l' sh', l' = l ∧ ∀ y, y ∈ x :: xs → is_live sh' y)).
  { apply runs_field; [done|done|apply Hxs; by left|]. intros sh' tk _ _ Hr sh2 Hr2 y Hy.
    eapply rely_live; [exact Hr2|by left|]. eapply rely_live; [exact Hr|by left|auto]. }
  intros wanted l1 sh1 Hs1 [-> Hxs1]. destruct wanted; cbn [negb].
  2:{ apply IH; [done|done|]. intros y Hy. apply Hxs1. by right. }
  destruct (Nat.leb_spec limit (length acc)) as [|Hlt].
  { apply runs_ret; [done|]. intros sh' _. exists []. by rewrite app_nil_r, add_refs_nil. }
  eapply runs_bind.
  { apply (get_task_runs i l sh1 x (λ sh', ∀ y, y ∈ xs → is_live sh' y)); [done|done|apply Hxs1; by left|].
    intros sh' Hr y Hy. eapply rely_live; [exact Hr|by left|apply Hxs1; by right]. }
  intros _ l1 sh2 Hs2 [-> Hxs2].
  eapply (runs_bind _ _ _ _ _ (λ _ l' sh', l' = add_refs [x] l ∧ ∀ y, y ∈ xs → is_live sh' y)).
  { apply runs_act; [done|]. intros sh' Hr Hs'. exists tt, sh', (add_refs [x] l).
    split_and!; [by rewrite (proj2 (Nat.ltb_lt _ _) Hlt)|done|apply Hs'|].
    intros sh3 Hr3. split; [done|]. intros y Hy. eapply rely_live; [exact Hr3|by left|].
    eapply rely_live; [exact Hr|by left|by apply Hxs2]. }
  intros _ l1 sh3 Hs3 [-> Hxs3].
  eapply runs_mono; [by apply IH|]. intros r l' _ (ts & -> & ->).
  exists (x :: ts). by rewrite <- app_assoc, add_refs_cons.
Qed.

(** Actions on what the thread holds, followed by the rest. *)
Lemma runs_own {A B} i l l' sh (m : KM dstate A) a (k : A → prog dstate B) P :
  steady i l sh → (∀ t, t ∈ h_refs l' → t ∈ h_refs l) →
  (∀ sh', (∀ t, t ∈ h_refs l → is_live sh' t) → m (view i sh' l) = Done (a, view i sh' l')) →
  (∀ sh', steady i l' sh' → runs i l' sh' (k a) P) →
  runs i l sh (act m ≫= k) P.
Proof.
  intros Hs Hl Hm Hk. eapply (runs_bind _ _ _ _ _ (λ a' l1 _, a' = a ∧ l1 = l')).
  - apply runs_act; [done|]. intros sh' _ Hs'. exists a, sh', l'.
    split_and!; [apply Hm, Hs'|done| |done]. intros t Ht. by eapply steady_refs, Hl.
  - intros a' l1 sh' Hs' [-> ->]. by apply Hk.
Qed.

(** Actions on the log and the counters, followed by the rest. *)
Lemma runs_note {A B} i l sh (m : KM dstate A) (k : A → prog dstate B) P :
  steady i l sh →
  (∀ sh', (∀ t, t ∈ h_refs l → is_live sh' t) →
     ∃ a sh2, m (view i sh' l) = Done (a, view i sh2 l) ∧ same_tasks sh' sh2) →
  (∀ a sh', steady i l sh' → runs i l sh' (k a) P) →
  runs i l sh (act m ≫= k) P.
Proof.
  intros Hs Hm Hk. eapply (runs_bind _ _ _ _ _ (λ _ l' _, l' = l)).
  - apply runs_act; [done|]. intros sh' _ Hs'.
    destruct (Hm sh') as (a & sh2 & E & Hsame); [apply Hs'|].
    exists a, sh2, l. split_and!; [done|done|apply Hs'|done].
  - intros a l' sh' Hs' ->. by apply Hk.
Qed.

Definition set_h_rcu (n : nat) (l : holding) : holding := Holding n (h_refs l) (h_allocs l).
Definition set_h_allocs (n : nat) (l : holding) : holding := Holding (h_rcu l) (h_refs l) n.

Lemma rcu_lock_runs {B} i l sh (k : unit → prog dstate B) P :
  steady i l sh → (∀ sh', steady i (set_h_rcu (S (h_rcu l)) l) sh' →
     runs i (set_h_rcu (S (h_rcu l)) l) sh' (k tt) P) →
  runs i l sh (act k_rcu_lock ≫= k) P.
Proof. intros Hs Hk. by eapply runs_own; [done| | |exact Hk]. Qed.

Lemma rcu_unlock_runs {B} i l n sh (k : unit → prog dstate B) P :
  steady i l sh → h_rcu l = S n →
  (∀ sh', steady i (set_h_rcu n l) sh' → runs i (set_h_rcu n l) sh' (k tt) P) →
  runs i l sh (act k_rcu_unlock ≫= k) P.
Proof.
  intros Hs Hn Hk. eapply runs_own; [done| | |exact Hk]; [done|].
  intros sh' _. by rewrite (k_rcu_unlock_run _ n).
Qed.

Lemma kfree_runs {B} i l n sh (k : unit → prog dstate B) P :
  steady i l sh → h_allocs l = S n →
  (∀ sh', steady i (set_h_allocs n l) sh' → runs i (set_h_allocs n l) sh' (k tt) P) →
  runs i l sh (act kfree ≫= k) P.
Proof.
  intros Hs Hn Hk. eapply runs_own; [done| | |exact Hk]; [done|].
  intros sh' _. by rewrite (kfree_run _ n).
Qed.

Lemma kmalloc_runs {B} i l size sh (k : bool → prog dstate B) P :
  steady i l sh → h_rcu l = 0%nat →
  (∀ sh', steady i l sh' → runs i l sh' (k false) P) →
  (∀ sh', steady i (set_h_allocs (S (h_allocs l)) l) sh' →
     runs i (set_h_allocs (S (h_allocs l)) l) sh' (k true) P) →
  runs i l sh (act (kmalloc_k size) ≫= k) P.
Proof.
  intros Hs Hr Hf Ht. destruct (kmalloc size) eqn:E.
  - eapply runs_own; [done| | |exact Ht]; [done|]. intros sh' _. by rewrite kmalloc_run, E.
  - eapply runs_own; [done| | |exact Hf]; [done|]. intros sh' _. by rewrite kmalloc_run, E.
Qed.

Lemma put_task_runs {B} i l t R sh (k : unit → prog dstate B) P :
  steady i l sh → h_refs l = {[+ t +]} ⊎ R →
  (∀ sh', steady i (Holding (h_rcu l) R (h_allocs l)) sh' →
     runs i (Holding (h_rcu l) R (h_allocs l)) sh' (k tt) P) →
  runs i l sh (act (put_task_struct t) ≫= k) P.
Proof.
  intros Hs HR Hk. eapply runs_own; [done| | |exact Hk].
  - intros x Hx. rewrite HR. apply gmultiset_elem_of_disj_union. by right.
  - intros sh' _. by rewrite (put_task_struct_run _ t R).
Qed.

(** The mask is set for tasks that may have exited, and each reference dropped. *)
Lemma apply_mask_runs {B} i m ts : ∀ n l R sh (k : Z → prog dstate B) P,
  steady i l sh → h_rcu l = 0%nat → h_refs l = list_to_set_disj ts ⊎ R →
  (∀ n sh', let l' := Holding 0 R (h_allocs l) in
     steady i l' sh' → runs i l' sh' (k n) P) →
  runs i l sh (apply_mask_steps m ts n ≫= k) P.
Proof.
  induction ts as [|t ts IH]; intros n l R sh k P Hs Hr HR Hk.
  { rewrite list_to_set_disj_nil, (left_id_L ∅ (⊎)) in HR. destruct l. cbn in *. subst.
    by apply (Hk n). }
  rewrite list_to_set_disj_cons in HR. cbn [apply_mask_steps].
  change (runs i l sh (act (set_cpus_k t m) ≫= λ ret, act (put_task_struct t) ≫=
    λ _, apply_mask_steps m ts (if ret =? 0 then n + 1 else n) ≫= k) P).
  apply runs_note; [done| |].
  { intros sh' Hl. eexists _, (KernelState (sh_tasks sh') (sh_groups sh') _ (sh_stats sh')
      (sh_target sh') (sh_lock sh')). split; [|done].
    rewrite set_cpus_run; [done|done| |].
    - cbn. rewrite HR. apply gmultiset_elem_of_disj_union. left.
      apply gmultiset_elem_of_disj_union. left. by apply gmultiset_elem_of_singleton.
    - apply Hl. rewrite HR. apply gmultiset_elem_of_disj_union. left.
      apply gmultiset_elem_of_disj_union. left. by apply gmultiset_elem_of_singleton. }
  intros ret sh1 Hs1. eapply (put_task_runs _ _ _ (list_to_set_disj ts ⊎ R)); [done| |].
  { by rewrite HR, (assoc_L (⊎)). }
  intros sh2 Hs2. eapply IH; [done|done|done|]. exact Hk.
Qed.

(** 0 or an error. *)
Definition errno (ret : Z) : Prop := ret = 0 ∨ ret < 0.

Lemma runs_done {A} i l sh (a : A) (P : A → Prop) :
  steady i l sh → P a → runs i l sh (mret a) (λ a l' _, l' = l ∧ P a).
Proof. intros Hs HP. by apply runs_ret. Qed.

Lemma count_runs i l sh (b : bool) f (r : Z) :
  steady i l sh → errno r →
  runs i l sh (_ ← (if b then act (modify (on_stats f)) else mret tt); mret r)
    (λ r l' _, l' = l ∧ errno r).
Proof.
  intros Hs Hr. destruct b; [|by apply runs_done]. apply runs_note; [done| |].
  - intros sh' _. by exists tt, (KernelState (sh_tasks sh') (sh_groups sh') (sh_log sh')
      (f (sh_stats sh')) (sh_target sh') (sh_lock sh')).
  - intros _ sh' Hs'. by apply runs_done.
Qed.

(** Setting the mask of the threads of a process that [p] selects. *)
Lemma masked_runs i l sh pid p limit size m f (r : Z → list tid → Z) :
  steady i l sh → h_rcu l = 0%nat → (∀ n ts, errno (r n ts)) →
  runs i l sh
    (threads ← act (kmalloc_k size);
     if negb threads then mret (- ENOMEM)
     else
       _ ← act k_rcu_lock;
       found ← find_live_task_steps pid;
       match found with
       | None => _ ← act k_rcu_unlock; _ ← act kfree; mret (- ESRCH)
       | Some t =>
           _ ← act (get_task_struct t);
           group ← act (threads_of t);
           ts ← collect_tasks_steps p limit limit group [];
           _ ← act k_rcu_unlock;
           n ← apply_mask_steps m ts 0;
           _ ← act kfree; _ ← act (put_task_struct t);
           _ ← (if 0 <? n then act (modify (on_stats f)) else mret tt);
           mret (r n ts)
       end)
    (λ ret l' _, l' = l ∧ errno ret).
Proof.
  destruct l as [rcu refs allocs]. cbn [h_rcu]. intros Hs -> Hr.
  apply kmalloc_runs; [done|done|intros; apply runs_done; [done|by right]|].
  intros sh1 Hs1. cbn [negb]. apply rcu_lock_runs; [done|]. intros sh2 Hs2.
  cbn [set_h_rcu set_h_allocs h_rcu h_refs h_allocs] in *.
  eapply runs_bind; [apply find_live_task_runs; [done|cbn; lia]|].
  intros [t|] l' sh3 Hs3 [-> Ht].
  2:{ eapply rcu_unlock_runs; [done..|]. intros sh4 Hs4. eapply kfree_runs; [done..|].
      intros sh5 Hs5. apply runs_done; [done|by right]. }
  eapply runs_bind.
  { apply (get_task_runs _ _ _ _ (λ sh, has_threads sh t)); [done|cbn; lia|by apply threads_live|].
    intros sh' Hr'. eapply rely_threads; [exact Hr'|left; cbn; lia|done]. }
  intros _ l' sh4 Hs4 [-> Ht4].
  eapply runs_bind; [apply threads_runs; [done|cbn; lia|done]|].
  intros g l' sh5 Hs5 [-> Hg]. eapply runs_bind; [apply collect_runs_rg; [done|cbn; lia|done]|].
  intros ts l' sh6 Hs6 (ts' & -> & ->). cbn [app].
  eapply rcu_unlock_runs; [done..|]. intros sh7 Hs7.
  eapply (apply_mask_runs _ _ _ _ _ ({[+ t +]} ⊎ refs)); [done|done| |].
  { rewrite add_refs_one. done. }
  intros n sh8 l' Hs8. eapply kfree_runs; [done..|]. intros sh9 Hs9.
  eapply put_task_runs; [done..|]. intros sh10 Hs10. by apply count_runs.
Qed.

Lemma axd_set_affinity_runs i l sh pid comm m :
  steady i l sh → h_rcu l = 0%nat →
  runs i l sh (axd_set_affinity_steps pid comm m) (λ r l' _, l' = l ∧ errno r).
Proof.
  intros Hs Hr. unfold axd_set_affinity_steps.
  destruct comm as [comm|], m as [m|]; try (apply runs_done; [done|by right]).
  case_match; [apply runs_done; [done|by right]|].
  apply (masked_runs _ _ _ pid _ _ _ m inc_affinity (λ n ts, if 0 <? n then 0 else
    if (0 <? length ts)%nat then - EINVAL else - ENOENT)); [done|done|].
  intros n ts. repeat case_match; (by left) || (by right).
Qed.

Lemma axd_reset_affinity_runs i l sh pid :
  steady i l sh → h_rcu l = 0%nat →
  runs i l sh (axd_reset_affinity_steps pid) (λ r l' _, l' = l ∧ errno r).
Proof.
  intros Hs Hr. unfold axd_reset_affinity_steps.
  case_match; [apply runs_done; [done|by right]|].
  apply (masked_runs _ _ _ pid _ _ _ _ inc_reset (λ n _, if 0 <? n then 0 else - ESRCH));
    [done|done|]. intros n _. case_match; (by left) || (by right).
Qed.

Lemma set_nice_runs i l nice g : ∀ sh,
  steady i l sh → (0 < h_rcu l)%nat → (∀ x, x ∈ g → is_live sh x) →
  runs i l sh (set_nice_all_steps nice g) (λ _ l' _, l' = l).
Proof.
  induction g as [|x g IH]; intros sh Hs Hrcu Hg; cbn [set_nice_all_steps]; [by apply runs_ret|].
  eapply (runs_bind _ _ _ _ _ (λ _ l' sh', l' = l ∧ ∀ y, y ∈ g → is_live sh' y)).
  - apply runs_act; [done|]. intros sh' Hr Hs'.
    destruct (rely_live _ _ _ _ x Hr (or_introl Hrcu)) as [p Hp]; [apply Hg; by left|].
    eexists tt, (KernelState (sh_tasks sh') (sh_groups sh') _ (sh_stats sh')
      (sh_target sh') (sh_lock sh')), l. split_and!; [|done|apply Hs'|].
    + unfold set_user_nice_k. by krun (k_read_task_view i sh' l x p Hrcu Hp).
    + intros sh3 Hr3. split; [done|]. intros y Hy. eapply rely_live; [exact Hr3|by left|].
      change (is_live sh' y). eapply rely_live; [exact Hr|by left|apply Hg; by right].
  - intros _ l' sh' Hs' [-> Hg']. by apply IH.
Qed.

Lemma axd_set_boost_runs i l sh pid level :
  steady i l sh → h_rcu l = 0%nat →
  runs i l sh (axd_set_boost_steps pid level) (λ r l' _, l' = l ∧ errno r).
Proof.
  destruct l as [rcu refs allocs]. cbn [h_rcu]. intros Hs ->. unfold axd_set_boost_steps.
  case_match; [apply runs_done; [done|by right]|].
  apply rcu_lock_runs; [done|]. intros sh2 Hs2.
  eapply runs_bind; [apply find_live_task_runs; [done|cbn; lia]|].
  intros [t|] l' sh3 Hs3 [-> Ht].
  2:{ eapply rcu_unlock_runs; [done..|]. intros sh4 Hs4. apply runs_done; [done|by right]. }
  eapply runs_bind; [apply threads_runs; [done|cbn; lia|done]|].
  intros g l' sh5 Hs5 [-> Hg].
  eapply runs_bind; [apply set_nice_runs; [done|cbn; lia|done]|]. intros _ l' sh6 Hs6 ->.
  eapply rcu_unlock_runs; [done..|]. intros sh7 Hs7. apply (count_runs _ _ _ true); [done|by left].
Qed.

Lemma axd_pin_kswapd_runs i l sh m :
  steady i l sh → h_rcu l = 0%nat →
  runs i l sh (axd_pin_kswapd_steps m) (λ r l' _, l' = l ∧ errno r).
Proof.
  destruct l as [rcu refs allocs]. cbn [h_rcu]. intros Hs ->.
  destruct m as [m|]; [|apply runs_done; [done|by right]]. unfold axd_pin_kswapd_steps.
  case_match; [apply runs_done; [done|by right]|].
  apply rcu_lock_runs; [done|]. intros sh2 Hs2. cbn [set_h_rcu h_rcu h_refs h_allocs] in *.
  eapply (runs_bind _ _ _ _ _ (λ ps l' sh', l' = Holding 1 refs allocs ∧ ∀ x, x ∈ ps → is_live sh' x)).
  { apply runs_act; [done|]. intros sh' _ Hs'.
    eexists (for_each_process (sh_tasks sh')), sh', _. split_and!; [done|done|apply Hs'|].
    intros sh3 Hr3. split; [done|]. intros x Hx. eapply rely_live; [exact Hr3|left; cbn; lia|].
    eapply tb_procs; [apply Hs'|done]. }
  intros ps l' sh3 Hs3 [-> Hps].
  eapply runs_bind; [apply collect_runs_rg; [done|cbn; lia|done]|].
  intros ts l' sh6 Hs6 (ts' & -> & ->). cbn [app].
  eapply rcu_unlock_runs; [done..|]. intros sh7 Hs7.
  eapply (apply_mask_runs _ _ _ _ _ refs); [done|done|done|].
  intros n sh8 l' Hs8. apply count_runs; [done|]. case_match; (by left) || (by right).
Qed.

(** ** The handlers

    The buffer of a handler is its own, so what is known of it holds whatever
    the others do. *)

Lemma buf_store_any b k c r (s s' : dstate) :
  buf_store b k c s = Done (r, s) → buf_store b k c s' = Done (r, s').
Proof.
  unfold buf_store, mbind, km_bind, assertk, mret, km_ret. destruct (_ <? _)%nat; congruence.
Qed.

Lemma strim_at_any b off r (s s' : dstate) :
  strim_at b off s = Done (r, s) → strim_at b off s' = Done (r, s').
Proof.
  unfold strim_at, buf_str, buf_store, mbind, km_bind, deref, assertk, mret, km_ret.
  destruct (c_str _) as [t|]; [|done]. destruct (strim t) as [k n].
  destruct (_ <? _)%nat; congruence.
Qed.

Lemma copy_into_any b ubuf count r (s s' : dstate) :
  copy_into b ubuf count s = Done (r, s) → d_rcu s' = 0%nat →
  copy_into b ubuf count s' = Done (r, s').
Proof.
  unfold copy_into, may_sleep, buf_fill, mbind, km_bind, gets, assertk, mret, km_ret.
  intros E ->. revert E. destruct (d_rcu s =? 0)%nat; [|done].
  destruct (copy_from_user _ _); [|cbn; congruence]. destruct (_ <=? _)%nat; cbn; congruence.
Qed.

(** An action on the buffer, followed by the rest. *)
Lemma runs_buffer {A B} i l sh (m : KM dstate A) a (k : A → prog dstate B) P :
  steady i l sh → (∀ sh', m (view i sh' l) = Done (a, view i sh' l)) →
  (∀ sh', steady i l sh' → runs i l sh' (k a) P) →
  runs i l sh (act m ≫= k) P.
Proof. intros Hs Hm Hk. eapply runs_own; [done|done|by intros; apply Hm|done]. Qed.

(** Some state to evaluate them in. *)
Definition a_state : dstate := DState (World ∅ ∅ 0) ∅ 0 [] (AxdStats 0 0 0 0) 0 false.

(** The copy from the user, with its terminating NUL. *)
Lemma copy_runs {B} i l sh n ubuf count (k : buffer → prog dstate B) (fault : prog dstate B) P :
  steady i l sh → h_rcu l = 0%nat → (count < n)%nat →
  (∀ sh', steady i l sh' → runs i l sh' fault P) →
  (∀ b s sh', holds b 0 s → steady i l sh' → runs i l sh' (k b) P) →
  runs i l sh
    (copied ← act (copy_into (buf_new n) ubuf count);
     match copied with
     | None => fault
     | Some b => b ← act (buf_store b count NUL); k b
     end) P.
Proof.
  intros Hs Hr Hn Hf Hk. destruct (copy_from_user ubuf count) as [bytes|] eqn:E.
  - destruct (copy_run n ubuf count bytes a_state eq_refl E Hn) as (b0 & b & E1 & E2 & Hb).
    eapply runs_buffer; [done|intros sh'; by eapply copy_into_any|]. intros sh1 Hs1. cbn beta iota.
    eapply runs_buffer; [done|intros sh'; by eapply buf_store_any|]. eauto.
  - apply (runs_buffer _ _ _ _ None); [done| |exact Hf]. intros sh'. by apply copy_fault_run.
Qed.

Lemma strim_runs {B} i l sh b off s (k : buffer * nat → prog dstate B) P :
  steady i l sh → holds b off s →
  (∀ b' off' sh', holds b' off' (trimmed s) → (off ≤ off')%nat →
     (∀ o s', holds b o s' → (o + length s' < off)%nat → holds b' o s') →
     holds b' off (take (fst (strim s)) s ++ trimmed s) →
     steady i l sh' → runs i l sh' (k (b', off')) P) →
  runs i l sh (act (strim_at b off) ≫= k) P.
Proof.
  intros Hs Hb Hk. destruct (strim_at_run b off s a_state Hb)
    as (b' & off' & E & Hb' & _ & Hle & Hframe & Hlead).
  eapply runs_buffer; [done|intros sh'; by eapply strim_at_any|]. eauto.
Qed.

Lemma buf_str_runs {B} i l sh b off s (k : text → prog dstate B) P :
  steady i l sh → holds b off s → (∀ sh', steady i l sh' → runs i l sh' (k s) P) →
  runs i l sh (act (buf_str b off) ≫= k) P.
Proof. intros Hs Hb Hk. eapply runs_buffer; [done|intros sh'; by apply buf_str_run|done]. Qed.

(** Reading the target pid under the mutex. *)
Lemma target_runs {B} i l sh (k : Z → prog dstate B) P :
  steady i l sh → h_rcu l = 0%nat →
  (∀ pid sh', steady i l sh' → runs i l sh' (k pid) P) →
  runs i l sh (_ ← act_wait mutex_lock; pid ← act (gets g_current_target_pid);
               _ ← act mutex_unlock; k pid) P.
Proof.
  intros Hs Hr Hk. apply runs_locked; [done|done| |done].
  intros sh' _. by exists (sh_target sh'), sh'.
Qed.

(** The count or an error. *)
Definition count_or_errno (count : nat) (ret : Z) : Prop := ret = Z.of_nat count ∨ ret < 0.

Lemma nta_pid_write_runs i l sh ubuf count :
  steady i l sh → h_rcu l = 0%nat →
  runs i l sh (nta_pid_write_steps ubuf count) (λ r l' _, l' = l ∧ count_or_errno count r).
Proof.
  intros Hs Hr. unfold nta_pid_write_steps.
  destruct (Nat.leb_spec AXD_MAX_KBUF_PID count) as [|Hn]; [by apply runs_done; [|right]|].
  apply copy_runs; [done|done|done|intros; by apply runs_done; [|right]|].
  intros b s sh1 Hb Hs1. eapply strim_runs; [done|done|]. intros b' off sh2 Hb' _ _ _ Hs2.
  eapply buf_str_runs; [done|done|]. intros sh3 Hs3.
  destruct (kstrtoint _ _) as [e|pid] eqn:E.
  - apply runs_done; [done|]. right. by eapply kstrtoint_error.
  - apply runs_locked; [done|done| |].
    + intros sh' Hl. by exists tt, (KernelState (sh_tasks sh') (sh_groups sh') (sh_log sh')
        (sh_stats sh') pid (sh_lock sh')).
    + intros _ sh' Hs'. apply runs_done; [done|by left].
Qed.

Lemma nta_pid_show_runs i l sh :
  steady i l sh → h_rcu l = 0%nat → runs i l sh nta_pid_show_steps (λ _ l' _, l' = l).
Proof.
  intros Hs Hr. unfold nta_pid_show_steps. apply target_runs; [done|done|].
  intros pid sh' Hs'. by apply runs_ret.
Qed.

Lemma stats_show_runs i l sh :
  steady i l sh → runs i l sh dragonite_stats_show_steps (λ _ l' _, l' = l).
Proof.
  intros Hs. unfold dragonite_stats_show_steps.
  do 5 (apply runs_note; [done|intros sh' _; by eexists _, sh'|clear sh Hs; intros ? sh Hs]).
  by apply runs_ret.
Qed.

Lemma nta_reset_write_runs i l sh ubuf count :
  steady i l sh → h_rcu l = 0%nat →
  runs i l sh (nta_reset_write_steps ubuf count) (λ r l' _, l' = l ∧ count_or_errno count r).
Proof.
  intros Hs Hr. unfold nta_reset_write_steps.
  destruct (Nat.leb_spec AXD_MAX_KBUF_PID count) as [|Hn]; [by apply runs_done; [|right]|].
  apply (runs_bind _ _ _ _ _ (λ _ l' _, l' = l)).
  { case_match; [|by apply runs_ret].
    apply (copy_runs i l sh AXD_MAX_KBUF_PID ubuf count (λ kbuf, '(kbuf, p) ← act (strim_at kbuf 0);
      str ← act (buf_str kbuf p);
      mret match kstrtoint str AXD_RADIX_DEC with inl _ => 0 | inr pid => pid end) (mret 0));
      [done|done|done|intros; by apply runs_ret|].
    intros b s sh1 Hb Hs1. eapply strim_runs; [done|done|]. intros b' off sh2 Hb' _ _ _ Hs2.
    eapply buf_str_runs; [done|done|]. intros sh3 Hs3. by apply runs_ret. }
  intros pid l' sh1 Hs1 ->. apply (runs_bind _ _ _ _ _ (λ _ l' _, l' = l)).
  { case_match; [|by apply runs_ret]. apply target_runs; [done|done|].
    intros pid' sh' Hs'. by apply runs_ret. }
  intros pid' l' sh2 Hs2 ->. eapply runs_bind; [by apply axd_reset_affinity_runs|].
  intros r l' sh3 Hs3 [-> He]. apply runs_done; [done|].
  destruct (Z.eqb_spec r 0); [by left|]. destruct He; [done|by right].
Qed.

Lemma boost_write_runs i l sh ubuf count :
  steady i l sh → h_rcu l = 0%nat →
  runs i l sh (dragonite_boost_write_steps ubuf count) (λ r l' _, l' = l ∧ count_or_errno count r).
Proof.
  intros Hs Hr. unfold dragonite_boost_write_steps.
  destruct (Nat.leb_spec AXD_MAX_KBUF_BOOST count) as [|Hn]; [by apply runs_done; [|right]|].
  apply copy_runs; [done|done|done|intros; by apply runs_done; [|right]|].
  intros b s sh1 Hb Hs1. eapply strim_runs; [done|done|]. intros b' off sh2 Hb' _ _ _ Hs2.
  eapply buf_str_runs; [done|done|]. intros sh3 Hs3.
  destruct (sscanf_dd _) as [[pid level]|]; [|by apply runs_done; [|right]].
  eapply runs_bind; [by apply axd_set_boost_runs|].
  intros r l' sh4 Hs4 [-> He]. apply runs_done; [done|].
  destruct (Z.eqb_spec r 0); [by left|]. destruct He; [done|by right].
Qed.

Lemma kswapd_write_runs i l sh ubuf count :
  steady i l sh → h_rcu l = 0%nat →
  runs i l sh (dragonite_kswapd_write_steps ubuf count) (λ r l' _, l' = l ∧ count_or_errno count r).
Proof.
  intros Hs Hr. unfold dragonite_kswapd_write_steps.
  destruct (Nat.leb_spec AXD_MAX_KBUF_KSWAPD count) as [|Hn]; [by apply runs_done; [|right]|].
  apply copy_runs; [done|done|done|intros; by apply runs_done; [|right]|].
  intros b s sh1 Hb Hs1. eapply strim_runs; [done|done|]. intros b' off sh2 Hb' _ _ Hlead Hs2.
  eapply buf_str_runs; [done|done|]. intros sh3 Hs3.
  eapply (runs_bind _ _ _ _ _ (λ v l' _, l' = l ∧ ∀ e, v = inl e → e < 0)).
  { destruct (kstrtoul _ 0); [|by apply runs_ret].
    eapply strim_runs; [done|done|]. intros b2 off2 sh4 Hb2 _ _ _ Hs4.
    eapply buf_str_runs; [done|done|]. intros sh5 Hs5. apply runs_ret; [done|].
    intros _ _. split; [done|]. intros e He. by eapply kstrtoul_error. }
  intros [e|v] l' sh4 Hs4 [-> He]; [by apply runs_done; [|right; apply He]|].
  case_match; [by apply runs_done; [|right]|].
  eapply runs_bind; [by apply axd_pin_kswapd_runs|].
  intros r l' sh5 Hs5 [-> Hret]. apply runs_done; [done|].
  destruct (Z.eqb_spec r 0); [by left|]. destruct Hret; [done|].
  case_match; [by right|by left].
Qed.

(** The part of the affinity handler behind the tokens. *)
Lemma affinity_tail_runs i l n sh b comm_str mask_str comm mask pid count :
  steady i l sh → h_rcu l = 0%nat → h_allocs l = S n →
  holds b comm_str comm → holds b mask_str mask →
  runs i l sh
    (mask ← act (buf_str b mask_str);
     let parsed_mask :=
       match kstrtoul mask 0 with
       | inr mask_val => inr mask_val
       | inl _ => kstrtoul mask AXD_RADIX_HEX
       end in
     match parsed_mask with
     | inl ret => _ ← act kfree; mret ret
     | inr mask_val =>
         if mask_val =? 0 then _ ← act kfree; mret (- EINVAL)
         else
           comm ← act (buf_str b comm_str);
           ret ← axd_set_affinity_steps pid
                   (Some (String.string_of_list_ascii comm)) (Some mask_val);
           _ ← act kfree;
           mret (if (ret <? 0) && negb (ret =? - ENOENT) then ret else Z.of_nat count)
     end)
    (λ r l' _, l' = set_h_allocs n l ∧ count_or_errno count r).
Proof.
  intros Hs Hr Ha Hc Hm. eapply buf_str_runs; [done|done|]. intros sh1 Hs1. cbn zeta.
  destruct (match kstrtoul mask 0 with inl _ => _ | inr _ => _ end) as [e|v] eqn:E.
  { eapply kfree_runs; [done|done|]. intros sh2 Hs2. apply runs_done; [done|]. right.
    destruct (kstrtoul mask 0); [|done]. by eapply kstrtoul_error. }
  destruct (v =? 0).
  { eapply kfree_runs; [done|done|]. intros sh2 Hs2. apply runs_done; [done|by right]. }
  eapply buf_str_runs; [done|done|]. intros sh2 Hs2.
  eapply runs_bind; [by apply axd_set_affinity_runs|]. intros r l' sh3 Hs3 [-> He].
  eapply kfree_runs; [done|done|]. intros sh4 Hs4. apply runs_done; [done|].
  destruct (Z.ltb_spec r 0), (r =? - ENOENT); cbn; (by right) || (by left).
Qed.

Lemma strchr_runs {B} i l sh b off s c (k : option nat → prog dstate B) P :
  steady i l sh → holds b off s →
  (∀ sh', steady i l sh' → runs i l sh' (k (Nat.add off <$> find_char c s)) P) →
  runs i l sh (act (strchr_at b off c) ≫= k) P.
Proof. intros Hs Hb Hk. eapply runs_buffer; [done|intros sh'; by apply strchr_at_run|done]. Qed.

(** A NUL stored at a character of a string cuts it in two. *)
Lemma cut_runs {B} i l sh b off s c j (k : buffer → prog dstate B) P :
  steady i l sh → holds b off s → find_char c s = Some j →
  (∀ b' sh', b' = <[(off + j)%nat := Some NUL]> b → holds b' off (take j s) →
     holds b' (off + j + 1) (drop (S j) s) → steady i l sh' → runs i l sh' (k b') P) →
  runs i l sh (act (buf_store b (off + j) NUL) ≫= k) P.
Proof.
  intros Hs Hb Hj Hk. destruct (holds_split b off s c j Hb Hj) as (Hlt & H1' & H2').
  eapply runs_buffer; [done|intros sh'; by apply buf_store_run|]. eauto.
Qed.

Lemma affinity_write_runs i l sh ubuf count :
  steady i l sh → h_rcu l = 0%nat →
  runs i l sh (nta_affinity_write_steps ubuf count) (λ r l' _, l' = l ∧ count_or_errno count r).
Proof.
  intros Hs Hr. unfold nta_affinity_write_steps.
  case_match; [by apply runs_done; [|right]|].
  apply kmalloc_runs; [done|done|intros; by apply runs_done; [|right]|].
  intros sh1 Hs1. cbn [negb].
  set (l1 := set_h_allocs (S (h_allocs l)) l) in *.
  assert (h_rcu l1 = 0%nat ∧ h_allocs l1 = S (h_allocs l) ∧ set_h_allocs (h_allocs l) l1 = l)
    as (Hr1 & Ha1 & Hl1) by (by destruct l).
  clearbody l1. rewrite <- Hl1. generalize dependent (h_allocs l). intros n Ha1 <-. clear Hs Hr.
  assert (∀ sh e, steady i l1 sh → e < 0 →
    runs i l1 sh (_ ← act kfree; mret e) (λ r l' _, l' = set_h_allocs n l1 ∧ count_or_errno count r))
    as Hfail.
  { intros sh' e Hs' He. eapply kfree_runs; [done|done|]. intros sh2 Hs2. by apply runs_done; [|right]. }
  apply copy_runs; [done|done|lia|intros; by apply Hfail|]. clear dependent sh1.
  intros b t sh1 Hb Hs1. eapply strim_runs; [done|done|]. intros b1 p1 sh2 Hb1 _ _ _ Hs2.
  eapply strchr_runs; [done|done|]. intros sh3 Hs3.
  destruct (find_char SPACE (trimmed t)) as [j|] eqn:Hj; cbn [fmap option_fmap option_map]; [|by apply Hfail].
  eapply cut_runs; [done..|]. intros b2 sh4 _ Hb2 Hb2' Hs4.
  eapply strim_runs; [done|done|]. intros b3 p2 sh5 Hb3 _ Hframe _ Hs5.
  assert (holds b3 p1 (take j (trimmed t))) as Hb3'
    by (apply Hframe; [done|rewrite length_take; lia]).
  eapply strchr_runs; [done|done|]. intros sh6 Hs6. set (rest := trimmed (drop _ _)) in *.
  (* what is known of the tokens *)
  eapply (runs_bind _ _ _ _ _ (λ r l' _, l' = l1 ∧ match r with
    | Some (token3, _) => ∃ k, find_char SPACE rest = Some k ∧ token3 = (p2 + k)%nat
    | None => True end)).
  { destruct (find_char SPACE rest) as [k|]; cbn [fmap option_fmap option_map]; [|by apply runs_ret].
    eapply buf_str_runs; [done|done|]. intros sh7 Hs7. apply runs_ret; [done|]. intros _ _.
    split; [done|]. repeat case_match; try done. simplify_eq. by exists k. }
  intros parsed l' sh7 Hs7 [-> Hparsed].
  eapply (runs_bind _ _ _ _ _ (λ '(b', _, comm_str, mask_str) l' _, l' = l1 ∧
    ∃ comm mask, holds b' comm_str comm ∧ holds b' mask_str mask)).
  { destruct parsed as [[token3 pid]|].
    - destruct Hparsed as (k & Hk & ->). eapply cut_runs; [done..|]. intros b4 sh8 _ Hb4 Hb4' Hs8.
      eapply strim_runs; [done|done|]. intros b5 p3 sh9 Hb5 _ Hframe' _ Hs9.
      apply runs_ret; [done|]. intros _ _. split; [done|]. eexists _, _.
      split; [apply Hframe'; [exact Hb4|rewrite length_take; lia]|exact Hb5].
    - apply target_runs; [done|done|]. intros pid sh8 Hs8. apply runs_ret; [done|]. intros _ _. eauto. }
  intros [[[b4 pid] comm_str] mask_str] l' sh8 Hs8 [-> (comm & mask & Hc & Hm)].
  by eapply affinity_tail_runs.
Qed.

Lemma proc_write_runs f i l sh ubuf count :
  steady i l sh → h_rcu l = 0%nat →
  runs i l sh (proc_write_steps f ubuf count) (λ r l' _, l' = l ∧ count_or_errno count r).
Proof.
  destruct f; [apply nta_pid_write_runs|apply affinity_write_runs|apply nta_reset_write_runs|
    apply boost_write_runs|apply kswapd_write_runs].
Qed.
End concurrent.

(** ** Any number of callers *)

(** A thread that writes or reads one of the proc files. *)
Inductive proc_call :=
  | CallWrite (f : proc_file) (ubuf : Z) (count : nat)
  | CallShowPid
  | CallShowStats.

Definition idle_holding : holding := Holding 0 ∅ 0.

Section pool.
Context `{KernelHeaders} `{DragoniteEnv} `{KStringLaws}.

Definition call_steps (c : proc_call) : prog dstate (Z + string) :=
  match c with
  | CallWrite f ubuf count => ret ← proc_write_steps f ubuf count; mret (inl ret)
  | CallShowPid => text ← nta_pid_show_steps; mret (inr text)
  | CallShowStats => text ← dragonite_stats_show_steps; mret (inr text)
  end.

(** A write ends with its count or an error, a read with a text. *)
Definition call_result (c : proc_call) (a : Z + string) : Prop :=
  match c, a with
  | CallWrite _ _ count, inl ret => count_or_errno count ret
  | CallShowPid, inr _ | CallShowStats, inr _ => True
  | _, _ => False
  end.

Definition call_pool (sh : kernel_state) (calls : list proc_call) :
    kernel_state * list (holding * prog dstate (Z + string)) :=
  (sh, (λ c, (idle_holding, call_steps c)) <$> calls).

Lemma call_runs i sh c :
  steady i idle_holding sh →
  runs i idle_holding sh (call_steps c) (λ a l _, l = idle_holding ∧ call_result c a).
Proof.
  intros Hs. destruct c as [f ubuf count| |]; cbn [call_steps].
  - eapply runs_bind; [by apply proc_write_runs|]. intros r l sh' Hs' [-> Hr]. by apply runs_ret.
  - eapply runs_bind; [by apply nta_pid_show_runs|]. intros r l sh' Hs' ->. by apply runs_ret.
  - eapply runs_bind; [by apply stats_show_runs|]. intros r l sh' Hs' ->. by apply runs_ret.
Qed.

(** What is left when a call has ended. *)
Definition call_done (calls : list proc_call) (i : nat) (a : Z + string) (l : holding)
    (sh : kernel_state) : Prop :=
  l = idle_holding ∧ sh_lock sh ≠ Some i ∧ ∃ c, calls !! i = Some c ∧ call_result c a.

Lemma call_pool_ok sh calls :
  tables_ok sh → sh_lock sh = None →
  pool_ok axd_rely tables_ok (call_done calls) (call_pool sh calls).
Proof.
  intros Hok Hl. split_and!; [done| |cbn; congruence]. intros i l p Hi. cbn in Hi.
  rewrite list_lookup_fmap in Hi. destruct (calls !! i) as [c|] eqn:Ec; [|done].
  cbn in Hi. simplify_eq. eapply safe_mono.
  - apply call_runs. split_and!; [done|cbn; congruence|]. intros t Ht. cbn in Ht. multiset_solver.
  - intros a l sh' [(_ & Hn & _) [-> Hr]]. split_and!; eauto.
Qed.

Lemma axd_guarantee_tables i sh sh' : guarantee axd_rely i sh sh' → tables_ok sh → tables_ok sh'.
Proof. intros [Hg _]. by destruct (Hg (S i) idle_holding ltac:(lia)) as (Hok & _). Qed.

Lemma call_pool_correct sh calls c' :
  tables_ok sh → sh_lock sh = None → rtc (pool_step axd_env) (call_pool sh calls) c' →
  tables_ok (fst c') ∧ no_fault c' ∧
  (∀ i l a, snd c' !! i = Some (l, PRet a) → call_done calls i a l (fst c')) ∧
  (∀ i, owner (fst c') = Some i → (i < length (snd c'))%nat) ∧
  ends c' ∧ ∃ c'', rtc thread_step c' c'' ∧ finished c''.
Proof.
  intros Hok Hl. apply (pool_correct axd_rely axd_rely_refl axd_rely_trans axd_env).
  - apply axd_env_rely.
  - intros ls sh1 sh2 He. apply He.
  - intros ls sh1 sh2 He. apply He.
  - apply axd_guarantee_tables.
  - intros i a l sh1 (_ & Hn & _). done.
  - by apply call_pool_ok.
Qed.

(** C2: Any number of threads may use the proc files at once.  In whatever order
    their actions are interleaved, and whatever tasks exit or are freed in
    between, as long as the kernel keeps those that are under RCU or referenced:
    no freed task is touched, no buffer is overrun, nothing sleeps in an RCU
    section; and a call that has ended returned its count or an error and holds
    no reference, no memory, no RCU section and not the mutex. *)
Theorem concurrent_calls_safe sh calls c' :
  tables_ok sh → sh_lock sh = None → rtc (pool_step axd_env) (call_pool sh calls) c' →
  tables_ok (fst c') ∧ no_fault c' ∧
  ∀ i l a, snd c' !! i = Some (l, PRet a) →
    l = idle_holding ∧ sh_lock (fst c') ≠ Some i ∧
    ∃ c, calls !! i = Some c ∧ call_result c a.
Proof.
  intros Hok Hl Hr.
  destruct (call_pool_correct sh calls c' Hok Hl Hr) as (? & ? & Hdone & _).
  split_and!; [done|done|exact Hdone].
Qed.

(** C6: The callers never deadlock and all end: from every state they reach
    together, each makes finitely many more actions, whatever the kernel does in
    between; as long as one of them has not ended, some caller can act; and
    when all have ended the mutex is free. *)
Theorem concurrent_calls_end sh calls c' :
  tables_ok sh → sh_lock sh = None → rtc (pool_step axd_env) (call_pool sh calls) c' →
  Acc acts_later c' ∧ (finished c' ∨ ∃ c'', thread_step c' c'') ∧
  (finished c' → sh_lock (fst c') = None).
Proof.
  intros Hok Hl Hr.
  destruct (call_pool_correct sh calls c' Hok Hl Hr) as (_ & _ & Hdone & Hown & [Hacc Hend] & _).
  split_and!; [done|done|]. intros Hfin. destruct (sh_lock (fst c')) as [i|] eqn:E; [|done].
  destruct (lookup_lt_is_Some_2 (snd c') i (Hown i E)) as [[l p] Hi].
  destruct (proj1 (Forall_lookup _ _) Hfin i _ Hi) as [a Ha]. cbn in Ha. subst p.
  destruct (Hdone i l a Hi) as (_ & Hn & _). done.
Qed.
End pool.

(** ** Instances *)

#[local] Existing Instance linux_headers.
#[local] Existing Instance sample_dragonite_env.
#[local] Existing Instance sample_kstring.

Definition sample_kernel : kernel_state :=
  KernelState (w_tasks (sample_world 0)) (w_groups (sample_world 0)) [] (AxdStats 0 0 0 0) 0 None.

Lemma sample_tables_ok : tables_ok sample_kernel.
Proof.
  destruct (sample_dragonite_ok 0) as [Hf Ht Hp _].
  split; [exact Hf|exact Ht|exact Hp].
Qed.

(** The target is set and read while two threads set affinities, one of them
    for the target. *)
Definition sample_calls : list proc_call :=
  [CallWrite FilePid 2 2; CallWrite FileAffinity 3 6; CallWrite FileAffinity 1 12; CallShowPid].

Definition sample_call_pool := call_pool sample_kernel sample_calls.

(** The first holds the mutex while the others parse. *)
Definition sample_call_schedule : list nat :=
  [0; 0; 0; 0; 0; 1; 2; 1; 2; 1; 2; 1; 2; 0; 0; 3; 3; 3; 1; 2; 1; 2; 1; 1; 1; 1; 2; 2; 2]%nat.

Lemma concurrent_calls_safe_witness :
  ∃ c', exec sample_call_schedule sample_call_pool = Some c' ∧ no_fault c' ∧
    ∃ l a, snd c' !! 3%nat = Some (l, PRet a) ∧ l = idle_holding.
Proof.
  assert (is_someb (exec sample_call_schedule sample_call_pool) = true) as Hrun
    by (vm_compute; reflexivity).
  assert (match exec sample_call_schedule sample_call_pool with
          | Some c => match snd c !! 3%nat with Some (_, PRet _) => true | _ => false end
          | None => false end = true) as Hthree by (vm_compute; reflexivity).
  destruct (exec sample_call_schedule sample_call_pool) as [c'|] eqn:E; [|discriminate Hrun].
  destruct (concurrent_calls_safe sample_kernel sample_calls c' sample_tables_ok eq_refl
              (exec_pool_sound axd_env sample_call_schedule _ _ E)) as (_ & Hn & Hdone).
  exists c'. split; [reflexivity|]. split; [exact Hn|].
  destruct (snd c' !! 3%nat) as [[l [a|]]|] eqn:E3; [|discriminate Hthree..].
  exists l, a. split; [reflexivity|]. exact (proj1 (Hdone 3%nat l a E3)).
Defined.

Lemma concurrent_calls_end_witness :
  ∃ c', exec sample_call_schedule sample_call_pool = Some c' ∧ Acc acts_later c' ∧
    (finished c' ∨ ∃ c'', thread_step c' c'').
Proof.
  assert (is_someb (exec sample_call_schedule sample_call_pool) = true) as Hrun
    by (vm_compute; reflexivity).
  destruct (exec sample_call_schedule sample_call_pool) as [c'|] eqn:E; [|discriminate Hrun].
  destruct (concurrent_calls_end sample_kernel sample_calls c' sample_tables_ok eq_refl
              (exec_pool_sound axd_env sample_call_schedule _ _ E)) as (Ha & Hp & _).
  exists c'. split; [reflexivity|]. split; [exact Ha|exact Hp].
Defined.
