(* ===== verification/DragoniteCounters.v ===== *)
(** * The statistics of AxDragonite count exactly

    Any number of driver operations run at once.  Each counts itself at most
    once, in the counter of its kind and only when it succeeds, so that no
    update is lost: a counter shows how many operations of its kind returned
    0, modulo the width of an [atomic64_t]. *)

From S2P Require Import Prelude KMonad Kernel SampleWorld Dragonite Interleave DragoniteSteps DragoniteConcurrent.

#[local] Open Scope Z_scope.

(** ** Operations and counters *)

Inductive counter := CountAffinity | CountReset | CountBoost | CountKswapd.

#[export] Instance counter_eq_dec : EqDecision counter.
Proof. solve_decision. Defined.

Definition counted (k : counter) (st : axd_stats) : Z :=
  match k with
  | CountAffinity => affinity_set_count st
  | CountReset => reset_count st
  | CountBoost => boost_set_count st
  | CountKswapd => kswapd_pin_count st
  end.

Definition count_one (k : counter) : axd_stats → axd_stats :=
  match k with
  | CountAffinity => inc_affinity
  | CountReset => inc_reset
  | CountBoost => inc_boost
  | CountKswapd => inc_kswapd
  end.

(** An operation of the driver with its arguments. *)
Inductive axd_op :=
  | OpAffinity (pid : Z) (comm : option string) (mask : option cpumask)
  | OpReset (pid : Z)
  | OpBoost (pid level : Z)
  | OpKswapd (mask : option cpumask).

Definition op_counter (o : axd_op) : counter :=
  match o with
  | OpAffinity _ _ _ => CountAffinity
  | OpReset _ => CountReset
  | OpBoost _ _ => CountBoost
  | OpKswapd _ => CountKswapd
  end.

Lemma count_one_counted k k' st :
  counted k (count_one k' st) = if decide (k = k') then inc64 (counted k st) else counted k st.
Proof. by destruct k, k'. Qed.

(** ** Programs that count themselves *)

(** The program leaves the counters alone. *)
Fixpoint quiet {A} (p : prog dstate A) : Prop :=
  match p with
  | PRet _ => True
  | PAct _ m k => ∀ s b s', m s = Done (b, s') → g_axd_stats s' = g_axd_stats s ∧ quiet (k b)
  end.

(** The program counts one in [k] if it returns 0 and nothing if not; [b] says
    that it has done so already. *)
Fixpoint books (k : counter) (b : bool) (p : prog dstate Z) : Prop :=
  match p with
  | PRet ret => b = bool_decide (ret = 0)
  | PAct _ m f => ∀ s a s', m s = Done (a, s') →
      (g_axd_stats s' = g_axd_stats s ∧ books k b (f a)) ∨
      (b = false ∧ g_axd_stats s' = count_one k (g_axd_stats s) ∧ books k true (f a))
  end.

Lemma books_quiet {A} k b (p : prog dstate A) (f : A → prog dstate Z) :
  quiet p → (∀ a, books k b (f a)) → books k b (p ≫= f).
Proof.
  intros Hp Hf. induction p as [a|B waits m g IH]; cbn in *; [apply Hf|].
  intros s a s' Hm. destruct (Hp s a s' Hm) as [Hst Hq]. left. split; [done|by apply IH].
Qed.

Lemma no_count_bind {A B} (p : prog dstate A) (f : A → prog dstate B) :
  quiet p → (∀ a, quiet (f a)) → quiet (p ≫= f).
Proof.
  intros Hp Hf. induction p as [a|C waits m g IH]; cbn in *; [apply Hf|].
  intros s b s' Hm. destruct (Hp s b s' Hm) as [Hst Hq]. split; [done|by apply IH].
Qed.

(** Actions of the kernel that leave the counters alone. *)
Definition keeps_stats {A} (m : KM dstate A) : Prop :=
  ∀ s b s', m s = Done (b, s') → g_axd_stats s' = g_axd_stats s.

Lemma keeps_bind {A B} (m : KM dstate A) (f : A → KM dstate B) :
  keeps_stats m → (∀ a, keeps_stats (f a)) → keeps_stats (m ≫= f).
Proof.
  intros Hm Hf s b s'. unfold mbind, km_bind. destruct (m s) as [[a s1]| |] eqn:E; [|done..].
  intros E'. by rewrite (Hf a s1 b s' E'), (Hm s a s1 E).
Qed.

Lemma keeps_ret {A} (a : A) : keeps_stats (mret a).
Proof. by intros s b s' [= _ <-]. Qed.

Lemma keeps_gets {A} (f : dstate → A) : keeps_stats (gets f).
Proof. by intros s b s' [= _ <-]. Qed.

Lemma keeps_deref {A} (o : option A) : keeps_stats (deref o).
Proof. intros s b s'. destruct o; [by intros [= _ <-]|done]. Qed.

Lemma keeps_assertk b : keeps_stats (assertk b).
Proof. intros s u s'. destruct b; [by intros [= _ <-]|done]. Qed.

Lemma keeps_oops {A} : keeps_stats (oops : KM dstate A).
Proof. done. Qed.

Lemma keeps_modify f : (∀ s, g_axd_stats (f s) = g_axd_stats s) → keeps_stats (modify f).
Proof. by intros Hf s b s' [= _ <-]. Qed.

Create HintDb stats_db.
#[export] Hint Resolve keeps_ret keeps_gets keeps_deref keeps_assertk keeps_oops : stats_db.

Ltac keeps_step :=
  first [ solve [eauto with stats_db]
        | apply keeps_modify; done
        | apply keeps_bind; [|intros ?]
        | case_match ].

Lemma quiet_act {A} (m : KM dstate A) : keeps_stats m → quiet (act m).
Proof. intros Hm s b s' E. split; [by eapply Hm|done]. Qed.

Lemma no_count_ret {A} (a : A) : quiet (mret a).
Proof. done. Qed.

Section driver.
Context `{KernelHeaders} `{DragoniteEnv}.

Lemma read_keeps t : keeps_stats (k_read_task t).
Proof. unfold k_read_task. repeat keeps_step. Qed.
#[local] Hint Resolve read_keeps : stats_db.

Lemma field_keeps {A} (f : task → A) t : keeps_stats (d_field f t).
Proof. unfold d_field. repeat keeps_step. Qed.

Lemma threads_keeps t : keeps_stats (threads_of t).
Proof. unfold threads_of. repeat keeps_step. Qed.

Lemma get_keeps t : keeps_stats (get_task_struct t).
Proof. unfold get_task_struct. repeat keeps_step. Qed.

Lemma put_keeps t : keeps_stats (put_task_struct t).
Proof. unfold put_task_struct. repeat keeps_step. Qed.

Lemma may_sleep_keeps : keeps_stats may_sleep.
Proof. unfold may_sleep. repeat keeps_step. Qed.
#[local] Hint Resolve may_sleep_keeps : stats_db.

Lemma set_cpus_keeps t m : keeps_stats (set_cpus_k t m).
Proof. unfold set_cpus_k. repeat keeps_step. Qed.

Lemma set_nice_keeps t n : keeps_stats (set_user_nice_k t n).
Proof. unfold set_user_nice_k. repeat keeps_step. Qed.

Lemma kmalloc_keeps n : keeps_stats (kmalloc_k n).
Proof. unfold kmalloc_k. repeat keeps_step. Qed.

Lemma kfree_keeps : keeps_stats kfree.
Proof. unfold kfree. repeat keeps_step. Qed.

Lemma rcu_lock_keeps : keeps_stats k_rcu_lock.
Proof. unfold k_rcu_lock. repeat keeps_step. Qed.

Lemma rcu_unlock_keeps : keeps_stats k_rcu_unlock.
Proof. unfold k_rcu_unlock. repeat keeps_step. Qed.

Lemma find_keeps pid : keeps_stats (find_task_step pid).
Proof. unfold find_task_step. repeat keeps_step. Qed.

Lemma processes_keeps : keeps_stats processes_step.
Proof. unfold processes_step. repeat keeps_step. Qed.

#[local] Hint Resolve quiet_act no_count_ret field_keeps threads_keeps get_keeps put_keeps
  set_cpus_keeps set_nice_keeps kmalloc_keeps kfree_keeps rcu_lock_keeps rcu_unlock_keeps
  find_keeps processes_keeps : stats_db.

Ltac quiet_step :=
  first [ solve [eauto with stats_db] | apply no_count_bind; [|intros ?] | case_match ].

Lemma find_live_task_quiet pid : quiet (find_live_task_steps pid).
Proof. unfold find_live_task_steps. repeat quiet_step. Qed.

Lemma collect_quiet p limit size l : ∀ acc, quiet (collect_tasks_steps p limit size l acc).
Proof. induction l as [|t l IH]; intros acc; cbn [collect_tasks_steps]; repeat quiet_step. Qed.

Lemma apply_mask_quiet m l : ∀ n, quiet (apply_mask_steps m l n).
Proof. induction l as [|t l IH]; intros n; cbn [apply_mask_steps]; repeat quiet_step. Qed.

Lemma set_nice_quiet n l : quiet (set_nice_all_steps n l).
Proof. induction l as [|t l IH]; cbn [set_nice_all_steps]; repeat quiet_step. Qed.

#[local] Hint Resolve find_live_task_quiet collect_quiet apply_mask_quiet set_nice_quiet : stats_db.

(** The count itself. *)
Lemma books_count k (c : bool) (ret : Z) :
  bool_decide (ret = 0) = c →
  books k false (_ ← (if c then act (modify (on_stats (count_one k))) else mret tt); mret ret).
Proof. intros <-. case_bool_decide as E; cbn; [|by rewrite bool_decide_false].
  intros s a s' [= _ <-]. right. by rewrite bool_decide_true. Qed.

Ltac books_step :=
  first [ exact eq_refl | apply books_quiet; [solve [eauto with stats_db]|intros ?] ].

Definition op_steps (o : axd_op) : prog dstate Z :=
  match o with
  | OpAffinity pid comm mask => axd_set_affinity_steps pid comm mask
  | OpReset pid => axd_reset_affinity_steps pid
  | OpBoost pid level => axd_set_boost_steps pid level
  | OpKswapd mask => axd_pin_kswapd_steps mask
  end.

Ltac books_split :=
  match goal with |- books _ _ (match ?x with _ => _ end) => destruct x end.

Lemma op_books o : books (op_counter o) false (op_steps o).
Proof.
  destruct o as [pid comm mask|pid|pid level|mask]; cbn [op_steps op_counter];
    unfold axd_set_affinity_steps, axd_reset_affinity_steps, axd_set_boost_steps,
      axd_pin_kswapd_steps; cbn zeta; repeat first [books_split | books_step].
  - apply (books_count CountAffinity). by repeat case_match.
  - apply (books_count CountReset). by case_match.
  - by apply (books_count CountBoost true).
  - apply (books_count CountKswapd). by case_match.
Qed.
End driver.

(** ** Pools of operations *)

Section pool.
Context `{KernelHeaders} `{DragoniteEnv}.

Abbreviation op_thread := (holding * prog dstate Z)%type.

Definition op_pool (sh : kernel_state) (ops : list axd_op) : kernel_state * list op_thread :=
  (sh, (λ o, (idle_holding, op_steps o)) <$> ops).

(** How many operations of kind [k] are marked. *)
Definition marked (k : counter) (obs : list (axd_op * bool)) : Z :=
  Z.of_nat (length (filter (λ ob, op_counter (fst ob) = k ∧ snd ob = true) obs)).

Lemma marked_cons k o b obs :
  marked k ((o, b) :: obs) = (if decide (op_counter o = k ∧ b = true) then 1 else 0) + marked k obs.
Proof. unfold marked. rewrite filter_cons. cbn [fst snd]. case_decide; cbn [length]; lia. Qed.

Lemma marked_insert k o obs : ∀ i,
  obs !! i = Some (o, false) →
  marked k (<[i := (o, true)]> obs)
  = marked k obs + (if decide (k = op_counter o) then 1 else 0).
Proof.
  induction obs as [|[o' b] obs IH]; intros [|i] Hi; cbn in Hi; try done.
  - simplify_eq. cbn. rewrite !marked_cons.
    repeat case_decide; naive_solver lia.
  - cbn. rewrite !marked_cons, IH by done. lia.
Qed.

(** Each thread has counted itself or not, and the counters say so. *)
Definition counts_ok (st : axd_stats) (ops : list axd_op)
    (c : kernel_state * list op_thread) : Prop :=
  ∃ obs, fst <$> obs = ops ∧
    Forall2 (λ ob t, books (op_counter (fst ob)) (snd ob) (snd t)) obs (snd c) ∧
    ∀ k, counted k (sh_stats (fst c)) = s64 (counted k st + marked k obs).

Lemma counts_start sh ops :
  (∀ k, in_s 64 (counted k (sh_stats sh))) → counts_ok (sh_stats sh) ops (op_pool sh ops).
Proof.
  intros Hst. exists ((λ o, (o, false)) <$> ops). split_and!.
  - rewrite <- list_fmap_compose. apply list_fmap_id.
  - cbn. induction ops as [|o ops IH]; cbn; constructor; [apply op_books|done].
  - intros k. replace (marked k _) with 0.
    + rewrite Z.add_0_r, wraps_small; [done|lia|apply Hst].
    + induction ops as [|o ops IH]; [done|]. rewrite fmap_cons, marked_cons, <- IH.
      rewrite decide_False by naive_solver. done.
Qed.

Lemma counts_step st ops c c' : thread_step c c' → counts_ok st ops c → counts_ok st ops c'.
Proof.
  intros [i sh ts l B waits m k b s' Hi Hen Hm] (obs & Hops & Hbs & Hk). cbn [fst snd] in *.
  destruct (Forall2_lookup_r _ _ _ _ _ Hbs Hi) as ([o mark] & Hob & Hbook). cbn in Hbook.
  destruct (Hbook _ _ _ Hm) as [[Hst Hb]|(-> & Hst & Hb)].
  - exists obs. split_and!; [done| |].
    + rewrite <- (list_insert_id obs i (o, mark)) by done. by apply Forall2_insert.
    + intros q. cbn. rewrite Hst. apply Hk.
  - exists (<[i := (o, true)]> obs). split_and!.
    + rewrite list_fmap_insert, list_insert_id; [done|].
      by rewrite list_lookup_fmap, Hob.
    + by apply Forall2_insert.
    + intros q. cbn. rewrite Hst, count_one_counted. cbn. rewrite (Hk q).
      rewrite (marked_insert q o obs i Hob). case_decide.
      * unfold inc64. rewrite wraps_add_l. f_equal. lia.
      * by rewrite Z.add_0_r.
Qed.

Lemma counts_env st ops ls sh sh' ts :
  axd_env ls sh sh' → counts_ok st ops (sh, ts) → counts_ok st ops (sh', ts).
Proof.
  intros (_ & _ & _ & _ & Hst & _) (obs & ? & ? & Hk). exists obs.
  split_and!; [done|done|]. cbn. by rewrite Hst.
Qed.

Lemma counts_run st ops c c' :
  rtc (pool_step axd_env) c c' → counts_ok st ops c → counts_ok st ops c'.
Proof.
  induction 1 as [|c1 c2 c3 Hs _ IH]; [done|]. intros Hc. apply IH.
  destruct Hs; [by eapply counts_step|by eapply counts_env].
Qed.

(** The thread has ended with 0. *)
Definition succeeded (t : op_thread) : bool :=
  match snd t with PRet ret => bool_decide (ret = 0) | PAct _ _ _ => false end.

(** How many operations of kind [k] have ended with 0. *)
Definition successes_of (k : counter) (ops : list axd_op) (ts : list op_thread) : Z :=
  marked k (zip ops (succeeded <$> ts)).

Lemma finished_marks k obs (ts : list op_thread) :
  Forall2 (λ ob t, books (op_counter (fst ob)) (snd ob) (snd t)) obs ts →
  Forall (λ t, ∃ a, snd t = PRet a) ts →
  marked k obs = successes_of k (fst <$> obs) ts.
Proof.
  unfold successes_of. induction 1 as [|[o b] [l p] obs ts Hb Hbs IH]; [done|].
  intros Hf. inversion Hf as [|? ? [a Ha] Hf']; subst. cbn in Ha. subst p. cbn in Hb.
  cbn [fmap list_fmap fst zip_with]. rewrite !marked_cons, IH by done. cbn. by subst b.
Qed.

(** C9: However the operations of any number of callers are interleaved, no
    count is lost and none is made twice: when all have ended, each counter has
    grown by the number of operations of its kind that returned 0, modulo
    2^64. *)
Theorem counters_exact sh ops c' :
  (∀ k, in_s 64 (counted k (sh_stats sh))) →
  rtc (pool_step axd_env) (op_pool sh ops) c' → finished c' →
  ∀ k, counted k (sh_stats (fst c'))
       = s64 (counted k (sh_stats sh) + successes_of k ops (snd c')).
Proof.
  intros Hst Hr Hf k.
  destruct (counts_run _ _ _ _ Hr (counts_start sh ops Hst)) as (obs & <- & Hbs & Hk).
  rewrite (Hk k). by rewrite (finished_marks k obs (snd c')).
Qed.
End pool.

(** ** Instances *)

#[local] Existing Instance linux_headers.
#[local] Existing Instance sample_dragonite_env.

(** Two threads pin the threads of task 4, one of them boosts it as well, and a
    third asks for a process there is not. *)
Definition sample_ops : list axd_op :=
  [OpAffinity 4 (Some "*") (Some 15); OpAffinity 4 (Some "*") (Some 240); OpBoost 4 1;
   OpAffinity 99 (Some "*") (Some 1)].

Definition sample_op_end :=
  exec_able (concat (repeat [0; 3; 1; 2; 0; 1]%nat 20)) (op_pool sample_kernel sample_ops).

Lemma counters_exact_witness :
  (λ k, counted k (sh_stats (fst sample_op_end))) <$>
    [CountAffinity; CountBoost; CountReset; CountKswapd] = [2; 1; 0; 0].
Proof.
  assert (finishedb sample_op_end = true) as Hf by (vm_compute; reflexivity).
  pose proof (counters_exact sample_kernel sample_ops sample_op_end
    ltac:(intros []; cbn; unfold in_s; lia)
    (exec_able_sound axd_env _ _) (finishedb_sound _ Hf)) as Hk.
  cbn [fmap list_fmap]. rewrite !Hk. vm_compute. reflexivity.
Defined.
